(** * A shallow embedding of the blog CMS handlers

    The handlers of [server/src/handlers] (blog posts, users, auth, AdSense
    configuration) are written here as Rocq functions over an explicit model
    of the relational store declared in [server/src/db/schema.ts].

    Conventions.
    - A JavaScript [number] that holds an id, a count or a time is a [Z].
    - A JavaScript [string] is a [string]: a sequence of code units below 256,
      the domain on which [btoa] is defined (on any other string [btoa]
      throws, which the token check catches and answers with null).
    - [new Date()] and [Date.now()] read the clock; every handler takes the
      clock reading [now] (milliseconds) as an argument.
    - The store is a record of tables, each a list of rows in storage order.
      A handler that writes is a function [Db -> Db * outcome _]: the state is
      threaded through every statement and survives a thrown error, since the
      handlers use no transaction. *)

From Stdlib Require Import ZArith NArith List String Ascii Bool Lia Permutation.
Import ListNotations.

Local Open Scope string_scope.
Local Open Scope Z_scope.
Local Open Scope list_scope.

Set Implicit Arguments.

(** ** Rows of the schema ([server/src/db/schema.ts]) *)

Inductive Role := super_admin | author.
Inductive PostStatus := draft | published.

Definition PostStatus_eqb (a b : PostStatus) : bool :=
  match a, b with
  | draft, draft | published, published => true
  | _, _ => false
  end.

Record User := mkUser {
  user_id : Z;
  user_email : string;
  user_username : string;
  user_password_hash : string;
  user_first_name : string;
  user_last_name : string;
  user_role : Role;
  user_avatar_url : option string;
  user_bio : option string;
  user_is_active : bool;
  user_created_at : Z;
  user_updated_at : Z
}.

Record Category := mkCategory {
  category_id : Z;
  category_name : string;
  category_slug : string;
  category_description : option string;
  category_created_at : Z;
  category_updated_at : Z
}.

Record Tag := mkTag {
  tag_id : Z;
  tag_name : string;
  tag_slug : string;
  tag_created_at : Z;
  tag_updated_at : Z
}.

Record BlogPost := mkBlogPost {
  post_id : Z;
  post_title : string;
  post_slug : string;
  post_content : string;
  post_excerpt : option string;
  post_author_id : Z;
  post_featured_image_url : option string;
  post_status : PostStatus;
  post_published_at : option Z;
  post_created_at : Z;
  post_updated_at : Z
}.

(** The two join tables; each has the composite primary key
    (blog_post_id, category_id) resp. (blog_post_id, tag_id). *)
Record BlogPostCategory := mkBlogPostCategory {
  bpc_blog_post_id : Z;
  bpc_category_id : Z
}.

Record BlogPostTag := mkBlogPostTag {
  bpt_blog_post_id : Z;
  bpt_tag_id : Z
}.

Record AdSenseConfig := mkAdSenseConfig {
  adsense_id : Z;
  adsense_publisher_id : string;
  adsense_ad_slot_header : option string;
  adsense_ad_slot_sidebar : option string;
  adsense_ad_slot_footer : option string;
  adsense_ad_slot_in_content : option string;
  adsense_is_enabled : bool;
  adsense_created_at : Z;
  adsense_updated_at : Z
}.

(** ** The store *)

Record Db := mkDb {
  usersTable : list User;
  categoriesTable : list Category;
  tagsTable : list Tag;
  blogPostsTable : list BlogPost;
  blogPostCategoriesTable : list BlogPostCategory;
  blogPostTagsTable : list BlogPostTag;
  adSenseConfigTable : list AdSenseConfig;
  (** last value handed out by the [serial] sequence of blog_posts.id *)
  blog_posts_id_seq : Z
}.

Definition with_blogPosts (db : Db) (rows : list BlogPost) : Db :=
  mkDb (usersTable db) (categoriesTable db) (tagsTable db) rows
       (blogPostCategoriesTable db) (blogPostTagsTable db)
       (adSenseConfigTable db) (blog_posts_id_seq db).

Definition with_blog_posts_id_seq (db : Db) (n : Z) : Db :=
  mkDb (usersTable db) (categoriesTable db) (tagsTable db) (blogPostsTable db)
       (blogPostCategoriesTable db) (blogPostTagsTable db)
       (adSenseConfigTable db) n.

Definition with_blogPostCategories (db : Db) (rows : list BlogPostCategory) : Db :=
  mkDb (usersTable db) (categoriesTable db) (tagsTable db) (blogPostsTable db)
       rows (blogPostTagsTable db) (adSenseConfigTable db) (blog_posts_id_seq db).

Definition with_blogPostTags (db : Db) (rows : list BlogPostTag) : Db :=
  mkDb (usersTable db) (categoriesTable db) (tagsTable db) (blogPostsTable db)
       (blogPostCategoriesTable db) rows (adSenseConfigTable db)
       (blog_posts_id_seq db).

(** ** Outcomes and the handler monad *)

(** What a handler can throw: an [Error] object built by the handler itself,
    carrying its message, or a failure reported by the store (a violated
    constraint). *)
Inductive exn :=
| JsError (message : string)
| StoreError (constraint : string).

Inductive outcome (A : Type) :=
| Returned (a : A)
| Thrown (e : exn).

Arguments Returned {A} a.
Arguments Thrown {A} e.

Definition Handler (A : Type) : Type := Db -> Db * outcome A.

Definition ret {A} (a : A) : Handler A := fun db => (db, Returned a).

Definition throw {A} (e : exn) : Handler A := fun db => (db, Thrown e).

Definition bind {A B} (m : Handler A) (k : A -> Handler B) : Handler B :=
  fun db =>
    match m db with
    | (db', Returned a) => k a db'
    | (db', Thrown e) => (db', Thrown e)
    end.

Notation "x <- m ;; k" := (bind m (fun x => k))
  (at level 61, m at next level, right associativity).
Notation "m ;;; k" := (bind m (fun _ => k))
  (at level 61, right associativity).

(** [if (c) { body }] with no else branch. *)
Definition when (c : bool) (body : Handler unit) : Handler unit :=
  if c then body else ret tt.

(** ** Integer columns

    Every id column of the schema is [serial] or [integer], a 32-bit signed
    integer.  The input schemas take an id as any number, so a handler can
    send the store a value outside that range; the store then refuses the
    statement with SQLSTATE 22003 (numeric value out of range).  The
    handlers that throw are modelled with this refusal.  The read-only
    lookups by id that return a row or null are functions of the store:
    they give what the store returns for an id inside the range.

    ** Row order

    A table is the list of its rows, in one order the store may return them
    in.  The store fixes the order of a result through [orderBy] alone: the
    order of the rows of a join, the order of rows with equal sort keys and
    the place an updated row takes among the rows of its table are those of
    this model, and what is proved of such results is stated up to
    [Permutation] or for distinct sort keys. *)

Definition int4 (value : Z) : bool :=
  (-2147483648 <=? value) && (value <=? 2147483647).

Definition OUT_OF_RANGE : string := "22003".

(** ** Query building (the part of drizzle-orm the handlers use) *)

Section Query.
Variable R : Type.

(** [eq(column, value)] on an integer column. *)
Definition eq_ (column : R -> Z) (value : Z) : R -> bool :=
  fun r => Z.eqb (column r) value.

(** [or(...conditions)]: [undefined] when no condition is given, otherwise
    the disjunction. *)
Definition or_ (conditions : list (R -> bool)) : option (R -> bool) :=
  match conditions with
  | [] => None
  | _ => Some (fun r => existsb (fun c => c r) conditions)
  end.

(** [and(...conditions)]. *)
Definition and_ (conditions : list (R -> bool)) : option (R -> bool) :=
  match conditions with
  | [] => None
  | _ => Some (fun r => forallb (fun c => c r) conditions)
  end.

(** Rows kept by [.where(w)]; [.where(undefined)] adds no clause and keeps
    every row. *)
Definition rows_where (w : option (R -> bool)) (rows : list R) : list R :=
  match w with
  | None => rows
  | Some p => filter p rows
  end.

(** A [where] clause of a statement a handler sends: the condition on a row,
    with the values the clause compares with [serial] and [integer] columns.
    The store reads each of these values as a 32-bit integer. *)
Record Where := mkWhere {
  where_test : option (R -> bool);
  where_int4 : list Z
}.

(** [.where(eq(column, value))] on an id column. *)
Definition where_eq (column : R -> Z) (value : Z) : Where :=
  mkWhere (Some (eq_ column value)) [value].

(** [.where(or(...ids.map(id => eq(column, id))))] on an id column. *)
Definition where_any (column : R -> Z) (ids : list Z) : Where :=
  mkWhere (or_ (map (fun id => eq_ column id) ids)) ids.

(** [db.select().from(table).where(w).execute()]: the store refuses the
    statement, whatever rows the table holds, when a value compared with an
    id column is outside the range of the column's type. *)
Definition select_from (table : Db -> list R) (w : Where) : Handler (list R) :=
  fun db =>
    if forallb int4 (where_int4 w) then
      (db, Returned (rows_where (where_test w) (table db)))
    else (db, Thrown (StoreError OUT_OF_RANGE)).
End Query.

Definition mem_Z (x : Z) (l : list Z) : bool := existsb (Z.eqb x) l.

Definition string_mem (x : string) (l : list string) : bool :=
  existsb (String.eqb x) l.

Fixpoint nodupb {A} (eqb : A -> A -> bool) (l : list A) : bool :=
  match l with
  | [] => true
  | x :: r => negb (existsb (eqb x) r) && nodupb eqb r
  end.

(** ** Statements that write (constraints as declared in the schema) *)

(** The values of [db.insert(blogPostsTable).values({...})]: every column but
    the serial [id] and the two [defaultNow()] timestamps. *)
Record NewBlogPost := mkNewBlogPost {
  new_title : string;
  new_slug : string;
  new_content : string;
  new_excerpt : option string;
  new_author_id : Z;
  new_featured_image_url : option string;
  new_status : PostStatus;
  new_published_at : option Z
}.

(** [db.insert(blogPostsTable).values(v).returning().execute()].
    The sequence advances whether or not the row is accepted; the row is
    refused on a taken id, a taken slug (unique) or a missing author (foreign
    key). *)
Definition insert_blogPost (now : Z) (v : NewBlogPost) : Handler (list BlogPost) :=
  fun db =>
    let id := blog_posts_id_seq db + 1 in
    let db1 := with_blog_posts_id_seq db id in
    if existsb (fun p => Z.eqb (post_id p) id) (blogPostsTable db) then
      (db1, Thrown (StoreError "blog_posts_pkey"))
    else if existsb (fun p => String.eqb (post_slug p) (new_slug v)) (blogPostsTable db) then
      (db1, Thrown (StoreError "blog_posts_slug_unique"))
    else if negb (existsb (fun u => Z.eqb (user_id u) (new_author_id v)) (usersTable db)) then
      (db1, Thrown (StoreError "blog_posts_author_id_fkey"))
    else
      let row := mkBlogPost id (new_title v) (new_slug v) (new_content v)
                   (new_excerpt v) (new_author_id v) (new_featured_image_url v)
                   (new_status v) (new_published_at v) now now in
      (with_blogPosts db1 (blogPostsTable db ++ [row]), Returned [row]).

Definition BlogPostCategory_eqb (a b : BlogPostCategory) : bool :=
  Z.eqb (bpc_blog_post_id a) (bpc_blog_post_id b)
  && Z.eqb (bpc_category_id a) (bpc_category_id b).

Definition BlogPostTag_eqb (a b : BlogPostTag) : bool :=
  Z.eqb (bpt_blog_post_id a) (bpt_blog_post_id b)
  && Z.eqb (bpt_tag_id a) (bpt_tag_id b).

(** [db.insert(blogPostCategoriesTable).values(rows).execute()]: one
    statement, so all rows are stored or none.  drizzle refuses an empty
    [values] array; the store refuses a row whose post or category is missing
    and a repeated (blog_post_id, category_id) pair. *)
Definition insert_blogPostCategories (rows : list BlogPostCategory) : Handler unit :=
  fun db =>
    match rows with
    | [] => (db, Thrown (JsError "values() must be called with at least one value"))
    | _ =>
      if negb (forallb (fun r => existsb (fun p => Z.eqb (post_id p) (bpc_blog_post_id r))
                                         (blogPostsTable db)) rows) then
        (db, Thrown (StoreError "blog_post_categories_blog_post_id_fkey"))
      else if negb (forallb (fun r => existsb (fun c => Z.eqb (category_id c) (bpc_category_id r))
                                              (categoriesTable db)) rows) then
        (db, Thrown (StoreError "blog_post_categories_category_id_fkey"))
      else if negb (nodupb BlogPostCategory_eqb (blogPostCategoriesTable db ++ rows)) then
        (db, Thrown (StoreError "blog_post_categories_pkey"))
      else
        (with_blogPostCategories db (blogPostCategoriesTable db ++ rows), Returned tt)
    end.

(** [db.insert(blogPostTagsTable).values(rows).execute()] *)
Definition insert_blogPostTags (rows : list BlogPostTag) : Handler unit :=
  fun db =>
    match rows with
    | [] => (db, Thrown (JsError "values() must be called with at least one value"))
    | _ =>
      if negb (forallb (fun r => existsb (fun p => Z.eqb (post_id p) (bpt_blog_post_id r))
                                         (blogPostsTable db)) rows) then
        (db, Thrown (StoreError "blog_post_tags_blog_post_id_fkey"))
      else if negb (forallb (fun r => existsb (fun t => Z.eqb (tag_id t) (bpt_tag_id r))
                                              (tagsTable db)) rows) then
        (db, Thrown (StoreError "blog_post_tags_tag_id_fkey"))
      else if negb (nodupb BlogPostTag_eqb (blogPostTagsTable db ++ rows)) then
        (db, Thrown (StoreError "blog_post_tags_pkey"))
      else
        (with_blogPostTags db (blogPostTagsTable db ++ rows), Returned tt)
    end.

(** [db.delete(blogPostCategoriesTable).where(eq(blog_post_id, id)).execute()] *)
Definition delete_blogPostCategories (id : Z) : Handler unit :=
  fun db =>
    (with_blogPostCategories db
       (filter (fun r => negb (Z.eqb (bpc_blog_post_id r) id)) (blogPostCategoriesTable db)),
     Returned tt).

(** [db.delete(blogPostTagsTable).where(eq(blog_post_id, id)).execute()] *)
Definition delete_blogPostTags (id : Z) : Handler unit :=
  fun db =>
    (with_blogPostTags db
       (filter (fun r => negb (Z.eqb (bpt_blog_post_id r) id)) (blogPostTagsTable db)),
     Returned tt).

(** [db.delete(blogPostsTable).where(eq(id, postId)).execute()]: the rows of
    both join tables that reference the post go with it ([onDelete: 'cascade']). *)
Definition delete_blogPost (id : Z) : Handler unit :=
  fun db =>
    let db1 := with_blogPosts db
                 (filter (fun p => negb (Z.eqb (post_id p) id)) (blogPostsTable db)) in
    let db2 := with_blogPostCategories db1
                 (filter (fun r => negb (Z.eqb (bpc_blog_post_id r) id))
                         (blogPostCategoriesTable db1)) in
    (with_blogPostTags db2
       (filter (fun r => negb (Z.eqb (bpt_blog_post_id r) id)) (blogPostTagsTable db2)),
     Returned tt).

(** The object [updateValues] of [updateBlogPost]: a column is written only
    when its key is present. *)
Record BlogPostUpdate := mkBlogPostUpdate {
  set_title : option string;
  set_slug : option string;
  set_content : option string;
  set_excerpt : option (option string);
  set_featured_image_url : option (option string);
  set_status : option PostStatus;
  set_published_at : option (option Z);
  set_updated_at : option Z
}.

Definition or_else {A} (o : option A) (d : A) : A :=
  match o with Some a => a | None => d end.

Definition apply_update (u : BlogPostUpdate) (p : BlogPost) : BlogPost :=
  mkBlogPost (post_id p)
    (or_else (set_title u) (post_title p))
    (or_else (set_slug u) (post_slug p))
    (or_else (set_content u) (post_content p))
    (or_else (set_excerpt u) (post_excerpt p))
    (post_author_id p)
    (or_else (set_featured_image_url u) (post_featured_image_url p))
    (or_else (set_status u) (post_status p))
    (or_else (set_published_at u) (post_published_at p))
    (post_created_at p)
    (or_else (set_updated_at u) (post_updated_at p)).

(** [db.update(blogPostsTable).set(u).where(eq(id, target)).returning().execute()]:
    refused when the table would hold a slug twice.  The handlers run this
    statement, and the three deletions above, after the store has accepted a
    lookup with the same id. *)
Definition update_blogPost (u : BlogPostUpdate) (target : Z) : Handler (list BlogPost) :=
  fun db =>
    let rows := map (fun p => if Z.eqb (post_id p) target then apply_update u p else p)
                    (blogPostsTable db) in
    if nodupb String.eqb (map post_slug rows) then
      (with_blogPosts db rows,
       Returned (filter (fun p => Z.eqb (post_id p) target) rows))
    else (db, Thrown (StoreError "blog_posts_slug_unique")).

(** ** Blog post handlers ([server/src/handlers], blog posts) *)

Record CreateBlogPostInput := mkCreateBlogPostInput {
  cbp_title : string;
  cbp_slug : string;
  cbp_content : string;
  (** [string | null | undefined]; [None] stands for both null and undefined,
      which [input.excerpt || null] does not tell apart *)
  cbp_excerpt : option string;
  cbp_featured_image_url : option string;
  cbp_status : PostStatus;
  cbp_category_ids : list Z;
  (** optional: [None] is [undefined] *)
  cbp_tag_ids : option (list Z)
}.

Record UpdateBlogPostInput := mkUpdateBlogPostInput {
  ubp_id : Z;
  ubp_title : option string;
  ubp_slug : option string;
  ubp_content : option string;
  (** outer [None] is [undefined]; [Some None] is [null] *)
  ubp_excerpt : option (option string);
  ubp_featured_image_url : option (option string);
  ubp_status : option PostStatus;
  ubp_category_ids : option (list Z);
  ubp_tag_ids : option (list Z)
}.

(** [x || null] on [string | null | undefined]: the empty string is falsy. *)
Definition or_null (x : option string) : option string :=
  match x with
  | Some EmptyString => None
  | _ => x
  end.

(** [ids && ids.length > 0] *)
Definition given_nonempty (ids : option (list Z)) : bool :=
  match ids with
  | Some l => (0 <? Z.of_nat (List.length l))
  | None => false
  end.

Definition CATEGORIES_NOT_FOUND : string := "One or more categories not found".
Definition TAGS_NOT_FOUND : string := "One or more tags not found".

Definition createBlogPost (now : Z) (input : CreateBlogPostInput) (authorId : Z)
  : Handler BlogPost :=
  (* Verify author exists *)
  author <- select_from usersTable (where_eq user_id authorId) ;;
  when (Nat.eqb (List.length author) 0) (throw (JsError "Author not found")) ;;;
  (* Verify categories exist *)
  categories <- select_from categoriesTable
                  (where_any category_id (cbp_category_ids input)) ;;
  when (negb (Nat.eqb (List.length categories) (List.length (cbp_category_ids input))))
       (throw (JsError CATEGORIES_NOT_FOUND)) ;;;
  (* Verify tags exist if provided *)
  when (given_nonempty (cbp_tag_ids input))
       (tags <- select_from tagsTable
                  (where_any tag_id (or_else (cbp_tag_ids input) [])) ;;
        when (negb (Nat.eqb (List.length tags) (List.length (or_else (cbp_tag_ids input) []))))
             (throw (JsError TAGS_NOT_FOUND))) ;;;
  (* Create blog post *)
  let publishedAt := if PostStatus_eqb (cbp_status input) published then Some now else None in
  result <- insert_blogPost now
              (mkNewBlogPost (cbp_title input) (cbp_slug input) (cbp_content input)
                 (or_null (cbp_excerpt input)) authorId
                 (or_null (cbp_featured_image_url input))
                 (cbp_status input) publishedAt) ;;
  match result with
  | [] => throw (JsError "TypeError: undefined is not an object")
  | blogPost :: _ =>
    (* Create category associations *)
    when (0 <? Z.of_nat (List.length (cbp_category_ids input)))
         (insert_blogPostCategories
            (map (fun categoryId => mkBlogPostCategory (post_id blogPost) categoryId)
                 (cbp_category_ids input))) ;;;
    (* Create tag associations *)
    when (given_nonempty (cbp_tag_ids input))
         (insert_blogPostTags
            (map (fun tagId => mkBlogPostTag (post_id blogPost) tagId)
                 (or_else (cbp_tag_ids input) []))) ;;;
    ret blogPost
  end.

Definition updateBlogPost (now : Z) (input : UpdateBlogPostInput)
    (currentUserId : Z) (currentUserRole : string) : Handler (option BlogPost) :=
  (* Get existing blog post *)
  existingPost <- select_from blogPostsTable (where_eq post_id (ubp_id input)) ;;
  match existingPost with
  | [] => throw (JsError "Blog post not found")
  | post :: _ =>
    (* Check permissions *)
    when (negb (String.eqb currentUserRole "super_admin")
          && negb (Z.eqb (post_author_id post) currentUserId))
         (throw (JsError "Permission denied: can only update your own posts")) ;;;
    (* Verify categories exist if provided *)
    when (given_nonempty (ubp_category_ids input))
         (categories <- select_from categoriesTable
                          (where_any category_id (or_else (ubp_category_ids input) [])) ;;
          when (negb (Nat.eqb (List.length categories)
                              (List.length (or_else (ubp_category_ids input) []))))
               (throw (JsError CATEGORIES_NOT_FOUND))) ;;;
    (* Verify tags exist if provided *)
    when (given_nonempty (ubp_tag_ids input))
         (tags <- select_from tagsTable
                    (where_any tag_id (or_else (ubp_tag_ids input) [])) ;;
          when (negb (Nat.eqb (List.length tags) (List.length (or_else (ubp_tag_ids input) []))))
               (throw (JsError TAGS_NOT_FOUND))) ;;;
    (* Determine published_at timestamp *)
    let publishedAt :=
      match ubp_status input, post_status post with
      | Some published, draft => Some now
      | Some draft, _ => None
      | _, _ => post_published_at post
      end in
    (* Build update values *)
    let updateValues :=
      mkBlogPostUpdate (ubp_title input) (ubp_slug input) (ubp_content input)
        (ubp_excerpt input) (ubp_featured_image_url input)
        (ubp_status input)
        (match ubp_status input with Some _ => Some publishedAt | None => None end)
        (Some now) in
    (* Update blog post *)
    result <- update_blogPost updateValues (ubp_id input) ;;
    (* Update category associations if provided *)
    match ubp_category_ids input with
    | Some category_ids =>
      delete_blogPostCategories (ubp_id input) ;;;
      when (0 <? Z.of_nat (List.length category_ids))
           (insert_blogPostCategories
              (map (fun categoryId => mkBlogPostCategory (ubp_id input) categoryId)
                   category_ids))
    | None => ret tt
    end ;;;
    (* Update tag associations if provided *)
    match ubp_tag_ids input with
    | Some tag_ids =>
      delete_blogPostTags (ubp_id input) ;;;
      when (0 <? Z.of_nat (List.length tag_ids))
           (insert_blogPostTags
              (map (fun tagId => mkBlogPostTag (ubp_id input) tagId) tag_ids))
    | None => ret tt
    end ;;;
    ret (hd_error result)
  end.

Definition deleteBlogPost (postId : Z) (currentUserId : Z) (currentUserRole : string)
  : Handler bool :=
  (* Get existing blog post *)
  existingPost <- select_from blogPostsTable (where_eq post_id postId) ;;
  match existingPost with
  | [] => throw (JsError "Blog post not found")
  | post :: _ =>
    (* Check permissions *)
    when (negb (String.eqb currentUserRole "super_admin")
          && negb (Z.eqb (post_author_id post) currentUserId))
         (throw (JsError "Permission denied: can only delete your own posts")) ;;;
    delete_blogPost postId ;;;
    ret true
  end.

(** ** Pagination ([paginationInputSchema]) and the users listing *)

Record PaginationInput := mkPaginationInput {
  pg_page : Z;
  pg_limit : Z
}.

Record Page (A : Type) := mkPage {
  items : list A;
  total : Z;
  page : Z;
  limit : Z;
  totalPages : Z
}.

(** [.limit(l).offset(o)] on rows in storage order.  The input schema makes
    [page] and [limit] positive integers, so both arguments are natural
    numbers whenever a handler runs. *)
Definition limit_offset {A} (l o : Z) (rows : list A) : list A :=
  firstn (Z.to_nat l) (skipn (Z.to_nat o) rows).

(** [Math.ceil(a / b)] for a count [a] and a positive [b]. *)
Definition Math_ceil_div (a b : Z) : Z := - ((- a) / b).

Definition getUsers (input : PaginationInput) (db : Db) : Page User :=
  let offset := (pg_page input - 1) * pg_limit input in
  (* Get total count *)
  let totalResult := map user_id (rows_where None (usersTable db)) in
  let total := Z.of_nat (List.length totalResult) in
  (* Get paginated users *)
  let users := limit_offset (pg_limit input) offset (rows_where None (usersTable db)) in
  let totalPages := Math_ceil_div total (pg_limit input) in
  mkPage users total (pg_page input) (pg_limit input) totalPages.

(** ** JavaScript values and objects

    Rows leave the handlers as plain objects, and two handlers build their
    result by dropping or picking keys; a value is therefore modelled with its
    keys.  Properties are kept in insertion order.  A number is an integer:
    the handlers read and write ids, counts and times only. *)

Local Unset Elimination Schemes.
Inductive jsval :=
| JNull
| JBool (b : bool)
| JNum (n : Z)
| JStr (s : string)
| JDate (ms : Z)
| JArr (elements : list jsval)
| JObj (properties : list (string * jsval)).
Local Set Elimination Schemes.

Definition object : Type := list (string * jsval).

Fixpoint obj_get (key : string) (o : object) : option jsval :=
  match o with
  | [] => None
  | (k, v) :: r => if String.eqb k key then Some v else obj_get key r
  end.

Definition obj_keys (o : object) : list string := map fst o.

(** The rest object of [const { key, ...rest } = o]. *)
Definition obj_rest (key : string) (o : object) : object :=
  filter (fun kv => negb (String.eqb (fst kv) key)) o.

Definition nullable (s : option string) : jsval :=
  match s with Some x => JStr x | None => JNull end.

Definition Role_string (r : Role) : string :=
  match r with super_admin => "super_admin" | author => "author" end.

(** A row of [usersTable] as drizzle returns it: one property per column. *)
Definition User_object (u : User) : object :=
  [ ("id", JNum (user_id u));
    ("email", JStr (user_email u));
    ("username", JStr (user_username u));
    ("password_hash", JStr (user_password_hash u));
    ("first_name", JStr (user_first_name u));
    ("last_name", JStr (user_last_name u));
    ("role", JStr (Role_string (user_role u)));
    ("avatar_url", nullable (user_avatar_url u));
    ("bio", nullable (user_bio u));
    ("is_active", JBool (user_is_active u));
    ("created_at", JDate (user_created_at u));
    ("updated_at", JDate (user_updated_at u)) ].

(** A row of [adSenseConfigTable] as drizzle returns it. *)
Definition AdSenseConfig_object (c : AdSenseConfig) : object :=
  [ ("id", JNum (adsense_id c));
    ("publisher_id", JStr (adsense_publisher_id c));
    ("ad_slot_header", nullable (adsense_ad_slot_header c));
    ("ad_slot_sidebar", nullable (adsense_ad_slot_sidebar c));
    ("ad_slot_footer", nullable (adsense_ad_slot_footer c));
    ("ad_slot_in_content", nullable (adsense_ad_slot_in_content c));
    ("is_enabled", JBool (adsense_is_enabled c));
    ("created_at", JDate (adsense_created_at c));
    ("updated_at", JDate (adsense_updated_at c)) ].

(** ** AdSense configuration handlers *)

(** Returns the row itself ([results[0]]) or null. *)
Definition getAdSenseConfig (db : Db) : option AdSenseConfig :=
  let results := limit_offset 1 0 (rows_where None (adSenseConfigTable db)) in
  match results with
  | [] => None
  | config :: _ => Some config
  end.

Definition getPublicAdSenseConfig (db : Db) : option object :=
  match getAdSenseConfig db with
  | None => None
  | Some config =>
    (* Return only public fields, excluding sensitive publisher_id *)
    Some [ ("ad_slot_header", nullable (adsense_ad_slot_header config));
           ("ad_slot_sidebar", nullable (adsense_ad_slot_sidebar config));
           ("ad_slot_footer", nullable (adsense_ad_slot_footer config));
           ("ad_slot_in_content", nullable (adsense_ad_slot_in_content config));
           ("is_enabled", JBool (adsense_is_enabled config)) ]
  end.

(** ** Pattern matching of the store: LIKE and ILIKE

    In a LIKE pattern [%] stands for any sequence of characters, [_] for any
    single character, and the escape character [\] makes the character after
    it stand for itself.  ILIKE is LIKE with case folded on both sides; case
    folding is modelled on the ASCII letters. *)

Definition percent : ascii := "%"%char.
Definition underscore : ascii := "_"%char.
Definition backslash : ascii := "\"%char.

Definition to_lower (c : ascii) : ascii :=
  let n := nat_of_ascii c in
  if (Nat.leb 65 n && Nat.leb n 90)%bool then ascii_of_nat (n + 32) else c.

Fixpoint lower (s : string) : string :=
  match s with
  | EmptyString => EmptyString
  | String c r => String (to_lower c) (lower r)
  end.

(** [like p s]: does the text [s] match the pattern [p]?  A pattern that ends
    in a lone escape character is an error in the store; it matches nothing
    here, and no pattern built by the handlers ends that way (they all end in
    the [%] they append). *)
Fixpoint like (p s : string) {struct p} : bool :=
  match p with
  | EmptyString =>
    match s with EmptyString => true | String _ _ => false end
  | String c p' =>
    if Ascii.eqb c percent then
      (fix from (t : string) : bool :=
         like p' t ||
         match t with
         | EmptyString => false
         | String _ t' => from t'
         end) s
    else if Ascii.eqb c underscore then
      match s with
      | EmptyString => false
      | String _ s' => like p' s'
      end
    else if Ascii.eqb c backslash then
      match p' with
      | EmptyString => false
      | String e p'' =>
        match s with
        | EmptyString => false
        | String d s' => Ascii.eqb e d && like p'' s'
        end
      end
    else
      match s with
      | EmptyString => false
      | String d s' => Ascii.eqb c d && like p' s'
      end
  end.

(** [ilike(column, pattern)]; a NULL column yields NULL, which a WHERE clause
    made of AND and OR treats as false. *)
Definition ilike (column : string) (pattern : string) : bool :=
  like (lower pattern) (lower column).

Definition ilike_nullable (column : option string) (pattern : string) : bool :=
  match column with
  | Some s => ilike s pattern
  | None => false
  end.

(** ** The blog post listing *)

Record BlogPostsQueryInput := mkBlogPostsQueryInput {
  q_page : Z;
  q_limit : Z;
  q_status : option PostStatus;
  q_category_id : option Z;
  q_tag_id : option Z;
  q_author_id : option Z;
  q_search : option string
}.

Record BlogPostWithRelations := mkBlogPostWithRelations {
  wr_post : BlogPost;
  wr_author : User;
  wr_categories : list Category;
  wr_tags : list Tag
}.

(** Truthiness of an optional number and of an optional string: [undefined],
    [0] and the empty string are falsy. *)
Definition truthy_num (x : option Z) : option Z :=
  match x with
  | Some n => if n =? 0 then None else Some n
  | None => None
  end.

Definition truthy_str (x : option string) : option string :=
  match x with
  | Some EmptyString => None
  | _ => x
  end.

(** The condition pushed for [input.search]:
    [or(ilike(title, p), ilike(content, p), ilike(excerpt, p))] with
    [p = `%${search}%`]. *)
Definition search_condition (search : string) : BlogPost -> bool :=
  let pattern := ("%" ++ search ++ "%")%string in
  fun post =>
    ilike (post_title post) pattern
    || ilike (post_content post) pattern
    || ilike_nullable (post_excerpt post) pattern.

Definition opt_list {A} (o : option A) : list A :=
  match o with Some a => [a] | None => [] end.

(** The array [conditions] before the id filter is added. *)
Definition main_conditions (input : BlogPostsQueryInput) : list (BlogPost -> bool) :=
  opt_list (option_map (fun st post => PostStatus_eqb (post_status post) st) (q_status input))
  ++ opt_list (option_map (fun a => eq_ post_author_id a) (truthy_num (q_author_id input)))
  ++ opt_list (option_map search_condition (truthy_str (q_search input))).

(** [filteredPostIds] after the category and the tag lookups. *)
Definition filteredPostIds (input : BlogPostsQueryInput) (db : Db) : option (list Z) :=
  let byCategory :=
    match truthy_num (q_category_id input) with
    | Some c =>
      Some (map bpc_blog_post_id
              (rows_where (Some (eq_ bpc_category_id c)) (blogPostCategoriesTable db)))
    | None => None
    end in
  match truthy_num (q_tag_id input) with
  | Some t =>
    let tagPostIds :=
      map bpt_blog_post_id (rows_where (Some (eq_ bpt_tag_id t)) (blogPostTagsTable db)) in
    match byCategory with
    | Some ids => Some (filter (fun id => mem_Z id tagPostIds) ids)
    | None => Some tagPostIds
    end
  | None => byCategory
  end.

(** [conditions.length === 1 ? conditions[0] : and(...conditions)], and no
    WHERE clause at all when [conditions] is empty. *)
Definition where_all {R} (conditions : list (R -> bool)) : option (R -> bool) :=
  match conditions with
  | [c] => Some c
  | _ => and_ conditions
  end.

(** [.innerJoin(right, eq(key, right.id))] *)
Definition innerJoin {L R} (left : list L) (right : list R) (on : L -> R -> bool)
  : list (L * R) :=
  flat_map (fun l => map (fun r => (l, r)) (filter (on l) right)) left.

Fixpoint insert_desc {R} (key : R -> Z) (x : R) (sorted : list R) : list R :=
  match sorted with
  | [] => [x]
  | y :: r => if key x <? key y then y :: insert_desc key x r else x :: sorted
  end.

(** [.orderBy(desc(column))]; rows with equal keys keep their storage order. *)
Definition orderBy_desc {R} (key : R -> Z) (rows : list R) : list R :=
  fold_right (insert_desc key) [] rows.

Definition getBlogPosts (input : BlogPostsQueryInput) (db : Db)
  : Page BlogPostWithRelations :=
  let conditions0 := main_conditions input in
  let filtered := filteredPostIds input db in
  match filtered with
  | Some [] =>
    (* If filtered by category/tag and no posts found, return empty result *)
    mkPage [] 0 (q_page input) (q_limit input) 0
  | _ =>
    (* Add post ID filter if we have filtered results *)
    let conditions :=
      conditions0 ++
      match filtered with
      | Some ids => opt_list (or_ (map (fun id => eq_ post_id id) ids))
      | None => []
      end in
    let offset := (q_page input - 1) * q_limit input in
    let baseQuery :=
      innerJoin (blogPostsTable db) (usersTable db)
                (fun p u => Z.eqb (post_author_id p) (user_id u)) in
    let results :=
      limit_offset (q_limit input) offset
        (orderBy_desc (fun r => post_created_at (fst r))
           (rows_where (where_all (map (fun c r => c (fst r)) conditions)) baseQuery)) in
    (* Get post IDs for fetching relations *)
    let postIds := map (fun r => post_id (fst r)) results in
    let postCategories :=
      if (0 <? Z.of_nat (List.length postIds))%Z then
        rows_where (or_ (map (fun id r => Z.eqb (bpc_blog_post_id (fst r)) id) postIds))
          (innerJoin (blogPostCategoriesTable db) (categoriesTable db)
                     (fun pc c => Z.eqb (bpc_category_id pc) (category_id c)))
      else [] in
    let postTags :=
      if (0 <? Z.of_nat (List.length postIds))%Z then
        rows_where (or_ (map (fun id r => Z.eqb (bpt_blog_post_id (fst r)) id) postIds))
          (innerJoin (blogPostTagsTable db) (tagsTable db)
                     (fun pt t => Z.eqb (bpt_tag_id pt) (tag_id t)))
      else [] in
    (* Build the response items *)
    let items :=
      map (fun result =>
             let post := fst result in
             let author := snd result in
             mkBlogPostWithRelations post author
               (map snd (filter (fun pc => Z.eqb (bpc_blog_post_id (fst pc)) (post_id post))
                                postCategories))
               (map snd (filter (fun pt => Z.eqb (bpt_blog_post_id (fst pt)) (post_id post))
                                postTags)))
          results in
    (* Get total count *)
    let total := Z.of_nat (List.length (rows_where (where_all conditions) (blogPostsTable db))) in
    let totalPages := Math_ceil_div total (q_limit input) in
    mkPage items total (q_page input) (q_limit input) totalPages
  end.

(** [getBlogPosts] with [author_id] forced to the caller's id. *)
Definition getMyBlogPosts (authorId : Z) (input : BlogPostsQueryInput) (db : Db)
  : Page BlogPostWithRelations :=
  getBlogPosts
    (mkBlogPostsQueryInput (q_page input) (q_limit input) (q_status input)
       (q_category_id input) (q_tag_id input) (Some authorId) (q_search input))
    db.

(** ** Strings: split, base64 *)

Definition dot : ascii := "."%char.
Definition equals_sign : ascii := "="%char.

(** [s.split(sep)] for a one-character separator. *)
Fixpoint split (sep : ascii) (s : string) : list string :=
  match s with
  | EmptyString => [EmptyString]
  | String c r =>
    if Ascii.eqb c sep then EmptyString :: split sep r
    else match split sep r with
         | h :: t => String c h :: t
         | [] => [String c EmptyString]
         end
  end.

(** [s.replace(/=/g, '')] *)
Fixpoint strip_equals (s : string) : string :=
  match s with
  | EmptyString => EmptyString
  | String c r => if Ascii.eqb c equals_sign then strip_equals r else String c (strip_equals r)
  end.

Definition b64_alphabet : string :=
  "ABCDEFGHIJKLMNOPQRSTUVWXYZabcdefghijklmnopqrstuvwxyz0123456789+/".

(** The character of a 6-bit group. *)
Definition b64_char (n : N) : ascii :=
  match String.get (N.to_nat n) b64_alphabet with
  | Some c => c
  | None => equals_sign
  end.

(** [btoa(s)]: three characters give four, a last group of one or two
    characters is padded with [=]. *)
Fixpoint btoa (s : string) : string :=
  match s with
  | EmptyString => EmptyString
  | String a EmptyString =>
    let x := N_of_ascii a in
    String (b64_char (x / 4))
      (String (b64_char ((x mod 4) * 16)) "==")
  | String a (String b EmptyString) =>
    let x := N_of_ascii a in
    let y := N_of_ascii b in
    String (b64_char (x / 4))
      (String (b64_char ((x mod 4) * 16 + y / 16))
         (String (b64_char ((y mod 16) * 4)) "="))
  | String a (String b (String c r)) =>
    let x := N_of_ascii a in
    let y := N_of_ascii b in
    let z := N_of_ascii c in
    String (b64_char (x / 4))
      (String (b64_char ((x mod 4) * 16 + y / 16))
         (String (b64_char ((y mod 16) * 4 + z / 64))
            (String (b64_char (z mod 64)) (btoa r))))
  end%N.

(** ** The platform

    What the auth handlers take from the JavaScript runtime, the process
    environment and the store's parameter binding.  The handlers are written
    against this interface, and what is proved of them holds for every
    implementation of it. *)

Class Runtime := mkRuntime {
  (** lower-case hex of [crypto.subtle.digest('SHA-256', utf8(s))] *)
  sha256_hex : string -> string;
  (** [JSON.stringify] *)
  JSON_stringify : jsval -> string;
  (** [JSON.parse]; [None] when it throws *)
  JSON_parse : string -> option jsval;
  (** [atob]; [None] when it throws *)
  atob : string -> option string;
  (** [process.env['JWT_SECRET']] *)
  env_JWT_SECRET : option string;
  (** the number a string, an array or an object converts to in a comparison
      with a number; [None] is NaN *)
  ToNumber : jsval -> option Z;
  (** how the store reads a text parameter bound to an integer column;
      [None] when it refuses the text *)
  int4_in : string -> option Z
}.

(** ** Auth handlers ([server/src/handlers/auth.ts]) *)

Record LoginInput := mkLoginInput {
  li_email : string;
  li_password : string
}.

Record AuthResponse := mkAuthResponse {
  auth_user : object;
  auth_token : string
}.

(** The object returned by [verifyTokenSignature]; a property read from the
    payload may be [undefined] ([None]). *)
Record Decoded := mkDecoded {
  d_userId : option jsval;
  d_email : option jsval;
  d_role : option jsval
}.

Definition JWT_EXPIRES_IN_HOURS : Z := 24.

Definition INVALID_CREDENTIALS : string := "Invalid email or password".
Definition ACCOUNT_DEACTIVATED : string := "Account is deactivated".

(** [v.key] for the keys the handlers read ([exp], [userId], [email], [role]):
    reading a property of null throws (outer [None]); a value that is not an
    object has none of these keys (inner [None], undefined). *)
Definition get_property (v : jsval) (key : string) : option (option jsval) :=
  match v with
  | JNull => None
  | JObj properties => Some (obj_get key properties)
  | _ => Some None
  end.

(** Truthiness of a value that may be undefined. *)
Definition truthy (v : option jsval) : bool :=
  match v with
  | None => false
  | Some JNull => false
  | Some (JBool b) => b
  | Some (JNum n) => negb (n =? 0)
  | Some (JStr s) => negb (String.eqb s EmptyString)
  | Some _ => true
  end.

Section Auth.
Context {rt : Runtime}.

(** [process.env['JWT_SECRET'] || 'your-secret-key'] *)
Definition JWT_SECRET : string :=
  match truthy_str env_JWT_SECRET with
  | Some s => s
  | None => "your-secret-key"
  end.

Definition hashPassword (password : string) : string :=
  sha256_hex (password ++ "salt")%string.

Definition verifyPassword (password hash : string) : bool :=
  String.eqb (hashPassword password) hash.

(** The signature of [createToken] and [verifyTokenSignature]:
    [btoa(`${encodedHeader}.${encodedPayload}.${JWT_SECRET}`).replace(/=/g, '')] *)
Definition sign (encodedHeader encodedPayload : string) : string :=
  strip_equals (btoa (encodedHeader ++ "." ++ encodedPayload ++ "." ++ JWT_SECRET)%string).

Definition createToken (clock : Z) (userId : Z) (email role : string) : string :=
  let header := JObj [("alg", JStr "HS256"); ("typ", JStr "JWT")] in
  let now := clock / 1000 in
  let claims :=
    JObj [ ("userId", JNum userId); ("email", JStr email); ("role", JStr role);
           ("iat", JNum now); ("exp", JNum (now + JWT_EXPIRES_IN_HOURS * 60 * 60)) ] in
  let encodedHeader := strip_equals (btoa (JSON_stringify header)) in
  let encodedPayload := strip_equals (btoa (JSON_stringify claims)) in
  let signature := sign encodedHeader encodedPayload in
  (encodedHeader ++ "." ++ encodedPayload ++ "." ++ signature)%string.

(** [v < n] for a truthy value [v] and a number [n]. *)
Definition less_than (v : option jsval) (n : Z) : bool :=
  match v with
  | Some (JNum m) => m <? n
  | Some (JBool b) => (if b then 1 else 0) <? n
  | Some JNull => 0 <? n
  | Some (JDate ms) => ms <? n
  | Some w => match ToNumber w with Some m => m <? n | None => false end
  | None => false
  end.

(** Every exception inside the [try] makes the function return null. *)
Definition verifyTokenSignature (clock : Z) (token : string) : option Decoded :=
  match split dot token with
  | [encodedHeader; encodedPayload; signature] =>
    (* Verify signature *)
    let expectedSignature := sign encodedHeader encodedPayload in
    if negb (String.eqb signature expectedSignature) then None
    else
      (* Decode payload *)
      match atob encodedPayload with
      | None => None
      | Some text =>
        match JSON_parse text with
        | None => None
        | Some payload =>
          (* Check expiration *)
          let now := clock / 1000 in
          match get_property payload "exp" with
          | None => None
          | Some exp =>
            if truthy exp && less_than exp now then None
            else
              match get_property payload "userId",
                    get_property payload "email",
                    get_property payload "role" with
              | Some userId, Some email, Some role =>
                Some (mkDecoded userId email role)
              | _, _, _ => None
              end
          end
        end
      end
  | _ => None
  end.

Definition login (clock : Z) (input : LoginInput) (db : Db) : outcome AuthResponse :=
  (* Find user by email *)
  let users :=
    rows_where (Some (fun u => String.eqb (user_email u) (li_email input))) (usersTable db) in
  match users with
  | [] => Thrown (JsError INVALID_CREDENTIALS)
  | user :: _ =>
    (* Check if user is active *)
    if negb (user_is_active user) then Thrown (JsError ACCOUNT_DEACTIVATED)
    else
      (* Verify password *)
      let isValidPassword := verifyPassword (li_password input) (user_password_hash user) in
      if negb isValidPassword then Thrown (JsError INVALID_CREDENTIALS)
      else
        (* Generate JWT token *)
        let token :=
          createToken clock (user_id user) (user_email user) (Role_string (user_role user)) in
        (* Return user without password hash *)
        Returned (mkAuthResponse (obj_rest "password_hash" (User_object user)) token)
  end.

(** The integer the store compares [usersTable.id] with when the bound
    parameter is [v]: a number binds as itself, a string is read by the
    store, anything else (undefined, null, a boolean, an array, an object)
    selects no row or makes the query fail, which [verifyToken] catches. *)
Definition id_parameter (v : option jsval) : option Z :=
  match v with
  | Some (JNum n) => Some n
  | Some (JStr s) => int4_in s
  | _ => None
  end.

(** Returns null on every failure: the body is wrapped in a [try] whose
    handler returns null. *)
Definition verifyToken (clock : Z) (token : string) (db : Db) : option object :=
  (* Verify JWT token *)
  match verifyTokenSignature clock token with
  | None => None
  | Some decoded =>
    (* Fetch current user data from database *)
    match id_parameter (d_userId decoded) with
    | None => None
    | Some userId =>
      let users := rows_where (Some (eq_ user_id userId)) (usersTable db) in
      match users with
      | [] => None
      | user :: _ =>
        if negb (user_is_active user) then None
        else
          (* Return user without password hash *)
          Some (obj_rest "password_hash" (User_object user))
      end
    end
  end.

(** No filter on [is_active]. *)
Definition getCurrentUser (userId : Z) (db : Db) : option object :=
  let users := rows_where (Some (eq_ user_id userId)) (usersTable db) in
  match users with
  | [] => None
  | user :: _ => Some (obj_rest "password_hash" (User_object user))
  end.
End Auth.

(** ** Vocabulary of the specification *)

Definition user_exists (db : Db) (id : Z) : Prop :=
  exists u, In u (usersTable db) /\ user_id u = id.

Definition category_exists (db : Db) (id : Z) : Prop :=
  exists c, In c (categoriesTable db) /\ category_id c = id.

Definition tag_exists (db : Db) (id : Z) : Prop :=
  exists t, In t (tagsTable db) /\ tag_id t = id.

(** The primary keys of the tables that post writes refer to. *)
Definition primary_keys (db : Db) : Prop :=
  NoDup (map category_id (categoriesTable db))
  /\ NoDup (map tag_id (tagsTable db)).

(** The outcome of a call is the error carrying [message]. *)
Definition fails_with {A} (r : Db * outcome A) (message : string) : Prop :=
  snd r = Thrown (JsError message).

(** The disjunction [or(...ids.map(id => eq(column, id)))] as a predicate. *)
Definition by_ids {R} (key : R -> Z) (ids : list Z) : R -> bool :=
  fun r => existsb (fun c => c r) (map (fun id => eq_ key id) ids).

(** ** A sample store

    Four users (an author, a second author, a super admin and a deactivated
    author), two categories, two tags and two posts of the first author.
    Every user has the password [testpassword123]; the stored hash is the
    SHA-256 of [testpassword123salt] in hexadecimal. *)

Definition sample_user (id : Z) (name : string) (r : Role) (active : bool) : User :=
  mkUser id (name ++ "@example.com")%string name
         "63934a1f2c998a0e334e96f25af29ff1db94928fdd0fa086c769b6838f6cf8fd"
         name "Doe" r None None active 1000 1000.

Definition alice : User := sample_user 1 "alice" author true.
Definition bob : User := sample_user 2 "bob" author true.
Definition root : User := sample_user 3 "root" super_admin true.
Definition carol : User := sample_user 4 "carol" author false.

Definition news : Category := mkCategory 1 "News" "news" None 1000 1000.
Definition tech : Category := mkCategory 2 "Tech" "tech" (Some "Technology") 1000 1000.

Definition rocq_tag : Tag := mkTag 1 "Rocq" "rocq" 1000 1000.
Definition web_tag : Tag := mkTag 2 "Web" "web" 1000 1000.

Definition first_post : BlogPost :=
  mkBlogPost 1 "Published Post" "published-post" "Hello world" (Some "100% true") 1 None
             published (Some 2000) 2000 2000.
Definition second_post : BlogPost :=
  mkBlogPost 2 "Draft Post" "draft-post" "Work in progress" None 1 None
             draft None 3000 3000.

Definition sample_db : Db :=
  mkDb [alice; bob; root; carol] [news; tech] [rocq_tag; web_tag]
       [first_post; second_post]
       [mkBlogPostCategory 1 1; mkBlogPostCategory 2 2]
       [mkBlogPostTag 1 1; mkBlogPostTag 2 2]
       []
       2.

Definition sample_create (category_ids : list Z) (tag_ids : option (list Z))
    (status : PostStatus) : CreateBlogPostInput :=
  mkCreateBlogPostInput "Third Post" "third-post" "Body" None None status
                        category_ids tag_ids.

Definition sample_update (id : Z) (status : option PostStatus)
    (category_ids tag_ids : option (list Z)) : UpdateBlogPostInput :=
  mkUpdateBlogPostInput id None None None None None status category_ids tag_ids.

(** The association rows of a post, and those of all other posts. *)
Definition categories_of_post (db : Db) (id : Z) : list BlogPostCategory :=
  filter (fun r => Z.eqb (bpc_blog_post_id r) id) (blogPostCategoriesTable db).

Definition categories_of_others (db : Db) (id : Z) : list BlogPostCategory :=
  filter (fun r => negb (Z.eqb (bpc_blog_post_id r) id)) (blogPostCategoriesTable db).

Definition tags_of_post (db : Db) (id : Z) : list BlogPostTag :=
  filter (fun r => Z.eqb (bpt_blog_post_id r) id) (blogPostTagsTable db).

Definition tags_of_others (db : Db) (id : Z) : list BlogPostTag :=
  filter (fun r => negb (Z.eqb (bpt_blog_post_id r) id)) (blogPostTagsTable db).

(** The stored post with a given id: the first row the lookup by id returns. *)
Definition stored_post (db : Db) (id : Z) : option BlogPost :=
  hd_error (rows_where (Some (eq_ post_id id)) (blogPostsTable db)).

(** The error kinds of the specification, read off the message a handler
    throws; a constraint the store reports violated is a constraint
    violation, its refusal of an out-of-range id is none of the kinds. *)
Inductive ErrorKind :=
| NotFound
| PermissionDenied
| InvalidCredentials
| AccountDeactivated
| ConstraintViolation
| OtherError.

Definition error_kind (e : exn) : ErrorKind :=
  match e with
  | StoreError code =>
    if String.eqb code OUT_OF_RANGE then OtherError else ConstraintViolation
  | JsError m =>
    if string_mem m ["Author not found"; "Blog post not found";
                     CATEGORIES_NOT_FOUND; TAGS_NOT_FOUND] then NotFound
    else if string_mem m ["Permission denied: can only update your own posts";
                          "Permission denied: can only delete your own posts"]
    then PermissionDenied
    else if String.eqb m INVALID_CREDENTIALS then InvalidCredentials
    else if String.eqb m ACCOUNT_DEACTIVATED then AccountDeactivated
    else OtherError
  end.


(** The row [createBlogPost] stores in the sample store for [sample_create]. *)
Definition third_post (status : PostStatus) (published_at : option Z) (now : Z) : BlogPost :=
  mkBlogPost 3 "Third Post" "third-post" "Body" None 1 None status published_at now now.

Definition sample_config : AdSenseConfig :=
  mkAdSenseConfig 1 "pub-1234567890" (Some "header-slot") None (Some "footer-slot") None
                  true 1000 1000.

(** The sample store with a stored AdSense configuration. *)
Definition sample_db_with_config : Db :=
  mkDb (usersTable sample_db) (categoriesTable sample_db) (tagsTable sample_db)
       (blogPostsTable sample_db) (blogPostCategoriesTable sample_db)
       (blogPostTagsTable sample_db) [sample_config] (blog_posts_id_seq sample_db).
(** ** A runtime to run the auth handlers on concrete inputs

    SHA-256 (FIPS 180-4) over the UTF-8 bytes of a string, base64 decoding,
    and JSON restricted to the values of [jsval] (numbers are integers). *)

Definition w32 (x : Z) : Z := x mod 4294967296.

Definition rotr (n x : Z) : Z :=
  w32 (Z.lor (Z.shiftr x n) (Z.shiftl x (32 - n))).

Definition sha_Ch (x y z : Z) : Z :=
  Z.lxor (Z.land x y) (Z.land (Z.lxor x 4294967295) z).

Definition sha_Maj (x y z : Z) : Z :=
  Z.lxor (Z.lxor (Z.land x y) (Z.land x z)) (Z.land y z).

Definition sha_Sigma0 (x : Z) : Z := Z.lxor (Z.lxor (rotr 2 x) (rotr 13 x)) (rotr 22 x).
Definition sha_Sigma1 (x : Z) : Z := Z.lxor (Z.lxor (rotr 6 x) (rotr 11 x)) (rotr 25 x).
Definition sha_sigma0 (x : Z) : Z := Z.lxor (Z.lxor (rotr 7 x) (rotr 18 x)) (Z.shiftr x 3).
Definition sha_sigma1 (x : Z) : Z := Z.lxor (Z.lxor (rotr 17 x) (rotr 19 x)) (Z.shiftr x 10).

(** The largest [r] below [2 ^ bits] above [acc] with [r ^ k <= n], found bit
    by bit. *)
Fixpoint integer_root (bits : nat) (k : Z) (n : Z) (acc : Z) : Z :=
  match bits with
  | O => acc
  | S b =>
    let candidate := acc + 2 ^ Z.of_nat b in
    if candidate ^ k <=? n then integer_root b k n candidate
    else integer_root b k n acc
  end.

Definition is_prime (n : Z) : bool :=
  (1 <? n) && forallb (fun d => negb (n mod d =? 0))
                      (map Z.of_nat (seq 2 (Z.to_nat n - 2))).

(** The first 64 primes: the primes up to 311. *)
Definition sha_primes : list Z :=
  Eval vm_compute in filter is_prime (map Z.of_nat (seq 2 310)).

(** The round constants: the first 32 bits of the fractional parts of the
    cube roots of the first 64 primes. *)
Definition sha_K : list Z :=
  Eval vm_compute in map (fun p => w32 (integer_root 36 3 (p * 2 ^ 96) 0)) sha_primes.

(** The initial hash value: the first 32 bits of the fractional parts of the
    square roots of the first 8 primes. *)
Definition sha_H0 : list Z :=
  Eval vm_compute in
    map (fun p => w32 (integer_root 36 2 (p * 2 ^ 64) 0)) (firstn 8 sha_primes).

(** The UTF-8 bytes of a string of code units below 256. *)
Fixpoint utf8 (s : string) : list Z :=
  match s with
  | EmptyString => []
  | String c r =>
    let n := Z.of_N (N_of_ascii c) in
    if n <? 128 then n :: utf8 r
    else (192 + n / 64) :: (128 + n mod 64) :: utf8 r
  end.

(** [n] as [k] big-endian bytes. *)
Fixpoint be_bytes (k : nat) (n : Z) : list Z :=
  match k with
  | O => []
  | S k' => be_bytes k' (n / 256) ++ [n mod 256]
  end.

Definition sha_pad (msg : list Z) : list Z :=
  let len := Z.of_nat (List.length msg) in
  let zeros := Z.to_nat ((55 - len) mod 64) in
  msg ++ [128] ++ repeat 0 zeros ++ be_bytes 8 (8 * len).

(** Big-endian 32-bit words of a byte list whose length is a multiple of 4. *)
Fixpoint be_words (fuel : nat) (bytes : list Z) : list Z :=
  match fuel, bytes with
  | S f, a :: b :: c :: d :: r =>
    (((a * 256 + b) * 256 + c) * 256 + d) :: be_words f r
  | _, _ => []
  end.

(** The message schedule, most recent word first. *)
Fixpoint sha_schedule (n : nat) (recent : list Z) : list Z :=
  match n with
  | O => recent
  | S n' =>
    let w := w32 (sha_sigma1 (nth 1 recent 0) + nth 6 recent 0
                  + sha_sigma0 (nth 14 recent 0) + nth 15 recent 0) in
    sha_schedule n' (w :: recent)
  end.

Definition sha_round (st : list Z) (kw : Z * Z) : list Z :=
  match st with
  | [a; b; c; d; e; f; g; h] =>
    let t1 := h + sha_Sigma1 e + sha_Ch e f g + fst kw + snd kw in
    let t2 := sha_Sigma0 a + sha_Maj a b c in
    [w32 (t1 + t2); a; b; c; w32 (d + t1); e; f; g]
  | _ => st
  end.

Definition sha_block (h : list Z) (block : list Z) : list Z :=
  let w := rev (sha_schedule 48 (rev block)) in
  let st := fold_left sha_round (combine sha_K w) h in
  map (fun p => w32 (fst p + snd p)) (combine h st).

Fixpoint sha_blocks (fuel : nat) (h : list Z) (words : list Z) : list Z :=
  match fuel, words with
  | S f, _ :: _ => sha_blocks f (sha_block h (firstn 16 words)) (skipn 16 words)
  | _, _ => h
  end.

Definition sha256 (msg : list Z) : list Z :=
  let padded := sha_pad msg in
  let words := be_words (List.length padded) padded in
  sha_blocks (List.length words) sha_H0 words.

Definition hex_digit (n : Z) : ascii :=
  match String.get (Z.to_nat n) "0123456789abcdef" with
  | Some c => c
  | None => "0"%char
  end.

Fixpoint hex_of (digits : nat) (n : Z) : string :=
  match digits with
  | O => EmptyString
  | S d => (hex_of d (n / 16) ++ String (hex_digit (n mod 16)) EmptyString)%string
  end.

(** [hashArray.map(b => b.toString(16).padStart(2, '0')).join('')] of the
    SHA-256 digest of the UTF-8 bytes. *)
Definition sample_sha256_hex (s : string) : string :=
  String.concat EmptyString (map (hex_of 8) (sha256 (utf8 s))).

(** *** Decimal integers *)

Definition digit_value (c : ascii) : option Z :=
  let n := Z.of_N (N_of_ascii c) in
  if (48 <=? n) && (n <=? 57) then Some (n - 48) else None.

(** The value of a non-empty string of decimal digits. *)
Fixpoint digits_value (acc : Z) (s : string) : option Z :=
  match s with
  | EmptyString => Some acc
  | String c r =>
    match digit_value c with
    | Some d => digits_value (acc * 10 + d) r
    | None => None
    end
  end.

Definition unsigned_value (s : string) : option Z :=
  match s with
  | EmptyString => None
  | _ => digits_value 0 s
  end.

(** An optional sign followed by decimal digits. *)
Definition signed_value (s : string) : option Z :=
  match s with
  | String c r =>
    if Ascii.eqb c "-" then option_map Z.opp (unsigned_value r)
    else if Ascii.eqb c "+" then unsigned_value r
    else unsigned_value s
  | EmptyString => None
  end.

Definition digit_char (d : Z) : ascii := ascii_of_N (Z.to_N (48 + d)).

Fixpoint decimal_digits (fuel : nat) (n : Z) (acc : string) : string :=
  match fuel with
  | O => acc
  | S f =>
    let acc' := String (digit_char (n mod 10)) acc in
    if n <? 10 then acc' else decimal_digits f (n / 10) acc'
  end.

(** [String(n)] for an integer. *)
Definition decimal (n : Z) : string :=
  if n <? 0 then String "-" (decimal_digits (Z.to_nat (Z.log2 (- n)) + 1) (- n) EmptyString)
  else decimal_digits (Z.to_nat (Z.log2 n) + 1) n EmptyString.

(** [n] in decimal, padded with zeros on the left to [width] digits. *)
Fixpoint padded (width : nat) (n : Z) : string :=
  match width with
  | O => EmptyString
  | S w => (padded w (n / 10) ++ String (digit_char (n mod 10)) EmptyString)%string
  end.

Definition is_space (c : ascii) : bool :=
  let n := Z.of_N (N_of_ascii c) in
  (n =? 32) || (n =? 9) || (n =? 10) || (n =? 13).

Fixpoint skip_ws (s : string) : string :=
  match s with
  | String c r => if is_space c then skip_ws r else s
  | EmptyString => EmptyString
  end.

Fixpoint string_rev (acc s : string) : string :=
  match s with
  | EmptyString => acc
  | String c r => string_rev (String c acc) r
  end.

Definition trim (s : string) : string :=
  string_rev EmptyString (skip_ws (string_rev EmptyString (skip_ws s))).

(** *** base64 decoding *)

Fixpoint index_of (c : ascii) (alphabet : string) (i : N) : option N :=
  match alphabet with
  | EmptyString => None
  | String a r => if Ascii.eqb a c then Some i else index_of c r (i + 1)%N
  end.

(** The 6-bit group a character stands for. *)
Definition b64_index (c : ascii) : option N := index_of c b64_alphabet 0%N.

Definition is_ascii_whitespace (c : ascii) : bool :=
  let n := Z.of_N (N_of_ascii c) in
  (n =? 9) || (n =? 10) || (n =? 12) || (n =? 13) || (n =? 32).

Fixpoint remove_whitespace (s : string) : string :=
  match s with
  | EmptyString => EmptyString
  | String c r =>
    if is_ascii_whitespace c then remove_whitespace r else String c (remove_whitespace r)
  end.

(** Drops one or two [=] at the end of a string whose length is a multiple
    of four. *)
Definition drop_padding (s : string) : string :=
  if (Nat.modulo (String.length s) 4 =? 0)%nat then
    match string_rev EmptyString s with
    | String a (String b r) =>
      if Ascii.eqb a equals_sign then
        if Ascii.eqb b equals_sign then string_rev EmptyString r
        else string_rev EmptyString (String b r)
      else s
    | _ => s
    end
  else s.

Fixpoint sextets (s : string) : option (list N) :=
  match s with
  | EmptyString => Some []
  | String c r =>
    match b64_index c, sextets r with
    | Some n, Some l => Some (n :: l)
    | _, _ => None
    end
  end.

Fixpoint b64_bytes (l : list N) : string :=
  match l with
  | a :: b :: c :: d :: r =>
    String (ascii_of_N (a * 4 + b / 16))
      (String (ascii_of_N ((b mod 16) * 16 + c / 4))
         (String (ascii_of_N ((c mod 4) * 64 + d)) (b64_bytes r)))
  | [a; b; c] =>
    String (ascii_of_N (a * 4 + b / 16))
      (String (ascii_of_N ((b mod 16) * 16 + c / 4)) EmptyString)
  | [a; b] => String (ascii_of_N (a * 4 + b / 16)) EmptyString
  | _ => EmptyString
  end%N.

(** [atob]: the forgiving base64 decoding of the HTML standard. *)
Definition sample_atob (s : string) : option string :=
  let data := drop_padding (remove_whitespace s) in
  if (Nat.modulo (String.length data) 4 =? 1)%nat then None
  else option_map b64_bytes (sextets data).

(** *** Dates and JSON *)

Definition double_quote : ascii := ascii_of_N 34.

(** [Date.prototype.toISOString] of a time value in milliseconds (proleptic
    Gregorian calendar; years outside 0..9999 take a sign and six digits). *)
Definition toISOString (ms : Z) : string :=
  let days := ms / 86400000 in
  let rest := ms mod 86400000 in
  let z := days + 719468 in
  let era := z / 146097 in
  let doe := z - era * 146097 in
  let yoe := (doe - doe / 1460 + doe / 36524 - doe / 146096) / 365 in
  let doy := doe - (365 * yoe + yoe / 4 - yoe / 100) in
  let mp := (5 * doy + 2) / 153 in
  let d := doy - (153 * mp + 2) / 5 + 1 in
  let m := if mp <? 10 then mp + 3 else mp - 9 in
  let y := yoe + era * 400 + (if m <=? 2 then 1 else 0) in
  let year :=
    if y <? 0 then String "-" (padded 6 (- y))
    else if 9999 <? y then String "+" (padded 6 y)
    else padded 4 y in
  (year ++ "-" ++ padded 2 m ++ "-" ++ padded 2 d ++ "T"
   ++ padded 2 (rest / 3600000) ++ ":" ++ padded 2 (rest / 60000 mod 60) ++ ":"
   ++ padded 2 (rest / 1000 mod 60) ++ "." ++ padded 3 (rest mod 1000) ++ "Z")%string.

(** A character inside a JSON string literal. *)
Definition json_escape (c : ascii) : string :=
  let n := Z.of_N (N_of_ascii c) in
  if n =? 34 then String backslash (String double_quote EmptyString)
  else if n =? 92 then String backslash (String backslash EmptyString)
  else if n =? 8 then String backslash "b"
  else if n =? 12 then String backslash "f"
  else if n =? 10 then String backslash "n"
  else if n =? 13 then String backslash "r"
  else if n =? 9 then String backslash "t"
  else if n <? 32 then (String backslash "u00" ++ hex_of 2 n)%string
  else String c EmptyString.

Fixpoint json_escaped (s : string) : string :=
  match s with
  | EmptyString => EmptyString
  | String c r => (json_escape c ++ json_escaped r)%string
  end.

Definition json_quote (s : string) : string :=
  String double_quote (json_escaped s ++ String double_quote EmptyString)%string.

(** [JSON.stringify] on the values of [jsval]. *)
Fixpoint sample_JSON_stringify (v : jsval) : string :=
  match v with
  | JNull => "null"
  | JBool true => "true"
  | JBool false => "false"
  | JNum n => decimal n
  | JStr s => json_quote s
  | JDate ms =>
    if (Z.abs ms <=? 8640000000000000) then json_quote (toISOString ms) else "null"
  | JArr elements =>
    ("[" ++ String.concat "," (map sample_JSON_stringify elements) ++ "]")%string
  | JObj properties =>
    ("{" ++ String.concat ","
              (map (fun kv => (json_quote (fst kv) ++ ":" ++ sample_JSON_stringify (snd kv))%string)
                   properties)
         ++ "}")%string
  end.

Definition hex_value (c : ascii) : option Z :=
  let n := Z.of_N (N_of_ascii c) in
  if (48 <=? n) && (n <=? 57) then Some (n - 48)
  else if (97 <=? n) && (n <=? 102) then Some (n - 87)
  else if (65 <=? n) && (n <=? 70) then Some (n - 55)
  else None.

(** The rest of a string literal after its opening quote: the decoded
    characters and what follows the closing quote.  An escape [\uXXXX] above
    [ÿ] has no counterpart in [string] and is refused. *)
Fixpoint parse_string (s : string) : option (string * string) :=
  match s with
  | EmptyString => None
  | String c r =>
    if Ascii.eqb c double_quote then Some (EmptyString, r)
    else if Ascii.eqb c backslash then
      match r with
      | String e r' =>
        let plain (x : ascii) :=
          option_map (fun p => (String x (fst p), snd p)) (parse_string r') in
        if Ascii.eqb e double_quote then plain double_quote
        else if Ascii.eqb e backslash then plain backslash
        else if Ascii.eqb e "/" then plain "/"%char
        else if Ascii.eqb e "b" then plain (ascii_of_N 8)
        else if Ascii.eqb e "f" then plain (ascii_of_N 12)
        else if Ascii.eqb e "n" then plain (ascii_of_N 10)
        else if Ascii.eqb e "r" then plain (ascii_of_N 13)
        else if Ascii.eqb e "t" then plain (ascii_of_N 9)
        else if Ascii.eqb e "u" then
          match r' with
          | String h1 (String h2 (String h3 (String h4 r''))) =>
            match hex_value h1, hex_value h2, hex_value h3, hex_value h4 with
            | Some a, Some b, Some c', Some d =>
              if (a =? 0) && (b =? 0) then
                option_map (fun p => (String (ascii_of_N (Z.to_N (c' * 16 + d))) (fst p), snd p))
                           (parse_string r'')
              else None
            | _, _, _, _ => None
            end
          | _ => None
          end
        else None
      | EmptyString => None
      end
    else if Z.of_N (N_of_ascii c) <? 32 then None
    else option_map (fun p => (String c (fst p), snd p)) (parse_string r)
  end.

(** The longest prefix of decimal digits and the rest. *)
Fixpoint span_digits (s : string) : string * string :=
  match s with
  | String c r =>
    match digit_value c with
    | Some _ => let p := span_digits r in (String c (fst p), snd p)
    | None => (EmptyString, s)
    end
  | EmptyString => (EmptyString, EmptyString)
  end.

(** A JSON number without fraction and exponent; a number with either is not
    an integer literal and is refused. *)
Definition parse_number (s : string) : option (jsval * string) :=
  let negative := match s with String c _ => Ascii.eqb c "-" | _ => false end in
  let body := if negative then match s with String _ r => r | _ => s end else s in
  let p := span_digits body in
  let leading_zero :=
    match fst p with
    | String c (String _ _) => Ascii.eqb c "0"
    | _ => false
    end in
  let continues :=
    match snd p with
    | String c _ => Ascii.eqb c "." || Ascii.eqb c "e" || Ascii.eqb c "E"
    | EmptyString => false
    end in
  if leading_zero || continues then None
  else
    match unsigned_value (fst p) with
    | Some n => Some (JNum (if negative then - n else n), snd p)
    | None => None
    end.

(** [obj[key] = v]: a repeated key keeps its place and takes the last value. *)
Fixpoint obj_set (key : string) (v : jsval) (o : object) : object :=
  match o with
  | [] => [(key, v)]
  | (k, w) :: r => if String.eqb k key then (k, v) :: r else (k, w) :: obj_set key v r
  end.

Definition starts_with (p s : string) : option string :=
  if String.prefix p s then Some (String.substring (String.length p)
                                    (String.length s - String.length p) s)
  else None.

Fixpoint parse_value (fuel : nat) (s : string) {struct fuel} : option (jsval * string) :=
  match fuel with
  | O => None
  | S f =>
    match skip_ws s with
    | EmptyString => None
    | String c r =>
      if Ascii.eqb c "{" then
        match skip_ws r with
        | String c' r' =>
          if Ascii.eqb c' "}" then Some (JObj [], r') else parse_members f r []
        | EmptyString => None
        end
      else if Ascii.eqb c "[" then
        match skip_ws r with
        | String c' r' =>
          if Ascii.eqb c' "]" then Some (JArr [], r') else parse_elements f r []
        | EmptyString => None
        end
      else if Ascii.eqb c double_quote then
        option_map (fun p => (JStr (fst p), snd p)) (parse_string r)
      else if Ascii.eqb c "t" then option_map (pair (JBool true)) (starts_with "rue" r)
      else if Ascii.eqb c "f" then option_map (pair (JBool false)) (starts_with "alse" r)
      else if Ascii.eqb c "n" then option_map (pair JNull) (starts_with "ull" r)
      else parse_number (String c r)
    end
  end
with parse_elements (fuel : nat) (s : string) (acc : list jsval) {struct fuel}
  : option (jsval * string) :=
  match fuel with
  | O => None
  | S f =>
    match parse_value f s with
    | Some (v, r) =>
      match skip_ws r with
      | String c r' =>
        if Ascii.eqb c "," then parse_elements f r' (acc ++ [v])
        else if Ascii.eqb c "]" then Some (JArr (acc ++ [v]), r')
        else None
      | EmptyString => None
      end
    | None => None
    end
  end
with parse_members (fuel : nat) (s : string) (acc : object) {struct fuel}
  : option (jsval * string) :=
  match fuel with
  | O => None
  | S f =>
    match skip_ws s with
    | String q r =>
      if Ascii.eqb q double_quote then
        match parse_string r with
        | Some (key, r1) =>
          match skip_ws r1 with
          | String colon r2 =>
            if Ascii.eqb colon ":" then
              match parse_value f r2 with
              | Some (v, r3) =>
                match skip_ws r3 with
                | String c r4 =>
                  if Ascii.eqb c "," then parse_members f r4 (obj_set key v acc)
                  else if Ascii.eqb c "}" then Some (JObj (obj_set key v acc), r4)
                  else None
                | EmptyString => None
                end
              | None => None
              end
            else None
          | EmptyString => None
          end
        | None => None
        end
      else None
    | EmptyString => None
    end
  end.

(** [JSON.parse] on texts whose numbers are integers and whose strings stay
    below code unit 256. *)
Definition sample_JSON_parse (text : string) : option jsval :=
  match parse_value (2 * String.length text + 2) text with
  | Some (v, r) => match skip_ws r with EmptyString => Some v | _ => None end
  | None => None
  end.

(** The number a string converts to, for strings that spell an integer in
    decimal; the empty string converts to 0. *)
Definition string_to_number (s : string) : option Z :=
  match trim s with
  | EmptyString => Some 0
  | t => signed_value t
  end.

Definition sample_ToNumber (v : jsval) : option Z :=
  match v with
  | JStr s => string_to_number s
  | JArr [] => Some 0
  | JArr [JNum n] => Some n
  | JArr [JStr s] => string_to_number s
  | JArr [JNull] => Some 0
  | _ => None
  end.

(** The store's reading of a text as a 32-bit integer. *)
Definition sample_int4_in (s : string) : option Z :=
  match signed_value (trim s) with
  | Some n => if (-2147483648 <=? n) && (n <=? 2147483647) then Some n else None
  | None => None
  end.

#[export] Instance sample_runtime : Runtime :=
  mkRuntime sample_sha256_hex sample_JSON_stringify sample_JSON_parse sample_atob
            None sample_ToNumber sample_int4_in.

(** The string [s] with the character at position [i] replaced by [c]. *)
Fixpoint set_char (i : nat) (c : ascii) (s : string) : string :=
  match s, i with
  | EmptyString, _ => EmptyString
  | String _ r, O => String c r
  | String a r, S j => String a (set_char j c r)
  end.

(** The stored user with a given id or email: the first row the lookup
    returns. *)
Definition stored_user (db : Db) (id : Z) : option User :=
  hd_error (rows_where (Some (eq_ user_id id)) (usersTable db)).

Definition user_by_email (db : Db) (email : string) : option User :=
  hd_error (rows_where (Some (fun u => String.eqb (user_email u) email)) (usersTable db)).

(** What a handler returns for a user: the row without [password_hash]. *)
Definition without_password (u : User) : object :=
  obj_rest "password_hash" (User_object u).

(** [needle] occurs in [hay] as a substring. *)
Definition occurs (needle hay : string) : Prop :=
  exists a b, hay = (a ++ needle ++ b)%string.

(** Case-insensitive occurrence: occurrence after folding both to lower case. *)
Definition ci_occurs (needle hay : string) : Prop :=
  occurs (lower needle) (lower hay).

Fixpoint occursb (needle hay : string) : bool :=
  String.prefix needle hay
  || match hay with
     | EmptyString => false
     | String _ r => occursb needle r
     end.

(** The characters with a special meaning in a LIKE pattern. *)
Definition is_metachar (c : ascii) : bool :=
  Ascii.eqb c percent || Ascii.eqb c underscore || Ascii.eqb c backslash.

Fixpoint metachar_free (s : string) : bool :=
  match s with
  | EmptyString => true
  | String c r => negb (is_metachar c) && metachar_free r
  end.

(** A listing query with a search term and no other filter. *)
Definition search_only (page limit : Z) (search : string) : BlogPostsQueryInput :=
  mkBlogPostsQueryInput page limit None None None None (Some search).

(** No character of [s] is a dot. *)
Fixpoint dot_free (s : string) : bool :=
  match s with
  | EmptyString => true
  | String c r => negb (Ascii.eqb c dot) && dot_free r
  end.

(** A token signed with the default secret whose payload is the JSON text of
    an object with [userId] 1 and [exp] 0: header, payload and signature are
    the base64 texts, without padding, of the header object, of that payload
    and of [header.payload.your-secret-key]. *)
Definition epoch_token : string :=
  ("eyJhbGciOiJIUzI1NiIsInR5cCI6IkpXVCJ9"
   ++ "." ++ "eyJ1c2VySWQiOjEsImV4cCI6MH0"
   ++ "." ++ "ZXlKaGJHY2lPaUpJVXpJMU5pSXNJblI1Y0NJNklrcFhWQ0o5LmV5SjFjMlZ5U1dRaU9qRXNJbVY0Y0NJNk1IMC55b3VyLXNlY3JldC1rZXk")%string.

(** The constraints of the schema that post writes rely on: primary keys,
    unique slugs, ids drawn from the sequence, join rows that are pairwise
    distinct and refer to stored posts, and ids within the range of their
    32-bit columns. *)
Record well_formed (db : Db) : Prop := mkWellFormed {
  wf_category_ids : NoDup (map category_id (categoriesTable db));
  wf_tag_ids : NoDup (map tag_id (tagsTable db));
  wf_post_ids : NoDup (map post_id (blogPostsTable db));
  wf_post_slugs : NoDup (map post_slug (blogPostsTable db));
  wf_post_seq : forall p, In p (blogPostsTable db) -> post_id p <= blog_posts_id_seq db;
  wf_categories_of : NoDup (blogPostCategoriesTable db);
  wf_categories_post :
    forall r, In r (blogPostCategoriesTable db) ->
              exists p, In p (blogPostsTable db) /\ post_id p = bpc_blog_post_id r;
  wf_tags_of : NoDup (blogPostTagsTable db);
  wf_tags_post :
    forall r, In r (blogPostTagsTable db) ->
              exists p, In p (blogPostsTable db) /\ post_id p = bpt_blog_post_id r;
  wf_user_range : forall u, In u (usersTable db) -> int4 (user_id u) = true;
  wf_category_range : forall c, In c (categoriesTable db) -> int4 (category_id c) = true;
  wf_tag_range : forall t, In t (tagsTable db) -> int4 (tag_id t) = true;
  wf_post_range : forall p, In p (blogPostsTable db) -> int4 (post_id p) = true
}.

(** Ids that can be written as associations: pairwise distinct and each the
    id of a stored category (resp. tag); an absent list asks for nothing. *)
Definition valid_category_ids (db : Db) (ids : option (list Z)) : Prop :=
  match ids with
  | Some l => NoDup l /\ forall id, In id l -> category_exists db id
  | None => True
  end.

Definition valid_tag_ids (db : Db) (ids : option (list Z)) : Prop :=
  match ids with
  | Some l => NoDup l /\ forall id, In id l -> tag_exists db id
  | None => True
  end.

(** The caller may write the post: a super admin or the author. *)
Definition authorized (role : string) (uid : Z) (post : BlogPost) : Prop :=
  role = "super_admin" \/ uid = post_author_id post.

(** No other stored post has the slug the update asks for. *)
Definition slug_available (db : Db) (id : Z) (slug : option string) : Prop :=
  match slug with
  | Some s => forall p, In p (blogPostsTable db) -> post_id p <> id -> post_slug p <> s
  | None => True
  end.
(** ** The scenarios of the repository's tests, run on the sample store *)

Definition listing_query (status : option PostStatus) (category_id tag_id author_id : option Z)
    (search : option string) : BlogPostsQueryInput :=
  mkBlogPostsQueryInput 1 10 status category_id tag_id author_id search.

Definition listed_ids (p : Page BlogPostWithRelations) : list Z :=
  map (fun item => post_id (wr_post item)) (items p).

(** * The remaining handlers

    The handlers the development above does not use: reading one post, the
    tag, category and user handlers, the AdSense upsert and the user helper
    of [auth.ts].

    The serial sequences of [users], [categories], [tags] and
    [adsense_config] are not part of [Db].  A handler that inserts into one
    of these tables takes the value the sequence hands out for the insert as
    an argument [id], next to the clock reading [now]; the store refuses the
    row when the id is taken. *)

(** ** Reading one post ([getBlogPostById], [getBlogPostBySlug]) *)

(** [.from(blogPostsTable).innerJoin(usersTable, eq(author_id, users.id))] *)
Definition posts_with_authors (db : Db) : list (BlogPost * User) :=
  innerJoin (blogPostsTable db) (usersTable db)
            (fun p u => Z.eqb (post_author_id p) (user_id u)).

(** [.from(blogPostCategoriesTable).innerJoin(categoriesTable, eq(category_id, categories.id))] *)
Definition categories_joined (db : Db) : list (BlogPostCategory * Category) :=
  innerJoin (blogPostCategoriesTable db) (categoriesTable db)
            (fun pc c => Z.eqb (bpc_category_id pc) (category_id c)).

(** [.from(blogPostTagsTable).innerJoin(tagsTable, eq(tag_id, tags.id))] *)
Definition tags_joined (db : Db) : list (BlogPostTag * Tag) :=
  innerJoin (blogPostTagsTable db) (tagsTable db)
            (fun pt t => Z.eqb (bpt_tag_id pt) (tag_id t)).

Definition getBlogPostById (postId : Z) (db : Db) : option BlogPostWithRelations :=
  (* Get blog post with author *)
  let results :=
    rows_where (Some (fun r : BlogPost * User => Z.eqb (post_id (fst r)) postId))
               (posts_with_authors db) in
  match results with
  | [] => None
  | result :: _ =>
    let post := fst result in
    let author := snd result in
    (* Get categories for this post *)
    let postCategories :=
      rows_where (Some (fun r : BlogPostCategory * Category =>
                          Z.eqb (bpc_blog_post_id (fst r)) postId))
                 (categories_joined db) in
    let categories := map snd postCategories in
    (* Get tags for this post *)
    let postTags :=
      rows_where (Some (fun r : BlogPostTag * Tag => Z.eqb (bpt_blog_post_id (fst r)) postId))
                 (tags_joined db) in
    let tags := map snd postTags in
    Some (mkBlogPostWithRelations post author categories tags)
  end.

(** As [getBlogPostById], with the post found by its slug and the relations
    by [post.id]. *)
Definition getBlogPostBySlug (slug : string) (db : Db) : option BlogPostWithRelations :=
  (* Get blog post with author *)
  let results :=
    rows_where (Some (fun r : BlogPost * User => String.eqb (post_slug (fst r)) slug))
               (posts_with_authors db) in
  match results with
  | [] => None
  | result :: _ =>
    let post := fst result in
    let author := snd result in
    (* Get categories for this post *)
    let postCategories :=
      rows_where (Some (fun r : BlogPostCategory * Category =>
                          Z.eqb (bpc_blog_post_id (fst r)) (post_id post)))
                 (categories_joined db) in
    let categories := map snd postCategories in
    (* Get tags for this post *)
    let postTags :=
      rows_where (Some (fun r : BlogPostTag * Tag =>
                          Z.eqb (bpt_blog_post_id (fst r)) (post_id post)))
                 (tags_joined db) in
    let tags := map snd postTags in
    Some (mkBlogPostWithRelations post author categories tags)
  end.

(** ** Writing the other tables *)

Definition with_users (db : Db) (rows : list User) : Db :=
  mkDb rows (categoriesTable db) (tagsTable db) (blogPostsTable db)
       (blogPostCategoriesTable db) (blogPostTagsTable db)
       (adSenseConfigTable db) (blog_posts_id_seq db).

Definition with_categories (db : Db) (rows : list Category) : Db :=
  mkDb (usersTable db) rows (tagsTable db) (blogPostsTable db)
       (blogPostCategoriesTable db) (blogPostTagsTable db)
       (adSenseConfigTable db) (blog_posts_id_seq db).

Definition with_tags (db : Db) (rows : list Tag) : Db :=
  mkDb (usersTable db) (categoriesTable db) rows (blogPostsTable db)
       (blogPostCategoriesTable db) (blogPostTagsTable db)
       (adSenseConfigTable db) (blog_posts_id_seq db).

Definition with_adSenseConfig (db : Db) (rows : list AdSenseConfig) : Db :=
  mkDb (usersTable db) (categoriesTable db) (tagsTable db) (blogPostsTable db)
       (blogPostCategoriesTable db) (blogPostTagsTable db)
       rows (blog_posts_id_seq db).

(** [`${id}`] for an id: its decimal digits. *)
Definition id_text (id : Z) : string := decimal id.

(** ** Tag handlers ([server/src/handlers/tags.ts], tags) *)

Record CreateTagInput := mkCreateTagInput {
  ct_name : string;
  ct_slug : string
}.

Record UpdateTagInput := mkUpdateTagInput {
  ut_id : Z;
  ut_name : option string;
  ut_slug : option string
}.

(** [db.insert(tagsTable).values({ name, slug }).returning().execute()]:
    refused on a taken id and on a taken slug (unique). *)
Definition insert_tag (now id : Z) (name slug : string) : Handler (list Tag) :=
  fun db =>
    if existsb (fun t => Z.eqb (tag_id t) id) (tagsTable db) then
      (db, Thrown (StoreError "tags_pkey"))
    else if existsb (fun t => String.eqb (tag_slug t) slug) (tagsTable db) then
      (db, Thrown (StoreError "tags_slug_unique"))
    else
      let row := mkTag id name slug now now in
      (with_tags db (tagsTable db ++ [row]), Returned [row]).

(** The object [updateData] of [updateTag]. *)
Record TagUpdate := mkTagUpdate {
  set_tag_name : option string;
  set_tag_slug : option string;
  set_tag_updated_at : option Z
}.

Definition apply_tag_update (u : TagUpdate) (t : Tag) : Tag :=
  mkTag (tag_id t)
    (or_else (set_tag_name u) (tag_name t))
    (or_else (set_tag_slug u) (tag_slug t))
    (tag_created_at t)
    (or_else (set_tag_updated_at u) (tag_updated_at t)).

(** [db.update(tagsTable).set(u).where(eq(id, target)).returning().execute()]:
    refused when [target] is outside the range of the id column, and when the
    table would hold a slug twice. *)
Definition update_tag (u : TagUpdate) (target : Z) : Handler (list Tag) :=
  fun db =>
    let rows := map (fun t => if Z.eqb (tag_id t) target then apply_tag_update u t else t)
                    (tagsTable db) in
    if negb (int4 target) then (db, Thrown (StoreError OUT_OF_RANGE))
    else if nodupb String.eqb (map tag_slug rows) then
      (with_tags db rows, Returned (filter (fun t => Z.eqb (tag_id t) target) rows))
    else (db, Thrown (StoreError "tags_slug_unique")).

(** [db.delete(blogPostTagsTable).where(eq(tag_id, tagId)).execute()]:
    refused when [tagId] is outside the range of the column. *)
Definition delete_blogPostTags_of_tag (tagId : Z) : Handler unit :=
  fun db =>
    if negb (int4 tagId) then (db, Thrown (StoreError OUT_OF_RANGE))
    else
      (with_blogPostTags db
         (filter (fun r => negb (Z.eqb (bpt_tag_id r) tagId)) (blogPostTagsTable db)),
       Returned tt).

(** [db.delete(tagsTable).where(eq(id, tagId)).returning().execute()]: the
    join rows that reference a deleted tag go with it.  [deleteTag] runs it
    after the store has accepted [tagId] in the statement before. *)
Definition delete_tag (tagId : Z) : Handler (list Tag) :=
  fun db =>
    let deleted := filter (fun t => Z.eqb (tag_id t) tagId) (tagsTable db) in
    let db1 := with_tags db (filter (fun t => negb (Z.eqb (tag_id t) tagId)) (tagsTable db)) in
    match deleted with
    | [] => (db1, Returned deleted)
    | _ =>
      (with_blogPostTags db1
         (filter (fun r => negb (Z.eqb (bpt_tag_id r) tagId)) (blogPostTagsTable db1)),
       Returned deleted)
    end.

Definition createTag (now id : Z) (input : CreateTagInput) : Handler (option Tag) :=
  result <- insert_tag now id (ct_name input) (ct_slug input) ;;
  ret (hd_error result).

Definition tag_not_found (id : Z) : string :=
  ("Tag with id " ++ id_text id ++ " not found")%string.

Definition updateTag (now : Z) (input : UpdateTagInput) : Handler (option Tag) :=
  let updateData := mkTagUpdate (ut_name input) (ut_slug input) (Some now) in
  result <- update_tag updateData (ut_id input) ;;
  when (Nat.eqb (List.length result) 0) (throw (JsError (tag_not_found (ut_id input)))) ;;;
  ret (hd_error result).

Definition deleteTag (tagId : Z) : Handler bool :=
  (* First delete all blog post associations *)
  delete_blogPostTags_of_tag tagId ;;;
  (* Then delete the tag itself *)
  result <- delete_tag tagId ;;
  when (Nat.eqb (List.length result) 0) (throw (JsError (tag_not_found tagId))) ;;;
  ret true.

(** [result.length > 0 ? result[0] : null] *)
Definition getTagById (tagId : Z) (db : Db) : option Tag :=
  let result := rows_where (Some (eq_ tag_id tagId)) (tagsTable db) in
  if (0 <? Z.of_nat (List.length result)) then hd_error result else None.

Definition getTagBySlug (slug : string) (db : Db) : option Tag :=
  let result := rows_where (Some (fun t => String.eqb (tag_slug t) slug)) (tagsTable db) in
  if (0 <? Z.of_nat (List.length result)) then hd_error result else None.

(** ** Category handlers ([server/src/handlers/tags.ts], categories) *)

Record CreateCategoryInput := mkCreateCategoryInput {
  cc_name : string;
  cc_slug : string;
  (** [string | null | undefined]; [None] stands for null and undefined,
      which [input.description || null] does not tell apart *)
  cc_description : option string
}.

Record UpdateCategoryInput := mkUpdateCategoryInput {
  uc_id : Z;
  uc_name : option string;
  uc_slug : option string;
  (** outer [None] is [undefined]; [Some None] is [null] *)
  uc_description : option (option string)
}.

(** [db.insert(categoriesTable).values({ name, slug, description }).returning().execute()] *)
Definition insert_category (now id : Z) (name slug : string) (description : option string)
  : Handler (list Category) :=
  fun db =>
    if existsb (fun c => Z.eqb (category_id c) id) (categoriesTable db) then
      (db, Thrown (StoreError "categories_pkey"))
    else if existsb (fun c => String.eqb (category_slug c) slug) (categoriesTable db) then
      (db, Thrown (StoreError "categories_slug_unique"))
    else
      let row := mkCategory id name slug description now now in
      (with_categories db (categoriesTable db ++ [row]), Returned [row]).

(** The object [updateData] of [updateCategory]. *)
Record CategoryUpdate := mkCategoryUpdate {
  set_category_name : option string;
  set_category_slug : option string;
  set_category_description : option (option string);
  set_category_updated_at : option Z
}.

Definition apply_category_update (u : CategoryUpdate) (c : Category) : Category :=
  mkCategory (category_id c)
    (or_else (set_category_name u) (category_name c))
    (or_else (set_category_slug u) (category_slug c))
    (or_else (set_category_description u) (category_description c))
    (category_created_at c)
    (or_else (set_category_updated_at u) (category_updated_at c)).

(** [db.update(categoriesTable).set(u).where(eq(id, target)).returning().execute()]:
    refused when [target] is outside the range of the id column, and when the
    table would hold a slug twice. *)
Definition update_category (u : CategoryUpdate) (target : Z) : Handler (list Category) :=
  fun db =>
    let rows := map (fun c => if Z.eqb (category_id c) target
                              then apply_category_update u c else c)
                    (categoriesTable db) in
    if negb (int4 target) then (db, Thrown (StoreError OUT_OF_RANGE))
    else if nodupb String.eqb (map category_slug rows) then
      (with_categories db rows, Returned (filter (fun c => Z.eqb (category_id c) target) rows))
    else (db, Thrown (StoreError "categories_slug_unique")).

(** [db.delete(blogPostCategoriesTable).where(eq(category_id, categoryId)).execute()]:
    refused when [categoryId] is outside the range of the column. *)
Definition delete_blogPostCategories_of_category (categoryId : Z) : Handler unit :=
  fun db =>
    if negb (int4 categoryId) then (db, Thrown (StoreError OUT_OF_RANGE))
    else
      (with_blogPostCategories db
         (filter (fun r => negb (Z.eqb (bpc_category_id r) categoryId))
                 (blogPostCategoriesTable db)),
       Returned tt).

(** [db.delete(categoriesTable).where(eq(id, categoryId)).returning({ id }).execute()]:
    the ids of the deleted rows; the join rows that reference a deleted
    category go with it.  [deleteCategory] runs it after the store has
    accepted [categoryId] in the statement before. *)
Definition delete_category (categoryId : Z) : Handler (list Z) :=
  fun db =>
    let deleted := filter (fun c => Z.eqb (category_id c) categoryId) (categoriesTable db) in
    let db1 := with_categories db
                 (filter (fun c => negb (Z.eqb (category_id c) categoryId))
                         (categoriesTable db)) in
    match deleted with
    | [] => (db1, Returned (map category_id deleted))
    | _ =>
      (with_blogPostCategories db1
         (filter (fun r => negb (Z.eqb (bpc_category_id r) categoryId))
                 (blogPostCategoriesTable db1)),
       Returned (map category_id deleted))
    end.

Definition createCategory (now id : Z) (input : CreateCategoryInput)
  : Handler (option Category) :=
  (* Insert category record *)
  result <- insert_category now id (cc_name input) (cc_slug input)
              (or_null (cc_description input)) ;;
  ret (hd_error result).

Definition category_not_found (id : Z) : string :=
  ("Category with id " ++ id_text id ++ " not found")%string.

Definition updateCategory (now : Z) (input : UpdateCategoryInput) : Handler (option Category) :=
  (* Build update object dynamically *)
  let updateData :=
    mkCategoryUpdate (uc_name input) (uc_slug input) (uc_description input) (Some now) in
  (* Update category record *)
  result <- update_category updateData (uc_id input) ;;
  when (Nat.eqb (List.length result) 0)
       (throw (JsError (category_not_found (uc_id input)))) ;;;
  ret (hd_error result).

Definition deleteCategory (categoryId : Z) : Handler bool :=
  (* First, remove all category associations from blog posts *)
  delete_blogPostCategories_of_category categoryId ;;;
  (* Then delete the category *)
  result <- delete_category categoryId ;;
  when (Nat.eqb (List.length result) 0)
       (throw (JsError (category_not_found categoryId))) ;;;
  ret true.

(** [result[0] || null]: a row is an object, hence truthy. *)
Definition getCategoryById (categoryId : Z) (db : Db) : option Category :=
  hd_error (rows_where (Some (eq_ category_id categoryId)) (categoriesTable db)).

Definition getCategoryBySlug (slug : string) (db : Db) : option Category :=
  hd_error (rows_where (Some (fun c => String.eqb (category_slug c) slug))
                       (categoriesTable db)).

(** ** User handlers ([server/src/handlers/users.ts]) *)

Record CreateUserInput := mkCreateUserInput {
  cu_email : string;
  cu_username : string;
  cu_password : string;
  cu_first_name : string;
  cu_last_name : string;
  cu_role : Role;
  cu_avatar_url : option string;
  cu_bio : option string
}.

Record UpdateUserInput := mkUpdateUserInput {
  uu_id : Z;
  uu_email : option string;
  uu_username : option string;
  uu_first_name : option string;
  uu_last_name : option string;
  uu_role : option Role;
  (** outer [None] is [undefined]; [Some None] is [null] *)
  uu_avatar_url : option (option string);
  uu_bio : option (option string);
  uu_is_active : option bool
}.

(** The values of [db.insert(usersTable).values({...})]. *)
Record NewUser := mkNewUser {
  nu_email : string;
  nu_username : string;
  nu_password_hash : string;
  nu_first_name : string;
  nu_last_name : string;
  nu_role : Role;
  nu_avatar_url : option string;
  nu_bio : option string;
  nu_is_active : bool
}.

(** [db.insert(usersTable).values(v).returning().execute()]: refused on a
    taken id, a taken email and a taken username. *)
Definition insert_user (now id : Z) (v : NewUser) : Handler (list User) :=
  fun db =>
    if existsb (fun u => Z.eqb (user_id u) id) (usersTable db) then
      (db, Thrown (StoreError "users_pkey"))
    else if existsb (fun u => String.eqb (user_email u) (nu_email v)) (usersTable db) then
      (db, Thrown (StoreError "users_email_unique"))
    else if existsb (fun u => String.eqb (user_username u) (nu_username v)) (usersTable db) then
      (db, Thrown (StoreError "users_username_unique"))
    else
      let row := mkUser id (nu_email v) (nu_username v) (nu_password_hash v)
                   (nu_first_name v) (nu_last_name v) (nu_role v) (nu_avatar_url v)
                   (nu_bio v) (nu_is_active v) now now in
      (with_users db (usersTable db ++ [row]), Returned [row]).

(** The object [updateFields] of [updateUser]. *)
Record UserUpdate := mkUserUpdate {
  set_email : option string;
  set_username : option string;
  set_first_name : option string;
  set_last_name : option string;
  set_role : option Role;
  set_avatar_url : option (option string);
  set_bio : option (option string);
  set_is_active : option bool;
  set_user_updated_at : option Z
}.

Definition apply_user_update (f : UserUpdate) (u : User) : User :=
  mkUser (user_id u)
    (or_else (set_email f) (user_email u))
    (or_else (set_username f) (user_username u))
    (user_password_hash u)
    (or_else (set_first_name f) (user_first_name u))
    (or_else (set_last_name f) (user_last_name u))
    (or_else (set_role f) (user_role u))
    (or_else (set_avatar_url f) (user_avatar_url u))
    (or_else (set_bio f) (user_bio u))
    (or_else (set_is_active f) (user_is_active u))
    (user_created_at u)
    (or_else (set_user_updated_at f) (user_updated_at u)).

(** [db.update(usersTable).set(f).where(eq(id, target)).returning().execute()]:
    refused when [target] is outside the range of the id column, and when the
    table would hold an email or a username twice. *)
Definition update_user (f : UserUpdate) (target : Z) : Handler (list User) :=
  fun db =>
    let rows := map (fun u => if Z.eqb (user_id u) target then apply_user_update f u else u)
                    (usersTable db) in
    if negb (int4 target) then (db, Thrown (StoreError OUT_OF_RANGE))
    else if negb (nodupb String.eqb (map user_email rows)) then
      (db, Thrown (StoreError "users_email_unique"))
    else if negb (nodupb String.eqb (map user_username rows)) then
      (db, Thrown (StoreError "users_username_unique"))
    else
      (with_users db rows, Returned (filter (fun u => Z.eqb (user_id u) target) rows)).

(** [db.delete(usersTable).where(eq(id, userId)).returning().execute()]:
    refused when [userId] is outside the range of the id column.  The posts
    of a deleted user go with it, and with them their rows in both join
    tables ([onDelete: 'cascade'] on [author_id] and on [blog_post_id]). *)
Definition delete_user (userId : Z) : Handler (list User) :=
  fun db =>
    let deleted := filter (fun u => Z.eqb (user_id u) userId) (usersTable db) in
    let db1 := with_users db (filter (fun u => negb (Z.eqb (user_id u) userId)) (usersTable db)) in
    if negb (int4 userId) then (db, Thrown (StoreError OUT_OF_RANGE))
    else
      match deleted with
      | [] => (db1, Returned deleted)
      | _ =>
        let gone := filter (fun p => Z.eqb (post_author_id p) userId) (blogPostsTable db1) in
        let is_gone (id : Z) := existsb (fun p => Z.eqb (post_id p) id) gone in
        let db2 := with_blogPosts db1
                     (filter (fun p => negb (Z.eqb (post_author_id p) userId))
                             (blogPostsTable db1)) in
        let db3 := with_blogPostCategories db2
                     (filter (fun r => negb (is_gone (bpc_blog_post_id r)))
                             (blogPostCategoriesTable db2)) in
        (with_blogPostTags db3
           (filter (fun r => negb (is_gone (bpt_blog_post_id r))) (blogPostTagsTable db3)),
         Returned deleted)
      end.

(** [passwordHash] is the string [Bun.password.hash(input.password)] resolved
    to: a salted hash, different from call to call. *)
Definition createUser (now id : Z) (passwordHash : string) (input : CreateUserInput)
  : Handler (option User) :=
  (* Insert user record *)
  result <- insert_user now id
              (mkNewUser (cu_email input) (cu_username input) passwordHash
                 (cu_first_name input) (cu_last_name input) (cu_role input)
                 (or_null (cu_avatar_url input)) (or_null (cu_bio input)) true) ;;
  ret (hd_error result).

Definition USER_NOT_FOUND : string := "User not found".

Definition updateUser (now : Z) (input : UpdateUserInput) : Handler (option User) :=
  (* Build update object with only provided fields *)
  let updateFields :=
    mkUserUpdate (uu_email input) (uu_username input) (uu_first_name input)
      (uu_last_name input) (uu_role input) (uu_avatar_url input) (uu_bio input)
      (uu_is_active input)
      (* Always update the updated_at timestamp *)
      (Some now) in
  result <- update_user updateFields (uu_id input) ;;
  when (Nat.eqb (List.length result) 0) (throw (JsError USER_NOT_FOUND)) ;;;
  ret (hd_error result).

Definition deleteUser (userId : Z) : Handler bool :=
  result <- delete_user userId ;;
  when (Nat.eqb (List.length result) 0) (throw (JsError USER_NOT_FOUND)) ;;;
  ret true.

(** Returns the row as stored, [password_hash] included. *)
Definition getUserById (userId : Z) (db : Db) : option User :=
  let result := rows_where (Some (eq_ user_id userId)) (usersTable db) in
  if (0 <? Z.of_nat (List.length result)) then hd_error result else None.

(** ** The AdSense upsert ([updateAdSenseConfig]) *)

Record UpdateAdSenseConfigInput := mkUpdateAdSenseConfigInput {
  uac_publisher_id : string;
  (** [string | null | undefined]; [None] stands for null and undefined,
      which [input.ad_slot_header ?? null] does not tell apart.  The empty
      string is kept: [??] replaces null and undefined only. *)
  uac_ad_slot_header : option string;
  uac_ad_slot_sidebar : option string;
  uac_ad_slot_footer : option string;
  uac_ad_slot_in_content : option string;
  uac_is_enabled : bool
}.

(** [db.update(adSenseConfigTable).set({...}).returning().execute()]: there
    is no [where], so the values are written to every row of the table and
    every row is returned.  The table has no constraint besides its key,
    which the statement does not write. *)
Definition update_adSenseConfig (now : Z) (input : UpdateAdSenseConfigInput)
  : Handler (list AdSenseConfig) :=
  fun db =>
    let rows :=
      map (fun c => mkAdSenseConfig (adsense_id c) (uac_publisher_id input)
                      (uac_ad_slot_header input) (uac_ad_slot_sidebar input)
                      (uac_ad_slot_footer input) (uac_ad_slot_in_content input)
                      (uac_is_enabled input) (adsense_created_at c) now)
          (adSenseConfigTable db) in
    (with_adSenseConfig db rows, Returned rows).

(** [db.insert(adSenseConfigTable).values({...}).returning().execute()] *)
Definition insert_adSenseConfig (now id : Z) (input : UpdateAdSenseConfigInput)
  : Handler (list AdSenseConfig) :=
  fun db =>
    if existsb (fun c => Z.eqb (adsense_id c) id) (adSenseConfigTable db) then
      (db, Thrown (StoreError "adsense_config_pkey"))
    else
      let row := mkAdSenseConfig id (uac_publisher_id input)
                   (uac_ad_slot_header input) (uac_ad_slot_sidebar input)
                   (uac_ad_slot_footer input) (uac_ad_slot_in_content input)
                   (uac_is_enabled input) now now in
      (with_adSenseConfig db (adSenseConfigTable db ++ [row]), Returned [row]).

Definition updateAdSenseConfig (now id : Z) (input : UpdateAdSenseConfigInput)
  : Handler (option AdSenseConfig) :=
  fun db =>
    (* Check if config already exists *)
    match getAdSenseConfig db with
    | Some _ =>
      (* Update existing config *)
      (results <- update_adSenseConfig now input ;;
       ret (hd_error results)) db
    | None =>
      (* Create new config *)
      (results <- insert_adSenseConfig now id input ;;
       ret (hd_error results)) db
    end.

(** ** The user helper of [auth.ts] ([createUserWithHashedPassword]) *)

Record UserData := mkUserData {
  ud_email : string;
  ud_username : string;
  ud_password : string;
  ud_first_name : string;
  ud_last_name : string;
  (** optional: [None] is [undefined] *)
  ud_role : option Role;
  ud_avatar_url : option string;
  ud_bio : option string;
  ud_is_active : option bool
}.

Section AuthHelper.
Context {rt : Runtime}.

Definition createUserWithHashedPassword (now id : Z) (userData : UserData) : Handler object :=
  let password_hash := hashPassword (ud_password userData) in
  result <- insert_user now id
              (mkNewUser (ud_email userData) (ud_username userData) password_hash
                 (ud_first_name userData) (ud_last_name userData)
                 (or_else (ud_role userData) author)
                 (or_null (ud_avatar_url userData)) (or_null (ud_bio userData))
                 (or_else (ud_is_active userData) true)) ;;
  match result with
  | [] => throw (JsError "TypeError: undefined is not an object")
  | user :: _ => ret (obj_rest "password_hash" (User_object user))
  end.
End AuthHelper.

(** ** Vocabulary for the properties below *)

(** The relations [getBlogPostById] and the listing attach to a post. *)
Definition categories_of (db : Db) (postId : Z) : list Category :=
  map snd (filter (fun r : BlogPostCategory * Category =>
                     Z.eqb (bpc_blog_post_id (fst r)) postId)
                  (categories_joined db)).

Definition tags_of (db : Db) (postId : Z) : list Tag :=
  map snd (filter (fun r : BlogPostTag * Tag => Z.eqb (bpt_blog_post_id (fst r)) postId)
                  (tags_joined db)).

(** The array [conditions] of [getBlogPosts] when the main query runs. *)
Definition listing_conditions (input : BlogPostsQueryInput) (db : Db)
  : list (BlogPost -> bool) :=
  main_conditions input ++
  match filteredPostIds input db with
  | Some ids => opt_list (or_ (map (fun id => eq_ post_id id) ids))
  | None => []
  end.




(** A post with its relations, as the listing and the detail view build it. *)
Definition with_relations (db : Db) (result : BlogPost * User) : BlogPostWithRelations :=
  mkBlogPostWithRelations (fst result) (snd result)
    (categories_of db (post_id (fst result))) (tags_of db (post_id (fst result))).



(** The rows of the main query of [getBlogPosts], page cut out. *)
Definition listing_results (input : BlogPostsQueryInput) (db : Db) : list (BlogPost * User) :=
  limit_offset (q_limit input) ((q_page input - 1) * q_limit input)
    (orderBy_desc (fun r => post_created_at (fst r))
       (filter (fun r => forallb (fun c => c (fst r)) (listing_conditions input db))
               (posts_with_authors db))).


(** Every post has a stored author (the foreign key of [author_id]). *)
Definition authors_stored (db : Db) : Prop :=
  forall p, In p (blogPostsTable db) -> user_exists db (post_author_id p).


(** ** The constraints of the schema

    What [server/src/db/schema.ts] declares, table by table: primary keys and
    unique columns, the sequence of [blog_posts.id], and the foreign keys of
    the posts and of the two join tables. *)

Definition unique_users (users : list User) : Prop :=
  NoDup (map user_id users)
  /\ NoDup (map user_email users)
  /\ NoDup (map user_username users).

Definition unique_categories (categories : list Category) : Prop :=
  NoDup (map category_id categories) /\ NoDup (map category_slug categories).

Definition unique_tags (tags : list Tag) : Prop :=
  NoDup (map tag_id tags) /\ NoDup (map tag_slug tags).

Definition unique_posts (posts : list BlogPost) (seq : Z) : Prop :=
  NoDup (map post_id posts)
  /\ NoDup (map post_slug posts)
  /\ forall p, In p posts -> post_id p <= seq.

Definition category_links (posts : list BlogPost) (categories : list Category)
    (rows : list BlogPostCategory) : Prop :=
  NoDup rows
  /\ (forall r, In r rows -> exists p, In p posts /\ post_id p = bpc_blog_post_id r)
  /\ (forall r, In r rows -> exists c, In c categories /\ category_id c = bpc_category_id r).

Definition tag_links (posts : list BlogPost) (tags : list Tag) (rows : list BlogPostTag)
  : Prop :=
  NoDup rows
  /\ (forall r, In r rows -> exists p, In p posts /\ post_id p = bpt_blog_post_id r)
  /\ (forall r, In r rows -> exists t, In t tags /\ tag_id t = bpt_tag_id r).

Definition authors_of (posts : list BlogPost) (users : list User) : Prop :=
  forall p, In p posts -> exists u, In u users /\ user_id u = post_author_id p.

Record consistent (db : Db) : Prop := mkConsistent {
  cs_users : unique_users (usersTable db);
  cs_categories : unique_categories (categoriesTable db);
  cs_tags : unique_tags (tagsTable db);
  cs_posts : unique_posts (blogPostsTable db) (blog_posts_id_seq db);
  cs_category_links :
    category_links (blogPostsTable db) (categoriesTable db) (blogPostCategoriesTable db);
  cs_tag_links : tag_links (blogPostsTable db) (tagsTable db) (blogPostTagsTable db);
  cs_authors : authors_of (blogPostsTable db) (usersTable db);
  cs_adsense : NoDup (map adsense_id (adSenseConfigTable db))
}.

(** A handler keeps the constraints, whether it returns or throws. *)
Definition preserves {A} (m : Handler A) : Prop :=
  forall db, consistent db -> consistent (fst (m db)).

(** The two stores hold the same rows in every table. *)
Definition same_tables (db db2 : Db) : Prop :=
  usersTable db2 = usersTable db
  /\ categoriesTable db2 = categoriesTable db
  /\ tagsTable db2 = tagsTable db
  /\ blogPostsTable db2 = blogPostsTable db
  /\ blogPostCategoriesTable db2 = blogPostCategoriesTable db
  /\ blogPostTagsTable db2 = blogPostTagsTable db
  /\ adSenseConfigTable db2 = adSenseConfigTable db.

(** The store after [createBlogPost] has stored [post] and its association
    rows. *)
Definition with_new_post (db : Db) (post : BlogPost) (category_ids tag_ids : list Z) : Db :=
  mkDb (usersTable db) (categoriesTable db) (tagsTable db) (blogPostsTable db ++ [post])
       (blogPostCategoriesTable db
        ++ map (fun c => mkBlogPostCategory (post_id post) c) category_ids)
       (blogPostTagsTable db ++ map (fun t => mkBlogPostTag (post_id post) t) tag_ids)
       (adSenseConfigTable db) (blog_posts_id_seq db + 1).

(** The ids are pairwise distinct and each one is the key of a stored row. *)
Definition resolve {R} (key : R -> Z) (rows : list R) (ids : list Z) : Prop :=
  NoDup ids /\ forall id, In id ids -> exists r, In r rows /\ key r = id.

(** The values [updateBlogPost] writes to the row of [post]. *)
Definition update_values (now : Z) (input : UpdateBlogPostInput) (post : BlogPost)
  : BlogPostUpdate :=
  let publishedAt :=
    match ubp_status input, post_status post with
    | Some published, draft => Some now
    | Some draft, _ => None
    | _, _ => post_published_at post
    end in
  mkBlogPostUpdate (ubp_title input) (ubp_slug input) (ubp_content input)
    (ubp_excerpt input) (ubp_featured_image_url input) (ubp_status input)
    (match ubp_status input with Some _ => Some publishedAt | None => None end)
    (Some now).

(** The store after [updateBlogPost] has written the row of [post] and
    replaced the associations that were supplied. *)
Definition with_updated_post (now : Z) (input : UpdateBlogPostInput) (post : BlogPost)
    (db : Db) : Db :=
  let id := ubp_id input in
  mkDb (usersTable db) (categoriesTable db) (tagsTable db)
       (map (fun p => if Z.eqb (post_id p) id
                      then apply_update (update_values now input post) p else p)
            (blogPostsTable db))
       (match ubp_category_ids input with
        | Some ids =>
          filter (fun r => negb (Z.eqb (bpc_blog_post_id r) id)) (blogPostCategoriesTable db)
          ++ map (fun c => mkBlogPostCategory id c) ids
        | None => blogPostCategoriesTable db
        end)
       (match ubp_tag_ids input with
        | Some ids =>
          filter (fun r => negb (Z.eqb (bpt_blog_post_id r) id)) (blogPostTagsTable db)
          ++ map (fun t => mkBlogPostTag id t) ids
        | None => blogPostTagsTable db
        end)
       (adSenseConfigTable db) (blog_posts_id_seq db).

(** The columns [updateAdSenseConfig] writes, for a row with the given id and
    creation time. *)
Definition adsense_values (now : Z) (input : UpdateAdSenseConfigInput) (id created : Z)
  : AdSenseConfig :=
  mkAdSenseConfig id (uac_publisher_id input) (uac_ad_slot_header input)
    (uac_ad_slot_sidebar input) (uac_ad_slot_footer input) (uac_ad_slot_in_content input)
    (uac_is_enabled input) created now.

Section TokenVocabulary.
Context {rt : Runtime}.

(** The claims [createToken] signs at the clock reading [issued]. *)
Definition issued_claims (issued userId : Z) (email role : string) : jsval :=
  JObj [ ("userId", JNum userId); ("email", JStr email); ("role", JStr role);
         ("iat", JNum (issued / 1000));
         ("exp", JNum (issued / 1000 + JWT_EXPIRES_IN_HOURS * 60 * 60)) ].

(** The runtime reads back the claims it has written: [atob] decodes the
    base64 text without its padding, and [JSON.parse] inverts
    [JSON.stringify]. *)
Definition reads_back (claims : jsval) : Prop :=
  atob (strip_equals (btoa (JSON_stringify claims))) = Some (JSON_stringify claims)
  /\ JSON_parse (JSON_stringify claims) = Some claims.

(** What [verifyTokenSignature] returns for an accepted token of a user. *)
Definition decoded_claims (userId : Z) (email role : string) : Decoded :=
  mkDecoded (Some (JNum userId)) (Some (JStr email)) (Some (JStr role)).
End TokenVocabulary.

(** * Properties *)

(** ** Counting the rows selected by a list of ids *)

Section CountById.
Variable R : Type.
Variable key : R -> Z.

Lemma by_ids_spec ids r : by_ids key ids r = true <-> In (key r) ids.
Proof.
  unfold by_ids, eq_. rewrite existsb_exists. split.
  - intros [c [Hc Hr]]. apply in_map_iff in Hc. destruct Hc as [id [<- Hid]].
    apply Z.eqb_eq in Hr. now rewrite Hr.
  - intros H. exists (fun r0 => Z.eqb (key r0) (key r)). split.
    + apply in_map_iff. now exists (key r).
    + apply Z.eqb_refl.
Qed.

Lemma NoDup_map_filter (p : R -> bool) rows :
  NoDup (map key rows) -> NoDup (map key (filter p rows)).
Proof.
  induction rows as [|r rows IH]; simpl; intros H; [constructor|].
  inversion H as [|? ? Hn Hd]; subst.
  destruct (p r); simpl; auto. constructor; auto.
  intros Hin. apply Hn. apply in_map_iff in Hin. destruct Hin as [x [Hx Hf]].
  apply in_map_iff. exists x. split; auto. now apply filter_In in Hf.
Qed.

Lemma selected_keys_incl ids rows :
  incl (map key (filter (by_ids key ids) rows)) ids.
Proof.
  intros k Hk. apply in_map_iff in Hk. destruct Hk as [r [<- Hr]].
  apply filter_In in Hr. now apply by_ids_spec.
Qed.

(** The count comparison of the handlers succeeds exactly when the ids are
    pairwise distinct and each one is the key of a row. *)
Lemma count_matches_iff ids rows :
  NoDup (map key rows) ->
  (List.length (filter (by_ids key ids) rows) = List.length ids
   <-> NoDup ids /\ forall id, In id ids -> exists r, In r rows /\ key r = id).
Proof.
  intros Hpk.
  pose proof (NoDup_map_filter (by_ids key ids) rows Hpk) as Hnd.
  pose proof (selected_keys_incl ids rows) as Hincl.
  split.
  - intros Hlen.
    assert (Hle : (List.length ids <= List.length (map key (filter (by_ids key ids) rows)))%nat)
      by (rewrite length_map; lia).
    split.
    + eapply NoDup_incl_NoDup; eauto.
    + intros id Hid.
      pose proof (NoDup_length_incl Hnd Hle Hincl id Hid) as Hin.
      apply in_map_iff in Hin. destruct Hin as [r [Hk Hr]].
      exists r. split; auto. now apply filter_In in Hr.
  - intros [Hids Hall].
    assert (Hback : incl ids (map key (filter (by_ids key ids) rows))).
    { intros id Hid. destruct (Hall id Hid) as [r [Hr Hk]].
      apply in_map_iff. exists r. split; auto.
      apply filter_In. split; auto. apply by_ids_spec. now rewrite Hk. }
    pose proof (NoDup_incl_length Hids Hback) as H1.
    pose proof (NoDup_incl_length Hnd Hincl) as H2.
    rewrite length_map in H1, H2. lia.
Qed.

Lemma rows_where_or_ids ids rows :
  ids <> [] ->
  rows_where (or_ (map (fun id => eq_ key id) ids)) rows = filter (by_ids key ids) rows.
Proof.
  destruct ids as [|i ids]; [congruence|]. reflexivity.
Qed.
End CountById.

Lemma first_selected {R} (p : R -> bool) rows r :
  In r rows -> p r = true ->
  (forall r', In r' rows -> p r' = true -> r' = r) ->
  hd_error (filter p rows) = Some r.
Proof.
  intros Hin Hp Huniq.
  assert (Hf : In r (filter p rows)) by (apply filter_In; auto).
  destruct (filter p rows) as [|x l] eqn:E; [contradiction|].
  assert (Hx : In x (filter p rows)) by (rewrite E; now left).
  apply filter_In in Hx. destruct Hx as [Hx1 Hx2]. simpl. f_equal. auto.
Qed.

Lemma NoDup_map_unique {R K} (f : R -> K) rows r r' :
  NoDup (map f rows) -> In r rows -> In r' rows -> f r = f r' -> r = r'.
Proof.
  induction rows as [|x rows IH]; simpl; intros Hnd Hr Hr' Hf; [contradiction|].
  inversion Hnd as [|? ? Hx Hrest]; subst.
  destruct Hr as [-> | Hr], Hr' as [-> | Hr']; auto.
  - exfalso. apply Hx. rewrite Hf. now apply in_map.
  - exfalso. apply Hx. rewrite <- Hf. now apply in_map.
Qed.

(** ** Running the handler monad *)

Lemma bind_run {A B} (m : Handler A) (k : A -> Handler B) db :
  bind m k db =
  match m db with
  | (db', Returned a) => k a db'
  | (db', Thrown e) => (db', Thrown e)
  end.
Proof. reflexivity. Qed.

Lemma when_run c body db :
  when c body db = if c then body db else (db, Returned tt).
Proof. now destruct c. Qed.

Lemma bind_thrown {A B} (m : Handler A) (k : A -> Handler B) db db2 e :
  bind m k db = (db2, Thrown e) ->
  m db = (db2, Thrown e)
  \/ exists a db1, m db = (db1, Returned a) /\ k a db1 = (db2, Thrown e).
Proof.
  rewrite bind_run. destruct (m db) as [db1 [a|e1]]; intros H.
  - right. now exists a, db1.
  - left. now inversion H.
Qed.

Lemma bind_returned {A B} (m : Handler A) (k : A -> Handler B) db db2 b :
  bind m k db = (db2, Returned b) ->
  exists a db1, m db = (db1, Returned a) /\ k a db1 = (db2, Returned b).
Proof.
  rewrite bind_run. destruct (m db) as [db1 [a|e1]]; intros H.
  - now exists a, db1.
  - discriminate.
Qed.

Lemma when_thrown c body db db2 e :
  when c body db = (db2, Thrown e) -> c = true /\ body db = (db2, Thrown e).
Proof. rewrite when_run. destruct c; [auto | discriminate]. Qed.

(** ** createBlogPost: validation of the referenced ids *)

Lemma author_selected db authorId :
  user_exists db authorId ->
  Nat.eqb (List.length (rows_where (Some (eq_ user_id authorId)) (usersTable db))) 0 = false.
Proof.
  intros [u [Hin Hid]]. apply Nat.eqb_neq. simpl.
  assert (H : In u (filter (eq_ user_id authorId) (usersTable db))).
  { apply filter_In. split; auto. unfold eq_. now apply Z.eqb_eq. }
  destruct (filter (eq_ user_id authorId) (usersTable db)); [contradiction | discriminate].
Qed.

Lemma insert_blogPost_thrown now v db db2 e :
  insert_blogPost now v db = (db2, Thrown e) -> exists c, e = StoreError c.
Proof.
  unfold insert_blogPost.
  repeat match goal with
         | |- context [if ?b then _ else _] => destruct b eqn:?
         end;
    intros H; inversion H; eauto.
Qed.

Lemma insert_blogPostCategories_thrown rows db db2 e :
  rows <> [] ->
  insert_blogPostCategories rows db = (db2, Thrown e) -> exists c, e = StoreError c.
Proof.
  unfold insert_blogPostCategories. destruct rows; [congruence|]. intros _.
  repeat match goal with
         | |- context [if ?b then _ else _] => destruct b eqn:?
         end;
    intros H; inversion H; eauto.
Qed.

Lemma insert_blogPostTags_thrown rows db db2 e :
  rows <> [] ->
  insert_blogPostTags rows db = (db2, Thrown e) -> exists c, e = StoreError c.
Proof.
  unfold insert_blogPostTags. destruct rows; [congruence|]. intros _.
  repeat match goal with
         | |- context [if ?b then _ else _] => destruct b eqn:?
         end;
    intros H; inversion H; eauto.
Qed.

Lemma positive_length_nonempty {A} (l : list A) :
  (0 <? Z.of_nat (List.length l)) = true -> l <> [].
Proof. destruct l; [discriminate | congruence]. Qed.

Lemma given_nonempty_spec ids :
  given_nonempty ids = true -> exists l, ids = Some l /\ l <> [].
Proof.
  destruct ids as [l|]; simpl; [|discriminate]. intros H. exists l. split; auto.
  now apply positive_length_nonempty.
Qed.

Lemma select_run {R} (table : Db -> list R) w {B} (k : list R -> Handler B) db :
  forallb int4 (where_int4 w) = true ->
  bind (select_from table w) k db = k (rows_where (where_test w) (table db)) db.
Proof. intros H. unfold bind, select_from. now rewrite H. Qed.

Lemma select_refused {R} (table : Db -> list R) w {B} (k : list R -> Handler B) db :
  forallb int4 (where_int4 w) = false ->
  bind (select_from table w) k db = (db, Thrown (StoreError OUT_OF_RANGE)).
Proof. intros H. unfold bind, select_from. now rewrite H. Qed.

Lemma select_eq_run {R} (table : Db -> list R) column value {B}
    (k : list R -> Handler B) db :
  int4 value = true ->
  bind (select_from table (where_eq column value)) k db
  = k (rows_where (Some (eq_ column value)) (table db)) db.
Proof. intros H. apply select_run. simpl. now rewrite H. Qed.

Lemma select_eq_refused {R} (table : Db -> list R) column value {B}
    (k : list R -> Handler B) db :
  int4 value = false ->
  bind (select_from table (where_eq column value)) k db
  = (db, Thrown (StoreError OUT_OF_RANGE)).
Proof. intros H. apply select_refused. simpl. now rewrite H. Qed.

Lemma select_any_run {R} (table : Db -> list R) column ids {B}
    (k : list R -> Handler B) db :
  forallb int4 ids = true ->
  bind (select_from table (where_any column ids)) k db
  = k (rows_where (or_ (map (fun id => eq_ column id) ids)) (table db)) db.
Proof. intros H. now apply select_run. Qed.

Lemma select_any_refused {R} (table : Db -> list R) column ids {B}
    (k : list R -> Handler B) db :
  forallb int4 ids = false ->
  bind (select_from table (where_any column ids)) k db
  = (db, Thrown (StoreError OUT_OF_RANGE)).
Proof. intros H. now apply select_refused. Qed.

Lemma when_bind_run c body {B} (k : unit -> Handler B) db :
  bind (when c body) k db =
  if c then bind body k db else k tt db.
Proof. now destruct c. Qed.

(** The validation steps of [createBlogPost], in the order in which they run. *)
Lemma createBlogPost_validation now input authorId db :
  user_exists db authorId ->
  int4 authorId = true ->
  forallb int4 (cbp_category_ids input) = true ->
  forallb int4 (or_else (cbp_tag_ids input) []) = true ->
  let cats := rows_where (or_ (map (fun id => eq_ category_id id) (cbp_category_ids input)))
                         (categoriesTable db) in
  let tags := rows_where (or_ (map (fun id => eq_ tag_id id) (or_else (cbp_tag_ids input) [])))
                         (tagsTable db) in
  (Nat.eqb (List.length cats) (List.length (cbp_category_ids input)) = false ->
   createBlogPost now input authorId db = (db, Thrown (JsError CATEGORIES_NOT_FOUND)))
  /\ (Nat.eqb (List.length cats) (List.length (cbp_category_ids input)) = true ->
      given_nonempty (cbp_tag_ids input) = true ->
      Nat.eqb (List.length tags) (List.length (or_else (cbp_tag_ids input) [])) = false ->
      createBlogPost now input authorId db = (db, Thrown (JsError TAGS_NOT_FOUND)))
  /\ (Nat.eqb (List.length cats) (List.length (cbp_category_ids input)) = true ->
      (given_nonempty (cbp_tag_ids input) = true ->
       Nat.eqb (List.length tags) (List.length (or_else (cbp_tag_ids input) [])) = true) ->
      forall db2 e,
        createBlogPost now input authorId db = (db2, Thrown e) ->
        e = JsError "TypeError: undefined is not an object"
        \/ exists c, e = StoreError c).
Proof.
  intros Hauthor Ra Rc Rt cats tags.
  pose proof (author_selected Hauthor) as Ha.
  unfold createBlogPost.
  rewrite select_eq_run by exact Ra. rewrite when_bind_run, Ha.
  rewrite select_any_run by exact Rc. rewrite when_bind_run. fold cats.
  repeat split.
  - intros ->. reflexivity.
  - intros -> Hg Ht. cbn [negb].
    rewrite when_bind_run, Hg, bind_run, select_any_run by exact Rt. fold tags.
    rewrite when_run, Ht. reflexivity.
  - intros -> Htags db2 e. cbn [negb].
    rewrite bind_run, when_run.
    assert (Hv : (if given_nonempty (cbp_tag_ids input)
                  then bind (select_from tagsTable
                         (where_any tag_id (or_else (cbp_tag_ids input) [])))
                         (fun tags0 => when (negb (Nat.eqb (List.length tags0)
                              (List.length (or_else (cbp_tag_ids input) []))))
                            (throw (JsError TAGS_NOT_FOUND))) db
                  else (db, Returned tt)) = (db, Returned tt)).
    { destruct (given_nonempty (cbp_tag_ids input)); [|reflexivity].
      rewrite select_any_run by exact Rt. fold tags.
      rewrite when_run, (Htags eq_refl). reflexivity. }
    rewrite Hv. clear Hv.
    intros H. apply bind_thrown in H. destruct H as [H | [result [db1 [Hi H]]]].
    + right. eapply insert_blogPost_thrown; eauto.
    + destruct result as [|blogPost rest].
      * left. inversion H. reflexivity.
      * right. apply bind_thrown in H. destruct H as [H | [[] [db3 [_ H]]]].
        { apply when_thrown in H. destruct H as [Hc H].
          eapply insert_blogPostCategories_thrown; [|exact H].
          apply positive_length_nonempty in Hc. now destruct (cbp_category_ids input). }
        apply bind_thrown in H. destruct H as [H | [[] [db4 [_ H]]]].
        { apply when_thrown in H. destruct H as [Hc H].
          eapply insert_blogPostTags_thrown; [|exact H].
          apply given_nonempty_spec in Hc. destruct Hc as [l [-> Hl]]. simpl.
          now destruct l. }
        inversion H.
Qed.

(** ** Ids that resolve and the count check *)

Section Resolve.
Variable R : Type.
Variable key : R -> Z.

Lemma key_dec (rows : list R) id :
  (exists r, In r rows /\ key r = id) \/ ~ (exists r, In r rows /\ key r = id).
Proof.
  destruct (existsb (fun r => Z.eqb (key r) id) rows) eqn:E.
  - left. apply existsb_exists in E. destruct E as [r [Hr Hk]].
    exists r. split; auto. now apply Z.eqb_eq.
  - right. intros [r [Hr Hk]].
    assert (existsb (fun r => Z.eqb (key r) id) rows = true); [|congruence].
    apply existsb_exists. exists r. split; auto. now apply Z.eqb_eq.
Qed.

Lemma all_or_missing (rows : list R) ids :
  (forall id, In id ids -> exists r, In r rows /\ key r = id)
  \/ (exists id, In id ids /\ ~ (exists r, In r rows /\ key r = id)).
Proof.
  induction ids as [|i ids IH].
  - left. intros id [].
  - destruct (key_dec rows i) as [Hi | Hi].
    + destruct IH as [IH | [id [Hid Hn]]].
      * left. intros id [<- | Hid]; auto.
      * right. exists id. split; [now right | exact Hn].
    + right. exists i. split; [now left | exact Hi].
Qed.

(** The count check of the handlers on a non-empty id list. *)
Lemma count_check_passes ids rows :
  NoDup (map key rows) -> ids <> [] ->
  (Nat.eqb (List.length (rows_where (or_ (map (fun id => eq_ key id) ids)) rows))
           (List.length ids) = true
   <-> NoDup ids /\ forall id, In id ids -> exists r, In r rows /\ key r = id).
Proof.
  intros Hpk Hne. rewrite rows_where_or_ids by exact Hne.
  rewrite Nat.eqb_eq. now apply count_matches_iff.
Qed.

Lemma count_check_fails_missing ids rows :
  NoDup (map key rows) -> ids <> [] ->
  (exists id, In id ids /\ ~ (exists r, In r rows /\ key r = id)) ->
  Nat.eqb (List.length (rows_where (or_ (map (fun id => eq_ key id) ids)) rows))
          (List.length ids) = false.
Proof.
  intros Hpk Hne [id [Hid Hn]].
  destruct (Nat.eqb _ _) eqn:E; [|reflexivity].
  apply count_check_passes in E; auto. destruct E as [_ Hall].
  exfalso. apply Hn. now apply Hall.
Qed.

Lemma count_check_fails_NoDup ids rows :
  NoDup (map key rows) -> ids <> [] -> NoDup ids ->
  Nat.eqb (List.length (rows_where (or_ (map (fun id => eq_ key id) ids)) rows))
          (List.length ids) = false ->
  exists id, In id ids /\ ~ (exists r, In r rows /\ key r = id).
Proof.
  intros Hpk Hne Hnd E.
  destruct (all_or_missing rows ids) as [Hall | Hmiss]; [|exact Hmiss].
  assert (Nat.eqb (List.length (rows_where (or_ (map (fun id => eq_ key id) ids)) rows))
                  (List.length ids) = true) by (apply count_check_passes; auto).
  congruence.
Qed.
End Resolve.

(** C1, amended.  In a store whose category and tag ids are primary keys, for
    a call whose author exists, whose [category_ids] is non-empty (the input
    schema requires one id at least) and whose ids are all within the range
    of the 32-bit id columns (the store refuses a lookup with an id outside
    it):
    - an id of [category_ids] that is no category makes the call fail with
      "One or more categories not found", and when [category_ids] holds no id
      twice that error is raised only then;
    - once every category id is distinct and exists, an id of [tag_ids] that
      is no tag makes the call fail with "One or more tags not found", and
      when [tag_ids] holds no id twice that error is raised only then;
    - when both lists hold distinct ids that all exist, neither error is
      raised;
    - a call that fails with either error leaves the store as it was. *)
Theorem createBlogPost_reference_checks now input authorId db :
  primary_keys db ->
  user_exists db authorId ->
  cbp_category_ids input <> [] ->
  int4 authorId = true ->
  forallb int4 (cbp_category_ids input) = true ->
  forallb int4 (or_else (cbp_tag_ids input) []) = true ->
  let r := createBlogPost now input authorId db in
  let category_ids := cbp_category_ids input in
  let tag_ids := or_else (cbp_tag_ids input) [] in
  ((exists id, In id category_ids /\ ~ category_exists db id) ->
   fails_with r CATEGORIES_NOT_FOUND)
  /\ (NoDup category_ids -> fails_with r CATEGORIES_NOT_FOUND ->
      exists id, In id category_ids /\ ~ category_exists db id)
  /\ (NoDup category_ids -> (forall id, In id category_ids -> category_exists db id) ->
      (exists id, In id tag_ids /\ ~ tag_exists db id) ->
      fails_with r TAGS_NOT_FOUND)
  /\ (NoDup tag_ids -> fails_with r TAGS_NOT_FOUND ->
      exists id, In id tag_ids /\ ~ tag_exists db id)
  /\ (NoDup category_ids -> NoDup tag_ids ->
      (forall id, In id category_ids -> category_exists db id) ->
      (forall id, In id tag_ids -> tag_exists db id) ->
      ~ fails_with r CATEGORIES_NOT_FOUND /\ ~ fails_with r TAGS_NOT_FOUND)
  /\ (fails_with r CATEGORIES_NOT_FOUND \/ fails_with r TAGS_NOT_FOUND -> fst r = db).
Proof.
  intros [Hck Htk] Hauthor Hne Ra Rc Rt r category_ids tag_ids.
  destruct (createBlogPost_validation now input Hauthor Ra Rc Rt) as [Vc [Vt Vok]].
  fold category_ids tag_ids in Vc, Vt, Vok.
  set (cats := rows_where (or_ (map (fun id => eq_ category_id id) category_ids))
                          (categoriesTable db)) in *.
  set (tags := rows_where (or_ (map (fun id => eq_ tag_id id) tag_ids)) (tagsTable db)) in *.
  assert (Hcats_ok : NoDup category_ids ->
            (forall id, In id category_ids -> category_exists db id) ->
            Nat.eqb (List.length cats) (List.length category_ids) = true).
  { intros Hnd Hall. apply count_check_passes; auto. }
  assert (Htags_case : given_nonempty (cbp_tag_ids input) = true -> tag_ids <> []).
  { intros Hg. apply given_nonempty_spec in Hg. destruct Hg as [l [Hl Hn]].
    unfold tag_ids. now rewrite Hl. }
  assert (Htags_none : given_nonempty (cbp_tag_ids input) = false -> tag_ids = []).
  { unfold tag_ids. destruct (cbp_tag_ids input) as [[|x l]|]; auto. discriminate. }
  split; [|split; [|split; [|split; [|split]]]].
  - (* a missing category makes the call fail *)
    intros Hmiss. unfold fails_with, r. rewrite Vc; [reflexivity|].
    apply count_check_fails_missing; auto.
  - (* the categories error points at a missing category *)
    intros Hnd Hf.
    destruct (Nat.eqb (List.length cats) (List.length category_ids)) eqn:E.
    + exfalso. unfold fails_with, r in Hf.
      destruct (given_nonempty (cbp_tag_ids input)) eqn:Hg.
      * destruct (Nat.eqb (List.length tags) (List.length tag_ids)) eqn:Et.
        -- destruct (createBlogPost now input authorId db) as [db2 o] eqn:Hr.
           simpl in Hf. subst o.
           destruct (Vok eq_refl (fun _ => eq_refl) _ _ eq_refl) as [H | [c H]];
             discriminate.
        -- rewrite (Vt eq_refl eq_refl eq_refl) in Hf. discriminate.
      * destruct (createBlogPost now input authorId db) as [db2 o] eqn:Hr.
        simpl in Hf. subst o.
        destruct (Vok eq_refl (fun H => ltac:(discriminate)) _ _ eq_refl) as [H | [c H]];
          discriminate.
    + apply (count_check_fails_NoDup category_id); auto.
  - (* a missing tag makes the call fail once the categories pass *)
    intros Hnd Hall [id [Hid Hmiss]]. unfold fails_with, r.
    assert (Hg : given_nonempty (cbp_tag_ids input) = true).
    { destruct (given_nonempty (cbp_tag_ids input)) eqn:Hg; auto.
      rewrite (Htags_none eq_refl) in Hid. contradiction. }
    rewrite Vt; auto.
    apply count_check_fails_missing; auto. now exists id.
  - (* the tags error points at a missing tag *)
    intros Hnd Hf. unfold fails_with, r in Hf.
    destruct (Nat.eqb (List.length cats) (List.length category_ids)) eqn:E.
    + destruct (given_nonempty (cbp_tag_ids input)) eqn:Hg.
      * destruct (Nat.eqb (List.length tags) (List.length tag_ids)) eqn:Et.
        -- exfalso.
           destruct (createBlogPost now input authorId db) as [db2 o] eqn:Hr.
           simpl in Hf. subst o.
           destruct (Vok eq_refl (fun _ => eq_refl) _ _ eq_refl) as [H | [c H]];
             discriminate.
        -- apply (count_check_fails_NoDup tag_id); auto.
      * exfalso.
        destruct (createBlogPost now input authorId db) as [db2 o] eqn:Hr.
        simpl in Hf. subst o.
        destruct (Vok eq_refl (fun H => ltac:(discriminate)) _ _ eq_refl) as [H | [c H]];
          discriminate.
    + rewrite (Vc eq_refl) in Hf. discriminate.
  - (* valid references raise neither error *)
    intros Hnc Hnt Hac Hat.
    assert (Ht : given_nonempty (cbp_tag_ids input) = true ->
                 Nat.eqb (List.length tags) (List.length tag_ids) = true).
    { intros Hg. apply count_check_passes; auto. }
    split; intros Hf; unfold fails_with, r in Hf;
      destruct (createBlogPost now input authorId db) as [db2 o] eqn:Hr;
      simpl in Hf; subst o;
      destruct (Vok (Hcats_ok Hnc Hac) Ht _ _ eq_refl) as [H | [c H]]; discriminate.
  - (* both errors are raised before any write *)
    intros Hf. unfold fails_with, r in *.
    destruct (Nat.eqb (List.length cats) (List.length category_ids)) eqn:E;
      [|now rewrite (Vc eq_refl)].
    destruct (given_nonempty (cbp_tag_ids input)) eqn:Hg.
    + destruct (Nat.eqb (List.length tags) (List.length tag_ids)) eqn:Et;
        [|now rewrite (Vt eq_refl eq_refl eq_refl)].
      exfalso.
      destruct (createBlogPost now input authorId db) as [db2 o] eqn:Hr.
      simpl in Hf.
      destruct Hf as [Hf | Hf]; subst o;
        destruct (Vok eq_refl (fun _ => eq_refl) _ _ eq_refl) as [H | [c H]];
        discriminate.
    + exfalso.
      destruct (createBlogPost now input authorId db) as [db2 o] eqn:Hr.
      simpl in Hf.
      destruct Hf as [Hf | Hf]; subst o;
        destruct (Vok eq_refl (fun H => ltac:(discriminate)) _ _ eq_refl) as [H | [c H]];
        discriminate.
Qed.

Lemma sample_primary_keys : primary_keys sample_db.
Proof.
  split; simpl; repeat constructor; simpl; intuition discriminate.
Qed.

Lemma sample_categories_exist id : In id [1; 2] -> category_exists sample_db id.
Proof.
  intros [<- | [<- | []]]; [exists news | exists tech]; simpl; auto.
Qed.

Lemma sample_tags_exist id : In id [2] -> tag_exists sample_db id.
Proof.
  intros [<- | []]. exists web_tag. simpl; auto.
Qed.

Lemma createBlogPost_reference_checks_witness :
  let r := createBlogPost 5000 (sample_create [1; 2] (Some [2]) draft) 1 sample_db in
  ~ fails_with r CATEGORIES_NOT_FOUND /\ ~ fails_with r TAGS_NOT_FOUND.
Proof.
  assert (Hauthor : user_exists sample_db 1) by (exists alice; simpl; auto).
  assert (Hne : cbp_category_ids (sample_create [1; 2] (Some [2]) draft) <> [])
    by discriminate.
  pose proof (createBlogPost_reference_checks 5000
                (sample_create [1; 2] (Some [2]) draft)
                sample_primary_keys Hauthor Hne eq_refl eq_refl eq_refl) as H.
  apply H.
  - simpl. repeat constructor; simpl; intuition discriminate.
  - simpl. repeat constructor; simpl; intuition discriminate.
  - exact sample_categories_exist.
  - exact sample_tags_exist.
Defined.

(** C1 as stated fails at three inputs, all for the existing author 1 of the
    sample store.  With [category_ids = [1; 1]] every id is an existing
    category and the call still fails with "One or more categories not
    found".  With [category_ids = [9999]] and [tag_ids = [9999]] the tag id
    is no tag and [tag_ids] is non-empty, but the call does not fail with
    "One or more tags not found": the categories are checked first.  With
    [category_ids = [2147483648]] the id is no category, but the call does
    not fail with "One or more categories not found": the store refuses the
    lookup, the id being outside the range of the column. *)
Lemma createBlogPost_reference_checks_counterexample :
  ((forall id, In id [1; 1] -> category_exists sample_db id)
   /\ fails_with (createBlogPost 5000 (sample_create [1; 1] None draft) 1 sample_db)
                 CATEGORIES_NOT_FOUND)
  /\ (~ tag_exists sample_db 9999
      /\ ~ fails_with (createBlogPost 5000 (sample_create [9999] (Some [9999]) draft)
                                      1 sample_db)
                      TAGS_NOT_FOUND)
  /\ (~ category_exists sample_db 2147483648
      /\ ~ fails_with (createBlogPost 5000 (sample_create [2147483648] None draft)
                                      1 sample_db)
                      CATEGORIES_NOT_FOUND
      /\ createBlogPost 5000 (sample_create [2147483648] None draft) 1 sample_db
         = (sample_db, Thrown (StoreError OUT_OF_RANGE))).
Proof.
  split; [split|split; [split|split; [|split]]].
  - intros id [<- | [<- | []]]; exists news; simpl; auto.
  - reflexivity.
  - intros [t [Hin Hid]]. simpl in Hin.
    destruct Hin as [<- | [<- | []]]; discriminate.
  - unfold fails_with. vm_compute. discriminate.
  - intros [c [Hin Hid]]. simpl in Hin.
    destruct Hin as [<- | [<- | []]]; discriminate.
  - unfold fails_with. vm_compute. discriminate.
  - reflexivity.
Qed.

(** ** updateBlogPost: what a call does *)

Lemma when_returned c body db db2 :
  when c body db = (db2, Returned tt) ->
  (c = false /\ db2 = db) \/ (c = true /\ body db = (db2, Returned tt)).
Proof. rewrite when_run. destruct c; intros H; [now right | left; now inversion H]. Qed.

Lemma check_returned c e db db2 :
  when c (throw e) db = (db2, Returned tt) -> c = false /\ db2 = db.
Proof.
  intros H. apply when_returned in H. destruct H as [H | [_ H]]; [exact H | discriminate].
Qed.

(** A validation step leaves the store untouched when it passes. *)
Lemma validation_returned {R} ids (table : Db -> list R) (key : R -> Z) message db db2 :
  when (given_nonempty ids)
       (rows <- select_from table (where_any key (or_else ids [])) ;;
        when (negb (Nat.eqb (List.length rows) (List.length (or_else ids []))))
             (throw (JsError message))) db = (db2, Returned tt) ->
  db2 = db.
Proof.
  intros H. apply when_returned in H. destruct H as [[_ H] | [_ H]]; [exact H|].
  destruct (forallb int4 (or_else ids [])) eqn:Ri.
  - rewrite select_any_run in H by exact Ri. apply check_returned in H. tauto.
  - rewrite select_any_refused in H by exact Ri. discriminate.
Qed.

Lemma insert_blogPostCategories_returned rows db db2 :
  insert_blogPostCategories rows db = (db2, Returned tt) ->
  db2 = with_blogPostCategories db (blogPostCategoriesTable db ++ rows)
  /\ nodupb BlogPostCategory_eqb (blogPostCategoriesTable db ++ rows) = true.
Proof.
  unfold insert_blogPostCategories. destruct rows as [|x rows]; [discriminate|].
  repeat match goal with
         | |- context [if negb ?b then _ else _] => destruct b eqn:?; cbn [negb]
         end;
    intros H; inversion H; auto.
Qed.

Lemma insert_blogPostTags_returned rows db db2 :
  insert_blogPostTags rows db = (db2, Returned tt) ->
  db2 = with_blogPostTags db (blogPostTagsTable db ++ rows)
  /\ nodupb BlogPostTag_eqb (blogPostTagsTable db ++ rows) = true.
Proof.
  unfold insert_blogPostTags. destruct rows as [|x rows]; [discriminate|].
  repeat match goal with
         | |- context [if negb ?b then _ else _] => destruct b eqn:?; cbn [negb]
         end;
    intros H; inversion H; auto.
Qed.

Lemma update_blogPost_returned u target db db2 result :
  update_blogPost u target db = (db2, Returned result) ->
  let rows := map (fun p => if Z.eqb (post_id p) target then apply_update u p else p)
                  (blogPostsTable db) in
  db2 = with_blogPosts db rows
  /\ result = filter (fun p => Z.eqb (post_id p) target) rows.
Proof.
  unfold update_blogPost. destruct (nodupb _ _); intros H; inversion H; auto.
Qed.

Lemma nodupb_app_r {A} (eqb : A -> A -> bool) a b :
  nodupb eqb (a ++ b) = true -> nodupb eqb b = true.
Proof.
  induction a as [|x a IH]; simpl; auto.
  intros H. apply andb_true_iff in H. tauto.
Qed.

Lemma nodupb_NoDup {A} (eqb : A -> A -> bool) :
  (forall x y, eqb x y = true <-> x = y) ->
  forall l, nodupb eqb l = true -> NoDup l.
Proof.
  intros Heq. induction l as [|x l IH]; simpl; intros H; [constructor|].
  apply andb_true_iff in H. destruct H as [Hx Hl]. constructor; auto.
  intros Hin. apply negb_true_iff in Hx.
  assert (existsb (eqb x) l = true); [|congruence].
  apply existsb_exists. exists x. split; auto. now apply Heq.
Qed.

Lemma BlogPostCategory_eqb_eq x y : BlogPostCategory_eqb x y = true <-> x = y.
Proof.
  destruct x as [a b], y as [c d]. unfold BlogPostCategory_eqb. simpl.
  rewrite andb_true_iff, !Z.eqb_eq. split; [intros [-> ->]; reflexivity|].
  intros H. now inversion H.
Qed.

Lemma BlogPostTag_eqb_eq x y : BlogPostTag_eqb x y = true <-> x = y.
Proof.
  destruct x as [a b], y as [c d]. unfold BlogPostTag_eqb. simpl.
  rewrite andb_true_iff, !Z.eqb_eq. split; [intros [-> ->]; reflexivity|].
  intros H. now inversion H.
Qed.

(** The category step of [updateBlogPost]. *)
Lemma replace_categories_returned id category_ids db db2 :
  (match category_ids with
   | Some ids =>
     delete_blogPostCategories id ;;;
     when (0 <? Z.of_nat (List.length ids))
          (insert_blogPostCategories (map (fun c => mkBlogPostCategory id c) ids))
   | None => ret tt
   end) db = (db2, Returned tt) ->
  match category_ids with
  | Some ids =>
    let kept := filter (fun r => negb (Z.eqb (bpc_blog_post_id r) id))
                       (blogPostCategoriesTable db) in
    db2 = with_blogPostCategories db (kept ++ map (fun c => mkBlogPostCategory id c) ids)
    /\ nodupb BlogPostCategory_eqb (map (fun c => mkBlogPostCategory id c) ids) = true
  | None => db2 = db
  end.
Proof.
  destruct category_ids as [ids|].
  - intros H. apply bind_returned in H. destruct H as [[] [db1 [Hd H]]].
    unfold delete_blogPostCategories in Hd. inversion Hd; subst db1; clear Hd.
    apply when_returned in H. destruct H as [[Hc ->] | [Hc H]].
    + destruct ids; [|discriminate]. simpl. rewrite app_nil_r. auto.
    + apply insert_blogPostCategories_returned in H. destruct H as [-> Hnd].
      simpl. split; [reflexivity|].
      simpl in Hnd. now apply nodupb_app_r in Hnd.
  - intros H. now inversion H.
Qed.

Lemma replace_tags_returned id tag_ids db db2 :
  (match tag_ids with
   | Some ids =>
     delete_blogPostTags id ;;;
     when (0 <? Z.of_nat (List.length ids))
          (insert_blogPostTags (map (fun t => mkBlogPostTag id t) ids))
   | None => ret tt
   end) db = (db2, Returned tt) ->
  match tag_ids with
  | Some ids =>
    let kept := filter (fun r => negb (Z.eqb (bpt_blog_post_id r) id))
                       (blogPostTagsTable db) in
    db2 = with_blogPostTags db (kept ++ map (fun t => mkBlogPostTag id t) ids)
    /\ nodupb BlogPostTag_eqb (map (fun t => mkBlogPostTag id t) ids) = true
  | None => db2 = db
  end.
Proof.
  destruct tag_ids as [ids|].
  - intros H. apply bind_returned in H. destruct H as [[] [db1 [Hd H]]].
    unfold delete_blogPostTags in Hd. inversion Hd; subst db1; clear Hd.
    apply when_returned in H. destruct H as [[Hc ->] | [Hc H]].
    + destruct ids; [|discriminate]. simpl. rewrite app_nil_r. auto.
    + apply insert_blogPostTags_returned in H. destruct H as [-> Hnd].
      simpl. split; [reflexivity|].
      simpl in Hnd. now apply nodupb_app_r in Hnd.
  - intros H. now inversion H.
Qed.

(** What a returning call of [updateBlogPost] has done. *)
Lemma updateBlogPost_returned now input uid role db db2 r :
  updateBlogPost now input uid role db = (db2, Returned r) ->
  exists post others,
    rows_where (Some (eq_ post_id (ubp_id input))) (blogPostsTable db) = post :: others
    /\ (negb (String.eqb role "super_admin") && negb (Z.eqb (post_author_id post) uid)) = false
    /\ let publishedAt :=
         match ubp_status input, post_status post with
         | Some published, draft => Some now
         | Some draft, _ => None
         | _, _ => post_published_at post
         end in
       let updateValues :=
         mkBlogPostUpdate (ubp_title input) (ubp_slug input) (ubp_content input)
           (ubp_excerpt input) (ubp_featured_image_url input) (ubp_status input)
           (match ubp_status input with Some _ => Some publishedAt | None => None end)
           (Some now) in
       exists db1 db3,
        db1 = with_blogPosts db
                (map (fun p => if Z.eqb (post_id p) (ubp_id input)
                               then apply_update updateValues p else p)
                     (blogPostsTable db))
        /\ r = hd_error (filter (fun p => Z.eqb (post_id p) (ubp_id input))
                                (blogPostsTable db1))
        /\ match ubp_category_ids input with
           | Some ids =>
             db3 = with_blogPostCategories db1
                     (filter (fun r => negb (Z.eqb (bpc_blog_post_id r) (ubp_id input)))
                             (blogPostCategoriesTable db1)
                      ++ map (fun c => mkBlogPostCategory (ubp_id input) c) ids)
             /\ nodupb BlogPostCategory_eqb
                       (map (fun c => mkBlogPostCategory (ubp_id input) c) ids) = true
           | None => db3 = db1
           end
        /\ match ubp_tag_ids input with
           | Some ids =>
             db2 = with_blogPostTags db3
                     (filter (fun r => negb (Z.eqb (bpt_blog_post_id r) (ubp_id input)))
                             (blogPostTagsTable db3)
                      ++ map (fun t => mkBlogPostTag (ubp_id input) t) ids)
             /\ nodupb BlogPostTag_eqb
                       (map (fun t => mkBlogPostTag (ubp_id input) t) ids) = true
           | None => db2 = db3
           end.
Proof.
  unfold updateBlogPost.
  destruct (int4 (ubp_id input)) eqn:Ri;
    [rewrite select_eq_run by exact Ri
    | rewrite select_eq_refused by exact Ri; discriminate].
  destruct (rows_where (Some (eq_ post_id (ubp_id input))) (blogPostsTable db))
    as [|post others]; [discriminate|].
  intros H. exists post, others. split; [reflexivity|].
  apply bind_returned in H. destruct H as [[] [dba [Hperm H]]].
  apply check_returned in Hperm. destruct Hperm as [Hperm ->]. split; [exact Hperm|].
  apply bind_returned in H. destruct H as [[] [dbb [Hc H]]].
  apply validation_returned in Hc. subst dbb.
  apply bind_returned in H. destruct H as [[] [dbc [Ht H]]].
  apply validation_returned in Ht. subst dbc.
  cbv zeta in H.
  apply bind_returned in H. destruct H as [result [db1 [Hu H]]].
  apply update_blogPost_returned in Hu. cbv zeta in Hu. destruct Hu as [Hdb1 Hres].
  apply bind_returned in H. destruct H as [[] [db3 [Hcat H]]].
  apply replace_categories_returned in Hcat.
  apply bind_returned in H. destruct H as [[] [db4 [Htag H]]].
  apply replace_tags_returned in Htag.
  inversion H; subst db4 r; clear H.
  cbv zeta. exists db1, db3.
  split; [exact Hdb1|]. split.
  { rewrite Hres, Hdb1. reflexivity. }
  split; [exact Hcat | exact Htag].
Qed.

Lemma absent_categories_untouched now input uid role db :
  ubp_category_ids input = None ->
  blogPostCategoriesTable (fst (updateBlogPost now input uid role db))
  = blogPostCategoriesTable db.
Proof.
  intros Hnone.
  unfold updateBlogPost, bind, select_from, when, throw, ret, update_blogPost,
    delete_blogPostTags, insert_blogPostTags.
  rewrite Hnone. cbn [given_nonempty].
  destruct (forallb int4 _); [|reflexivity].
  destruct (rows_where _ (blogPostsTable db)) as [|post others]; [reflexivity|].
  destruct (negb (String.eqb role "super_admin") && negb (Z.eqb (post_author_id post) uid));
    [reflexivity|].
  destruct (given_nonempty (ubp_tag_ids input)).
  - destruct (forallb int4 _); [|reflexivity].
    destruct (negb (Nat.eqb _ _)); [reflexivity|].
    destruct (nodupb String.eqb _); [|reflexivity].
    destruct (ubp_tag_ids input) as [ids|]; [|reflexivity].
    destruct (0 <? Z.of_nat (List.length ids)); [|reflexivity].
    destruct (map _ ids); [reflexivity|].
    repeat match goal with
           | |- context [if negb ?b then _ else _] => destruct b; cbn [negb]
           end;
      reflexivity.
  - destruct (nodupb String.eqb _); [|reflexivity].
    destruct (ubp_tag_ids input) as [ids|]; [|reflexivity].
    destruct (0 <? Z.of_nat (List.length ids)); [|reflexivity].
    destruct (map _ ids); [reflexivity|].
    repeat match goal with
           | |- context [if negb ?b then _ else _] => destruct b; cbn [negb]
           end;
      reflexivity.
Qed.

Lemma absent_tags_untouched now input uid role db :
  ubp_tag_ids input = None ->
  blogPostTagsTable (fst (updateBlogPost now input uid role db))
  = blogPostTagsTable db.
Proof.
  intros Hnone.
  unfold updateBlogPost, bind, select_from, when, throw, ret, update_blogPost,
    delete_blogPostCategories, insert_blogPostCategories.
  rewrite Hnone. cbn [given_nonempty].
  destruct (forallb int4 _); [|reflexivity].
  destruct (rows_where _ (blogPostsTable db)) as [|post others]; [reflexivity|].
  destruct (negb (String.eqb role "super_admin") && negb (Z.eqb (post_author_id post) uid));
    [reflexivity|].
  destruct (given_nonempty (ubp_category_ids input)).
  - destruct (forallb int4 _); [|reflexivity].
    destruct (negb (Nat.eqb _ _)); [reflexivity|].
    destruct (nodupb String.eqb _); [|reflexivity].
    destruct (ubp_category_ids input) as [ids|]; [|reflexivity].
    destruct (0 <? Z.of_nat (List.length ids)); [|reflexivity].
    destruct (map _ ids); [reflexivity|].
    repeat match goal with
           | |- context [if negb ?b then _ else _] => destruct b; cbn [negb]
           end;
      reflexivity.
  - destruct (nodupb String.eqb _); [|reflexivity].
    destruct (ubp_category_ids input) as [ids|]; [|reflexivity].
    destruct (0 <? Z.of_nat (List.length ids)); [|reflexivity].
    destruct (map _ ids); [reflexivity|].
    repeat match goal with
           | |- context [if negb ?b then _ else _] => destruct b; cbn [negb]
           end;
      reflexivity.
Qed.

(** ** Replacing the associations of a post *)

Lemma filter_filter_negb {A} (p : A -> bool) l :
  filter p (filter (fun x => negb (p x)) l) = [].
Proof.
  induction l as [|x l IH]; simpl; auto.
  destruct (p x) eqn:E; simpl; auto. now rewrite E.
Qed.

Lemma filter_idem {A} (p : A -> bool) l : filter p (filter p l) = filter p l.
Proof.
  induction l as [|x l IH]; simpl; auto.
  destruct (p x) eqn:E; simpl; auto. now rewrite E, IH.
Qed.

Lemma filter_all {A} (p : A -> bool) l :
  (forall x, In x l -> p x = true) -> filter p l = l.
Proof.
  induction l as [|x l IH]; simpl; intros H; auto.
  rewrite (H x (or_introl eq_refl)). f_equal. apply IH. auto.
Qed.

Lemma filter_none {A} (p : A -> bool) l :
  (forall x, In x l -> p x = false) -> filter p l = [].
Proof.
  induction l as [|x l IH]; simpl; intros H; auto.
  rewrite (H x (or_introl eq_refl)). apply IH. auto.
Qed.

Lemma NoDup_map_inv' {A B} (f : A -> B) l : NoDup (map f l) -> NoDup l.
Proof.
  induction l as [|x l IH]; simpl; intros H; [constructor|].
  inversion H; subst. constructor; auto. intros Hin. now apply (in_map f) in Hin.
Qed.

Lemma replaced_categories id ids old :
  let rows := filter (fun r => negb (Z.eqb (bpc_blog_post_id r) id)) old
              ++ map (fun c => mkBlogPostCategory id c) ids in
  filter (fun r => Z.eqb (bpc_blog_post_id r) id) rows
  = map (fun c => mkBlogPostCategory id c) ids
  /\ filter (fun r => negb (Z.eqb (bpc_blog_post_id r) id)) rows
     = filter (fun r => negb (Z.eqb (bpc_blog_post_id r) id)) old.
Proof.
  intros rows. unfold rows. rewrite !filter_app. split.
  - rewrite (filter_filter_negb (fun r => Z.eqb (bpc_blog_post_id r) id)). simpl.
    apply filter_all. intros x Hx. apply in_map_iff in Hx. destruct Hx as [c [<- _]].
    simpl. apply Z.eqb_refl.
  - rewrite filter_idem. rewrite (@filter_none _ _ (map _ ids)); [apply app_nil_r|].
    intros x Hx. apply in_map_iff in Hx. destruct Hx as [c [<- _]].
    simpl. now rewrite Z.eqb_refl.
Qed.

Lemma replaced_tags id ids old :
  let rows := filter (fun r => negb (Z.eqb (bpt_blog_post_id r) id)) old
              ++ map (fun t => mkBlogPostTag id t) ids in
  filter (fun r => Z.eqb (bpt_blog_post_id r) id) rows
  = map (fun t => mkBlogPostTag id t) ids
  /\ filter (fun r => negb (Z.eqb (bpt_blog_post_id r) id)) rows
     = filter (fun r => negb (Z.eqb (bpt_blog_post_id r) id)) old.
Proof.
  intros rows. unfold rows. rewrite !filter_app. split.
  - rewrite (filter_filter_negb (fun r => Z.eqb (bpt_blog_post_id r) id)). simpl.
    apply filter_all. intros x Hx. apply in_map_iff in Hx. destruct Hx as [c [<- _]].
    simpl. apply Z.eqb_refl.
  - rewrite filter_idem. rewrite (@filter_none _ _ (map _ ids)); [apply app_nil_r|].
    intros x Hx. apply in_map_iff in Hx. destruct Hx as [c [<- _]].
    simpl. now rewrite Z.eqb_refl.
Qed.

(** ** Ownership *)




Lemma deleteBlogPost_run postId uid role db :
  deleteBlogPost postId uid role db =
  if int4 postId then
    match stored_post db postId with
    | None => (db, Thrown (JsError "Blog post not found"))
    | Some post =>
      if negb (String.eqb role "super_admin") && negb (Z.eqb (post_author_id post) uid)
      then (db, Thrown (JsError "Permission denied: can only delete your own posts"))
      else (fst (delete_blogPost postId db), Returned true)
    end
  else (db, Thrown (StoreError OUT_OF_RANGE)).
Proof.
  unfold deleteBlogPost, stored_post.
  destruct (int4 postId) eqn:Ri;
    [rewrite select_eq_run by exact Ri
    | now rewrite select_eq_refused by exact Ri].
  destruct (rows_where (Some (eq_ post_id postId)) (blogPostsTable db))
    as [|post others]; simpl hd_error; cbv iota; [reflexivity|].
  rewrite when_bind_run.
  destruct (negb (String.eqb role "super_admin") && negb (Z.eqb (post_author_id post) uid));
    reflexivity.
Qed.








(** ** The published_at timestamp *)

Lemma insert_blogPost_returned now v db db1 result :
  insert_blogPost now v db = (db1, Returned result) ->
  let row := mkBlogPost (blog_posts_id_seq db + 1) (new_title v) (new_slug v)
               (new_content v) (new_excerpt v) (new_author_id v)
               (new_featured_image_url v) (new_status v) (new_published_at v) now now in
  result = [row] /\ blogPostsTable db1 = blogPostsTable db ++ [row].
Proof.
  unfold insert_blogPost.
  repeat match goal with
         | |- context [if ?b then _ else _] => destruct b eqn:?
         end;
    intros H; inversion H; auto.
Qed.

Lemma insert_categories_keeps_posts c rows db db2 :
  when c (insert_blogPostCategories rows) db = (db2, Returned tt) ->
  blogPostsTable db2 = blogPostsTable db.
Proof.
  intros H. apply when_returned in H. destruct H as [[_ ->] | [_ H]]; [reflexivity|].
  apply insert_blogPostCategories_returned in H. now destruct H as [-> _].
Qed.

Lemma insert_tags_keeps_posts c rows db db2 :
  when c (insert_blogPostTags rows) db = (db2, Returned tt) ->
  blogPostsTable db2 = blogPostsTable db.
Proof.
  intros H. apply when_returned in H. destruct H as [[_ ->] | [_ H]]; [reflexivity|].
  apply insert_blogPostTags_returned in H. now destruct H as [-> _].
Qed.

(** What a returning call of [createBlogPost] has stored. *)
Lemma createBlogPost_returned now input authorId db db2 post :
  createBlogPost now input authorId db = (db2, Returned post) ->
  post = mkBlogPost (blog_posts_id_seq db + 1) (cbp_title input) (cbp_slug input)
           (cbp_content input) (or_null (cbp_excerpt input)) authorId
           (or_null (cbp_featured_image_url input)) (cbp_status input)
           (if PostStatus_eqb (cbp_status input) published then Some now else None)
           now now
  /\ blogPostsTable db2 = blogPostsTable db ++ [post].
Proof.
  unfold createBlogPost. intros H.
  destruct (int4 authorId) eqn:Ra;
    [rewrite select_eq_run in H by exact Ra
    | rewrite select_eq_refused in H by exact Ra; discriminate].
  apply bind_returned in H. destruct H as [[] [dba [Ha H]]].
  apply check_returned in Ha. destruct Ha as [_ ->].
  destruct (forallb int4 (cbp_category_ids input)) eqn:Rc;
    [rewrite select_any_run in H by exact Rc
    | rewrite select_any_refused in H by exact Rc; discriminate].
  apply bind_returned in H. destruct H as [[] [dbb [Hc H]]].
  apply check_returned in Hc. destruct Hc as [_ ->].
  apply bind_returned in H. destruct H as [[] [dbc [Ht H]]].
  apply validation_returned in Ht. subst dbc.
  cbv zeta in H.
  apply bind_returned in H. destruct H as [result [db1 [Hi H]]].
  apply insert_blogPost_returned in Hi. cbv zeta in Hi. simpl in Hi.
  destruct Hi as [-> Hposts].
  apply bind_returned in H. destruct H as [[] [dbd [Hcat H]]].
  apply insert_categories_keeps_posts in Hcat.
  apply bind_returned in H. destruct H as [[] [dbe [Htag H]]].
  apply insert_tags_keeps_posts in Htag.
  inversion H; subst. split; [reflexivity|]. congruence.
Qed.

Lemma filter_updated (f : BlogPost -> BlogPost) target rows :
  (forall p, post_id (f p) = post_id p) ->
  filter (fun p => Z.eqb (post_id p) target)
         (map (fun p => if Z.eqb (post_id p) target then f p else p) rows)
  = map f (filter (fun p => Z.eqb (post_id p) target) rows).
Proof.
  intros Hid. induction rows as [|p rows IH]; simpl; auto.
  destruct (Z.eqb (post_id p) target) eqn:E.
  - rewrite Hid, E. simpl. now rewrite IH.
  - rewrite E. exact IH.
Qed.

(** ** Calls that return *)

Lemma NoDup_nodupb {A} (eqb : A -> A -> bool) :
  (forall x y, eqb x y = true <-> x = y) ->
  forall l, NoDup l -> nodupb eqb l = true.
Proof.
  intros Heq. induction l as [|x l IH]; simpl; intros H; [reflexivity|].
  inversion H as [|? ? Hx Hl]; subst. rewrite (IH Hl), andb_true_r.
  apply negb_true_iff. destruct (existsb (eqb x) l) eqn:E; [|reflexivity].
  apply existsb_exists in E. destruct E as [y [Hy Hxy]]. apply Heq in Hxy. now subst y.
Qed.

Lemma NoDup_map_on {A B} (f : A -> B) l :
  NoDup l -> (forall x y, In x l -> In y l -> f x = f y -> x = y) -> NoDup (map f l).
Proof.
  induction l as [|a l IH]; simpl; intros Hnd Hinj; [constructor|].
  inversion Hnd as [|? ? Ha Hl]; subst. constructor.
  - intros Hin. apply in_map_iff in Hin. destruct Hin as [y [Hy Hyl]].
    assert (y = a) by (apply Hinj; auto). now subst y.
  - apply IH; auto.
Qed.

Lemma NoDup_app_disjoint {A} (l1 l2 : list A) :
  NoDup l1 -> NoDup l2 -> (forall x, In x l1 -> In x l2 -> False) -> NoDup (l1 ++ l2).
Proof.
  induction l1 as [|a l1 IH]; simpl; intros H1 H2 Hd; [exact H2|].
  inversion H1 as [|? ? Ha Hl]; subst. constructor.
  - intros Hin. apply in_app_or in Hin. destruct Hin as [Hin | Hin]; [tauto|].
    apply (Hd a); auto.
  - apply IH; auto. intros x Hx. apply Hd. now right.
Qed.

Lemma existsb_id {R} (key : R -> Z) rows id :
  existsb (fun r => Z.eqb (key r) id) rows = true <-> exists r, In r rows /\ key r = id.
Proof.
  rewrite existsb_exists. split; intros [r [Hr Hk]]; exists r; split; auto;
    now apply Z.eqb_eq.
Qed.

Lemma new_category_rows_fit db id ids :
  NoDup ids ->
  (forall c, In c ids -> category_exists db c) ->
  (exists p, In p (blogPostsTable db) /\ post_id p = id) ->
  NoDup (blogPostCategoriesTable db) ->
  (forall r, In r (blogPostCategoriesTable db) -> bpc_blog_post_id r <> id) ->
  ids <> [] ->
  insert_blogPostCategories (map (fun c => mkBlogPostCategory id c) ids) db
  = (with_blogPostCategories db
       (blogPostCategoriesTable db ++ map (fun c => mkBlogPostCategory id c) ids),
     Returned tt).
Proof.
  intros Hnd Hex Hpost Hrows Hother Hne. unfold insert_blogPostCategories.
  destruct (map (fun c => mkBlogPostCategory id c) ids) as [|r0 rest] eqn:Hm.
  { destruct ids; [congruence | discriminate]. }
  rewrite <- Hm.
  assert (H1 : forallb (fun r => existsb (fun p => Z.eqb (post_id p) (bpc_blog_post_id r))
                                         (blogPostsTable db))
                       (map (fun c => mkBlogPostCategory id c) ids) = true).
  { apply forallb_forall. intros r Hr. apply in_map_iff in Hr.
    destruct Hr as [c [<- _]]. simpl. now apply existsb_id. }
  assert (H2 : forallb (fun r => existsb (fun c => Z.eqb (category_id c) (bpc_category_id r))
                                         (categoriesTable db))
                       (map (fun c => mkBlogPostCategory id c) ids) = true).
  { apply forallb_forall. intros r Hr. apply in_map_iff in Hr.
    destruct Hr as [c [<- Hc]]. simpl. apply existsb_id. now apply Hex. }
  assert (H3 : nodupb BlogPostCategory_eqb
                 (blogPostCategoriesTable db ++ map (fun c => mkBlogPostCategory id c) ids)
               = true).
  { apply (NoDup_nodupb _ BlogPostCategory_eqb_eq). apply NoDup_app_disjoint; auto.
    - apply NoDup_map_on; auto. intros x y _ _ E. now inversion E.
    - intros r Hr Hr'. apply in_map_iff in Hr'. destruct Hr' as [c [<- _]].
      now apply (Hother _ Hr). }
  rewrite H1, H2, H3. reflexivity.
Qed.

Lemma new_tag_rows_fit db id ids :
  NoDup ids ->
  (forall t, In t ids -> tag_exists db t) ->
  (exists p, In p (blogPostsTable db) /\ post_id p = id) ->
  NoDup (blogPostTagsTable db) ->
  (forall r, In r (blogPostTagsTable db) -> bpt_blog_post_id r <> id) ->
  ids <> [] ->
  insert_blogPostTags (map (fun t => mkBlogPostTag id t) ids) db
  = (with_blogPostTags db
       (blogPostTagsTable db ++ map (fun t => mkBlogPostTag id t) ids),
     Returned tt).
Proof.
  intros Hnd Hex Hpost Hrows Hother Hne. unfold insert_blogPostTags.
  destruct (map (fun t => mkBlogPostTag id t) ids) as [|r0 rest] eqn:Hm.
  { destruct ids; [congruence | discriminate]. }
  rewrite <- Hm.
  assert (H1 : forallb (fun r => existsb (fun p => Z.eqb (post_id p) (bpt_blog_post_id r))
                                         (blogPostsTable db))
                       (map (fun t => mkBlogPostTag id t) ids) = true).
  { apply forallb_forall. intros r Hr. apply in_map_iff in Hr.
    destruct Hr as [c [<- _]]. simpl. now apply existsb_id. }
  assert (H2 : forallb (fun r => existsb (fun t => Z.eqb (tag_id t) (bpt_tag_id r))
                                         (tagsTable db))
                       (map (fun t => mkBlogPostTag id t) ids) = true).
  { apply forallb_forall. intros r Hr. apply in_map_iff in Hr.
    destruct Hr as [c [<- Hc]]. simpl. apply existsb_id. now apply Hex. }
  assert (H3 : nodupb BlogPostTag_eqb
                 (blogPostTagsTable db ++ map (fun t => mkBlogPostTag id t) ids) = true).
  { apply (NoDup_nodupb _ BlogPostTag_eqb_eq). apply NoDup_app_disjoint; auto.
    - apply NoDup_map_on; auto. intros x y _ _ E. now inversion E.
    - intros r Hr Hr'. apply in_map_iff in Hr'. destruct Hr' as [c [<- _]].
      now apply (Hother _ Hr). }
  rewrite H1, H2, H3. reflexivity.
Qed.

Lemma stored_ids_in_range {R} (key : R -> Z) rows ids :
  (forall r, In r rows -> int4 (key r) = true) ->
  (forall id, In id ids -> exists r, In r rows /\ key r = id) ->
  forallb int4 ids = true.
Proof.
  intros Hrange Hall. apply forallb_forall. intros id Hid.
  destruct (Hall id Hid) as [r [Hr <-]]. now apply Hrange.
Qed.

Lemma validation_passes_categories ids message db :
  NoDup (map category_id (categoriesTable db)) ->
  (forall c, In c (categoriesTable db) -> int4 (category_id c) = true) ->
  valid_category_ids db ids ->
  when (given_nonempty ids)
       (rows <- select_from categoriesTable (where_any category_id (or_else ids [])) ;;
        when (negb (Nat.eqb (List.length rows) (List.length (or_else ids []))))
             (throw (JsError message))) db = (db, Returned tt).
Proof.
  intros Hpk Hrange Hvalid. rewrite when_run.
  destruct (given_nonempty ids) eqn:Hg; [|reflexivity].
  apply given_nonempty_spec in Hg. destruct Hg as [l [-> Hne]]. simpl in Hvalid.
  simpl or_else.
  rewrite select_any_run
    by (apply (stored_ids_in_range category_id (categoriesTable db)); tauto).
  rewrite when_run.
  assert (E : Nat.eqb (List.length (rows_where (or_ (map (fun id => eq_ category_id id) l))
                                               (categoriesTable db)))
                      (List.length l) = true).
  { apply count_check_passes; auto. }
  now rewrite E.
Qed.

Lemma validation_passes_tags ids message db :
  NoDup (map tag_id (tagsTable db)) ->
  (forall t, In t (tagsTable db) -> int4 (tag_id t) = true) ->
  valid_tag_ids db ids ->
  when (given_nonempty ids)
       (rows <- select_from tagsTable (where_any tag_id (or_else ids [])) ;;
        when (negb (Nat.eqb (List.length rows) (List.length (or_else ids []))))
             (throw (JsError message))) db = (db, Returned tt).
Proof.
  intros Hpk Hrange Hvalid. rewrite when_run.
  destruct (given_nonempty ids) eqn:Hg; [|reflexivity].
  apply given_nonempty_spec in Hg. destruct Hg as [l [-> Hne]]. simpl in Hvalid.
  simpl or_else.
  rewrite select_any_run by (apply (stored_ids_in_range tag_id (tagsTable db)); tauto).
  rewrite when_run.
  assert (E : Nat.eqb (List.length (rows_where (or_ (map (fun id => eq_ tag_id id) l))
                                               (tagsTable db)))
                      (List.length l) = true).
  { apply count_check_passes; auto. }
  now rewrite E.
Qed.

Lemma existsb_false {R} (p : R -> bool) rows :
  (forall r, In r rows -> p r = false) -> existsb p rows = false.
Proof.
  intros H. destruct (existsb p rows) eqn:E; [|reflexivity].
  apply existsb_exists in E. destruct E as [r [Hr Hp]]. rewrite (H r Hr) in Hp.
  discriminate.
Qed.

Lemma insert_blogPost_fits now v db :
  (forall p, In p (blogPostsTable db) -> post_id p <= blog_posts_id_seq db) ->
  (forall p, In p (blogPostsTable db) -> post_slug p <> new_slug v) ->
  user_exists db (new_author_id v) ->
  let row := mkBlogPost (blog_posts_id_seq db + 1) (new_title v) (new_slug v)
               (new_content v) (new_excerpt v) (new_author_id v)
               (new_featured_image_url v) (new_status v) (new_published_at v) now now in
  insert_blogPost now v db
  = (with_blogPosts (with_blog_posts_id_seq db (blog_posts_id_seq db + 1))
                    (blogPostsTable db ++ [row]),
     Returned [row]).
Proof.
  intros Hseq Hslug Hauthor row. unfold insert_blogPost.
  rewrite existsb_false.
  2:{ intros p Hp. apply Z.eqb_neq. specialize (Hseq p Hp). lia. }
  rewrite existsb_false.
  2:{ intros p Hp. apply String.eqb_neq. now apply Hslug. }
  assert (E : existsb (fun u => Z.eqb (user_id u) (new_author_id v)) (usersTable db) = true)
    by (now apply existsb_id).
  rewrite E. reflexivity.
Qed.

(** Sufficient conditions for [createBlogPost] to return. *)
Lemma createBlogPost_returns now input authorId db :
  well_formed db -> user_exists db authorId ->
  cbp_category_ids input <> [] ->
  valid_category_ids db (Some (cbp_category_ids input)) ->
  valid_tag_ids db (cbp_tag_ids input) ->
  (forall p, In p (blogPostsTable db) -> post_slug p <> cbp_slug input) ->
  exists db2 post, createBlogPost now input authorId db = (db2, Returned post).
Proof.
  intros Hwf Hauthor Hne [Hcnd Hcex] Htags Hslug.
  assert (Ra : int4 authorId = true).
  { destruct Hauthor as [u [Hu <-]]. now apply (wf_user_range Hwf). }
  assert (Rc : forallb int4 (cbp_category_ids input) = true).
  { apply (stored_ids_in_range category_id (categoriesTable db));
      [apply (wf_category_range Hwf) | exact Hcex]. }
  unfold createBlogPost.
  rewrite select_eq_run by exact Ra. rewrite when_bind_run, (author_selected Hauthor).
  rewrite select_any_run by exact Rc. rewrite when_bind_run.
  assert (Ec : Nat.eqb (List.length (rows_where
                          (or_ (map (fun id => eq_ category_id id) (cbp_category_ids input)))
                          (categoriesTable db)))
                       (List.length (cbp_category_ids input)) = true).
  { apply count_check_passes; auto. apply (wf_category_ids Hwf). }
  rewrite Ec. cbn [negb].
  rewrite bind_run,
    (@validation_passes_tags _ _ _ (wf_tag_ids Hwf) (wf_tag_range Hwf) Htags).
  cbv zeta. rewrite bind_run.
  rewrite insert_blogPost_fits; [|apply (wf_post_seq Hwf) | exact Hslug | exact Hauthor].
  cbv zeta.
  set (row := mkBlogPost _ _ _ _ _ _ _ _ _ _ _).
  set (db1 := with_blogPosts _ _).
  assert (Hrow : exists p, In p (blogPostsTable db1) /\ post_id p = post_id row).
  { exists row. split; [|reflexivity]. unfold db1. simpl. apply in_or_app. right. now left. }
  assert (Hfresh_c : forall r, In r (blogPostCategoriesTable db1) ->
                               bpc_blog_post_id r <> post_id row).
  { intros r Hr. destruct (wf_categories_post Hwf r Hr) as [p [Hp <-]].
    pose proof (wf_post_seq Hwf p Hp). simpl. lia. }
  assert (Hfresh_t : forall r, In r (blogPostTagsTable db1) ->
                               bpt_blog_post_id r <> post_id row).
  { intros r Hr. destruct (wf_tags_post Hwf r Hr) as [p [Hp <-]].
    pose proof (wf_post_seq Hwf p Hp). simpl. lia. }
  rewrite bind_run, when_run.
  assert (Hlen : (0 <? Z.of_nat (List.length (cbp_category_ids input))) = true).
  { destruct (cbp_category_ids input); [congruence | reflexivity]. }
  rewrite Hlen.
  rewrite (@new_category_rows_fit db1 (post_id row) (cbp_category_ids input));
    auto; [|apply (wf_categories_of Hwf)].
  set (db2 := with_blogPostCategories _ _).
  rewrite bind_run, when_run.
  destruct (given_nonempty (cbp_tag_ids input)) eqn:Hg.
  - apply given_nonempty_spec in Hg. destruct Hg as [l [El Hl]].
    rewrite El in *. simpl or_else. simpl in Htags. destruct Htags as [Htnd Htex].
    rewrite (@new_tag_rows_fit db2 (post_id row) l); auto; [|apply (wf_tags_of Hwf)].
    eexists _, _. reflexivity.
  - eexists _, _. reflexivity.
Qed.

Lemma stored_post_In db id post :
  stored_post db id = Some post -> In post (blogPostsTable db) /\ post_id post = id.
Proof.
  unfold stored_post. simpl.
  destruct (filter _ (blogPostsTable db)) as [|x l] eqn:E; [discriminate|].
  simpl. intros H. inversion H; subst x.
  assert (Hin : In post (filter (eq_ post_id id) (blogPostsTable db)))
    by (rewrite E; now left).
  apply filter_In in Hin. destruct Hin as [Hin Hid]. split; auto.
  unfold eq_ in Hid. now apply Z.eqb_eq.
Qed.

Lemma updated_slugs_distinct db u target :
  NoDup (map post_id (blogPostsTable db)) ->
  NoDup (map post_slug (blogPostsTable db)) ->
  slug_available db target (set_slug u) ->
  NoDup (map post_slug
           (map (fun p => if Z.eqb (post_id p) target then apply_update u p else p)
                (blogPostsTable db))).
Proof.
  intros Hids Hslugs Hav. rewrite map_map. apply NoDup_map_on.
  - apply (NoDup_map_inv' post_id _ Hids).
  - intros x y Hx Hy E.
    destruct (Z.eqb (post_id x) target) eqn:Ex, (Z.eqb (post_id y) target) eqn:Ey.
    + apply Z.eqb_eq in Ex, Ey. apply (NoDup_map_unique post_id _ x y Hids); congruence.
    + exfalso. apply Z.eqb_neq in Ey. simpl in E. unfold slug_available in Hav.
      destruct (set_slug u) as [s|]; simpl in E.
      * now apply (Hav y Hy Ey).
      * assert (x = y) by (apply (NoDup_map_unique post_slug _ x y Hslugs); auto).
        subst y. apply Z.eqb_eq in Ex. congruence.
    + exfalso. apply Z.eqb_neq in Ex. simpl in E. unfold slug_available in Hav.
      destruct (set_slug u) as [s|]; simpl in E.
      * now apply (Hav x Hx Ex).
      * assert (x = y) by (apply (NoDup_map_unique post_slug _ x y Hslugs); auto).
        subst y. apply Z.eqb_eq in Ey. congruence.
    + apply (NoDup_map_unique post_slug _ x y Hslugs); auto.
Qed.

Lemma update_blogPost_fits db u target :
  NoDup (map post_id (blogPostsTable db)) ->
  NoDup (map post_slug (blogPostsTable db)) ->
  slug_available db target (set_slug u) ->
  let rows := map (fun p => if Z.eqb (post_id p) target then apply_update u p else p)
                  (blogPostsTable db) in
  update_blogPost u target db
  = (with_blogPosts db rows, Returned (filter (fun p => Z.eqb (post_id p) target) rows)).
Proof.
  intros Hids Hslugs Hav rows. unfold update_blogPost. fold rows.
  assert (E : nodupb String.eqb (map post_slug rows) = true).
  { apply (NoDup_nodupb _ String.eqb_eq). now apply updated_slugs_distinct. }
  now rewrite E.
Qed.

Lemma NoDup_filter' {A} (p : A -> bool) l : NoDup l -> NoDup (filter p l).
Proof.
  induction l as [|x l IH]; simpl; intros H; [constructor|].
  inversion H; subst. destruct (p x); auto. constructor; auto.
  intros Hin. apply filter_In in Hin. tauto.
Qed.

(** Sufficient conditions for [updateBlogPost] to return. *)
Lemma updateBlogPost_returns now input uid role db post :
  well_formed db ->
  stored_post db (ubp_id input) = Some post ->
  authorized role uid post ->
  valid_category_ids db (ubp_category_ids input) ->
  valid_tag_ids db (ubp_tag_ids input) ->
  slug_available db (ubp_id input) (ubp_slug input) ->
  exists db2 new, updateBlogPost now input uid role db = (db2, Returned (Some new)).
Proof.
  intros Hwf Hpost Hauth Hcats Htags Hslug.
  destruct (stored_post_In _ _ Hpost) as [Hin Hid].
  assert (Ri : int4 (ubp_id input) = true).
  { rewrite <- Hid. now apply (wf_post_range Hwf). }
  unfold updateBlogPost. rewrite select_eq_run by exact Ri.
  unfold stored_post in Hpost.
  destruct (rows_where (Some (eq_ post_id (ubp_id input))) (blogPostsTable db))
    as [|p others] eqn:Hsel; [discriminate|].
  simpl in Hpost. inversion Hpost; subst p. clear Hpost.
  assert (Hperm : negb (String.eqb role "super_admin")
                  && negb (Z.eqb (post_author_id post) uid) = false).
  { destruct Hauth as [-> | ->]; [reflexivity|].
    rewrite Z.eqb_refl. apply andb_false_r. }
  rewrite when_bind_run, Hperm.
  rewrite bind_run,
    (@validation_passes_categories _ _ _ (wf_category_ids Hwf) (wf_category_range Hwf)
       Hcats).
  rewrite bind_run,
    (@validation_passes_tags _ _ _ (wf_tag_ids Hwf) (wf_tag_range Hwf) Htags).
  cbv zeta. rewrite bind_run.
  rewrite update_blogPost_fits;
    [|apply (wf_post_ids Hwf) | apply (wf_post_slugs Hwf) | exact Hslug].
  cbv zeta.
  set (u := mkBlogPostUpdate _ _ _ _ _ _ _ _).
  set (rows := map _ (blogPostsTable db)).
  set (db1 := with_blogPosts db rows).
  assert (Hres : filter (fun p => Z.eqb (post_id p) (ubp_id input)) rows
                 = apply_update u post :: map (apply_update u) others).
  { unfold rows. rewrite filter_updated by reflexivity.
    simpl in Hsel. unfold eq_ in Hsel. now rewrite Hsel. }
  rewrite Hres.
  assert (Hrow : forall db', blogPostsTable db' = rows ->
                 exists p, In p (blogPostsTable db') /\ post_id p = ubp_id input).
  { intros db' ->. exists (apply_update u post). split; [|exact Hid].
    unfold rows. apply in_map_iff. exists post. split; auto.
    rewrite Hid, Z.eqb_refl. reflexivity. }
  (* the category step *)
  assert (Hc : exists db3,
             (match ubp_category_ids input with
              | Some category_ids =>
                delete_blogPostCategories (ubp_id input) ;;;
                when (0 <? Z.of_nat (List.length category_ids))
                     (insert_blogPostCategories
                        (map (fun c => mkBlogPostCategory (ubp_id input) c) category_ids))
              | None => ret tt
              end) db1 = (db3, Returned tt)
             /\ blogPostsTable db3 = rows
             /\ tagsTable db3 = tagsTable db
             /\ blogPostTagsTable db3 = blogPostTagsTable db).
  { destruct (ubp_category_ids input) as [ids|].
    - simpl in Hcats. destruct Hcats as [Hnd Hex].
      rewrite bind_run. unfold delete_blogPostCategories at 1. cbv iota beta.
      set (dbd := with_blogPostCategories db1 _).
      rewrite when_run. destruct (0 <? Z.of_nat (List.length ids)) eqn:Hl.
      + assert (P1 : exists p, In p (blogPostsTable dbd) /\ post_id p = ubp_id input)
          by (apply Hrow; reflexivity).
        assert (P2 : NoDup (blogPostCategoriesTable dbd)).
        { unfold dbd. simpl. apply NoDup_filter'. apply (wf_categories_of Hwf). }
        assert (P3 : forall r, In r (blogPostCategoriesTable dbd) ->
                               bpc_blog_post_id r <> ubp_id input).
        { unfold dbd. simpl. intros r Hr. apply filter_In in Hr.
          destruct Hr as [_ Hr]. apply negb_true_iff in Hr. now apply Z.eqb_neq. }
        rewrite (@new_category_rows_fit dbd (ubp_id input) ids Hnd Hex P1 P2 P3
                   (positive_length_nonempty Hl)).
        eexists. split; [reflexivity|]. auto.
      + exists dbd. auto.
    - exists db1. auto. }
  destruct Hc as [db3 [Hc [Hrows3 [Htags3 Hbpt3]]]].
  rewrite bind_run, Hc.
  (* the tag step *)
  rewrite bind_run.
  destruct (ubp_tag_ids input) as [ids|].
  - simpl in Htags. destruct Htags as [Hnd Hex].
    rewrite bind_run. unfold delete_blogPostTags at 1. cbv iota beta.
    set (dbd := with_blogPostTags db3 _).
    rewrite when_run. destruct (0 <? Z.of_nat (List.length ids)) eqn:Hl.
    + assert (P0 : forall t, In t ids -> tag_exists dbd t).
      { intros t Ht. destruct (Hex t Ht) as [x [Hx Hxid]]. exists x.
        split; [|exact Hxid]. unfold dbd. simpl. now rewrite Htags3. }
      assert (P1 : exists p, In p (blogPostsTable dbd) /\ post_id p = ubp_id input)
        by (apply Hrow; unfold dbd; simpl; exact Hrows3).
      assert (P2 : NoDup (blogPostTagsTable dbd)).
      { unfold dbd. simpl. apply NoDup_filter'. rewrite Hbpt3. apply (wf_tags_of Hwf). }
      assert (P3 : forall r, In r (blogPostTagsTable dbd) ->
                             bpt_blog_post_id r <> ubp_id input).
      { unfold dbd. simpl. intros r Hr. apply filter_In in Hr.
        destruct Hr as [_ Hr]. apply negb_true_iff in Hr. now apply Z.eqb_neq. }
      rewrite (@new_tag_rows_fit dbd (ubp_id input) ids Hnd P0 P1 P2 P3
                 (positive_length_nonempty Hl)).
      eexists _, _. reflexivity.
    + eexists _, _. reflexivity.
  - eexists _, _. reflexivity.
Qed.

(** ** The associations and the timestamp of a written post *)

Lemma sample_well_formed : well_formed sample_db.
Proof.
  constructor.
  - apply (nodupb_NoDup _ Z.eqb_eq). reflexivity.
  - apply (nodupb_NoDup _ Z.eqb_eq). reflexivity.
  - apply (nodupb_NoDup _ Z.eqb_eq). reflexivity.
  - apply (nodupb_NoDup _ String.eqb_eq). reflexivity.
  - intros p [<- | [<- | []]]; simpl; lia.
  - apply (nodupb_NoDup _ BlogPostCategory_eqb_eq). reflexivity.
  - intros r [<- | [<- | []]]; [exists first_post | exists second_post]; simpl; auto.
  - apply (nodupb_NoDup _ BlogPostTag_eqb_eq). reflexivity.
  - intros r [<- | [<- | []]]; [exists first_post | exists second_post]; simpl; auto.
  - intros u [<- | [<- | [<- | [<- | []]]]]; reflexivity.
  - intros c [<- | [<- | []]]; reflexivity.
  - intros t [<- | [<- | []]]; reflexivity.
  - intros p [<- | [<- | []]]; reflexivity.
Qed.


(** C4, amended.  For every call of [updateBlogPost] that returns: when
    [category_ids] is supplied, the empty list included, the category rows of
    the post afterwards are exactly one row per supplied id, in that order,
    with no id twice, whatever they were before, and the rows of other posts
    are untouched; the same holds for [tag_ids].  For every call, returning
    or not, an absent [category_ids] (resp. [tag_ids]) leaves the category
    (resp. tag) rows as they were.  And the call does return in a well-formed
    store when the post is stored, the caller is a super admin or the
    author, the supplied ids are pairwise distinct ids of stored categories
    (resp. tags) and no other post has the supplied slug. *)
Theorem updateBlogPost_replaces_associations now input uid role db :
  let id := ubp_id input in
  (forall db2 r,
      updateBlogPost now input uid role db = (db2, Returned r) ->
      (forall ids, ubp_category_ids input = Some ids ->
         categories_of_post db2 id = map (fun c => mkBlogPostCategory id c) ids
         /\ NoDup ids
         /\ categories_of_others db2 id = categories_of_others db id)
      /\ (forall ids, ubp_tag_ids input = Some ids ->
            tags_of_post db2 id = map (fun t => mkBlogPostTag id t) ids
            /\ NoDup ids
            /\ tags_of_others db2 id = tags_of_others db id))
  /\ (ubp_category_ids input = None ->
      blogPostCategoriesTable (fst (updateBlogPost now input uid role db))
      = blogPostCategoriesTable db)
  /\ (ubp_tag_ids input = None ->
      blogPostTagsTable (fst (updateBlogPost now input uid role db))
      = blogPostTagsTable db)
  /\ (forall post,
         well_formed db ->
         stored_post db id = Some post ->
         authorized role uid post ->
         valid_category_ids db (ubp_category_ids input) ->
         valid_tag_ids db (ubp_tag_ids input) ->
         slug_available db id (ubp_slug input) ->
         exists db2 new, updateBlogPost now input uid role db = (db2, Returned (Some new))).
Proof.
  intros id. split; [|split; [|split]].
  - intros db2 r H. apply updateBlogPost_returned in H.
    destruct H as [post [others [_ [_ H]]]]. cbv zeta in H.
    destruct H as [db1 [db3 [Hdb1 [_ [Hc Ht]]]]].
    fold id in Hc, Ht.
    assert (Hcats1 : blogPostCategoriesTable db1 = blogPostCategoriesTable db)
      by (now subst db1).
    assert (Htags1 : blogPostTagsTable db1 = blogPostTagsTable db) by (now subst db1).
    split.
    + intros ids Hids. rewrite Hids in Hc. destruct Hc as [Hdb3 Hnd].
      assert (Hcats2 : blogPostCategoriesTable db2 = blogPostCategoriesTable db3).
      { destruct (ubp_tag_ids input); [destruct Ht as [-> _]|subst db2]; reflexivity. }
      unfold categories_of_post, categories_of_others. rewrite Hcats2, Hdb3. simpl.
      rewrite Hcats1.
      destruct (replaced_categories id ids (blogPostCategoriesTable db)) as [E1 E2].
      split; [exact E1|]. split; [|exact E2].
      apply (nodupb_NoDup _ BlogPostCategory_eqb_eq) in Hnd.
      now apply NoDup_map_inv' in Hnd.
    + intros ids Hids. rewrite Hids in Ht. destruct Ht as [Hdb2 Hnd].
      assert (Htags3 : blogPostTagsTable db3 = blogPostTagsTable db1).
      { destruct (ubp_category_ids input); [destruct Hc as [-> _]|subst db3]; reflexivity. }
      unfold tags_of_post, tags_of_others. rewrite Hdb2. simpl.
      rewrite Htags3, Htags1.
      destruct (replaced_tags id ids (blogPostTagsTable db)) as [E1 E2].
      split; [exact E1|]. split; [|exact E2].
      apply (nodupb_NoDup _ BlogPostTag_eqb_eq) in Hnd.
      now apply NoDup_map_inv' in Hnd.
  - apply absent_categories_untouched.
  - apply absent_tags_untouched.
  - intros post Hwf Hpost Hauth Hc Ht Hs. eapply updateBlogPost_returns; eauto.
Qed.

Lemma updateBlogPost_replaces_associations_witness :
  let input := sample_update 1 None (Some [2]) (Some []) in
  let db2 := fst (updateBlogPost 5000 input 1 "author" sample_db) in
  categories_of_post db2 1 = [mkBlogPostCategory 1 2]
  /\ tags_of_post db2 1 = []
  /\ exists db' new, updateBlogPost 5000 input 1 "author" sample_db
                     = (db', Returned (Some new)).
Proof.
  intros input db2.
  assert (E : updateBlogPost 5000 input 1 "author" sample_db
              = (db2, Returned (stored_post db2 1))) by reflexivity.
  destruct (updateBlogPost_replaces_associations 5000 input 1 "author" sample_db)
    as [H [_ [_ Hret]]].
  destruct (H db2 _ E) as [Hc Ht].
  split; [|split].
  - apply (Hc [2]). reflexivity.
  - apply (Ht []). reflexivity.
  - apply (Hret first_post sample_well_formed eq_refl).
    + right. reflexivity.
    + split; [repeat constructor; simpl; tauto|].
      intros id [<- | []]. exists tech. simpl. auto.
    + split; [constructor|]. intros id [].
    + exact I.
Defined.

(** C4 as stated fails for the owner of an existing post who supplies a
    category id that is no category: post 1 of the sample store belongs to
    user 1, the call with [category_ids = [9999]] fails validation, and the
    category rows of the post are still the single row for category 1, not a
    row for 9999. *)
Lemma updateBlogPost_replaces_associations_counterexample :
  let input := sample_update 1 None (Some [9999]) None in
  let db2 := fst (updateBlogPost 5000 input 1 "author" sample_db) in
  stored_post sample_db 1 = Some first_post
  /\ post_author_id first_post = 1
  /\ categories_of_post db2 1 = [mkBlogPostCategory 1 1]
  /\ categories_of_post db2 1 <> map (fun c => mkBlogPostCategory 1 c) [9999].
Proof.
  repeat split. vm_compute. discriminate.
Qed.

(** C2.  A post returned by [createBlogPost] is the stored row, and its
    [published_at] is the clock reading of the call when the input status is
    'published' and null when it is 'draft' (so it is non-null exactly for
    'published').  A returning [updateBlogPost] stores and returns the post
    with [published_at] set to the clock reading when the input status is
    'published' and the stored status was 'draft', null when the input
    status is 'draft', and the stored value when the input status is absent
    or is 'published' on a post already published.  Both calls do return in
    a well-formed store on inputs that pass their checks: an existing author
    (resp. a stored post and an authorized caller), pairwise distinct ids of
    stored categories and tags, and a slug no other post has. *)
Theorem published_at_lifecycle now db db2 :
  (forall input authorId post,
      createBlogPost now input authorId db = (db2, Returned post) ->
      In post (blogPostsTable db2)
      /\ (cbp_status input = published -> post_published_at post = Some now)
      /\ (cbp_status input = draft -> post_published_at post = None)
      /\ (post_published_at post <> None <-> cbp_status input = published))
  /\ (forall input uid role r,
         updateBlogPost now input uid role db = (db2, Returned r) ->
         exists old new,
           stored_post db (ubp_id input) = Some old
           /\ r = Some new
           /\ stored_post db2 (ubp_id input) = Some new
           /\ (ubp_status input = Some published -> post_status old = draft ->
               post_published_at new = Some now)
           /\ (ubp_status input = Some draft -> post_published_at new = None)
           /\ (ubp_status input = None ->
               post_published_at new = post_published_at old)
           /\ (ubp_status input = Some published -> post_status old = published ->
               post_published_at new = post_published_at old))
  /\ (forall input authorId,
         well_formed db -> user_exists db authorId ->
         cbp_category_ids input <> [] ->
         valid_category_ids db (Some (cbp_category_ids input)) ->
         valid_tag_ids db (cbp_tag_ids input) ->
         (forall p, In p (blogPostsTable db) -> post_slug p <> cbp_slug input) ->
         exists db' post, createBlogPost now input authorId db = (db', Returned post))
  /\ (forall input uid role post,
         well_formed db ->
         stored_post db (ubp_id input) = Some post ->
         authorized role uid post ->
         valid_category_ids db (ubp_category_ids input) ->
         valid_tag_ids db (ubp_tag_ids input) ->
         slug_available db (ubp_id input) (ubp_slug input) ->
         exists db' new,
           updateBlogPost now input uid role db = (db', Returned (Some new))).
Proof.
  split; [|split; [|split]].
  - intros input authorId post H. apply createBlogPost_returned in H.
    destruct H as [Hpost Hrows]. split.
    + rewrite Hrows. apply in_or_app. right. now left.
    + rewrite Hpost. simpl. destruct (cbp_status input); simpl.
      * split; [discriminate|]. split; [reflexivity|]. split; [tauto | discriminate].
      * split; [reflexivity|]. split; [discriminate|]. split; [reflexivity | discriminate].
  - intros input uid role r H. apply updateBlogPost_returned in H.
    destruct H as [old [others [Hsel [_ H]]]]. cbv zeta in H.
    destruct H as [db1 [db3 [Hdb1 [Hr [Hc Ht]]]]].
    set (u := mkBlogPostUpdate _ _ _ _ _ _ _ _) in Hdb1.
    assert (Hrows : blogPostsTable db2 = blogPostsTable db1).
    { transitivity (blogPostsTable db3).
      - destruct (ubp_tag_ids input); [destruct Ht as [-> _]|subst db2]; reflexivity.
      - destruct (ubp_category_ids input); [destruct Hc as [-> _]|subst db3]; reflexivity. }
    assert (Hf : filter (fun p => Z.eqb (post_id p) (ubp_id input)) (blogPostsTable db1)
                 = apply_update u old :: map (apply_update u) others).
    { rewrite Hdb1. simpl blogPostsTable. rewrite filter_updated by reflexivity.
      simpl in Hsel. unfold eq_ in Hsel. now rewrite Hsel. }
    exists old, (apply_update u old).
    split; [unfold stored_post; now rewrite Hsel|].
    split; [now rewrite Hr, Hf|].
    split; [unfold stored_post; simpl rows_where; unfold eq_; now rewrite Hrows, Hf|].
    unfold u; simpl. repeat split.
    + intros -> ->. reflexivity.
    + intros ->. reflexivity.
    + intros ->. reflexivity.
    + intros -> ->. reflexivity.
  - intros input authorId Hwf Hauthor Hne Hc Ht Hs.
    now apply createBlogPost_returns.
  - intros input uid role post Hwf Hpost Hauth Hc Ht Hs.
    eapply updateBlogPost_returns; eauto.
Qed.

Lemma published_at_lifecycle_witness :
  let created := createBlogPost 5000 (sample_create [1] None published) 1 sample_db in
  let updated :=
    updateBlogPost 5000 (sample_update 2 (Some published) None None) 1 "author" sample_db in
  post_published_at (third_post published (Some 5000) 5000) = Some 5000
  /\ (exists new, stored_post (fst updated) 2 = Some new
                  /\ post_published_at new = Some 5000)
  /\ exists db' post,
       createBlogPost 5000 (sample_create [1] None published) 1 sample_db
       = (db', Returned post).
Proof.
  intros created updated. split; [|split].
  - assert (E : createBlogPost 5000 (sample_create [1] None published) 1 sample_db
                = (fst created, Returned (third_post published (Some 5000) 5000)))
      by reflexivity.
    destruct (published_at_lifecycle 5000 sample_db (fst created)) as [H _].
    destruct (H _ _ _ E) as [_ [Hp _]]. apply Hp. reflexivity.
  - assert (E : updateBlogPost 5000 (sample_update 2 (Some published) None None) 1
                               "author" sample_db
                = (fst updated, Returned (stored_post (fst updated) 2)))
      by reflexivity.
    destruct (published_at_lifecycle 5000 sample_db (fst updated)) as [_ [H _]].
    destruct (H _ _ _ _ E) as [old [new [Hold [_ [Hnew [Hp _]]]]]].
    exists new. split; [exact Hnew|]. apply Hp; [reflexivity|].
    simpl in Hold. inversion Hold. reflexivity.
  - destruct (published_at_lifecycle 5000 sample_db sample_db) as [_ [_ [H _]]].
    apply H.
    + exact sample_well_formed.
    + exists alice. simpl. auto.
    + discriminate.
    + split; [repeat constructor; simpl; tauto|].
      intros id [<- | []]. exists news. simpl. auto.
    + exact I.
    + intros p [<- | [<- | []]]; discriminate.
Defined.

(** ** Pagination of the users listing *)

Lemma Math_ceil_div_spec a b :
  0 < b -> (Math_ceil_div a b - 1) * b < a <= Math_ceil_div a b * b.
Proof.
  intros Hb. unfold Math_ceil_div.
  pose proof (Z.div_mod (- a) b ltac:(lia)) as Hdm.
  pose proof (Z.mod_pos_bound (- a) b Hb) as Hm.
  nia.
Qed.

Lemma Math_ceil_div_least a b n :
  0 < b -> a <= n * b -> Math_ceil_div a b <= n.
Proof.
  intros Hb Hn. pose proof (Math_ceil_div_spec a Hb). nia.
Qed.

Lemma limit_offset_length {A} (l o : Z) (rows : list A) :
  0 <= l -> 0 <= o ->
  Z.of_nat (List.length (limit_offset l o rows))
  = Z.min l (Z.max 0 (Z.of_nat (List.length rows) - o)).
Proof.
  intros Hl Ho. unfold limit_offset. rewrite length_firstn, length_skipn. lia.
Qed.

(** C8.  For a page request that the input schema admits (page and limit at
    least 1): [total] is the number of stored users whatever the page and the
    limit; [totalPages] is the ceiling of [total / limit], that is the least
    number of pages of [limit] rows that hold [total] rows; the page holds
    [limit] rows or what is left after the earlier pages; a page beyond the
    last holds no rows and still reports the full total.  With three stored
    users and limit 2: page 1 has 2 items and totalPages 2, page 2 has 1
    item, page 10 has no item and total 3. *)
Theorem getUsers_pagination db :
  let n := Z.of_nat (List.length (usersTable db)) in
  (forall input,
      1 <= pg_page input -> 1 <= pg_limit input ->
      let r := getUsers input db in
      total r = n
      /\ page r = pg_page input /\ limit r = pg_limit input
      /\ (totalPages r - 1) * pg_limit input < n <= totalPages r * pg_limit input
      /\ (forall k, n <= k * pg_limit input -> totalPages r <= k)
      /\ Z.of_nat (List.length (items r))
         = Z.min (pg_limit input) (Z.max 0 (n - (pg_page input - 1) * pg_limit input))
      /\ (totalPages r < pg_page input -> items r = [] /\ total r = n))
  /\ (n = 3 ->
      let p1 := getUsers (mkPaginationInput 1 2) db in
      let p2 := getUsers (mkPaginationInput 2 2) db in
      let p10 := getUsers (mkPaginationInput 10 2) db in
      List.length (items p1) = 2%nat /\ totalPages p1 = 2
      /\ List.length (items p2) = 1%nat
      /\ List.length (items p10) = 0%nat /\ total p10 = 3).
Proof.
  intros n.
  assert (Hgen : forall input,
      1 <= pg_page input -> 1 <= pg_limit input ->
      let r := getUsers input db in
      total r = n
      /\ page r = pg_page input /\ limit r = pg_limit input
      /\ (totalPages r - 1) * pg_limit input < n <= totalPages r * pg_limit input
      /\ (forall k, n <= k * pg_limit input -> totalPages r <= k)
      /\ Z.of_nat (List.length (items r))
         = Z.min (pg_limit input) (Z.max 0 (n - (pg_page input - 1) * pg_limit input))
      /\ (totalPages r < pg_page input -> items r = [] /\ total r = n)).
  { intros input Hp Hl r.
    assert (Htotal : total r = n) by (unfold r, getUsers, n; simpl; now rewrite length_map).
    assert (Htp : totalPages r = Math_ceil_div n (pg_limit input))
      by (unfold r, getUsers, n; simpl; now rewrite length_map).
    assert (Hlen : Z.of_nat (List.length (items r))
                   = Z.min (pg_limit input)
                           (Z.max 0 (n - (pg_page input - 1) * pg_limit input))).
    { unfold r, getUsers. simpl items. rewrite limit_offset_length by nia. reflexivity. }
    pose proof (@Math_ceil_div_spec n (pg_limit input) ltac:(lia)) as Hceil.
    split; [exact Htotal|]. split; [reflexivity|]. split; [reflexivity|].
    rewrite Htp. split; [exact Hceil|].
    split; [intros k Hk; apply Math_ceil_div_least; [lia | exact Hk]|].
    split; [exact Hlen|].
    intros Hbeyond. split; [|exact Htotal].
    assert (Hz : Z.of_nat (List.length (items r)) = 0) by (rewrite Hlen; nia).
    destruct (items r); [reflexivity | simpl in Hz; lia]. }
  split; [exact Hgen|].
  intros Hn p1 p2 p10.
  destruct (Hgen (mkPaginationInput 1 2) ltac:(simpl; lia) ltac:(simpl; lia))
    as [_ [_ [_ [Hc1 [_ [Hl1 _]]]]]].
  destruct (Hgen (mkPaginationInput 2 2) ltac:(simpl; lia) ltac:(simpl; lia))
    as [_ [_ [_ [_ [_ [Hl2 _]]]]]].
  destruct (Hgen (mkPaginationInput 10 2) ltac:(simpl; lia) ltac:(simpl; lia))
    as [Ht10 [_ [_ [_ [_ [Hl10 _]]]]]].
  fold p1 in Hc1, Hl1. fold p2 in Hl2. fold p10 in Ht10, Hl10.
  simpl pg_limit in *. simpl pg_page in *.
  repeat split; lia.
Qed.

Lemma getUsers_pagination_witness :
  total (getUsers (mkPaginationInput 2 3) sample_db) = 4
  /\ List.length (items (getUsers (mkPaginationInput 2 3) sample_db)) = 1%nat.
Proof.
  destruct (getUsers_pagination sample_db) as [H _].
  destruct (H (mkPaginationInput 2 3) ltac:(simpl; lia) ltac:(simpl; lia))
    as [Ht [_ [_ [_ [_ [Hl _]]]]]].
  split; [exact Ht|]. apply Nat2Z.inj. rewrite Hl. reflexivity.
Defined.

(** ** The public AdSense configuration *)

(** C9.  With no stored row both lookups return null.  With a stored row,
    [getAdSenseConfig] returns the first row as it is, and
    [getPublicAdSenseConfig] returns an object whose keys are exactly the
    four ad slots and [is_enabled], each with the value of the row; the keys
    [id], [publisher_id], [created_at] and [updated_at] are absent from it
    although the row returned by [getAdSenseConfig] has them. *)
Theorem public_adsense_config db :
  (adSenseConfigTable db = [] ->
   getAdSenseConfig db = None /\ getPublicAdSenseConfig db = None)
  /\ (forall config others,
         adSenseConfigTable db = config :: others ->
         getAdSenseConfig db = Some config
         /\ exists o,
             getPublicAdSenseConfig db = Some o
             /\ obj_keys o = ["ad_slot_header"; "ad_slot_sidebar"; "ad_slot_footer";
                              "ad_slot_in_content"; "is_enabled"]
             /\ (forall k, In k (obj_keys o) ->
                           obj_get k o = obj_get k (AdSenseConfig_object config))
             /\ obj_get "ad_slot_header" o = Some (nullable (adsense_ad_slot_header config))
             /\ obj_get "ad_slot_sidebar" o = Some (nullable (adsense_ad_slot_sidebar config))
             /\ obj_get "ad_slot_footer" o = Some (nullable (adsense_ad_slot_footer config))
             /\ obj_get "ad_slot_in_content" o
                = Some (nullable (adsense_ad_slot_in_content config))
             /\ obj_get "is_enabled" o = Some (JBool (adsense_is_enabled config))
             /\ (forall k, In k ["id"; "publisher_id"; "created_at"; "updated_at"] ->
                           obj_get k o = None
                           /\ obj_get k (AdSenseConfig_object config) <> None)).
Proof.
  split.
  - intros Hempty. unfold getPublicAdSenseConfig, getAdSenseConfig. simpl.
    rewrite Hempty. split; reflexivity.
  - intros config others Hrows.
    assert (Hget : getAdSenseConfig db = Some config)
      by (unfold getAdSenseConfig; simpl; rewrite Hrows; reflexivity).
    split; [exact Hget|].
    unfold getPublicAdSenseConfig. rewrite Hget. eexists. split; [reflexivity|].
    split; [reflexivity|]. split.
    { intros k Hk. simpl in Hk.
      destruct Hk as [<- | [<- | [<- | [<- | [<- | []]]]]]; reflexivity. }
    repeat (split; [reflexivity|]).
    intros k Hk. simpl in Hk.
    destruct Hk as [<- | [<- | [<- | [<- | []]]]]; split; (reflexivity || discriminate).
Qed.

Lemma public_adsense_config_witness :
  getPublicAdSenseConfig sample_db = None
  /\ exists o, getPublicAdSenseConfig sample_db_with_config = Some o
               /\ obj_get "publisher_id" o = None
               /\ obj_get "ad_slot_header" o = Some (JStr "header-slot").
Proof.
  split.
  - destruct (public_adsense_config sample_db) as [H _].
    apply (H eq_refl).
  - destruct (public_adsense_config sample_db_with_config) as [_ H].
    destruct (H sample_config [] eq_refl) as [_ [o [Ho [_ [_ [Hh [_ [_ [_ [_ Habs]]]]]]]]]].
    exists o. split; [exact Ho|]. split; [|exact Hh].
    apply (Habs "publisher_id"). simpl. auto.
Defined.

(** ** Objects *)

Lemma obj_get_rest_same key o : obj_get key (obj_rest key o) = None.
Proof.
  induction o as [|[k v] o IH]; simpl; auto.
  destruct (String.eqb k key) eqn:E; simpl; auto. now rewrite E.
Qed.

Lemma obj_get_rest_other key k o :
  k <> key -> obj_get k (obj_rest key o) = obj_get k o.
Proof.
  intros Hk. induction o as [|[k' v] o IH]; simpl; auto.
  destruct (String.eqb k' key) eqn:E; simpl.
  - apply String.eqb_eq in E. subst k'.
    destruct (String.eqb key k) eqn:E2; auto.
    apply String.eqb_eq in E2. congruence.
  - now rewrite IH.
Qed.

Lemma without_password_spec u :
  obj_get "password_hash" (without_password u) = None
  /\ (forall k, k <> "password_hash" ->
                obj_get k (without_password u) = obj_get k (User_object u))
  /\ obj_keys (without_password u)
     = ["id"; "email"; "username"; "first_name"; "last_name"; "role"; "avatar_url";
        "bio"; "is_active"; "created_at"; "updated_at"].
Proof.
  split; [apply obj_get_rest_same|]. split; [|reflexivity].
  intros k Hk. now apply obj_get_rest_other.
Qed.

(** ** Lookups by a unique column *)

Lemma user_by_email_found db u :
  NoDup (map user_email (usersTable db)) -> In u (usersTable db) ->
  user_by_email db (user_email u) = Some u.
Proof.
  intros Hnd Hin. unfold user_by_email. simpl. apply first_selected; auto.
  - apply String.eqb_refl.
  - intros r' Hr' He. apply String.eqb_eq in He.
    symmetry. eapply NoDup_map_unique; eauto.
Qed.

Lemma user_by_email_missing db email :
  (forall u, In u (usersTable db) -> user_email u <> email) ->
  user_by_email db email = None.
Proof.
  intros Hno. unfold user_by_email. simpl.
  destruct (filter _ (usersTable db)) as [|x l] eqn:E; [reflexivity|].
  assert (Hx : In x (filter (fun u => String.eqb (user_email u) email) (usersTable db)))
    by (rewrite E; now left).
  apply filter_In in Hx. destruct Hx as [Hx1 Hx2]. apply String.eqb_eq in Hx2.
  exfalso. eapply Hno; eauto.
Qed.

(** ** login *)

Section AuthProperties.
Context {rt : Runtime}.

Lemma login_run clock input db :
  login clock input db =
  match user_by_email db (li_email input) with
  | None => Thrown (JsError INVALID_CREDENTIALS)
  | Some user =>
    if negb (user_is_active user) then Thrown (JsError ACCOUNT_DEACTIVATED)
    else if negb (verifyPassword (li_password input) (user_password_hash user))
         then Thrown (JsError INVALID_CREDENTIALS)
         else Returned (mkAuthResponse (without_password user)
                          (createToken clock (user_id user) (user_email user)
                                       (Role_string (user_role user))))
  end.
Proof.
  unfold login, user_by_email.
  destruct (rows_where _ (usersTable db)); reflexivity.
Qed.

(** C6.  In a store where emails are unique: a login with an email no user
    has, and a login for an active user whose password hash does not match,
    fail with one and the same message; a login for a user whose [is_active]
    is false fails with another message, "Account is deactivated"; a login
    for an active user with the matching password returns a token made for
    that user and the user's row without the [password_hash] key, every
    other key unchanged. *)
Theorem login_outcomes clock input db :
  NoDup (map user_email (usersTable db)) ->
  ((forall u, In u (usersTable db) -> user_email u <> li_email input) ->
   login clock input db = Thrown (JsError INVALID_CREDENTIALS))
  /\ (forall u,
         In u (usersTable db) -> user_email u = li_email input ->
         (user_is_active u = true ->
          hashPassword (li_password input) <> user_password_hash u ->
          login clock input db = Thrown (JsError INVALID_CREDENTIALS))
         /\ (user_is_active u = false ->
             login clock input db = Thrown (JsError ACCOUNT_DEACTIVATED))
         /\ (user_is_active u = true ->
             hashPassword (li_password input) = user_password_hash u ->
             exists response,
               login clock input db = Returned response
               /\ auth_token response
                  = createToken clock (user_id u) (user_email u) (Role_string (user_role u))
               /\ obj_get "password_hash" (auth_user response) = None
               /\ (forall k, k <> "password_hash" ->
                             obj_get k (auth_user response) = obj_get k (User_object u))))
  /\ INVALID_CREDENTIALS <> ACCOUNT_DEACTIVATED
  /\ error_kind (JsError INVALID_CREDENTIALS) = InvalidCredentials
  /\ error_kind (JsError ACCOUNT_DEACTIVATED) = AccountDeactivated.
Proof.
  intros Hnd. split; [|split; [|split; [discriminate | split; reflexivity]]].
  - intros Hno. rewrite login_run, user_by_email_missing; auto.
  - intros u Hin He. rewrite login_run, <- He, (user_by_email_found db u Hnd Hin).
    split; [|split].
    + intros -> Hh. simpl. unfold verifyPassword.
      apply String.eqb_neq in Hh. now rewrite Hh.
    + intros ->. reflexivity.
    + intros -> Hh. simpl. unfold verifyPassword.
      apply String.eqb_eq in Hh. rewrite Hh. simpl.
      eexists. split; [reflexivity|]. simpl.
      destruct (without_password_spec u) as [H1 [H2 _]]. repeat split; assumption.
Qed.

(** C10.  The account's [is_active] flag is read before the password: in a
    store where emails are unique, a login for a deactivated account fails
    with "Account is deactivated" whatever password is supplied, a wrong one
    included, while the same login against a store with no such email fails
    with "Invalid email or password"; the two messages differ, so the answer
    tells a deactivated account from a missing one without the password. *)
Theorem deactivated_checked_before_password clock db u :
  NoDup (map user_email (usersTable db)) ->
  In u (usersTable db) ->
  user_is_active u = false ->
  (forall password,
      login clock (mkLoginInput (user_email u) password) db
      = Thrown (JsError ACCOUNT_DEACTIVATED))
  /\ (forall password,
         hashPassword password <> user_password_hash u ->
         login clock (mkLoginInput (user_email u) password) db
         = Thrown (JsError ACCOUNT_DEACTIVATED))
  /\ (forall db' password,
         (forall u', In u' (usersTable db') -> user_email u' <> user_email u) ->
         login clock (mkLoginInput (user_email u) password) db'
         = Thrown (JsError INVALID_CREDENTIALS))
  /\ ACCOUNT_DEACTIVATED <> INVALID_CREDENTIALS.
Proof.
  intros Hnd Hin Hinactive.
  assert (H : forall password,
             login clock (mkLoginInput (user_email u) password) db
             = Thrown (JsError ACCOUNT_DEACTIVATED)).
  { intros password. rewrite login_run. simpl li_email.
    rewrite (user_by_email_found db u Hnd Hin), Hinactive. reflexivity. }
  split; [exact H|]. split; [intros password _; apply H|]. split; [|discriminate].
  intros db' password Hno. rewrite login_run. simpl li_email.
  now rewrite user_by_email_missing.
Qed.
End AuthProperties.

Lemma sample_unique_emails : NoDup (map user_email (usersTable sample_db)).
Proof.
  simpl. repeat constructor; simpl; intuition discriminate.
Qed.

Lemma login_outcomes_witness :
  (exists response,
      login 5000000 (mkLoginInput "alice@example.com" "testpassword123") sample_db
      = Returned response
      /\ obj_get "password_hash" (auth_user response) = None)
  /\ login 5000000 (mkLoginInput "alice@example.com" "guess") sample_db
     = Thrown (JsError INVALID_CREDENTIALS)
  /\ login 5000000 (mkLoginInput "nobody@example.com" "guess") sample_db
     = Thrown (JsError INVALID_CREDENTIALS).
Proof.
  split; [|split].
  - destruct (login_outcomes 5000000 (mkLoginInput "alice@example.com" "testpassword123")
                             sample_db sample_unique_emails) as [_ [H _]].
    destruct (H alice) as [_ [_ Hok]]; [simpl; auto | reflexivity |].
    destruct (Hok eq_refl) as [response [Hr [_ [Hp _]]]]; [vm_compute; reflexivity|].
    exists response. split; assumption.
  - destruct (login_outcomes 5000000 (mkLoginInput "alice@example.com" "guess")
                             sample_db sample_unique_emails) as [_ [H _]].
    destruct (H alice) as [Hbad _]; [simpl; auto | reflexivity |].
    apply Hbad; [reflexivity|]. vm_compute. discriminate.
  - destruct (login_outcomes 5000000 (mkLoginInput "nobody@example.com" "guess")
                             sample_db sample_unique_emails) as [H _].
    apply H. intros u Hu. simpl in Hu.
    destruct Hu as [<- | [<- | [<- | [<- | []]]]]; discriminate.
Defined.

Lemma deactivated_checked_before_password_witness :
  login 5000000 (mkLoginInput "carol@example.com" "not the password") sample_db
  = Thrown (JsError ACCOUNT_DEACTIVATED).
Proof.
  destruct (deactivated_checked_before_password 5000000 sample_db carol
              sample_unique_emails) as [H _]; [simpl; auto 6 | reflexivity |].
  apply (H "not the password").
Defined.

(** ** LIKE patterns and substrings *)

Lemma prefix_spec n h : String.prefix n h = true <-> exists b, h = (n ++ b)%string.
Proof.
  revert h. induction n as [|c n IH]; intros h.
  - split; [intros _; now exists h | intros _; now destruct h].
  - destruct h as [|d h]; simpl.
    + split; [discriminate | intros [b Hb]; discriminate].
    + destruct (ascii_dec c d) as [->|Hne].
      * rewrite IH. split; intros [b Hb]; exists b; [now rewrite Hb | now inversion Hb].
      * split; [discriminate|]. intros [b Hb]. inversion Hb. congruence.
Qed.

Lemma occursb_spec n h : occursb n h = true <-> occurs n h.
Proof.
  induction h as [|d h IH]; cbn [occursb]; rewrite orb_true_iff, prefix_spec.
  - split.
    + intros [[b Hb] | H]; [|discriminate]. exists EmptyString, b. exact Hb.
    + intros [a [b Hab]]. left. destruct a; [|discriminate]. now exists b.
  - rewrite IH. split.
    + intros [[b Hb] | [a [b Hab]]].
      * exists EmptyString, b. exact Hb.
      * exists (String d a), b. simpl. now rewrite Hab.
    + intros [a [b Hab]]. destruct a as [|x a].
      * left. now exists b.
      * right. simpl in Hab. inversion Hab. now exists a, b.
Qed.

Lemma like_percent p s :
  like (String percent p) s = true
  <-> exists a t, s = (a ++ t)%string /\ like p t = true.
Proof.
  simpl. induction s as [|d s IH].
  - rewrite orb_false_r. split.
    + intros H. now exists EmptyString, EmptyString.
    + intros [a [t [Hs Ht]]]. destruct a; [|discriminate]. simpl in Hs. now subst t.
  - rewrite orb_true_iff, IH. split.
    + intros [H | [a [t [Hs Ht]]]].
      * now exists EmptyString, (String d s).
      * exists (String d a), t. simpl. now rewrite Hs.
    + intros [a [t [Hs Ht]]]. destruct a as [|x a].
      * left. simpl in Hs. now subst t.
      * right. simpl in Hs. inversion Hs. now exists a, t.
Qed.

Lemma like_literal n p s :
  metachar_free n = true ->
  (like (n ++ p) s = true <-> exists t, s = (n ++ t)%string /\ like p t = true).
Proof.
  revert s. induction n as [|c n IH]; intros s Hfree.
  - simpl. split; [intros H; now exists s | intros [t [-> H]]; exact H].
  - simpl in Hfree. apply andb_true_iff in Hfree. destruct Hfree as [Hc Hn].
    unfold is_metachar in Hc. apply negb_true_iff in Hc.
    apply orb_false_iff in Hc. destruct Hc as [Hc Hb].
    apply orb_false_iff in Hc. destruct Hc as [Hp Hu].
    change (String c n ++ p)%string with (String c (n ++ p)%string).
    cbn [like]. rewrite Hp, Hu, Hb.
    destruct s as [|d s].
    + split; [discriminate | intros [t [Ht _]]; discriminate].
    + rewrite andb_true_iff, (IH s Hn), Ascii.eqb_eq. split.
      * intros [-> [t [-> Ht]]]. now exists t.
      * intros [t [Hs Ht]]. simpl in Hs. inversion Hs. split; auto. now exists t.
Qed.

Lemma like_percent_only s : like (String percent EmptyString) s = true.
Proof.
  apply like_percent. exists s, EmptyString. split; [|reflexivity].
  clear. induction s; simpl; congruence.
Qed.

(** A literal between two [%] matches exactly the texts it occurs in. *)
Lemma like_contains n s :
  metachar_free n = true ->
  (like (String percent (n ++ String percent EmptyString)) s = true <-> occurs n s).
Proof.
  intros Hfree. rewrite like_percent. split.
  - intros [a [t [-> Ht]]]. apply (@like_literal n _ _ Hfree) in Ht.
    destruct Ht as [b [-> _]]. now exists a, b.
  - intros [a [b ->]]. exists a, (n ++ b)%string. split; [reflexivity|].
    apply (@like_literal n _ _ Hfree). exists b. split; [reflexivity|].
    apply like_percent_only.
Qed.

Lemma lower_app a b : lower (a ++ b) = (lower a ++ lower b)%string.
Proof. induction a; simpl; congruence. Qed.

Lemma to_lower_metachar c : is_metachar (to_lower c) = is_metachar c.
Proof.
  destruct c as [[] [] [] [] [] [] [] []]; reflexivity.
Qed.

Lemma lower_metachar_free s : metachar_free (lower s) = metachar_free s.
Proof.
  induction s as [|c s IH]; simpl; auto. now rewrite to_lower_metachar, IH.
Qed.

Lemma ilike_contains column search :
  metachar_free search = true ->
  (ilike column ("%" ++ search ++ "%") = true <-> ci_occurs search column).
Proof.
  intros Hfree. unfold ilike, ci_occurs.
  change ("%" ++ search ++ "%")%string with (String percent (search ++ String percent EmptyString)).
  change (lower (String percent (search ++ String percent EmptyString)))
    with (String percent (lower (search ++ String percent EmptyString))).
  rewrite lower_app. change (lower (String percent EmptyString)) with (String percent EmptyString).
  apply like_contains. now rewrite lower_metachar_free.
Qed.

(** For a search term free of the LIKE metacharacters [%], [_] and [\], a
    post satisfies the search condition of [getBlogPosts] exactly when the
    term occurs, case folded, in its title, in its content or in its
    non-null excerpt; for a non-empty such term the condition is the only
    one a search-only query builds, and [total] counts the posts that
    satisfy it. *)
Lemma search_plain_term search :
  metachar_free search = true ->
  (forall post,
      search_condition search post = true
      <-> ci_occurs search (post_title post)
          \/ ci_occurs search (post_content post)
          \/ exists excerpt, post_excerpt post = Some excerpt /\ ci_occurs search excerpt)
  /\ (search <> EmptyString ->
      forall page limit db,
        main_conditions (search_only page limit search) = [search_condition search]
        /\ total (getBlogPosts (search_only page limit search) db)
           = Z.of_nat (List.length (filter (search_condition search) (blogPostsTable db)))).
Proof.
  intros Hfree. split.
  - intros post. unfold search_condition.
    rewrite !orb_true_iff, !(@ilike_contains _ _ Hfree).
    destruct (post_excerpt post) as [e|]; simpl.
    + rewrite (@ilike_contains _ _ Hfree). split.
      * intros [[H | H] | H]; auto. right; right. now exists e.
      * intros [H | [H | [e' [He H]]]]; auto. inversion He; subst. auto.
    + split.
      * intros [[H | H] | H]; auto. discriminate.
      * intros [H | [H | [e' [He H]]]]; auto. discriminate.
  - intros Hne page limit db.
    assert (Hm : main_conditions (search_only page limit search) = [search_condition search]).
    { unfold main_conditions, search_only. simpl.
      destruct search; [congruence | reflexivity]. }
    split; [exact Hm|].
    unfold getBlogPosts. rewrite Hm. reflexivity.
Qed.

Example search_plain_term_publish :
  search_condition "publish" first_post = true
  /\ total (getBlogPosts (search_only 1 10 "publish") sample_db) = 1.
Proof.
  destruct (@search_plain_term "publish" eq_refl) as [Hpost Htotal].
  split.
  - apply Hpost. left. apply occursb_spec. reflexivity.
  - destruct (Htotal ltac:(discriminate) 1 10 sample_db) as [_ ->]. reflexivity.
Defined.

(** C7.  The search filter is to match a post exactly when the term occurs
    in it as a substring, also for a term with [%] or [_]; [getBlogPosts]
    matches such a term as a pattern, since the handler puts the term into
    the pattern [%search%] of [ilike] as it is.  The term [p_b] is no substring
    of the title, the content or the excerpt of the first sample post, yet
    the post satisfies the search condition ([_] stands for the [u] of
    "Published") and the listing counts it; likewise [0%t] matches the
    excerpt "100% true" without occurring in it. *)
Lemma search_term_is_like_pattern :
  (search_condition "p_b" first_post = true
   /\ total (getBlogPosts (search_only 1 10 "p_b") sample_db) = 1
   /\ ~ ci_occurs "p_b" (post_title first_post)
   /\ ~ ci_occurs "p_b" (post_content first_post)
   /\ (forall excerpt, post_excerpt first_post = Some excerpt -> ~ ci_occurs "p_b" excerpt))
  /\ (search_condition "0%t" first_post = true
      /\ ~ ci_occurs "0%t" (post_title first_post)
      /\ ~ ci_occurs "0%t" (post_content first_post)
      /\ (forall excerpt, post_excerpt first_post = Some excerpt ->
                          ~ ci_occurs "0%t" excerpt)).
Proof.
  assert (Hno : forall n h, occursb (lower n) (lower h) = false -> ~ ci_occurs n h).
  { intros n h Hb Hc. apply occursb_spec in Hc. congruence. }
  split.
  - split; [reflexivity|]. split; [reflexivity|].
    split; [apply Hno; reflexivity|]. split; [apply Hno; reflexivity|].
    intros excerpt He. inversion He. apply Hno. reflexivity.
  - split; [reflexivity|].
    split; [apply Hno; reflexivity|]. split; [apply Hno; reflexivity|].
    intros excerpt He. inversion He. apply Hno. reflexivity.
Qed.

(** ** base64: alphabet and injectivity *)

Lemma b64_index_char n : (n < 64)%N -> b64_index (b64_char n) = Some n.
Proof.
  intros Hn. rewrite <- (N2Nat.id n). assert (Hk : (N.to_nat n < 64)%nat) by lia.
  generalize dependent (N.to_nat n). clear. intros k Hk.
  do 64 (destruct k as [|k]; [reflexivity|]). lia.
Qed.

Lemma b64_char_inj n m : (n < 64)%N -> (m < 64)%N -> b64_char n = b64_char m -> n = m.
Proof.
  intros Hn Hm E. apply b64_index_char in Hn, Hm. rewrite E in Hn. congruence.
Qed.

Lemma b64_char_plain n :
  (n < 64)%N -> Ascii.eqb (b64_char n) equals_sign = false /\ Ascii.eqb (b64_char n) dot = false.
Proof.
  intros Hn. rewrite <- (N2Nat.id n). assert (Hk : (N.to_nat n < 64)%nat) by lia.
  generalize dependent (N.to_nat n). clear. intros k Hk.
  do 64 (destruct k as [|k]; [split; reflexivity|]). lia.
Qed.

Lemma N_of_ascii_inj a b : N_of_ascii a = N_of_ascii b -> a = b.
Proof.
  intros H. rewrite <- (ascii_N_embedding a), <- (ascii_N_embedding b). now rewrite H.
Qed.

(** The four 6-bit groups of three bytes, and the groups of a final one or
    two bytes, are below 64. *)
Lemma sextet_bounds x y z :
  (x < 256 -> y < 256 -> z < 256 ->
   x / 4 < 64 /\ (x mod 4) * 16 + y / 16 < 64 /\ (y mod 16) * 4 + z / 64 < 64
   /\ z mod 64 < 64 /\ (x mod 4) * 16 < 64 /\ (y mod 16) * 4 < 64)%N.
Proof.
  intros Hx Hy Hz. repeat split; zify; Z.to_euclidean_division_equations; lia.
Qed.

(** base64 without padding, as [strip_equals] leaves it. *)
Lemma strip_btoa_1 a :
  strip_equals (btoa (String a EmptyString))
  = String (b64_char (N_of_ascii a / 4))
      (String (b64_char ((N_of_ascii a mod 4) * 16)) EmptyString).
Proof.
  pose proof (N_ascii_bounded a) as Ha.
  destruct (@sextet_bounds (N_of_ascii a) 0 0 Ha ltac:(lia) ltac:(lia))
    as [H1 [_ [_ [_ [H2 _]]]]].
  cbn [btoa strip_equals].
  destruct (b64_char_plain H1) as [-> _]. destruct (b64_char_plain H2) as [-> _].
  reflexivity.
Qed.

Lemma strip_btoa_2 a b :
  strip_equals (btoa (String a (String b EmptyString)))
  = String (b64_char (N_of_ascii a / 4))
      (String (b64_char ((N_of_ascii a mod 4) * 16 + N_of_ascii b / 16))
         (String (b64_char ((N_of_ascii b mod 16) * 4)) EmptyString)).
Proof.
  pose proof (N_ascii_bounded a) as Ha. pose proof (N_ascii_bounded b) as Hb.
  destruct (@sextet_bounds (N_of_ascii a) (N_of_ascii b) 0 Ha Hb ltac:(lia))
    as [H1 [H2 [_ [_ [_ H3]]]]].
  cbn [btoa strip_equals].
  destruct (b64_char_plain H1) as [-> _]. destruct (b64_char_plain H2) as [-> _].
  destruct (b64_char_plain H3) as [-> _]. reflexivity.
Qed.

Lemma strip_btoa_3 a b c r :
  strip_equals (btoa (String a (String b (String c r))))
  = String (b64_char (N_of_ascii a / 4))
      (String (b64_char ((N_of_ascii a mod 4) * 16 + N_of_ascii b / 16))
         (String (b64_char ((N_of_ascii b mod 16) * 4 + N_of_ascii c / 64))
            (String (b64_char (N_of_ascii c mod 64)) (strip_equals (btoa r))))).
Proof.
  pose proof (N_ascii_bounded a) as Ha. pose proof (N_ascii_bounded b) as Hb.
  pose proof (N_ascii_bounded c) as Hc.
  destruct (@sextet_bounds (N_of_ascii a) (N_of_ascii b) (N_of_ascii c) Ha Hb Hc)
    as [H1 [H2 [H3 [H4 _]]]].
  cbn [btoa strip_equals].
  destruct (b64_char_plain H1) as [-> _]. destruct (b64_char_plain H2) as [-> _].
  destruct (b64_char_plain H3) as [-> _]. destruct (b64_char_plain H4) as [-> _].
  reflexivity.
Qed.

(** Induction three characters at a time. *)
Lemma string_ind3 (P : string -> Prop) :
  P EmptyString ->
  (forall a, P (String a EmptyString)) ->
  (forall a b, P (String a (String b EmptyString))) ->
  (forall a b c r, P r -> P (String a (String b (String c r)))) ->
  forall s, P s.
Proof.
  intros H0 H1 H2 H3.
  fix IH 1. intros [|a [|b [|c r]]]; [exact H0 | apply H1 | apply H2 | apply H3; apply IH].
Qed.

(** Each byte can be read back from two neighbouring 6-bit groups. *)
Lemma first_byte x y :
  (y < 256 -> x = (x / 4) * 4 + ((x mod 4) * 16 + y / 16) / 16)%N.
Proof. intros Hy. zify. Z.to_euclidean_division_equations. lia. Qed.

Lemma second_byte x y z :
  (y < 256 -> z < 256 ->
   y = (((x mod 4) * 16 + y / 16) mod 16) * 16 + ((y mod 16) * 4 + z / 64) / 4)%N.
Proof. intros Hy Hz. zify. Z.to_euclidean_division_equations. lia. Qed.

Lemma third_byte y z :
  (z < 256 -> z = (((y mod 16) * 4 + z / 64) mod 4) * 64 + z mod 64)%N.
Proof. intros Hz. zify. Z.to_euclidean_division_equations. lia. Qed.

Lemma sextets_inj_3 x y z x' y' z' :
  (y < 256 -> z < 256 -> y' < 256 -> z' < 256 ->
   x / 4 = x' / 4 ->
   (x mod 4) * 16 + y / 16 = (x' mod 4) * 16 + y' / 16 ->
   (y mod 16) * 4 + z / 64 = (y' mod 16) * 4 + z' / 64 ->
   z mod 64 = z' mod 64 -> x = x' /\ y = y' /\ z = z')%N.
Proof.
  intros Hy Hz Hy' Hz' H1 H2 H3 H4. split; [|split].
  - rewrite (first_byte x Hy), (first_byte x' Hy'), H1, H2. reflexivity.
  - rewrite (second_byte x Hy Hz), (second_byte x' Hy' Hz'), H2, H3. reflexivity.
  - rewrite (third_byte y Hz), (third_byte y' Hz'), H3, H4. reflexivity.
Qed.

Lemma sextets_inj_2 x y x' y' :
  (y < 256 -> y' < 256 ->
   x / 4 = x' / 4 ->
   (x mod 4) * 16 + y / 16 = (x' mod 4) * 16 + y' / 16 ->
   (y mod 16) * 4 = (y' mod 16) * 4 -> x = x' /\ y = y')%N.
Proof.
  intros Hy Hy' H1 H2 H3.
  destruct (@sextets_inj_3 x y 0 x' y' 0) as [Hx [Hy0 _]]; auto; lia.
Qed.

Lemma sextets_inj_1 x x' :
  (x / 4 = x' / 4 -> (x mod 4) * 16 = (x' mod 4) * 16 -> x = x')%N.
Proof.
  intros H1 H2.
  destruct (@sextets_inj_2 x 0 x' 0) as [Hx _]; auto; lia.
Qed.

(** [btoa] followed by the removal of the padding is injective. *)
Lemma strip_btoa_inj : forall x y,
  strip_equals (btoa x) = strip_equals (btoa y) -> x = y.
Proof.
  induction x as [|a|a b|a b c r IH] using string_ind3;
    induction y as [|a'|a' b'|a' b' c' r' _] using string_ind3;
    rewrite ?strip_btoa_1, ?strip_btoa_2, ?strip_btoa_3;
    try reflexivity; try discriminate; intros E.
  - (* one byte each *)
    pose proof (N_ascii_bounded a) as Ha. pose proof (N_ascii_bounded a') as Ha'.
    destruct (@sextet_bounds (N_of_ascii a) 0 0 Ha ltac:(lia) ltac:(lia))
      as [B1 [_ [_ [_ [B2 _]]]]].
    destruct (@sextet_bounds (N_of_ascii a') 0 0 Ha' ltac:(lia) ltac:(lia))
      as [B1' [_ [_ [_ [B2' _]]]]].
    inversion E as [[E1 E2]].
    apply b64_char_inj in E1, E2; auto.
    f_equal. apply N_of_ascii_inj. now apply sextets_inj_1.
  - (* two bytes each *)
    pose proof (N_ascii_bounded a) as Ha. pose proof (N_ascii_bounded a') as Ha'.
    pose proof (N_ascii_bounded b) as Hb. pose proof (N_ascii_bounded b') as Hb'.
    destruct (@sextet_bounds (N_of_ascii a) (N_of_ascii b) 0 Ha Hb ltac:(lia))
      as [B1 [B2 [_ [_ [_ B3]]]]].
    destruct (@sextet_bounds (N_of_ascii a') (N_of_ascii b') 0 Ha' Hb' ltac:(lia))
      as [B1' [B2' [_ [_ [_ B3']]]]].
    inversion E as [[E1 E2 E3]].
    apply b64_char_inj in E1, E2, E3; auto.
    destruct (@sextets_inj_2 _ _ _ _ Hb Hb' E1 E2 E3) as [Hx Hy].
    apply N_of_ascii_inj in Hx, Hy. now subst.
  - (* three bytes and a rest each *)
    pose proof (N_ascii_bounded a) as Ha. pose proof (N_ascii_bounded a') as Ha'.
    pose proof (N_ascii_bounded b) as Hb. pose proof (N_ascii_bounded b') as Hb'.
    pose proof (N_ascii_bounded c) as Hc. pose proof (N_ascii_bounded c') as Hc'.
    destruct (@sextet_bounds (N_of_ascii a) (N_of_ascii b) (N_of_ascii c) Ha Hb Hc)
      as [B1 [B2 [B3 [B4 _]]]].
    destruct (@sextet_bounds (N_of_ascii a') (N_of_ascii b') (N_of_ascii c') Ha' Hb' Hc')
      as [B1' [B2' [B3' [B4' _]]]].
    inversion E as [[E1 E2 E3 E4 E5]].
    apply b64_char_inj in E1, E2, E3, E4; auto.
    destruct (@sextets_inj_3 _ _ _ _ _ _ Hb Hc Hb' Hc' E1 E2 E3 E4) as [Hx [Hy Hz]].
    apply N_of_ascii_inj in Hx, Hy, Hz. subst. f_equal. f_equal. f_equal.
    now apply IH.
Qed.

Lemma strip_btoa_dot_free : forall x, dot_free (strip_equals (btoa x)) = true.
Proof.
  induction x as [|a|a b|a b c r IH] using string_ind3;
    rewrite ?strip_btoa_1, ?strip_btoa_2, ?strip_btoa_3; [reflexivity| | |].
  - pose proof (N_ascii_bounded a) as Ha.
    destruct (@sextet_bounds (N_of_ascii a) 0 0 Ha ltac:(lia) ltac:(lia))
      as [B1 [_ [_ [_ [B2 _]]]]].
    cbn [dot_free].
    destruct (b64_char_plain B1) as [_ ->]. destruct (b64_char_plain B2) as [_ ->].
    reflexivity.
  - pose proof (N_ascii_bounded a) as Ha. pose proof (N_ascii_bounded b) as Hb.
    destruct (@sextet_bounds (N_of_ascii a) (N_of_ascii b) 0 Ha Hb ltac:(lia))
      as [B1 [B2 [_ [_ [_ B3]]]]].
    cbn [dot_free].
    destruct (b64_char_plain B1) as [_ ->]. destruct (b64_char_plain B2) as [_ ->].
    destruct (b64_char_plain B3) as [_ ->]. reflexivity.
  - pose proof (N_ascii_bounded a) as Ha. pose proof (N_ascii_bounded b) as Hb.
    pose proof (N_ascii_bounded c) as Hc.
    destruct (@sextet_bounds (N_of_ascii a) (N_of_ascii b) (N_of_ascii c) Ha Hb Hc)
      as [B1 [B2 [B3 [B4 _]]]].
    cbn [dot_free].
    destruct (b64_char_plain B1) as [_ ->]. destruct (b64_char_plain B2) as [_ ->].
    destruct (b64_char_plain B3) as [_ ->]. destruct (b64_char_plain B4) as [_ ->].
    exact IH.
Qed.

(** ** Splitting at dots and replacing one character *)

Lemma split_nonempty sep s : split sep s <> [].
Proof.
  destruct s as [|c r]; simpl; [discriminate|].
  destruct (Ascii.eqb c sep); [discriminate|].
  destruct (split sep r); discriminate.
Qed.

Lemma split_dot_free a : dot_free a = true -> split dot a = [a].
Proof.
  induction a as [|c a IH]; simpl; [reflexivity|].
  intros H. apply andb_true_iff in H. destruct H as [Hc Ha].
  apply negb_true_iff in Hc. rewrite Hc, (IH Ha). reflexivity.
Qed.

Lemma split_app a b :
  dot_free a = true -> split dot (a ++ String dot b) = a :: split dot b.
Proof.
  induction a as [|c a IH]; simpl.
  - intros _. reflexivity.
  - intros H. apply andb_true_iff in H. destruct H as [Hc Ha].
    apply negb_true_iff in Hc. rewrite Hc, (IH Ha). reflexivity.
Qed.

(** The number of parts of a string around a dot adds up. *)
Lemma parts_app a b :
  List.length (split dot (a ++ String dot b))
  = (List.length (split dot a) + List.length (split dot b))%nat.
Proof.
  induction a as [|c a IH]; simpl.
  - reflexivity.
  - destruct (Ascii.eqb c dot); simpl.
    + now rewrite IH.
    + pose proof (split_nonempty dot (a ++ String dot b)) as Hn.
      pose proof (split_nonempty dot a) as Hn'.
      destruct (split dot (a ++ String dot b)); [congruence|].
      destruct (split dot a); [congruence|]. simpl in *. exact IH.
Qed.

Lemma parts_dot_free a : dot_free a = true -> List.length (split dot a) = 1%nat.
Proof. intros H. now rewrite split_dot_free. Qed.

Lemma set_char_length i c s : String.length (set_char i c s) = String.length s.
Proof.
  revert i. induction s as [|a s IH]; intros [|i]; simpl; auto.
Qed.

Lemma set_char_changes i c s :
  (i < String.length s)%nat -> String.get i s <> Some c -> set_char i c s <> s.
Proof.
  revert i. induction s as [|a s IH]; intros [|i]; simpl; intros Hi Hg; try lia.
  - intros E. inversion E. congruence.
  - intros E. inversion E. eapply IH; eauto. lia.
Qed.

Lemma set_char_app_l i c a b :
  (i < String.length a)%nat -> set_char i c (a ++ b) = (set_char i c a ++ b)%string.
Proof.
  revert i. induction a as [|x a IH]; intros [|i]; simpl; intros Hi; try lia; auto.
  rewrite IH by lia. reflexivity.
Qed.

Lemma set_char_app_r i c a b :
  set_char (String.length a + i) c (a ++ b) = (a ++ set_char i c b)%string.
Proof.
  induction a as [|x a IH]; simpl; auto. now rewrite IH.
Qed.

Lemma get_app_l i a b :
  (i < String.length a)%nat -> String.get i (a ++ b) = String.get i a.
Proof.
  revert i. induction a as [|x a IH]; intros [|i]; simpl; intros Hi; try lia; auto.
  apply IH. lia.
Qed.

Lemma get_app_r i a b : String.get (String.length a + i) (a ++ b) = String.get i b.
Proof. induction a as [|x a IH]; simpl; auto. Qed.

(** Replacing a character of a dot-free string by a dot gives two parts, by
    another character a dot-free string. *)
Lemma set_char_dot_parts i a :
  dot_free a = true -> (i < String.length a)%nat ->
  List.length (split dot (set_char i dot a)) = 2%nat.
Proof.
  revert i. induction a as [|x a IH]; intros [|i]; simpl; intros Hf Hi; try lia;
    apply andb_true_iff in Hf; destruct Hf as [Hx Ha].
  - now rewrite split_dot_free.
  - apply negb_true_iff in Hx. rewrite Hx.
    pose proof (IH i Ha ltac:(lia)) as Hl.
    destruct (split dot (set_char i dot a)); simpl in *; [lia | exact Hl].
Qed.

Lemma set_char_dot_free i c a :
  dot_free a = true -> Ascii.eqb c dot = false -> dot_free (set_char i c a) = true.
Proof.
  revert i. induction a as [|x a IH]; intros [|i]; simpl; intros Hf Hc; auto;
    apply andb_true_iff in Hf; destruct Hf as [Hx Ha].
  - now rewrite Hc, Ha.
  - rewrite Hx. simpl. now apply IH.
Qed.

Lemma dot_free_app a b : dot_free (a ++ b) = dot_free a && dot_free b.
Proof.
  induction a as [|x a IH]; simpl; auto. rewrite IH. now rewrite andb_assoc.
Qed.

Lemma app_inj_length a a' b b' :
  String.length a = String.length a' ->
  (a ++ b)%string = (a' ++ b')%string -> a = a' /\ b = b'.
Proof.
  revert a'. induction a as [|x a IH]; intros [|x' a']; simpl; intros Hl E;
    try discriminate; auto.
  inversion E; subst. destruct (IH a') as [-> ->]; auto.
Qed.

(** ** Token verification *)

Lemma string_app_assoc (a b c : string) : ((a ++ b) ++ c = a ++ (b ++ c))%string.
Proof. induction a as [|x a IH]; simpl; congruence. Qed.

Lemma string_app_length (a b : string) :
  String.length (a ++ b) = (String.length a + String.length b)%nat.
Proof. induction a as [|x a IH]; simpl; congruence. Qed.

(** Replacing one character of [h.p.s] by a different one: the five places
    it can be in. *)
Lemma replaced_in_token h p s i c :
  let token := (h ++ String dot (p ++ String dot s))%string in
  (i < String.length token)%nat -> String.get i token <> Some c ->
  (exists h', set_char i c token = (h' ++ String dot (p ++ String dot s))%string
              /\ String.length h' = String.length h /\ h' <> h
              /\ exists j, (j < String.length h)%nat /\ h' = set_char j c h)
  \/ (set_char i c token = (h ++ String c (p ++ String dot s))%string /\ c <> dot)
  \/ (exists p', set_char i c token = (h ++ String dot (p' ++ String dot s))%string
                 /\ String.length p' = String.length p /\ p' <> p
                 /\ exists j, (j < String.length p)%nat /\ p' = set_char j c p)
  \/ (set_char i c token = (h ++ String dot (p ++ String c s))%string /\ c <> dot)
  \/ (exists s', set_char i c token = (h ++ String dot (p ++ String dot s'))%string
                 /\ String.length s' = String.length s /\ s' <> s
                 /\ exists j, (j < String.length s)%nat /\ s' = set_char j c s).
Proof.
  intros token Hi Hc. unfold token in *.
  destruct (Nat.lt_ge_cases i (String.length h)) as [Hih | Hih].
  { left. exists (set_char i c h).
    rewrite set_char_app_l by exact Hih. rewrite get_app_l in Hc by exact Hih.
    split; [reflexivity|]. split; [apply set_char_length|].
    split; [now apply set_char_changes|]. now exists i. }
  right.
  replace i with (String.length h + (i - String.length h))%nat in * by lia.
  rewrite set_char_app_r. rewrite get_app_r in Hc.
  rewrite string_app_length in Hi. simpl in Hi.
  destruct (i - String.length h)%nat as [|j].
  { left. simpl in *. split; [reflexivity | congruence]. }
  right. simpl set_char. simpl in Hc.
  destruct (Nat.lt_ge_cases j (String.length p)) as [Hjp | Hjp].
  { left. exists (set_char j c p).
    rewrite set_char_app_l by exact Hjp. rewrite get_app_l in Hc by exact Hjp.
    split; [reflexivity|]. split; [apply set_char_length|].
    split; [now apply set_char_changes|]. now exists j. }
  right.
  replace j with (String.length p + (j - String.length p))%nat in * by lia.
  rewrite set_char_app_r. rewrite get_app_r in Hc.
  rewrite string_app_length in Hi. simpl in Hi.
  destruct (j - String.length p)%nat as [|k].
  { left. simpl in *. split; [reflexivity | congruence]. }
  right. simpl set_char. simpl in Hc.
  exists (set_char k c s). split; [reflexivity|]. split; [apply set_char_length|].
  assert (Hk : (k < String.length s)%nat) by lia.
  split; [now apply set_char_changes|]. now exists k.
Qed.

(** The parts of a token in which a dot-free component has one character
    replaced. *)
Lemma replaced_component_parts j c x :
  dot_free x = true -> (j < String.length x)%nat ->
  (c = dot /\ List.length (split dot (set_char j c x)) = 2%nat)
  \/ (c <> dot /\ dot_free (set_char j c x) = true).
Proof.
  intros Hx Hj. destruct (Ascii.eqb c dot) eqn:Ec.
  - apply Ascii.eqb_eq in Ec. subst c. left. split; [reflexivity|].
    now apply set_char_dot_parts.
  - right. split; [now apply Ascii.eqb_neq|]. now apply set_char_dot_free.
Qed.

Section TokenProperties.
Context {rt : Runtime}.

Lemma sign_dot_free h p : dot_free (sign h p) = true.
Proof. apply strip_btoa_dot_free. Qed.

Lemma sign_inj h p h' p' :
  String.length h = String.length h' -> String.length p = String.length p' ->
  sign h p = sign h' p' -> h = h' /\ p = p'.
Proof.
  intros Hh Hp E. unfold sign in E. apply strip_btoa_inj in E.
  apply app_inj_length in E; [|exact Hh]. destruct E as [-> E].
  inversion E as [E']. apply app_inj_length in E'; [|exact Hp]. tauto.
Qed.

Lemma wrong_part_count clock token :
  List.length (split dot token) <> 3%nat -> verifyTokenSignature clock token = None.
Proof.
  unfold verifyTokenSignature.
  destruct (split dot token) as [|a [|b [|c [|d l]]]]; simpl; intros H; try reflexivity.
  congruence.
Qed.

Lemma wrong_signature clock token h p s :
  split dot token = [h; p; s] -> s <> sign h p ->
  verifyTokenSignature clock token = None.
Proof.
  intros Hs Hne. unfold verifyTokenSignature. rewrite Hs.
  apply String.eqb_neq in Hne. now rewrite Hne.
Qed.

Lemma expired clock token h p s text payload e :
  split dot token = [h; p; s] ->
  atob p = Some text -> JSON_parse text = Some payload ->
  get_property payload "exp" = Some (Some (JNum e)) ->
  e <> 0 -> e < clock / 1000 ->
  verifyTokenSignature clock token = None.
Proof.
  intros Hs Ha Hj Hexp Hnz Hlt. unfold verifyTokenSignature. rewrite Hs.
  destruct (negb (String.eqb s (sign h p))); [reflexivity|].
  rewrite Ha, Hj, Hexp. simpl.
  apply Z.eqb_neq in Hnz. apply Z.ltb_lt in Hlt. now rewrite Hnz, Hlt.
Qed.

Lemma verifyToken_run clock token db :
  verifyToken clock token db =
  match verifyTokenSignature clock token with
  | None => None
  | Some decoded =>
    match id_parameter (d_userId decoded) with
    | None => None
    | Some userId =>
      match stored_user db userId with
      | None => None
      | Some user =>
        if user_is_active user then Some (without_password user) else None
      end
    end
  end.
Proof.
  unfold verifyToken, stored_user.
  destruct (verifyTokenSignature clock token) as [d|]; [|reflexivity].
  destruct (id_parameter (d_userId d)) as [id|]; [|reflexivity].
  destruct (rows_where _ (usersTable db)) as [|u l]; [reflexivity|].
  cbn [hd_error]. unfold without_password. now destruct (user_is_active u).
Qed.

Lemma stored_user_In db id u : stored_user db id = Some u -> In u (usersTable db).
Proof.
  unfold stored_user. simpl.
  destruct (filter _ (usersTable db)) as [|x l] eqn:E; [discriminate|].
  simpl. intros H. inversion H; subst x.
  assert (Hin : In u (filter (eq_ user_id id) (usersTable db))) by (rewrite E; now left).
  now apply filter_In in Hin.
Qed.

(** The shape of an issued token. *)
Lemma createToken_shape clock userId email role :
  exists h p,
    createToken clock userId email role
    = (h ++ String dot (p ++ String dot (sign h p)))%string
    /\ dot_free h = true /\ dot_free p = true.
Proof.
  unfold createToken. cbv zeta. eexists _, _. split; [reflexivity|].
  split; apply strip_btoa_dot_free.
Qed.

Lemma three_parts h p s :
  dot_free h = true -> dot_free p = true -> dot_free s = true ->
  split dot (h ++ String dot (p ++ String dot s)) = [h; p; s].
Proof.
  intros Hh Hp Hs. rewrite split_app by exact Hh. rewrite split_app by exact Hp.
  now rewrite split_dot_free.
Qed.

(** A token of the issued shape in which one character has been replaced by
    another one does not pass [verifyTokenSignature]. *)
Lemma tampered_rejected clock h p i c :
  dot_free h = true -> dot_free p = true ->
  let token := (h ++ String dot (p ++ String dot (sign h p)))%string in
  (i < String.length token)%nat -> String.get i token <> Some c ->
  verifyTokenSignature clock (set_char i c token) = None.
Proof.
  intros Hh Hp token Hi Hc. subst token.
  pose proof (sign_dot_free h p) as Hs.
  destruct (@replaced_in_token h p (sign h p) i c Hi Hc)
    as [[h' [-> [Hl [Hne [j [Hj ->]]]]]]
       | [[-> Hcd]
       | [[p' [-> [Hl [Hne [j [Hj ->]]]]]]
       | [[-> Hcd]
       | [s' [-> [Hl [Hne [j [Hj ->]]]]]]]]]].
  - (* inside the header *)
    destruct (@replaced_component_parts j c h Hh Hj) as [[-> Hparts] | [Hcd Hfree]].
    + apply wrong_part_count.
      rewrite parts_app, Hparts, parts_app, (@parts_dot_free p Hp),
        (@parts_dot_free _ Hs). lia.
    + eapply wrong_signature; [apply three_parts; auto|].
      intros E. apply sign_inj in E; [|now rewrite Hl | reflexivity].
      destruct E as [E _]. congruence.
  - (* the first separator *)
    apply wrong_part_count. apply Ascii.eqb_neq in Hcd.
    replace (h ++ String c (p ++ String dot (sign h p)))%string
      with ((h ++ String c p) ++ String dot (sign h p))%string
      by (now rewrite string_app_assoc).
    rewrite parts_app, (@parts_dot_free _ Hs), parts_dot_free; [lia|].
    rewrite dot_free_app, Hh. simpl. now rewrite Hcd, Hp.
  - (* inside the payload *)
    destruct (@replaced_component_parts j c p Hp Hj) as [[-> Hparts] | [Hcd Hfree]].
    + apply wrong_part_count.
      rewrite parts_app, (@parts_dot_free h Hh), parts_app, Hparts,
        (@parts_dot_free _ Hs). lia.
    + eapply wrong_signature; [apply three_parts; auto|].
      intros E. apply sign_inj in E; [|reflexivity | now rewrite Hl].
      destruct E as [_ E]. congruence.
  - (* the second separator *)
    apply wrong_part_count. apply Ascii.eqb_neq in Hcd.
    rewrite parts_app, (@parts_dot_free h Hh), parts_dot_free; [lia|].
    rewrite dot_free_app, Hp. simpl. now rewrite Hcd, Hs.
  - (* inside the signature *)
    destruct (@replaced_component_parts j c (sign h p) Hs Hj)
      as [[-> Hparts] | [Hcd Hfree]].
    + apply wrong_part_count.
      rewrite parts_app, (@parts_dot_free h Hh), parts_app, (@parts_dot_free p Hp),
        Hparts. lia.
    + eapply wrong_signature; [apply three_parts; auto|]. exact Hne.
Qed.

Lemma unexpired_decoded clock token h p text payload e userId email role :
  split dot token = [h; p; sign h p] ->
  atob p = Some text -> JSON_parse text = Some payload ->
  get_property payload "exp" = Some (Some (JNum e)) ->
  clock / 1000 <= e ->
  get_property payload "userId" = Some userId ->
  get_property payload "email" = Some email ->
  get_property payload "role" = Some role ->
  verifyTokenSignature clock token = Some (mkDecoded userId email role).
Proof.
  intros Hs Ha Hj Hexp Hle Hu He Hr. unfold verifyTokenSignature.
  rewrite Hs, String.eqb_refl. cbn [negb]. rewrite Ha, Hj, Hexp.
  assert (Hnot : truthy (Some (JNum e)) && less_than (Some (JNum e)) (clock / 1000) = false).
  { apply andb_false_iff. right. simpl. apply Z.ltb_ge. exact Hle. }
  rewrite Hnot, Hu, He, Hr. reflexivity.
Qed.

(** X30.  [verifyToken] is total: it returns null, or the row of an active
    stored user without its [password_hash].  It returns null when the token
    does not split into three parts at the dots, when the third part is not
    the recomputed signature, and when the payload carries a numeric expiry
    other than 0 that lies before the current time in seconds.  On a token
    of three parts whose third part is the recomputed signature and whose
    payload decodes to an object with a numeric expiry not before the
    current time, it looks up the user by the id the store reads from
    [userId] (a number is read as itself): it returns null when there is no
    such id, when the lookup finds no user or a user whose [is_active] is
    false, and otherwise that user's row without [password_hash].  A freshly
    issued token in which a single character is replaced by a different one
    is rejected, at any time and against any store. *)
Theorem verifyToken_outcomes clock token db :
  (verifyToken clock token db = None
   \/ exists u, In u (usersTable db) /\ user_is_active u = true
                /\ verifyToken clock token db = Some (without_password u))
  /\ (List.length (split dot token) <> 3%nat -> verifyToken clock token db = None)
  /\ (forall h p s,
         split dot token = [h; p; s] -> s <> sign h p ->
         verifyToken clock token db = None)
  /\ (forall h p s text payload e,
         split dot token = [h; p; s] ->
         atob p = Some text -> JSON_parse text = Some payload ->
         get_property payload "exp" = Some (Some (JNum e)) ->
         e <> 0 -> e < clock / 1000 ->
         verifyToken clock token db = None)
  /\ (forall h p text payload e userId email role,
         split dot token = [h; p; sign h p] ->
         atob p = Some text -> JSON_parse text = Some payload ->
         get_property payload "exp" = Some (Some (JNum e)) ->
         clock / 1000 <= e ->
         get_property payload "userId" = Some userId ->
         get_property payload "email" = Some email ->
         get_property payload "role" = Some role ->
         (forall n, id_parameter (Some (JNum n)) = Some n)
         /\ (id_parameter userId = None -> verifyToken clock token db = None)
         /\ (forall id,
               id_parameter userId = Some id ->
               (stored_user db id = None -> verifyToken clock token db = None)
               /\ (forall u, stored_user db id = Some u -> user_is_active u = false ->
                             verifyToken clock token db = None)
               /\ (forall u, stored_user db id = Some u -> user_is_active u = true ->
                             verifyToken clock token db = Some (without_password u)
                             /\ obj_get "password_hash" (without_password u) = None
                             /\ (forall k, k <> "password_hash" ->
                                           obj_get k (without_password u)
                                           = obj_get k (User_object u)))))
  /\ (forall issued userId email role i c,
         let fresh := createToken issued userId email role in
         (i < String.length fresh)%nat -> String.get i fresh <> Some c ->
         verifyToken clock (set_char i c fresh) db = None).
Proof.
  split; [|split; [|split; [|split; [|split]]]].
  - rewrite verifyToken_run.
    destruct (verifyTokenSignature clock token) as [d|]; [|now left].
    destruct (id_parameter (d_userId d)) as [id|]; [|now left].
    destruct (stored_user db id) as [u|] eqn:Hu; [|now left].
    destruct (user_is_active u) eqn:Ha; [|now left].
    right. exists u. split; [eapply stored_user_In; eauto|]. split; auto.
  - intros H. rewrite verifyToken_run, wrong_part_count; auto.
  - intros h p s Hs Hne. rewrite verifyToken_run, (@wrong_signature clock token h p s Hs Hne).
    reflexivity.
  - intros h p s text payload e Hs Ha Hj He Hnz Hlt.
    rewrite verifyToken_run, (@expired clock token h p s text payload e Hs Ha Hj He Hnz Hlt).
    reflexivity.
  - intros h p text payload e userId email role Hs Ha Hj Hexp Hle Hu He Hr.
    rewrite verifyToken_run,
      (@unexpired_decoded clock token h p text payload e userId email role) by assumption.
    cbn [d_userId].
    split; [reflexivity|]. split; [intros ->; reflexivity|].
    intros id ->. split; [|split].
    + intros ->. reflexivity.
    + intros u -> ->. reflexivity.
    + intros u -> ->. destruct (without_password_spec u) as [H1 [H2 _]].
      split; [reflexivity|]. split; [exact H1 | exact H2].
  - intros issued userId email role i c fresh Hi Hc.
    destruct (createToken_shape issued userId email role) as [h [p [E [Hh Hp]]]].
    subst fresh. rewrite E in *.
    rewrite verifyToken_run, (@tampered_rejected clock h p i c Hh Hp Hi Hc). reflexivity.
Qed.
End TokenProperties.

Lemma verifyToken_outcomes_witness :
  let fresh := createToken 1700000000000 1 "alice@example.com" "author" in
  verifyToken 1700000000000 fresh sample_db = Some (without_password alice)
  /\ verifyToken 1700000000000 (set_char 40 "X" fresh) sample_db = None
  /\ verifyToken 1800000000000 fresh sample_db = None
  /\ verifyToken 1700000000000 "malformed" sample_db = None.
Proof.
  intros fresh. split; [|split; [|split]].
  - destruct (verifyToken_outcomes 1700000000000 fresh sample_db)
      as [_ [_ [_ [_ [H _]]]]].
    edestruct (H "eyJhbGciOiJIUzI1NiIsInR5cCI6IkpXVCJ9"
                 (String.append
                    "eyJ1c2VySWQiOjEsImVtYWlsIjoiYWxpY2VAZXhhbXBsZS5jb20iLCJyb2xlIjoiYXV0aG9yIiwi"
                    "aWF0IjoxNzAwMDAwMDAwLCJleHAiOjE3MDAwODY0MDB9"))
      as [_ [_ Hid]];
      [vm_compute; reflexivity | vm_compute; reflexivity | vm_compute; reflexivity
       | reflexivity | vm_compute; discriminate | reflexivity | reflexivity | reflexivity |].
    destruct (Hid 1 eq_refl) as [_ [_ Hok]].
    apply (Hok alice); reflexivity.
  - destruct (verifyToken_outcomes 1700000000000 fresh sample_db)
      as [_ [_ [_ [_ [_ H]]]]].
    apply (H 1700000000000 1 "alice@example.com" "author" 40%nat "X"%char).
    + vm_compute. lia.
    + vm_compute. discriminate.
  - destruct (verifyToken_outcomes 1800000000000 fresh sample_db)
      as [_ [_ [_ [H _]]]].
    eapply (H _ _ _ _ _ 1700086400).
    + vm_compute. reflexivity.
    + vm_compute. reflexivity.
    + vm_compute. reflexivity.
    + reflexivity.
    + discriminate.
    + reflexivity.
  - destruct (verifyToken_outcomes 1700000000000 "malformed" sample_db)
      as [_ [H _]].
    apply H. vm_compute. discriminate.
Defined.

(** C5.  A token whose expiry is in the past is to be answered with null;
    [verifyToken] accepts one whose expiry is the time value 0.  The token
    [epoch_token] has three parts, its third part is the signature
    recomputed from the first two, its payload decodes to an object whose [exp] is 0, and at the
    clock reading 1700000000000 the current time in seconds is after 0: the
    expiry is in the past.  Yet [verifyToken] returns the row of the active
    user 1, since [payload.exp && payload.exp < now] is falsy for
    [exp = 0]. *)
Lemma verifyToken_accepts_epoch_expiry :
  exists h p s text payload,
    split dot epoch_token = [h; p; s]
    /\ s = sign h p
    /\ atob p = Some text
    /\ JSON_parse text = Some payload
    /\ get_property payload "exp" = Some (Some (JNum 0))
    /\ 0 < 1700000000000 / 1000
    /\ verifyToken 1700000000000 epoch_token sample_db = Some (without_password alice).
Proof.
  exists "eyJhbGciOiJIUzI1NiIsInR5cCI6IkpXVCJ9", "eyJ1c2VySWQiOjEsImV4cCI6MH0".
  eexists. eexists. eexists.
  split; [vm_compute; reflexivity|].
  split; [vm_compute; reflexivity|].
  split; [vm_compute; reflexivity|].
  split; [vm_compute; reflexivity|].
  split; [reflexivity|].
  split; [reflexivity|].
  vm_compute. reflexivity.
Qed.

(** ** The scenarios of the repository's tests, on the sample store *)

Example listing_is_newest_first :
  listed_ids (getBlogPosts (listing_query None None None None None) sample_db) = [2; 1].
Proof. reflexivity. Qed.

Example listing_by_status :
  listed_ids (getBlogPosts (listing_query (Some published) None None None None) sample_db)
  = [1].
Proof. reflexivity. Qed.

Example listing_by_category :
  listed_ids (getBlogPosts (listing_query None (Some 1) None None None) sample_db) = [1].
Proof. reflexivity. Qed.

Example listing_by_tag :
  listed_ids (getBlogPosts (listing_query None None (Some 2) None None) sample_db) = [2].
Proof. reflexivity. Qed.

Example listing_by_category_and_tag :
  getBlogPosts (listing_query None (Some 1) (Some 2) None None) sample_db
  = mkPage [] 0 1 10 0.
Proof. reflexivity. Qed.

Example listing_by_search :
  listed_ids (getBlogPosts (listing_query None None None None (Some "Published")) sample_db)
  = [1].
Proof. reflexivity. Qed.

Example listing_with_relations :
  items (getBlogPosts (listing_query (Some draft) None None None None) sample_db)
  = [mkBlogPostWithRelations second_post alice [tech] [web_tag]].
Proof. reflexivity. Qed.

Example listing_one_per_page :
  let p := getBlogPosts (mkBlogPostsQueryInput 1 1 None None None None None) sample_db in
  List.length (items p) = 1%nat /\ total p = 2 /\ totalPages p = 2.
Proof. repeat split. Qed.

Example my_posts_of_another_author :
  listed_ids (getMyBlogPosts 2 (listing_query None None None (Some 1) None) sample_db) = [].
Proof. reflexivity. Qed.

Example create_with_unknown_author :
  snd (createBlogPost 5000 (sample_create [1] None draft) 9999 sample_db)
  = Thrown (JsError "Author not found").
Proof. reflexivity. Qed.

Example create_with_unknown_category :
  snd (createBlogPost 5000 (sample_create [9999] None draft) 1 sample_db)
  = Thrown (JsError CATEGORIES_NOT_FOUND).
Proof. reflexivity. Qed.

Example create_with_unknown_tag :
  snd (createBlogPost 5000 (sample_create [1] (Some [9999]) draft) 1 sample_db)
  = Thrown (JsError TAGS_NOT_FOUND).
Proof. reflexivity. Qed.

Example delete_cascades :
  let db2 := fst (deleteBlogPost 1 1 "author" sample_db) in
  map post_id (blogPostsTable db2) = [2]
  /\ categories_of_post db2 1 = [] /\ tags_of_post db2 1 = [].
Proof. repeat split. Qed.

Example token_round_trip :
  let fresh := createToken 1700000000000 1 "alice@example.com" "author" in
  option_map (obj_get "id") (verifyToken 1700000000000 fresh sample_db) = Some (Some (JNum 1))
  /\ verifyToken 1700000000000 "invalid.jwt.token" sample_db = None
  /\ verifyToken 1700000000000 "malformed" sample_db = None
  /\ verifyToken 1700000000000
       (createToken 1700000000000 4 "carol@example.com" "author") sample_db = None.
Proof. vm_compute. repeat split. Qed.

Example current_user_ignores_is_active :
  option_map (obj_get "is_active") (getCurrentUser 4 sample_db) = Some (Some (JBool false)).
Proof. reflexivity. Qed.

(** * Properties of the remaining handlers *)

(** ** Joins *)

Lemma In_innerJoin {L R} (left : list L) (right : list R) on l r :
  In (l, r) (innerJoin left right on) <-> In l left /\ In r right /\ on l r = true.
Proof.
  unfold innerJoin. rewrite in_flat_map. split.
  - intros [x [Hx Hin]]. apply in_map_iff in Hin. destruct Hin as [y [Heq Hy]].
    inversion Heq; subst. apply filter_In in Hy. tauto.
  - intros [Hl [Hr Hon]]. exists l. split; auto. apply in_map.
    apply filter_In. auto.
Qed.

(** The only row of a table with a given key. *)
Lemma filter_unique_key {R} (key : R -> Z) rows r :
  NoDup (map key rows) -> In r rows ->
  filter (fun x => Z.eqb (key r) (key x)) rows = [r].
Proof.
  induction rows as [|x rows IH]; simpl; intros Hnd Hin; [contradiction|].
  inversion Hnd as [|? ? Hx Hrest]; subst.
  destruct Hin as [-> | Hin].
  - rewrite Z.eqb_refl. f_equal. apply filter_none. intros y Hy.
    apply Z.eqb_neq. intros E. apply Hx. rewrite E. now apply in_map.
  - destruct (Z.eqb (key r) (key x)) eqn:E.
    + apply Z.eqb_eq in E. exfalso. apply Hx. rewrite <- E. now apply in_map.
    + now apply IH.
Qed.

Lemma innerJoin_app {L R} (l1 l2 : list L) (right : list R) on :
  innerJoin (l1 ++ l2) right on = innerJoin l1 right on ++ innerJoin l2 right on.
Proof. unfold innerJoin. apply flat_map_app. Qed.

(** A join in which every left row has exactly one partner. *)
Lemma innerJoin_functional {L R} (left : list L) (right : list R) on (f : L -> R) :
  (forall l, In l left -> filter (on l) right = [f l]) ->
  innerJoin left right on = map (fun l => (l, f l)) left.
Proof.
  induction left as [|l left IH]; simpl; intros H; [reflexivity|].
  unfold innerJoin in *. simpl. rewrite (H l (or_introl eq_refl)). simpl.
  f_equal. apply IH. intros x Hx. apply H. now right.
Qed.


Lemma hd_error_In {A} (l : list A) x : hd_error l = Some x -> In x l.
Proof. destruct l; simpl; [discriminate|]. intros H. inversion H. now left. Qed.

(** ** Reading one post *)

Lemma relations_of_post_categories db postId c :
  In c (map snd (filter (fun r : BlogPostCategory * Category =>
                           Z.eqb (bpc_blog_post_id (fst r)) postId)
                        (categories_joined db)))
  <-> In c (categoriesTable db)
      /\ In (mkBlogPostCategory postId (category_id c)) (blogPostCategoriesTable db).
Proof.
  rewrite in_map_iff. split.
  - intros [[pc c'] [Heq Hin]]. simpl in Heq. subst c'.
    apply filter_In in Hin. destruct Hin as [Hin Hid]. simpl in Hid.
    apply In_innerJoin in Hin. destruct Hin as [Hpc [Hc Hon]].
    apply Z.eqb_eq in Hid, Hon. split; auto.
    destruct pc as [b k]. simpl in *. now subst.
  - intros [Hc Hrow]. exists (mkBlogPostCategory postId (category_id c), c).
    split; auto. apply filter_In. split.
    + apply In_innerJoin. split; auto. split; auto. simpl. apply Z.eqb_refl.
    + simpl. apply Z.eqb_refl.
Qed.

Lemma relations_of_post_tags db postId t :
  In t (map snd (filter (fun r : BlogPostTag * Tag =>
                           Z.eqb (bpt_blog_post_id (fst r)) postId)
                        (tags_joined db)))
  <-> In t (tagsTable db)
      /\ In (mkBlogPostTag postId (tag_id t)) (blogPostTagsTable db).
Proof.
  rewrite in_map_iff. split.
  - intros [[pt t'] [Heq Hin]]. simpl in Heq. subst t'.
    apply filter_In in Hin. destruct Hin as [Hin Hid]. simpl in Hid.
    apply In_innerJoin in Hin. destruct Hin as [Hpt [Ht Hon]].
    apply Z.eqb_eq in Hid, Hon. split; auto.
    destruct pt as [b k]. simpl in *. now subst.
  - intros [Ht Hrow]. exists (mkBlogPostTag postId (tag_id t), t).
    split; auto. apply filter_In. split.
    + apply In_innerJoin. split; auto. split; auto. simpl. apply Z.eqb_refl.
    + simpl. apply Z.eqb_refl.
Qed.


Lemma getBlogPostById_run postId db :
  getBlogPostById postId db =
  match filter (fun r : BlogPost * User => Z.eqb (post_id (fst r)) postId)
               (posts_with_authors db) with
  | [] => None
  | result :: _ =>
    Some (mkBlogPostWithRelations (fst result) (snd result)
            (categories_of db postId) (tags_of db postId))
  end.
Proof. reflexivity. Qed.

Lemma getBlogPostBySlug_run slug db :
  getBlogPostBySlug slug db =
  match filter (fun r : BlogPost * User => String.eqb (post_slug (fst r)) slug)
               (posts_with_authors db) with
  | [] => None
  | result :: _ =>
    Some (mkBlogPostWithRelations (fst result) (snd result)
            (categories_of db (post_id (fst result))) (tags_of db (post_id (fst result))))
  end.
Proof. reflexivity. Qed.

Lemma In_posts_with_authors db p u :
  In (p, u) (posts_with_authors db)
  <-> In p (blogPostsTable db) /\ In u (usersTable db) /\ post_author_id p = user_id u.
Proof.
  unfold posts_with_authors. rewrite In_innerJoin. rewrite Z.eqb_eq. tauto.
Qed.

(** In a store with unique post and user ids a post has one joined row. *)
Lemma joined_row_unique db p u p' u' :
  NoDup (map post_id (blogPostsTable db)) ->
  NoDup (map user_id (usersTable db)) ->
  In (p, u) (posts_with_authors db) -> In (p', u') (posts_with_authors db) ->
  post_id p = post_id p' -> (p, u) = (p', u').
Proof.
  intros Hp Hu H1 H2 Hid.
  apply In_posts_with_authors in H1, H2.
  destruct H1 as [H1p [H1u H1a]], H2 as [H2p [H2u H2a]].
  assert (p = p') by (eapply NoDup_map_unique; eauto). subst p'.
  assert (u = u') by (eapply (NoDup_map_unique user_id); eauto; congruence).
  now subst.
Qed.

Lemma first_joined_row db (sel : BlogPost * User -> bool) p u :
  NoDup (map post_id (blogPostsTable db)) ->
  NoDup (map user_id (usersTable db)) ->
  In (p, u) (posts_with_authors db) -> sel (p, u) = true ->
  (forall r, In r (posts_with_authors db) -> sel r = true -> post_id (fst r) = post_id p) ->
  hd_error (filter sel (posts_with_authors db)) = Some (p, u).
Proof.
  intros Hp Hu Hin Hsel Hothers. apply first_selected; auto.
  intros [p' u'] Hin' Hsel'. symmetry.
  eapply joined_row_unique; eauto. symmetry. apply (Hothers _ Hin' Hsel').
Qed.

Lemma detail_of_stored_post postId db p u :
  NoDup (map post_id (blogPostsTable db)) ->
  NoDup (map user_id (usersTable db)) ->
  In p (blogPostsTable db) -> post_id p = postId ->
  In u (usersTable db) -> user_id u = post_author_id p ->
  getBlogPostById postId db
  = Some (mkBlogPostWithRelations p u (categories_of db postId) (tags_of db postId)).
Proof.
  intros Hposts Husers Hp Hid Hu Ha. rewrite getBlogPostById_run.
  assert (Hfirst : hd_error (filter (fun r : BlogPost * User =>
                                       Z.eqb (post_id (fst r)) postId)
                                    (posts_with_authors db)) = Some (p, u)).
  { apply first_joined_row; auto.
    - apply In_posts_with_authors. auto.
    - simpl. now apply Z.eqb_eq.
    - intros r _ Hr. apply Z.eqb_eq in Hr. congruence. }
  destruct (filter _ (posts_with_authors db)) as [|x l]; [discriminate|].
  simpl in Hfirst. inversion Hfirst; subst x. reflexivity.
Qed.

Lemma getBlogPostById_inv postId db item :
  getBlogPostById postId db = Some item ->
  In (wr_post item, wr_author item) (posts_with_authors db)
  /\ post_id (wr_post item) = postId
  /\ wr_categories item = categories_of db postId
  /\ wr_tags item = tags_of db postId.
Proof.
  rewrite getBlogPostById_run.
  destruct (filter _ (posts_with_authors db)) as [|[p u] l] eqn:E; [discriminate|].
  intros H. inversion H; subst item; clear H. simpl.
  assert (Hin : In (p, u) (filter (fun r : BlogPost * User =>
                                     Z.eqb (post_id (fst r)) postId)
                                  (posts_with_authors db)))
    by (rewrite E; now left).
  apply filter_In in Hin. destruct Hin as [Hin Hid]. simpl in Hid.
  apply Z.eqb_eq in Hid. auto.
Qed.

(** X1.  For an id within the range of the 32-bit id column (the store
    refuses any other), [getBlogPostById] answers null exactly when no
    stored post with the id has a stored author.  Otherwise it returns a
    stored post with that id (a draft as well as a published one: the
    status is not looked at), a stored user who is its author, and as
    categories (resp. tags) exactly the stored categories (resp. tags) that
    a join row associates with the id, in whatever order the store returns
    them.  When post ids and user ids are unique, it returns the post with
    the id together with its author. *)
Theorem getBlogPostById_found postId db :
  int4 postId = true ->
  (getBlogPostById postId db = None <->
   forall p u, In p (blogPostsTable db) -> In u (usersTable db) ->
               post_id p = postId -> post_author_id p <> user_id u)
  /\ (forall item,
         getBlogPostById postId db = Some item ->
         In (wr_post item) (blogPostsTable db)
         /\ post_id (wr_post item) = postId
         /\ In (wr_author item) (usersTable db)
         /\ user_id (wr_author item) = post_author_id (wr_post item)
         /\ (forall c, In c (wr_categories item) <->
                       In c (categoriesTable db)
                       /\ In (mkBlogPostCategory postId (category_id c))
                             (blogPostCategoriesTable db))
         /\ (forall t, In t (wr_tags item) <->
                       In t (tagsTable db)
                       /\ In (mkBlogPostTag postId (tag_id t)) (blogPostTagsTable db)))
  /\ (NoDup (map post_id (blogPostsTable db)) ->
      NoDup (map user_id (usersTable db)) ->
      forall p u,
        In p (blogPostsTable db) -> post_id p = postId ->
        In u (usersTable db) -> user_id u = post_author_id p ->
        exists item,
          getBlogPostById postId db = Some item
          /\ wr_post item = p /\ wr_author item = u).
Proof.
  intros _. rewrite getBlogPostById_run. split; [|split].
  - destruct (filter _ (posts_with_authors db)) as [|[p u] l] eqn:E.
    + split; [|reflexivity]. intros _ p u Hp Hu Hid Ha.
      assert (Hin : In (p, u) (filter (fun r : BlogPost * User =>
                                         Z.eqb (post_id (fst r)) postId)
                                      (posts_with_authors db))).
      { apply filter_In. split; [apply In_posts_with_authors; auto|].
        simpl. now apply Z.eqb_eq. }
      rewrite E in Hin. contradiction.
    + split; [discriminate|]. intros H. exfalso.
      assert (Hin : In (p, u) (filter (fun r : BlogPost * User =>
                                         Z.eqb (post_id (fst r)) postId)
                                      (posts_with_authors db)))
        by (rewrite E; now left).
      apply filter_In in Hin. destruct Hin as [Hin Hid]. simpl in Hid.
      apply Z.eqb_eq in Hid. apply In_posts_with_authors in Hin.
      destruct Hin as [Hp [Hu Ha]]. exact (H p u Hp Hu Hid Ha).
  - intros item H.
    destruct (filter _ (posts_with_authors db)) as [|[p u] l] eqn:E; [discriminate|].
    inversion H; subst item; clear H. simpl.
    assert (Hin : In (p, u) (filter (fun r : BlogPost * User =>
                                       Z.eqb (post_id (fst r)) postId)
                                    (posts_with_authors db)))
      by (rewrite E; now left).
    apply filter_In in Hin. destruct Hin as [Hin Hid]. simpl in Hid.
    apply Z.eqb_eq in Hid. apply In_posts_with_authors in Hin.
    destruct Hin as [Hp [Hu Ha]].
    split; [exact Hp|]. split; [exact Hid|]. split; [exact Hu|].
    split; [now symmetry|]. split.
    + intros c. apply relations_of_post_categories.
    + intros t. apply relations_of_post_tags.
  - intros Hposts Husers p u Hp Hid Hu Ha.
    rewrite <- getBlogPostById_run.
    rewrite (@detail_of_stored_post postId db p u Hposts Husers Hp Hid Hu Ha).
    eexists. split; [reflexivity|]. split; reflexivity.
Qed.

Lemma getBlogPostById_found_witness :
  (exists item,
      getBlogPostById 2 sample_db = Some item
      /\ wr_post item = second_post /\ wr_author item = alice)
  /\ getBlogPostById 7 sample_db = None.
Proof.
  destruct (getBlogPostById_found 2 sample_db eq_refl) as [_ [_ Hfound]].
  destruct (getBlogPostById_found 7 sample_db eq_refl) as [Hnone _].
  split.
  - apply (Hfound (wf_post_ids sample_well_formed)
                  ltac:(repeat constructor; simpl; intuition congruence)
                  second_post alice); simpl; auto.
  - apply Hnone. intros p u Hp _ Hid. simpl in Hp.
    destruct Hp as [<- | [<- | []]]; discriminate.
Defined.

(** ** The listing *)

Lemma filter_implied {A} (p q : A -> bool) l :
  (forall x, In x l -> p x = true -> q x = true) ->
  filter p (filter q l) = filter p l.
Proof.
  induction l as [|x l IH]; simpl; intros H; [reflexivity|].
  assert (IH' : filter p (filter q l) = filter p l) by (apply IH; intros; apply H; auto).
  destruct (q x) eqn:Eq; simpl.
  - now rewrite IH'.
  - destruct (p x) eqn:Ep; auto.
    rewrite (H x (or_introl eq_refl) Ep) in Eq. discriminate.
Qed.

Lemma In_insert_desc {R} (key : R -> Z) x y sorted :
  In y (insert_desc key x sorted) <-> y = x \/ In y sorted.
Proof.
  induction sorted as [|z l IH]; simpl; [intuition|].
  destruct (key x <? key z); simpl; [rewrite IH|]; intuition.
Qed.

Lemma In_orderBy_desc {R} (key : R -> Z) rows y :
  In y (orderBy_desc key rows) <-> In y rows.
Proof.
  unfold orderBy_desc. induction rows as [|x rows IH]; simpl; [tauto|].
  rewrite In_insert_desc, IH. intuition.
Qed.

Lemma In_limit_offset {A} l o (rows : list A) x :
  In x (limit_offset l o rows) -> In x rows.
Proof.
  unfold limit_offset. intros H.
  rewrite <- (firstn_skipn (Z.to_nat o) rows). apply in_or_app. right.
  rewrite <- (firstn_skipn (Z.to_nat l) (skipn (Z.to_nat o) rows)).
  apply in_or_app. now left.
Qed.

(** One WHERE clause for the three shapes of [conditions]. *)
Lemma rows_where_all {R} (conditions : list (R -> bool)) rows :
  rows_where (where_all conditions) rows
  = filter (fun r => forallb (fun c => c r) conditions) rows.
Proof.
  destruct conditions as [|c [|c' l]]; simpl.
  - symmetry. apply filter_all. auto.
  - apply filter_ext. intros r. now rewrite andb_true_r.
  - reflexivity.
Qed.

Lemma forallb_map_fst {L R} (conditions : list (L -> bool)) (r : L * R) :
  forallb (fun c => c r) (map (fun (c : L -> bool) (x : L * R) => c (fst x)) conditions)
  = forallb (fun c => c (fst r)) conditions.
Proof. induction conditions as [|c l IH]; simpl; [reflexivity|]. now rewrite IH. Qed.

(** The relations attached to a listed post are those of the detail view. *)
Lemma listed_categories db (postIds : list Z) id :
  In id postIds ->
  map snd (filter (fun pc : BlogPostCategory * Category =>
                     Z.eqb (bpc_blog_post_id (fst pc)) id)
             (if 0 <? Z.of_nat (List.length postIds) then
                rows_where (or_ (map (fun id r => Z.eqb (bpc_blog_post_id (fst r)) id) postIds))
                           (innerJoin (blogPostCategoriesTable db) (categoriesTable db)
                                      (fun pc c => Z.eqb (bpc_category_id pc) (category_id c)))
              else []))
  = categories_of db id.
Proof.
  intros Hin. destruct postIds as [|i l]; [contradiction|].
  change (0 <? Z.of_nat (List.length (i :: l))) with (0 <? Z.pos (Pos.of_succ_nat (List.length l))).
  simpl (0 <? _). cbv iota. unfold categories_of, categories_joined. f_equal.
  cbn [or_ map rows_where]. apply filter_implied.
  intros x _ Hx. apply Z.eqb_eq in Hx. apply existsb_exists.
  exists (fun r : BlogPostCategory * Category => Z.eqb (bpc_blog_post_id (fst r)) id).
  split; [|now apply Z.eqb_eq].
  change (In ((fun id0 (r : BlogPostCategory * Category) =>
                 Z.eqb (bpc_blog_post_id (fst r)) id0) id)
             (map (fun id0 (r : BlogPostCategory * Category) =>
                     Z.eqb (bpc_blog_post_id (fst r)) id0) (i :: l))).
  now apply in_map.
Qed.

Lemma listed_tags db (postIds : list Z) id :
  In id postIds ->
  map snd (filter (fun pt : BlogPostTag * Tag => Z.eqb (bpt_blog_post_id (fst pt)) id)
             (if 0 <? Z.of_nat (List.length postIds) then
                rows_where (or_ (map (fun id r => Z.eqb (bpt_blog_post_id (fst r)) id) postIds))
                           (innerJoin (blogPostTagsTable db) (tagsTable db)
                                      (fun pt t => Z.eqb (bpt_tag_id pt) (tag_id t)))
              else []))
  = tags_of db id.
Proof.
  intros Hin. destruct postIds as [|i l]; [contradiction|].
  change (0 <? Z.of_nat (List.length (i :: l))) with (0 <? Z.pos (Pos.of_succ_nat (List.length l))).
  simpl (0 <? _). cbv iota. unfold tags_of, tags_joined. f_equal.
  cbn [or_ map rows_where]. apply filter_implied.
  intros x _ Hx. apply Z.eqb_eq in Hx. apply existsb_exists.
  exists (fun r : BlogPostTag * Tag => Z.eqb (bpt_blog_post_id (fst r)) id).
  split; [|now apply Z.eqb_eq].
  change (In ((fun id0 (r : BlogPostTag * Tag) => Z.eqb (bpt_blog_post_id (fst r)) id0) id)
             (map (fun id0 (r : BlogPostTag * Tag) => Z.eqb (bpt_blog_post_id (fst r)) id0)
                  (i :: l))).
  now apply in_map.
Qed.


Lemma getBlogPosts_run input db :
  getBlogPosts input db =
  match filteredPostIds input db with
  | Some [] => mkPage [] 0 (q_page input) (q_limit input) 0
  | _ =>
    let total :=
      Z.of_nat (List.length (filter (fun p => forallb (fun c => c p)
                                                      (listing_conditions input db))
                                    (blogPostsTable db))) in
    mkPage (map (with_relations db) (listing_results input db)) total
           (q_page input) (q_limit input) (Math_ceil_div total (q_limit input))
  end.
Proof.
  assert (Hres : forall conditions,
    limit_offset (q_limit input) ((q_page input - 1) * q_limit input)
      (orderBy_desc (fun r : BlogPost * User => post_created_at (fst r))
         (rows_where (where_all (map (fun (c : BlogPost -> bool) (r : BlogPost * User) =>
                                        c (fst r)) conditions))
            (innerJoin (blogPostsTable db) (usersTable db)
                       (fun p u => Z.eqb (post_author_id p) (user_id u)))))
    = limit_offset (q_limit input) ((q_page input - 1) * q_limit input)
        (orderBy_desc (fun r : BlogPost * User => post_created_at (fst r))
           (filter (fun r => forallb (fun c => c (fst r)) conditions)
                   (posts_with_authors db)))).
  { intros conditions. rewrite rows_where_all. unfold posts_with_authors.
    do 2 f_equal. apply filter_ext. intros r. apply forallb_map_fst. }
  assert (Hitems : forall results : list (BlogPost * User),
    map (fun result =>
           mkBlogPostWithRelations (fst result) (snd result)
             (map snd (filter (fun pc => Z.eqb (bpc_blog_post_id (fst pc))
                                               (post_id (fst result)))
                (if 0 <? Z.of_nat (List.length
                                     (map (fun r : BlogPost * User => post_id (fst r))
                                          results))
                 then rows_where (or_ (map (fun id (r : BlogPostCategory * Category) =>
                                             Z.eqb (bpc_blog_post_id (fst r)) id)
                                           (map (fun r : BlogPost * User => post_id (fst r)) results)))
                        (innerJoin (blogPostCategoriesTable db) (categoriesTable db)
                                   (fun pc c => Z.eqb (bpc_category_id pc) (category_id c)))
                 else [])))
             (map snd (filter (fun pt => Z.eqb (bpt_blog_post_id (fst pt))
                                               (post_id (fst result)))
                (if 0 <? Z.of_nat (List.length
                                     (map (fun r : BlogPost * User => post_id (fst r))
                                          results))
                 then rows_where (or_ (map (fun id (r : BlogPostTag * Tag) =>
                                             Z.eqb (bpt_blog_post_id (fst r)) id)
                                           (map (fun r : BlogPost * User => post_id (fst r)) results)))
                        (innerJoin (blogPostTagsTable db) (tagsTable db)
                                   (fun pt t => Z.eqb (bpt_tag_id pt) (tag_id t)))
                 else []))))
        results
    = map (with_relations db) results).
  { intros results. apply map_ext_in. intros r Hr. unfold with_relations.
    assert (Hid : In (post_id (fst r)) (map (fun r : BlogPost * User => post_id (fst r)) results))
      by (apply in_map_iff; exists r; auto).
    f_equal; [now apply listed_categories | now apply listed_tags]. }
  unfold getBlogPosts, listing_results, listing_conditions.
  destruct (filteredPostIds input db) as [[|i l]|]; [reflexivity| |].
  - cbv zeta. rewrite Hres, Hitems, rows_where_all. reflexivity.
  - cbv zeta. rewrite Hres, Hitems, rows_where_all. reflexivity.
Qed.

(** *** The conditions as one predicate *)









(** *** Sorting and cutting commute with projections *)






(** *** Sorted lists *)







(** *** Every post joined with its author *)





Lemma In_listing_results input db r :
  In r (listing_results input db) ->
  In r (posts_with_authors db)
  /\ forallb (fun c => c (fst r)) (listing_conditions input db) = true.
Proof.
  unfold listing_results. intros H. apply In_limit_offset in H.
  apply In_orderBy_desc in H. now apply filter_In in H.
Qed.

Lemma listed_item_detail input db item :
  NoDup (map post_id (blogPostsTable db)) ->
  NoDup (map user_id (usersTable db)) ->
  In item (items (getBlogPosts input db)) ->
  getBlogPostById (post_id (wr_post item)) db = Some item.
Proof.
  intros Hposts Husers. rewrite getBlogPosts_run.
  assert (Hmain : In item (map (with_relations db) (listing_results input db)) ->
                  getBlogPostById (post_id (wr_post item)) db = Some item).
  { intros Hin. apply in_map_iff in Hin. destruct Hin as [[p u] [<- Hr]].
    apply In_listing_results in Hr. destruct Hr as [Hr _].
    rewrite getBlogPostById_run. simpl.
    assert (Hfirst : hd_error (filter (fun r : BlogPost * User =>
                                         Z.eqb (post_id (fst r)) (post_id p))
                                      (posts_with_authors db)) = Some (p, u)).
    { apply first_joined_row; auto.
      - simpl. apply Z.eqb_refl.
      - intros r _ Hsel. now apply Z.eqb_eq in Hsel. }
    destruct (filter _ (posts_with_authors db)) as [|x l]; [discriminate|].
    simpl in Hfirst. inversion Hfirst; subst x. reflexivity. }
  destruct (filteredPostIds input db) as [[|i l]|]; simpl; auto. contradiction.
Qed.

(** X2.  In a store with unique post ids and unique user ids, every item of a
    listing agrees with what [getBlogPostById] returns for the id of its
    post: the listing and the detail view show the same post, the same
    author, and the same categories and tags, each up to the order in which
    the store returns the rows of the two queries. *)
Theorem listing_agrees_with_detail input db item :
  NoDup (map post_id (blogPostsTable db)) ->
  NoDup (map user_id (usersTable db)) ->
  In item (items (getBlogPosts input db)) ->
  exists detail,
    getBlogPostById (post_id (wr_post item)) db = Some detail
    /\ wr_post detail = wr_post item
    /\ wr_author detail = wr_author item
    /\ Permutation (wr_categories detail) (wr_categories item)
    /\ Permutation (wr_tags detail) (wr_tags item).
Proof.
  intros Hposts Husers Hin. exists item.
  split; [now apply (listed_item_detail input db)|].
  repeat split; apply Permutation_refl.
Qed.

Lemma listing_agrees_with_detail_witness :
  let page := getBlogPosts (listing_query (Some published) None None None None) sample_db in
  exists item detail,
    items page = [item]
    /\ getBlogPostById 1 sample_db = Some detail
    /\ wr_post detail = first_post /\ wr_post item = first_post
    /\ wr_author detail = wr_author item.
Proof.
  intros page.
  destruct (@listing_agrees_with_detail (listing_query (Some published) None None None None)
              sample_db (mkBlogPostWithRelations first_post alice [news] [rocq_tag]))
    as [detail [Hdetail [Hpost [Hauthor _]]]].
  - apply sample_well_formed.
  - repeat constructor; simpl; intuition congruence.
  - left. reflexivity.
  - exists (mkBlogPostWithRelations first_post alice [news] [rocq_tag]), detail.
    split; [reflexivity|]. split; [exact Hdetail|]. split; [exact Hpost|].
    split; [reflexivity | exact Hauthor].
Defined.








Lemma sample_user_ids : NoDup (map user_id (usersTable sample_db)).
Proof. repeat constructor; simpl; intuition congruence. Qed.












(** X6.  [getBlogPostBySlug] answers null exactly when no stored post with
    the slug has a stored author.  In a store with unique post ids and user
    ids, what it returns has the slug asked for and is what
    [getBlogPostById] returns for the id of that post; when slugs are unique
    as well, every post [getBlogPostById] returns is returned for its slug. *)
Theorem getBlogPostBySlug_agrees slug db :
  (getBlogPostBySlug slug db = None <->
   forall p u, In p (blogPostsTable db) -> In u (usersTable db) ->
               post_slug p = slug -> post_author_id p <> user_id u)
  /\ (NoDup (map post_id (blogPostsTable db)) ->
      NoDup (map user_id (usersTable db)) ->
      forall item,
        getBlogPostBySlug slug db = Some item ->
        post_slug (wr_post item) = slug
        /\ getBlogPostById (post_id (wr_post item)) db = Some item)
  /\ (NoDup (map post_id (blogPostsTable db)) ->
      NoDup (map user_id (usersTable db)) ->
      NoDup (map post_slug (blogPostsTable db)) ->
      forall id item,
        getBlogPostById id db = Some item ->
        getBlogPostBySlug (post_slug (wr_post item)) db = Some item).
Proof.
  split; [|split].
  - rewrite getBlogPostBySlug_run.
    destruct (filter _ (posts_with_authors db)) as [|[p u] l] eqn:E.
    + split; [|reflexivity]. intros _ p u Hp Hu Hs Ha.
      assert (Hin : In (p, u) (filter (fun r : BlogPost * User =>
                                         String.eqb (post_slug (fst r)) slug)
                                      (posts_with_authors db))).
      { apply filter_In. split; [apply In_posts_with_authors; auto|].
        simpl. now apply String.eqb_eq. }
      rewrite E in Hin. contradiction.
    + split; [discriminate|]. intros H. exfalso.
      assert (Hin : In (p, u) (filter (fun r : BlogPost * User =>
                                         String.eqb (post_slug (fst r)) slug)
                                      (posts_with_authors db)))
        by (rewrite E; now left).
      apply filter_In in Hin. destruct Hin as [Hin Hs]. simpl in Hs.
      apply String.eqb_eq in Hs. apply In_posts_with_authors in Hin.
      destruct Hin as [Hp [Hu Ha]]. exact (H p u Hp Hu Hs Ha).
  - intros Hposts Husers item. rewrite getBlogPostBySlug_run.
    destruct (filter _ (posts_with_authors db)) as [|[p u] l] eqn:E; [discriminate|].
    intros H. inversion H; subst item; clear H. simpl.
    assert (Hin : In (p, u) (filter (fun r : BlogPost * User =>
                                       String.eqb (post_slug (fst r)) slug)
                                    (posts_with_authors db)))
      by (rewrite E; now left).
    apply filter_In in Hin. destruct Hin as [Hin Hs]. simpl in Hs.
    apply String.eqb_eq in Hs. apply In_posts_with_authors in Hin.
    destruct Hin as [Hp [Hu Ha]]. split; [exact Hs|].
    now apply detail_of_stored_post.
  - intros Hposts Husers Hslugs id item H.
    apply getBlogPostById_inv in H. destruct H as [Hin [Hid [Hc Ht]]].
    destruct item as [p u cs ts]. simpl in *. subst cs ts id.
    rewrite getBlogPostBySlug_run.
    assert (Hfirst : hd_error (filter (fun r : BlogPost * User =>
                                         String.eqb (post_slug (fst r)) (post_slug p))
                                      (posts_with_authors db)) = Some (p, u)).
    { apply first_joined_row; auto.
      - simpl. apply String.eqb_refl.
      - intros [p' u'] Hin' Hsel. simpl in *. apply String.eqb_eq in Hsel.
        apply In_posts_with_authors in Hin, Hin'.
        f_equal. eapply (NoDup_map_unique post_slug); eauto; tauto. }
    destruct (filter _ (posts_with_authors db)) as [|x l]; [discriminate|].
    simpl in Hfirst. inversion Hfirst; subst x. reflexivity.
Qed.

Lemma getBlogPostBySlug_agrees_witness :
  getBlogPostBySlug "draft-post" sample_db = getBlogPostById 2 sample_db
  /\ getBlogPostBySlug "no-such-post" sample_db = None.
Proof.
  destruct (getBlogPostBySlug_agrees "draft-post" sample_db) as [_ [Hid _]].
  destruct (getBlogPostBySlug_agrees "no-such-post" sample_db) as [Hnone _].
  split.
  - symmetry.
    apply (Hid (wf_post_ids sample_well_formed) sample_user_ids
               (mkBlogPostWithRelations second_post alice [tech] [web_tag])).
    reflexivity.
  - apply Hnone. intros p u Hp _ Hs. simpl in Hp.
    destruct Hp as [<- | [<- | []]]; discriminate.
Defined.

(** ** The constraints of the schema are kept *)

Lemma consistent_authors_stored db : consistent db -> authors_stored db.
Proof. intros H p Hp. exact (cs_authors H p Hp). Qed.

Lemma preserves_ret {A} (a : A) : preserves (ret a).
Proof. intros db H. exact H. Qed.

Lemma preserves_throw {A} e : preserves (@throw A e).
Proof. intros db H. exact H. Qed.

Lemma preserves_bind {A B} (m : Handler A) (k : A -> Handler B) :
  preserves m -> (forall a, preserves (k a)) -> preserves (bind m k).
Proof.
  intros Hm Hk db H. unfold bind. specialize (Hm db H).
  destruct (m db) as [db' [a|e]]; simpl in *; [now apply Hk | exact Hm].
Qed.

Lemma preserves_when c body : preserves body -> preserves (when c body).
Proof. intros Hb. destruct c; simpl; [exact Hb | apply preserves_ret]. Qed.

Lemma preserves_select {R} (table : Db -> list R) w : preserves (select_from table w).
Proof. intros db H. unfold select_from. now destruct (forallb int4 (where_int4 w)). Qed.

Lemma NoDup_strings_nodupb (l : list string) : nodupb String.eqb l = true -> NoDup l.
Proof. apply nodupb_NoDup. intros x y. apply String.eqb_eq. Qed.

Lemma existsb_key_false {R} (key : R -> Z) rows id :
  existsb (fun r => Z.eqb (key r) id) rows = false -> ~ In id (map key rows).
Proof.
  intros E Hin. apply in_map_iff in Hin. destruct Hin as [r [Hk Hr]].
  assert (existsb (fun r => Z.eqb (key r) id) rows = true); [|congruence].
  apply existsb_exists. exists r. split; auto. now apply Z.eqb_eq.
Qed.

Lemma existsb_text_false {R} (key : R -> string) rows s :
  existsb (fun r => String.eqb (key r) s) rows = false -> ~ In s (map key rows).
Proof.
  intros E Hin. apply in_map_iff in Hin. destruct Hin as [r [Hk Hr]].
  assert (existsb (fun r => String.eqb (key r) s) rows = true); [|congruence].
  apply existsb_exists. exists r. split; auto. now apply String.eqb_eq.
Qed.

Lemma NoDup_snoc {A} (l : list A) x : NoDup l -> ~ In x l -> NoDup (l ++ [x]).
Proof.
  intros Hl Hx. apply NoDup_app_disjoint; auto.
  - repeat constructor. intros [].
  - intros y Hy [<- | []]. contradiction.
Qed.

Lemma NoDup_map_snoc {A B} (f : A -> B) (l : list A) x :
  NoDup (map f l) -> ~ In (f x) (map f l) -> NoDup (map f (l ++ [x])).
Proof. intros Hl Hx. rewrite map_app. simpl. now apply NoDup_snoc. Qed.

Lemma NoDup_map_filtered {R K} (f : R -> K) (p : R -> bool) rows :
  NoDup (map f rows) -> NoDup (map f (filter p rows)).
Proof.
  induction rows as [|r rows IH]; simpl; intros H; [constructor|].
  inversion H as [|? ? Hn Hd]; subst.
  destruct (p r); simpl; auto. constructor; auto.
  intros Hin. apply Hn. apply in_map_iff in Hin. destruct Hin as [x [Hx Hf]].
  apply in_map_iff. exists x. split; auto. now apply filter_In in Hf.
Qed.

(** *** Statements on posts *)

Lemma preserves_insert_blogPost now v : preserves (insert_blogPost now v).
Proof.
  intros db H. unfold insert_blogPost.
  destruct H as [Hu Hc Ht [Hp [Hs Hq]] [Hcl [Hcp Hcc]] [Htl [Htp Htt]] Ha Hads].
  assert (Hseq : consistent (with_blog_posts_id_seq db (blog_posts_id_seq db + 1))).
  { constructor; simpl; auto; try (split; [|split]; auto).
    intros p Hp'. specialize (Hq p Hp'). lia. }
  destruct (existsb (fun p => Z.eqb (post_id p) (blog_posts_id_seq db + 1)) (blogPostsTable db))
    eqn:E1; [exact Hseq|].
  destruct (existsb (fun p => String.eqb (post_slug p) (new_slug v)) (blogPostsTable db))
    eqn:E2; [exact Hseq|].
  destruct (existsb (fun u => Z.eqb (user_id u) (new_author_id v)) (usersTable db))
    eqn:E3; [|exact Hseq].
  cbn [negb fst]. constructor; simpl; auto.
  - split; [|split].
    + apply NoDup_map_snoc; auto. now apply existsb_key_false.
    + apply NoDup_map_snoc; auto. now apply existsb_text_false.
    + intros p Hp'. apply in_app_or in Hp'. destruct Hp' as [Hp' | [<- | []]].
      * specialize (Hq p Hp'). lia.
      * simpl. lia.
  - split; [auto|split; auto].
    intros r Hr. destruct (Hcp r Hr) as [p [Hp1 Hp2]]. exists p. split; auto.
    apply in_or_app. now left.
  - split; [auto|split; auto].
    intros r Hr. destruct (Htp r Hr) as [p [Hp1 Hp2]]. exists p. split; auto.
    apply in_or_app. now left.
  - intros p Hp'. apply in_app_or in Hp'. destruct Hp' as [Hp' | [<- | []]]; auto.
    simpl. apply existsb_id in E3. exact E3.
Qed.

Lemma forallb_exists_key {R S} (rows : list R) (table : list S) (f : R -> Z) (key : S -> Z) :
  forallb (fun r => existsb (fun s => Z.eqb (key s) (f r)) table) rows = true ->
  forall r, In r rows -> exists s, In s table /\ key s = f r.
Proof.
  intros H r Hr. rewrite forallb_forall in H. specialize (H r Hr).
  now apply existsb_id in H.
Qed.

Lemma preserves_insert_blogPostCategories rows : preserves (insert_blogPostCategories rows).
Proof.
  intros db H. unfold insert_blogPostCategories.
  destruct rows as [|x rows]; [exact H|].
  destruct (forallb _ (x :: rows)) eqn:E1; cbn [negb]; [|exact H].
  destruct (forallb (fun r => existsb (fun c => Z.eqb (category_id c) (bpc_category_id r))
                                      (categoriesTable db)) (x :: rows)) eqn:E2;
    cbn [negb]; [|exact H].
  destruct (nodupb BlogPostCategory_eqb (blogPostCategoriesTable db ++ x :: rows)) eqn:E3;
    cbn [negb]; [|exact H].
  destruct H as [Hu Hc Ht Hp [Hcl [Hcp Hcc]] Htl Ha Hads].
  constructor; simpl; auto. split; [|split].
  - now apply (nodupb_NoDup _ BlogPostCategory_eqb_eq).
  - intros r Hr. apply in_app_or in Hr. destruct Hr as [Hr | Hr]; auto.
    exact (forallb_exists_key _ _ bpc_blog_post_id post_id E1 r Hr).
  - intros r Hr. apply in_app_or in Hr. destruct Hr as [Hr | Hr]; auto.
    exact (forallb_exists_key _ _ bpc_category_id category_id E2 r Hr).
Qed.

Lemma preserves_insert_blogPostTags rows : preserves (insert_blogPostTags rows).
Proof.
  intros db H. unfold insert_blogPostTags.
  destruct rows as [|x rows]; [exact H|].
  destruct (forallb _ (x :: rows)) eqn:E1; cbn [negb]; [|exact H].
  destruct (forallb (fun r => existsb (fun t => Z.eqb (tag_id t) (bpt_tag_id r))
                                      (tagsTable db)) (x :: rows)) eqn:E2;
    cbn [negb]; [|exact H].
  destruct (nodupb BlogPostTag_eqb (blogPostTagsTable db ++ x :: rows)) eqn:E3;
    cbn [negb]; [|exact H].
  destruct H as [Hu Hc Ht Hp Hcl [Htl [Htp Htt]] Ha Hads].
  constructor; simpl; auto. split; [|split].
  - now apply (nodupb_NoDup _ BlogPostTag_eqb_eq).
  - intros r Hr. apply in_app_or in Hr. destruct Hr as [Hr | Hr]; auto.
    exact (forallb_exists_key _ _ bpt_blog_post_id post_id E1 r Hr).
  - intros r Hr. apply in_app_or in Hr. destruct Hr as [Hr | Hr]; auto.
    exact (forallb_exists_key _ _ bpt_tag_id tag_id E2 r Hr).
Qed.

Lemma category_links_filter posts categories rows (p : BlogPostCategory -> bool) :
  category_links posts categories rows -> category_links posts categories (filter p rows).
Proof.
  intros [H1 [H2 H3]]. split; [now apply NoDup_filter'|].
  split; intros r Hr; apply filter_In in Hr; destruct Hr; auto.
Qed.

Lemma tag_links_filter posts tags rows (p : BlogPostTag -> bool) :
  tag_links posts tags rows -> tag_links posts tags (filter p rows).
Proof.
  intros [H1 [H2 H3]]. split; [now apply NoDup_filter'|].
  split; intros r Hr; apply filter_In in Hr; destruct Hr; auto.
Qed.

Lemma preserves_delete_blogPostCategories id : preserves (delete_blogPostCategories id).
Proof.
  intros db [Hu Hc Ht Hp Hcl Htl Ha Hads]. constructor; simpl; auto.
  now apply category_links_filter.
Qed.

Lemma preserves_delete_blogPostTags id : preserves (delete_blogPostTags id).
Proof.
  intros db [Hu Hc Ht Hp Hcl Htl Ha Hads]. constructor; simpl; auto.
  now apply tag_links_filter.
Qed.

Lemma preserves_delete_blogPost id : preserves (delete_blogPost id).
Proof.
  intros db [Hu Hc Ht [Hp [Hs Hq]] [Hcl [Hcp Hcc]] [Htl [Htp Htt]] Ha Hads].
  constructor; simpl; auto.
  - split; [|split].
    + now apply NoDup_map_filtered.
    + now apply NoDup_map_filtered.
    + intros p Hp'. apply filter_In in Hp'. now apply Hq.
  - split; [now apply NoDup_filter'|]. split.
    + intros r Hr. apply filter_In in Hr. destruct Hr as [Hr Hid].
      destruct (Hcp r Hr) as [p [Hp1 Hp2]]. exists p. split; auto.
      apply filter_In. split; auto. now rewrite Hp2.
    + intros r Hr. apply filter_In in Hr. now apply Hcc.
  - split; [now apply NoDup_filter'|]. split.
    + intros r Hr. apply filter_In in Hr. destruct Hr as [Hr Hid].
      destruct (Htp r Hr) as [p [Hp1 Hp2]]. exists p. split; auto.
      apply filter_In. split; auto. now rewrite Hp2.
    + intros r Hr. apply filter_In in Hr. now apply Htt.
  - intros p Hp'. apply filter_In in Hp'. now apply Ha.
Qed.

Lemma map_key_updated {R} (key : R -> Z) (f : R -> R) (sel : R -> bool) rows :
  (forall r, key (f r) = key r) ->
  map key (map (fun r => if sel r then f r else r) rows) = map key rows.
Proof.
  intros Hk. rewrite map_map. apply map_ext. intros r. destruct (sel r); auto.
Qed.

Lemma In_updated {R} (f : R -> R) (sel : R -> bool) rows x :
  In x (map (fun r => if sel r then f r else r) rows) ->
  exists r, In r rows /\ (x = r \/ x = f r).
Proof.
  intros H. apply in_map_iff in H. destruct H as [r [<- Hr]].
  exists r. split; auto. destruct (sel r); auto.
Qed.

Lemma key_still_stored {R} (key : R -> Z) (f : R -> R) (sel : R -> bool) rows id :
  (forall r, key (f r) = key r) ->
  (exists r, In r rows /\ key r = id) ->
  exists r, In r (map (fun r => if sel r then f r else r) rows) /\ key r = id.
Proof.
  intros Hk [r [Hr Hid]]. exists (if sel r then f r else r). split.
  - apply in_map_iff. exists r. auto.
  - destruct (sel r); [rewrite Hk|]; auto.
Qed.

Lemma preserves_update_blogPost u target : preserves (update_blogPost u target).
Proof.
  intros db H. unfold update_blogPost.
  destruct (nodupb String.eqb _) eqn:E; [|exact H].
  destruct H as [Hu Hc Ht [Hp [Hs Hq]] [Hcl [Hcp Hcc]] [Htl [Htp Htt]] Ha Hads].
  constructor; simpl; auto.
  - split; [|split].
    + rewrite (map_key_updated post_id); auto.
    + now apply NoDup_strings_nodupb.
    + intros p Hp'. apply In_updated in Hp'. destruct Hp' as [r [Hr [-> | ->]]]; auto.
      simpl. auto.
  - split; [auto|split; auto].
    intros r Hr. apply (key_still_stored post_id); auto.
  - split; [auto|split; auto].
    intros r Hr. apply (key_still_stored post_id); auto.
  - intros p Hp'. apply In_updated in Hp'. destruct Hp' as [r [Hr [-> | ->]]]; auto.
    simpl. auto.
Qed.

(** *** Statements on tags and categories *)

Lemma preserves_insert_tag now id name slug : preserves (insert_tag now id name slug).
Proof.
  intros db H. unfold insert_tag.
  destruct (existsb (fun t => Z.eqb (tag_id t) id) (tagsTable db)) eqn:E1; [exact H|].
  destruct (existsb (fun t => String.eqb (tag_slug t) slug) (tagsTable db)) eqn:E2;
    [exact H|].
  destruct H as [Hu Hc [Ht Hts] Hp Hcl [Htl [Htp Htt]] Ha Hads].
  constructor; simpl; auto.
  - split.
    + apply NoDup_map_snoc; auto. now apply existsb_key_false.
    + apply NoDup_map_snoc; auto. now apply existsb_text_false.
  - split; [auto|split; auto].
    intros r Hr. destruct (Htt r Hr) as [t [Ht1 Ht2]]. exists t. split; auto.
    apply in_or_app. now left.
Qed.

Lemma preserves_update_tag u target : preserves (update_tag u target).
Proof.
  intros db H. unfold update_tag.
  destruct (int4 target); cbn [negb]; [|exact H].
  destruct (nodupb String.eqb _) eqn:E; [|exact H].
  destruct H as [Hu Hc [Ht Hts] Hp Hcl [Htl [Htp Htt]] Ha Hads].
  constructor; simpl; auto.
  - split.
    + rewrite (map_key_updated tag_id); auto.
    + now apply NoDup_strings_nodupb.
  - split; [auto|split; auto].
    intros r Hr. apply (key_still_stored tag_id); auto.
Qed.

Lemma preserves_delete_blogPostTags_of_tag tagId :
  preserves (delete_blogPostTags_of_tag tagId).
Proof.
  intros db H. unfold delete_blogPostTags_of_tag.
  destruct (int4 tagId); cbn [negb]; [|exact H].
  destruct H as [Hu Hc Ht Hp Hcl Htl Ha Hads]. constructor; simpl; auto.
  now apply tag_links_filter.
Qed.

Lemma filter_nil_none {A} (p : A -> bool) l x :
  filter p l = [] -> In x l -> p x = false.
Proof.
  intros E Hx. destruct (p x) eqn:Hp; [|reflexivity].
  assert (Hin : In x (filter p l)) by (apply filter_In; auto).
  rewrite E in Hin. contradiction.
Qed.

Lemma filter_negb_all {A} (p : A -> bool) l :
  filter p l = [] -> filter (fun x => negb (p x)) l = l.
Proof.
  intros E. apply filter_all. intros x Hx. now rewrite (filter_nil_none p l x E Hx).
Qed.

Lemma preserves_delete_tag tagId : preserves (delete_tag tagId).
Proof.
  intros db H. unfold delete_tag.
  destruct (filter (fun t => Z.eqb (tag_id t) tagId) (tagsTable db)) as [|d ds] eqn:E.
  - simpl. rewrite (filter_negb_all _ _ E). now destruct db.
  - simpl. destruct H as [Hu Hc [Ht Hts] Hp Hcl [Htl [Htp Htt]] Ha Hads].
    constructor; simpl; auto.
    + split; now apply NoDup_map_filtered.
    + split; [now apply NoDup_filter'|]. split.
      * intros r Hr. apply filter_In in Hr. now apply Htp.
      * intros r Hr. apply filter_In in Hr. destruct Hr as [Hr Hid].
        destruct (Htt r Hr) as [t [Ht1 Ht2]]. exists t. split; auto.
        apply filter_In. split; auto. now rewrite Ht2.
Qed.

Lemma preserves_insert_category now id name slug description :
  preserves (insert_category now id name slug description).
Proof.
  intros db H. unfold insert_category.
  destruct (existsb (fun c => Z.eqb (category_id c) id) (categoriesTable db)) eqn:E1;
    [exact H|].
  destruct (existsb (fun c => String.eqb (category_slug c) slug) (categoriesTable db))
    eqn:E2; [exact H|].
  destruct H as [Hu [Hc Hcs] Ht Hp [Hcl [Hcp Hcc]] Htl Ha Hads].
  constructor; simpl; auto.
  - split.
    + apply NoDup_map_snoc; auto. now apply existsb_key_false.
    + apply NoDup_map_snoc; auto. now apply existsb_text_false.
  - split; [auto|split; auto].
    intros r Hr. destruct (Hcc r Hr) as [c [Hc1 Hc2]]. exists c. split; auto.
    apply in_or_app. now left.
Qed.

Lemma preserves_update_category u target : preserves (update_category u target).
Proof.
  intros db H. unfold update_category.
  destruct (int4 target); cbn [negb]; [|exact H].
  destruct (nodupb String.eqb _) eqn:E; [|exact H].
  destruct H as [Hu [Hc Hcs] Ht Hp [Hcl [Hcp Hcc]] Htl Ha Hads].
  constructor; simpl; auto.
  - split.
    + rewrite (map_key_updated category_id); auto.
    + now apply NoDup_strings_nodupb.
  - split; [auto|split; auto].
    intros r Hr. apply (key_still_stored category_id); auto.
Qed.

Lemma preserves_delete_blogPostCategories_of_category categoryId :
  preserves (delete_blogPostCategories_of_category categoryId).
Proof.
  intros db H. unfold delete_blogPostCategories_of_category.
  destruct (int4 categoryId); cbn [negb]; [|exact H].
  destruct H as [Hu Hc Ht Hp Hcl Htl Ha Hads]. constructor; simpl; auto.
  now apply category_links_filter.
Qed.

Lemma preserves_delete_category categoryId : preserves (delete_category categoryId).
Proof.
  intros db H. unfold delete_category.
  destruct (filter (fun c => Z.eqb (category_id c) categoryId) (categoriesTable db))
    as [|d ds] eqn:E.
  - simpl. rewrite (filter_negb_all _ _ E). now destruct db.
  - simpl. destruct H as [Hu [Hc Hcs] Ht Hp [Hcl [Hcp Hcc]] Htl Ha Hads].
    constructor; simpl; auto.
    + split; now apply NoDup_map_filtered.
    + split; [now apply NoDup_filter'|]. split.
      * intros r Hr. apply filter_In in Hr. now apply Hcp.
      * intros r Hr. apply filter_In in Hr. destruct Hr as [Hr Hid].
        destruct (Hcc r Hr) as [c [Hc1 Hc2]]. exists c. split; auto.
        apply filter_In. split; auto. now rewrite Hc2.
Qed.

(** *** Statements on users and on the AdSense configuration *)

Lemma preserves_insert_user now id v : preserves (insert_user now id v).
Proof.
  intros db H. unfold insert_user.
  destruct (existsb (fun u => Z.eqb (user_id u) id) (usersTable db)) eqn:E1; [exact H|].
  destruct (existsb (fun u => String.eqb (user_email u) (nu_email v)) (usersTable db))
    eqn:E2; [exact H|].
  destruct (existsb (fun u => String.eqb (user_username u) (nu_username v)) (usersTable db))
    eqn:E3; [exact H|].
  destruct H as [[Hu [Hue Hun]] Hc Ht Hp Hcl Htl Ha Hads].
  constructor; simpl; auto.
  - split; [|split].
    + apply NoDup_map_snoc; auto. now apply existsb_key_false.
    + apply NoDup_map_snoc; auto. now apply existsb_text_false.
    + apply NoDup_map_snoc; auto. now apply existsb_text_false.
  - intros p Hp'. destruct (Ha p Hp') as [u [Hu1 Hu2]]. exists u. split; auto.
    apply in_or_app. now left.
Qed.

Lemma preserves_update_user f target : preserves (update_user f target).
Proof.
  intros db H. unfold update_user.
  destruct (int4 target); cbn [negb]; [|exact H].
  destruct (nodupb String.eqb (map user_email _)) eqn:E1; cbn [negb]; [|exact H].
  destruct (nodupb String.eqb (map user_username _)) eqn:E2; cbn [negb]; [|exact H].
  destruct H as [[Hu [Hue Hun]] Hc Ht Hp Hcl Htl Ha Hads].
  constructor; simpl; auto.
  - split; [|split].
    + rewrite (map_key_updated user_id); auto.
    + now apply NoDup_strings_nodupb.
    + now apply NoDup_strings_nodupb.
  - intros p Hp'. apply (key_still_stored user_id); auto.
Qed.

Lemma preserves_delete_user userId : preserves (delete_user userId).
Proof.
  intros db H. unfold delete_user.
  destruct (int4 userId); cbn [negb]; [|exact H].
  destruct (filter (fun u => Z.eqb (user_id u) userId) (usersTable db)) as [|d ds] eqn:E.
  - simpl. rewrite (filter_negb_all _ _ E). now destruct db.
  - simpl.
    destruct H as [[Hu [Hue Hun]] Hc Ht [Hp [Hs Hq]] [Hcl [Hcp Hcc]] [Htl [Htp Htt]] Ha Hads].
    assert (Hstays : forall id,
      (exists p, In p (blogPostsTable db) /\ post_id p = id) ->
      existsb (fun p => Z.eqb (post_id p) id)
              (filter (fun p => Z.eqb (post_author_id p) userId) (blogPostsTable db)) = false ->
      exists p, In p (filter (fun p => negb (Z.eqb (post_author_id p) userId))
                             (blogPostsTable db)) /\ post_id p = id).
    { intros id [p [Hp1 Hp2]] Hgone. exists p. split; auto.
      apply filter_In. split; auto.
      destruct (Z.eqb (post_author_id p) userId) eqn:Ea; [|reflexivity].
      exfalso.
      assert (existsb (fun p => Z.eqb (post_id p) id)
                (filter (fun p => Z.eqb (post_author_id p) userId) (blogPostsTable db)) = true);
        [|congruence].
      apply existsb_exists. exists p. split; [apply filter_In; auto|].
      now apply Z.eqb_eq. }
    constructor; simpl; auto.
    + split; [|split]; now apply NoDup_map_filtered.
    + split; [|split].
      * now apply NoDup_map_filtered.
      * now apply NoDup_map_filtered.
      * intros p Hp'. apply filter_In in Hp'. now apply Hq.
    + split; [now apply NoDup_filter'|]. split.
      * intros r Hr. apply filter_In in Hr. destruct Hr as [Hr Hg].
        apply negb_true_iff in Hg. apply Hstays; auto.
      * intros r Hr. apply filter_In in Hr. now apply Hcc.
    + split; [now apply NoDup_filter'|]. split.
      * intros r Hr. apply filter_In in Hr. destruct Hr as [Hr Hg].
        apply negb_true_iff in Hg. apply Hstays; auto.
      * intros r Hr. apply filter_In in Hr. now apply Htt.
    + intros p Hp'. apply filter_In in Hp'. destruct Hp' as [Hp' Hne].
      destruct (Ha p Hp') as [u [Hu1 Hu2]]. exists u. split; auto.
      apply filter_In. split; auto. now rewrite Hu2.
Qed.

Lemma preserves_update_adSenseConfig now input : preserves (update_adSenseConfig now input).
Proof.
  intros db [Hu Hc Ht Hp Hcl Htl Ha Hads]. constructor; simpl; auto.
  rewrite map_map. simpl. exact Hads.
Qed.

Lemma preserves_insert_adSenseConfig now id input :
  preserves (insert_adSenseConfig now id input).
Proof.
  intros db H. unfold insert_adSenseConfig.
  destruct (existsb (fun c => Z.eqb (adsense_id c) id) (adSenseConfigTable db)) eqn:E;
    [exact H|].
  destruct H as [Hu Hc Ht Hp Hcl Htl Ha Hads]. constructor; simpl; auto.
  apply NoDup_map_snoc; auto. now apply existsb_key_false.
Qed.

(** *** Handlers *)

Lemma preserves_createBlogPost now input authorId :
  preserves (createBlogPost now input authorId).
Proof.
  unfold createBlogPost.
  apply preserves_bind; [apply preserves_select|]. intros author.
  apply preserves_bind; [apply preserves_when, preserves_throw|]. intros _.
  apply preserves_bind; [apply preserves_select|]. intros categories.
  apply preserves_bind; [apply preserves_when, preserves_throw|]. intros _.
  apply preserves_bind.
  { apply preserves_when. apply preserves_bind; [apply preserves_select|].
    intros tags. apply preserves_when, preserves_throw. }
  intros _. cbv zeta.
  apply preserves_bind; [apply preserves_insert_blogPost|]. intros [|blogPost rest].
  - apply preserves_throw.
  - apply preserves_bind; [apply preserves_when, preserves_insert_blogPostCategories|].
    intros _.
    apply preserves_bind; [apply preserves_when, preserves_insert_blogPostTags|].
    intros _. apply preserves_ret.
Qed.

Lemma preserves_updateBlogPost now input uid role :
  preserves (updateBlogPost now input uid role).
Proof.
  unfold updateBlogPost.
  apply preserves_bind; [apply preserves_select|]. intros [|post others].
  - apply preserves_throw.
  - apply preserves_bind; [apply preserves_when, preserves_throw|]. intros _.
    apply preserves_bind.
    { apply preserves_when. apply preserves_bind; [apply preserves_select|].
      intros rows. apply preserves_when, preserves_throw. }
    intros _.
    apply preserves_bind.
    { apply preserves_when. apply preserves_bind; [apply preserves_select|].
      intros rows. apply preserves_when, preserves_throw. }
    intros _. cbv zeta.
    apply preserves_bind; [apply preserves_update_blogPost|]. intros result.
    apply preserves_bind.
    { destruct (ubp_category_ids input) as [ids|]; [|apply preserves_ret].
      apply preserves_bind; [apply preserves_delete_blogPostCategories|]. intros _.
      apply preserves_when, preserves_insert_blogPostCategories. }
    intros _.
    apply preserves_bind.
    { destruct (ubp_tag_ids input) as [ids|]; [|apply preserves_ret].
      apply preserves_bind; [apply preserves_delete_blogPostTags|]. intros _.
      apply preserves_when, preserves_insert_blogPostTags. }
    intros _. apply preserves_ret.
Qed.

Lemma preserves_deleteBlogPost postId uid role : preserves (deleteBlogPost postId uid role).
Proof.
  unfold deleteBlogPost.
  apply preserves_bind; [apply preserves_select|]. intros [|post others].
  - apply preserves_throw.
  - apply preserves_bind; [apply preserves_when, preserves_throw|]. intros _.
    apply preserves_bind; [apply preserves_delete_blogPost|]. intros _.
    apply preserves_ret.
Qed.

Lemma preserves_createTag now id input : preserves (createTag now id input).
Proof. apply preserves_bind; [apply preserves_insert_tag|]. intros r. apply preserves_ret. Qed.

Lemma preserves_updateTag now input : preserves (updateTag now input).
Proof.
  unfold updateTag. cbv zeta.
  apply preserves_bind; [apply preserves_update_tag|]. intros r.
  apply preserves_bind; [apply preserves_when, preserves_throw|]. intros _.
  apply preserves_ret.
Qed.

Lemma preserves_deleteTag tagId : preserves (deleteTag tagId).
Proof.
  apply preserves_bind; [apply preserves_delete_blogPostTags_of_tag|]. intros _.
  apply preserves_bind; [apply preserves_delete_tag|]. intros r.
  apply preserves_bind; [apply preserves_when, preserves_throw|]. intros _.
  apply preserves_ret.
Qed.

Lemma preserves_createCategory now id input : preserves (createCategory now id input).
Proof.
  apply preserves_bind; [apply preserves_insert_category|]. intros r. apply preserves_ret.
Qed.

Lemma preserves_updateCategory now input : preserves (updateCategory now input).
Proof.
  unfold updateCategory. cbv zeta.
  apply preserves_bind; [apply preserves_update_category|]. intros r.
  apply preserves_bind; [apply preserves_when, preserves_throw|]. intros _.
  apply preserves_ret.
Qed.

Lemma preserves_deleteCategory categoryId : preserves (deleteCategory categoryId).
Proof.
  apply preserves_bind; [apply preserves_delete_blogPostCategories_of_category|].
  intros _.
  apply preserves_bind; [apply preserves_delete_category|]. intros r.
  apply preserves_bind; [apply preserves_when, preserves_throw|]. intros _.
  apply preserves_ret.
Qed.

Lemma preserves_createUser now id passwordHash input :
  preserves (createUser now id passwordHash input).
Proof. apply preserves_bind; [apply preserves_insert_user|]. intros r. apply preserves_ret. Qed.

Lemma preserves_updateUser now input : preserves (updateUser now input).
Proof.
  unfold updateUser. cbv zeta.
  apply preserves_bind; [apply preserves_update_user|]. intros r.
  apply preserves_bind; [apply preserves_when, preserves_throw|]. intros _.
  apply preserves_ret.
Qed.

Lemma preserves_deleteUser userId : preserves (deleteUser userId).
Proof.
  apply preserves_bind; [apply preserves_delete_user|]. intros r.
  apply preserves_bind; [apply preserves_when, preserves_throw|]. intros _.
  apply preserves_ret.
Qed.

Lemma preserves_updateAdSenseConfig now id input :
  preserves (updateAdSenseConfig now id input).
Proof.
  intros db H. unfold updateAdSenseConfig.
  destruct (getAdSenseConfig db).
  - revert db H. apply preserves_bind; [apply preserves_update_adSenseConfig|].
    intros r. apply preserves_ret.
  - revert db H. apply preserves_bind; [apply preserves_insert_adSenseConfig|].
    intros r. apply preserves_ret.
Qed.

Lemma preserves_createUserWithHashedPassword {rt : Runtime} now id userData :
  preserves (createUserWithHashedPassword now id userData).
Proof.
  unfold createUserWithHashedPassword. cbv zeta.
  apply preserves_bind; [apply preserves_insert_user|]. intros [|user rest].
  - apply preserves_throw.
  - apply preserves_ret.
Qed.

Lemma sample_consistent : consistent sample_db.
Proof.
  constructor; simpl.
  - repeat split; repeat constructor; simpl; intuition congruence.
  - repeat split; repeat constructor; simpl; intuition congruence.
  - repeat split; repeat constructor; simpl; intuition congruence.
  - split; [|split]; [repeat constructor; simpl; intuition congruence ..|].
    intros p [<- | [<- | []]]; simpl; lia.
  - split; [repeat constructor; simpl; intuition congruence|]. split.
    + intros r [<- | [<- | []]]; simpl;
        [exists first_post | exists second_post]; simpl; auto.
    + intros r [<- | [<- | []]]; simpl; [exists news | exists tech]; simpl; auto.
  - split; [repeat constructor; simpl; intuition congruence|]. split.
    + intros r [<- | [<- | []]]; simpl;
        [exists first_post | exists second_post]; simpl; auto.
    + intros r [<- | [<- | []]]; simpl; [exists rocq_tag | exists web_tag]; simpl; auto.
  - intros p [<- | [<- | []]]; exists alice; simpl; auto.
  - constructor.
Qed.

(** ** What the blog post writes store *)

Lemma same_tables_refl db : same_tables db db.
Proof. repeat split. Qed.

Lemma same_tables_seq db n : same_tables db (with_blog_posts_id_seq db n).
Proof. repeat split. Qed.

(** The count check of a handler, when it passes, on any list of ids. *)
Lemma count_check_resolves {R} (key : R -> Z) rows ids :
  NoDup (map key rows) ->
  Nat.eqb (List.length (rows_where (or_ (map (fun id => eq_ key id) ids)) rows))
          (List.length ids) = true ->
  resolve key rows ids.
Proof.
  intros Hpk H. destruct ids as [|i ids].
  - split; [constructor | intros ? []].
  - apply count_check_passes in H; auto. discriminate.
Qed.

Lemma validation_outcome {R} ids (table : Db -> list R) (key : R -> Z) message db :
  NoDup (map key (table db)) ->
  let step :=
    when (given_nonempty ids)
         (rows <- select_from table (where_any key (or_else ids [])) ;;
          when (negb (Nat.eqb (List.length rows) (List.length (or_else ids []))))
               (throw (JsError message))) db in
  (exists e, step = (db, Thrown e))
  \/ (step = (db, Returned tt)
      /\ (given_nonempty ids = true -> resolve key (table db) (or_else ids []))).
Proof.
  intros Hpk. cbv zeta. rewrite when_run.
  destruct (given_nonempty ids) eqn:Hg.
  - destruct (forallb int4 (or_else ids [])) eqn:Ri;
      [rewrite select_any_run by exact Ri
      | rewrite select_any_refused by exact Ri; left; eexists; reflexivity].
    rewrite when_run.
    destruct (Nat.eqb _ _) eqn:E; cbn [negb].
    + right. split; [reflexivity|]. intros _. now apply count_check_resolves.
    + left. eexists. reflexivity.
  - right. split; [reflexivity|]. discriminate.
Qed.

Lemma not_given_empty ids : given_nonempty ids = false -> or_else ids [] = [].
Proof. destruct ids as [[|i l]|]; simpl; auto; discriminate. Qed.

Lemma given_iff_nonempty ids : given_nonempty ids = (0 <? Z.of_nat (List.length (or_else ids []))).
Proof. destruct ids as [l|]; reflexivity. Qed.

(** The two inserts of association rows for a post without any. *)
Lemma associations_stored {A} db id (category_ids tag_ids : list Z) (a : A) :
  consistent db ->
  (exists p, In p (blogPostsTable db) /\ post_id p = id) ->
  (forall r, In r (blogPostCategoriesTable db) -> bpc_blog_post_id r <> id) ->
  (forall r, In r (blogPostTagsTable db) -> bpt_blog_post_id r <> id) ->
  resolve category_id (categoriesTable db) category_ids ->
  resolve tag_id (tagsTable db) tag_ids ->
  (when (0 <? Z.of_nat (List.length category_ids))
        (insert_blogPostCategories (map (fun c => mkBlogPostCategory id c) category_ids)) ;;;
   when (0 <? Z.of_nat (List.length tag_ids))
        (insert_blogPostTags (map (fun t => mkBlogPostTag id t) tag_ids)) ;;;
   ret a) db
  = (with_blogPostTags
       (with_blogPostCategories db
          (blogPostCategoriesTable db ++ map (fun c => mkBlogPostCategory id c) category_ids))
       (blogPostTagsTable db ++ map (fun t => mkBlogPostTag id t) tag_ids),
     Returned a).
Proof.
  intros Hc Hpost Hnoc Hnot [Hcnd Hcex] [Htnd Htex].
  rewrite when_bind_run.
  assert (Hcats :
    (if 0 <? Z.of_nat (List.length category_ids)
     then insert_blogPostCategories (map (fun c => mkBlogPostCategory id c) category_ids) db
     else (db, Returned tt))
    = (with_blogPostCategories db
         (blogPostCategoriesTable db ++ map (fun c => mkBlogPostCategory id c) category_ids),
       Returned tt)).
  { destruct category_ids as [|c cs] eqn:E.
    - simpl. rewrite app_nil_r. now destruct db.
    - rewrite <- E in *.
      replace (0 <? Z.of_nat (List.length category_ids)) with true by (now rewrite E).
      apply new_category_rows_fit; auto.
      + apply (cs_category_links Hc).
      + rewrite E. discriminate. }
  assert (Hstep : forall k : unit -> Handler A,
    (if 0 <? Z.of_nat (List.length category_ids)
     then bind (insert_blogPostCategories
                  (map (fun c => mkBlogPostCategory id c) category_ids)) k db
     else k tt db)
    = k tt (with_blogPostCategories db
              (blogPostCategoriesTable db
               ++ map (fun c => mkBlogPostCategory id c) category_ids))).
  { intros k. destruct (0 <? Z.of_nat (List.length category_ids)).
    - rewrite bind_run, Hcats. reflexivity.
    - f_equal. now injection Hcats. }
  rewrite Hstep. clear Hstep Hcats.
  set (db1 := with_blogPostCategories db _).
  rewrite when_bind_run.
  destruct tag_ids as [|t ts] eqn:E.
  - simpl. rewrite app_nil_r. reflexivity.
  - rewrite <- E in *.
    replace (0 <? Z.of_nat (List.length tag_ids)) with true by (now rewrite E).
    rewrite bind_run, new_tag_rows_fit; auto.
    + apply (cs_tag_links Hc).
    + rewrite E. discriminate.
Qed.

Lemma fresh_post_unreferenced db :
  consistent db ->
  (forall r, In r (blogPostCategoriesTable db) -> bpc_blog_post_id r <> blog_posts_id_seq db + 1)
  /\ (forall r, In r (blogPostTagsTable db) -> bpt_blog_post_id r <> blog_posts_id_seq db + 1).
Proof.
  intros Hc. destruct (cs_posts Hc) as [_ [_ Hseq]].
  destruct (cs_category_links Hc) as [_ [Hcp _]].
  destruct (cs_tag_links Hc) as [_ [Htp _]].
  split; intros r Hr.
  - destruct (Hcp r Hr) as [p [Hp Hid]]. specialize (Hseq p Hp). lia.
  - destruct (Htp r Hr) as [p [Hp Hid]]. specialize (Hseq p Hp). lia.
Qed.

(** Every outcome of [createBlogPost] in a store that meets the constraints. *)
Lemma createBlogPost_outcome now input authorId db :
  consistent db ->
  match createBlogPost now input authorId db with
  | (db2, Thrown e) => same_tables db db2
  | (db2, Returned post) =>
    db2 = with_new_post db post (cbp_category_ids input) (or_else (cbp_tag_ids input) [])
    /\ post = mkBlogPost (blog_posts_id_seq db + 1) (cbp_title input) (cbp_slug input)
                (cbp_content input) (or_null (cbp_excerpt input)) authorId
                (or_null (cbp_featured_image_url input)) (cbp_status input)
                (if PostStatus_eqb (cbp_status input) published then Some now else None)
                now now
    /\ user_exists db authorId
    /\ resolve category_id (categoriesTable db) (cbp_category_ids input)
    /\ resolve tag_id (tagsTable db) (or_else (cbp_tag_ids input) [])
    /\ ~ In (cbp_slug input) (map post_slug (blogPostsTable db))
  end.
Proof.
  intros Hc. unfold createBlogPost.
  destruct (int4 authorId) eqn:Ra;
    [rewrite select_eq_run by exact Ra
    | rewrite select_eq_refused by exact Ra; apply same_tables_refl].
  rewrite when_bind_run.
  destruct (Nat.eqb (List.length (rows_where (Some (eq_ user_id authorId)) (usersTable db))) 0)
    eqn:Ea; [apply same_tables_refl|].
  destruct (forallb int4 (cbp_category_ids input)) eqn:Rc;
    [rewrite select_any_run by exact Rc
    | rewrite select_any_refused by exact Rc; apply same_tables_refl].
  rewrite when_bind_run.
  destruct (Nat.eqb (List.length (rows_where _ (categoriesTable db)))
                    (List.length (cbp_category_ids input))) eqn:Ec; cbn [negb];
    [|apply same_tables_refl].
  apply count_check_resolves in Ec; [|apply (cs_categories Hc)].
  rewrite bind_run.
  destruct (validation_outcome (cbp_tag_ids input) tagsTable tag_id TAGS_NOT_FOUND db
              (proj1 (cs_tags Hc))) as [[e Ht] | [Ht Htags]];
    cbv zeta in Ht; rewrite Ht; [apply same_tables_refl|].
  assert (Hres : resolve tag_id (tagsTable db) (or_else (cbp_tag_ids input) [])).
  { destruct (given_nonempty (cbp_tag_ids input)) eqn:Hg; auto.
    rewrite (not_given_empty _ Hg). split; [constructor | intros ? []]. }
  clear Ht Htags. cbv zeta. rewrite bind_run. unfold insert_blogPost.
  destruct (existsb (fun p => Z.eqb (post_id p) (blog_posts_id_seq db + 1)) (blogPostsTable db))
    eqn:E1; [apply same_tables_seq|].
  destruct (existsb (fun p => String.eqb (post_slug p) _) (blogPostsTable db))
    eqn:E2; [apply same_tables_seq|].
  destruct (existsb (fun u => Z.eqb (user_id u) _) (usersTable db))
    eqn:E3; cbn [negb]; [|apply same_tables_seq].
  cbn [new_title new_slug new_content new_excerpt new_author_id new_featured_image_url
       new_status new_published_at] in *.
  set (row := mkBlogPost _ _ _ _ _ _ _ _ _ _ _).
  set (db1 := with_blogPosts _ _).
  assert (Hc1 : consistent db1).
  { pose proof (preserves_insert_blogPost now
        (mkNewBlogPost (cbp_title input) (cbp_slug input) (cbp_content input)
           (or_null (cbp_excerpt input)) authorId (or_null (cbp_featured_image_url input))
           (cbp_status input)
           (if PostStatus_eqb (cbp_status input) published then Some now else None))
        Hc) as H.
    unfold insert_blogPost in H. simpl in H. rewrite E1, E2, E3 in H. exact H. }
  destruct (fresh_post_unreferenced Hc) as [Hnoc Hnot].
  rewrite given_iff_nonempty.
  change (post_id row) with (blog_posts_id_seq db + 1).
  rewrite (@associations_stored BlogPost db1 (blog_posts_id_seq db + 1)
             (cbp_category_ids input) (or_else (cbp_tag_ids input) []) row Hc1); auto.
  - split; [reflexivity|]. split; [reflexivity|]. split; [now apply existsb_id in E3|].
    split; [exact Ec|]. split; [exact Hres|]. now apply existsb_text_false.
  - exists row. split; [|reflexivity]. simpl. apply in_or_app. right. now left.
Qed.

Lemma resolve_nil {R} (key : R -> Z) rows : resolve key rows [].
Proof. split; [constructor | intros ? []]. Qed.

Lemma validated_ids {R} (key : R -> Z) rows ids :
  (given_nonempty ids = true -> resolve key rows (or_else ids [])) ->
  resolve key rows (or_else ids []).
Proof.
  intros H. destruct (given_nonempty ids) eqn:Hg; auto.
  rewrite (not_given_empty _ Hg). apply resolve_nil.
Qed.

Lemma replace_categories_outcome db id ids :
  consistent db ->
  (exists p, In p (blogPostsTable db) /\ post_id p = id) ->
  resolve category_id (categoriesTable db) (or_else ids []) ->
  (match ids with
   | Some category_ids =>
     delete_blogPostCategories id ;;;
     when (0 <? Z.of_nat (List.length category_ids))
          (insert_blogPostCategories (map (fun c => mkBlogPostCategory id c) category_ids))
   | None => ret tt
   end) db
  = (match ids with
     | Some category_ids =>
       with_blogPostCategories db
         (filter (fun r => negb (Z.eqb (bpc_blog_post_id r) id)) (blogPostCategoriesTable db)
          ++ map (fun c => mkBlogPostCategory id c) category_ids)
     | None => db
     end, Returned tt).
Proof.
  intros Hc Hpost Hres. destruct ids as [l|]; [|reflexivity]. simpl in Hres.
  rewrite bind_run. unfold delete_blogPostCategories. rewrite when_run.
  destruct l as [|c cs] eqn:E.
  - simpl. now rewrite app_nil_r.
  - rewrite <- E in *.
    replace (0 <? Z.of_nat (List.length l)) with true by (now rewrite E).
    destruct Hres as [Hnd Hex].
    rewrite new_category_rows_fit; auto.
    + simpl. apply NoDup_filter'. apply (cs_category_links Hc).
    + simpl. intros r Hr. apply filter_In in Hr. destruct Hr as [_ Hr].
      apply negb_true_iff in Hr. now apply Z.eqb_neq.
    + rewrite E. discriminate.
Qed.

Lemma replace_tags_outcome db id ids :
  consistent db ->
  (exists p, In p (blogPostsTable db) /\ post_id p = id) ->
  resolve tag_id (tagsTable db) (or_else ids []) ->
  (match ids with
   | Some tag_ids =>
     delete_blogPostTags id ;;;
     when (0 <? Z.of_nat (List.length tag_ids))
          (insert_blogPostTags (map (fun t => mkBlogPostTag id t) tag_ids))
   | None => ret tt
   end) db
  = (match ids with
     | Some tag_ids =>
       with_blogPostTags db
         (filter (fun r => negb (Z.eqb (bpt_blog_post_id r) id)) (blogPostTagsTable db)
          ++ map (fun t => mkBlogPostTag id t) tag_ids)
     | None => db
     end, Returned tt).
Proof.
  intros Hc Hpost Hres. destruct ids as [l|]; [|reflexivity]. simpl in Hres.
  rewrite bind_run. unfold delete_blogPostTags. rewrite when_run.
  destruct l as [|c cs] eqn:E.
  - simpl. now rewrite app_nil_r.
  - rewrite <- E in *.
    replace (0 <? Z.of_nat (List.length l)) with true by (now rewrite E).
    destruct Hres as [Hnd Hex].
    rewrite new_tag_rows_fit; auto.
    + simpl. apply NoDup_filter'. apply (cs_tag_links Hc).
    + simpl. intros r Hr. apply filter_In in Hr. destruct Hr as [_ Hr].
      apply negb_true_iff in Hr. now apply Z.eqb_neq.
    + rewrite E. discriminate.
Qed.

Lemma preserves_replace_categories id ids :
  preserves (match ids with
             | Some category_ids =>
               delete_blogPostCategories id ;;;
               when (0 <? Z.of_nat (List.length category_ids))
                    (insert_blogPostCategories
                       (map (fun c => mkBlogPostCategory id c) category_ids))
             | None => ret tt
             end).
Proof.
  destruct ids as [l|]; [|apply preserves_ret].
  apply preserves_bind; [apply preserves_delete_blogPostCategories|]. intros _.
  apply preserves_when, preserves_insert_blogPostCategories.
Qed.

Lemma stored_post_first db id post others :
  rows_where (Some (eq_ post_id id)) (blogPostsTable db) = post :: others ->
  stored_post db id = Some post.
Proof. unfold stored_post. now intros ->. Qed.

(** Every outcome of [updateBlogPost] in a store that meets the constraints. *)
Lemma updateBlogPost_outcome now input uid role db :
  consistent db ->
  match updateBlogPost now input uid role db with
  | (db2, Thrown e) => db2 = db
  | (db2, Returned r) =>
    exists post,
      stored_post db (ubp_id input) = Some post
      /\ authorized role uid post
      /\ db2 = with_updated_post now input post db
      /\ r = Some (apply_update (update_values now input post) post)
      /\ resolve category_id (categoriesTable db) (or_else (ubp_category_ids input) [])
      /\ resolve tag_id (tagsTable db) (or_else (ubp_tag_ids input) [])
  end.
Proof.
  intros Hc. unfold updateBlogPost.
  destruct (int4 (ubp_id input)) eqn:Ri;
    [rewrite select_eq_run by exact Ri
    | now rewrite select_eq_refused by exact Ri].
  destruct (rows_where (Some (eq_ post_id (ubp_id input))) (blogPostsTable db))
    as [|post others] eqn:Hsel; [reflexivity|].
  pose proof (stored_post_first _ _ Hsel) as Hstored.
  destruct (stored_post_In _ _ Hstored) as [Hin Hid].
  rewrite when_bind_run.
  destruct (negb (String.eqb role "super_admin") && negb (Z.eqb (post_author_id post) uid))
    eqn:Hperm; [reflexivity|].
  rewrite bind_run.
  destruct (validation_outcome (ubp_category_ids input) categoriesTable category_id
              CATEGORIES_NOT_FOUND db (proj1 (cs_categories Hc)))
    as [[e Hv] | [Hv Hcats]];
    cbv zeta in Hv; rewrite Hv; [reflexivity|]. clear Hv.
  apply validated_ids in Hcats.
  rewrite bind_run.
  destruct (validation_outcome (ubp_tag_ids input) tagsTable tag_id
              TAGS_NOT_FOUND db (proj1 (cs_tags Hc))) as [[e Hv] | [Hv Htags]];
    cbv zeta in Hv; rewrite Hv; [reflexivity|]. clear Hv.
  apply validated_ids in Htags.
  cbv zeta. fold (update_values now input post).
  rewrite bind_run.
  pose proof (preserves_update_blogPost (update_values now input post) (ubp_id input) Hc)
    as Hc1.
  unfold update_blogPost in *.
  destruct (nodupb String.eqb _) eqn:Hslugs; [|reflexivity].
  simpl fst in Hc1.
  set (rows := map _ (blogPostsTable db)) in *.
  set (db1 := with_blogPosts db rows) in *.
  assert (Hpost1 : exists p, In p (blogPostsTable db1) /\ post_id p = ubp_id input).
  { simpl. apply (key_still_stored post_id); eauto. }
  rewrite bind_run.
  rewrite (@replace_categories_outcome db1 (ubp_id input) (ubp_category_ids input)
             Hc1 Hpost1 Hcats).
  set (db3 := match ubp_category_ids input with Some _ => _ | None => db1 end).
  assert (Hc3 : consistent db3).
  { pose proof (preserves_replace_categories (ubp_id input) (ubp_category_ids input) Hc1)
      as H.
    now rewrite (@replace_categories_outcome db1 (ubp_id input) (ubp_category_ids input)
                   Hc1 Hpost1 Hcats) in H. }
  assert (Hpost3 : exists p, In p (blogPostsTable db3) /\ post_id p = ubp_id input).
  { unfold db3. destruct (ubp_category_ids input); exact Hpost1. }
  assert (Htags3 : resolve tag_id (tagsTable db3) (or_else (ubp_tag_ids input) [])).
  { unfold db3. destruct (ubp_category_ids input); exact Htags. }
  rewrite bind_run.
  rewrite (@replace_tags_outcome db3 (ubp_id input) (ubp_tag_ids input) Hc3 Hpost3 Htags3).
  exists post. split; [exact Hstored|]. split.
  { apply andb_false_iff in Hperm. destruct Hperm as [H | H]; apply negb_false_iff in H.
    - left. now apply String.eqb_eq.
    - right. symmetry. now apply Z.eqb_eq. }
  split.
  { unfold with_updated_post, db3, db1. fold rows.
    destruct (ubp_category_ids input), (ubp_tag_ids input); reflexivity. }
  split; [|split; [exact Hcats | exact Htags]].
  unfold rows. rewrite filter_updated by reflexivity.
  change (filter (fun p => Z.eqb (post_id p) (ubp_id input)) (blogPostsTable db))
    with (rows_where (Some (eq_ post_id (ubp_id input))) (blogPostsTable db)).
  rewrite Hsel. reflexivity.
Qed.

(** ** Written posts, read back *)

Lemma innerJoin_filter_left {L R} (p : L -> bool) (left : list L) (right : list R) on :
  filter (fun r => p (fst r)) (innerJoin left right on)
  = innerJoin (filter p left) right on.
Proof.
  unfold innerJoin. induction left as [|l left IH]; simpl; [reflexivity|].
  rewrite filter_app, IH. destruct (p l) eqn:E; simpl.
  - f_equal. apply filter_all. intros x Hx. apply in_map_iff in Hx.
    destruct Hx as [r [<- _]]. exact E.
  - rewrite filter_none; [reflexivity|]. intros x Hx. apply in_map_iff in Hx.
    destruct Hx as [r [<- _]]. exact E.
Qed.

(** The keys of the partners of the left rows, when every left row has one. *)
Lemma joined_keys {L R} (fk : L -> Z) (key : R -> Z) (left : list L) (right : list R) :
  NoDup (map key right) ->
  (forall l, In l left -> exists r, In r right /\ key r = fk l) ->
  map key (map snd (innerJoin left right (fun l r => Z.eqb (fk l) (key r)))) = map fk left.
Proof.
  intros Hnd Hex. unfold innerJoin.
  induction left as [|l left IH]; simpl; [reflexivity|].
  rewrite !map_app, IH by (intros x Hx; apply Hex; now right). f_equal.
  destruct (Hex l (or_introl eq_refl)) as [r [Hr Hk]].
  rewrite <- Hk. rewrite (filter_unique_key key right r Hnd Hr). simpl. reflexivity.
Qed.

Lemma categories_of_rows db id :
  categories_of db id
  = map snd (innerJoin (categories_of_post db id) (categoriesTable db)
                       (fun pc c => Z.eqb (bpc_category_id pc) (category_id c))).
Proof.
  unfold categories_of, categories_joined, categories_of_post. f_equal.
  apply (innerJoin_filter_left (fun r => Z.eqb (bpc_blog_post_id r) id)).
Qed.

Lemma tags_of_rows db id :
  tags_of db id
  = map snd (innerJoin (tags_of_post db id) (tagsTable db)
                       (fun pt t => Z.eqb (bpt_tag_id pt) (tag_id t))).
Proof.
  unfold tags_of, tags_joined, tags_of_post. f_equal.
  apply (innerJoin_filter_left (fun r => Z.eqb (bpt_blog_post_id r) id)).
Qed.

(** The categories read for a post whose association rows are those of
    [ids], in this order. *)
Lemma categories_read_back db id ids :
  NoDup (map category_id (categoriesTable db)) ->
  categories_of_post db id = map (fun c => mkBlogPostCategory id c) ids ->
  (forall c, In c ids -> exists r, In r (categoriesTable db) /\ category_id r = c) ->
  map category_id (categories_of db id) = ids.
Proof.
  intros Hnd Hrows Hex. rewrite categories_of_rows, Hrows.
  rewrite (joined_keys bpc_category_id category_id).
  - rewrite map_map. simpl. apply map_id.
  - exact Hnd.
  - intros l Hl. apply in_map_iff in Hl. destruct Hl as [c [<- Hc]]. simpl. auto.
Qed.

Lemma tags_read_back db id ids :
  NoDup (map tag_id (tagsTable db)) ->
  tags_of_post db id = map (fun t => mkBlogPostTag id t) ids ->
  (forall t, In t ids -> exists r, In r (tagsTable db) /\ tag_id r = t) ->
  map tag_id (tags_of db id) = ids.
Proof.
  intros Hnd Hrows Hex. rewrite tags_of_rows, Hrows.
  rewrite (joined_keys bpt_tag_id tag_id).
  - rewrite map_map. simpl. apply map_id.
  - exact Hnd.
  - intros l Hl. apply in_map_iff in Hl. destruct Hl as [c [<- Hc]]. simpl. auto.
Qed.

Lemma appended_categories id ids old :
  (forall r, In r old -> bpc_blog_post_id r <> id) ->
  filter (fun r => Z.eqb (bpc_blog_post_id r) id)
         (old ++ map (fun c => mkBlogPostCategory id c) ids)
  = map (fun c => mkBlogPostCategory id c) ids.
Proof.
  intros H. rewrite filter_app, filter_none.
  - simpl. apply filter_all. intros x Hx. apply in_map_iff in Hx.
    destruct Hx as [c [<- _]]. simpl. apply Z.eqb_refl.
  - intros r Hr. apply Z.eqb_neq. now apply H.
Qed.

Lemma appended_tags id ids old :
  (forall r, In r old -> bpt_blog_post_id r <> id) ->
  filter (fun r => Z.eqb (bpt_blog_post_id r) id)
         (old ++ map (fun t => mkBlogPostTag id t) ids)
  = map (fun t => mkBlogPostTag id t) ids.
Proof.
  intros H. rewrite filter_app, filter_none.
  - simpl. apply filter_all. intros x Hx. apply in_map_iff in Hx.
    destruct Hx as [c [<- _]]. simpl. apply Z.eqb_refl.
  - intros r Hr. apply Z.eqb_neq. now apply H.
Qed.

Lemma detail_by_slug db item :
  consistent db ->
  getBlogPostById (post_id (wr_post item)) db = Some item ->
  getBlogPostBySlug (post_slug (wr_post item)) db = Some item.
Proof.
  intros Hc H.
  destruct (cs_posts Hc) as [Hids [Hslugs _]].
  destruct (cs_users Hc) as [Hu _].
  apply getBlogPostById_inv in H. destruct H as [Hin [_ [Hcs Hts]]].
  destruct item as [p u cs ts]. simpl in *. subst cs ts.
  rewrite getBlogPostBySlug_run.
  assert (Hfirst : hd_error (filter (fun r : BlogPost * User =>
                                       String.eqb (post_slug (fst r)) (post_slug p))
                                    (posts_with_authors db)) = Some (p, u)).
  { apply first_joined_row; auto.
    - simpl. apply String.eqb_refl.
    - intros [p' u'] Hin' Hsel. simpl in *. apply String.eqb_eq in Hsel.
      apply In_posts_with_authors in Hin, Hin'.
      f_equal. eapply (NoDup_map_unique post_slug); eauto; tauto. }
  destruct (filter _ (posts_with_authors db)) as [|x l]; [discriminate|].
  simpl in Hfirst. inversion Hfirst; subst x. reflexivity.
Qed.

(** X7.  In a store that meets the constraints of the schema, a post that
    [createBlogPost] returns is read back by [getBlogPostById] under its id
    and by [getBlogPostBySlug] under its slug: in both views the post is the
    returned row, the author is the user with the id passed as [authorId],
    the categories are those of [category_ids] and the tags those of
    [tag_ids] (no tags when [tag_ids] is absent).  The categories and tags
    are stated up to the order in which the store returns them. *)
Theorem created_post_is_read_back now input authorId db db2 post :
  consistent db ->
  createBlogPost now input authorId db = (db2, Returned post) ->
  exists item by_slug,
    getBlogPostById (post_id post) db2 = Some item
    /\ getBlogPostBySlug (cbp_slug input) db2 = Some by_slug
    /\ wr_post item = post
    /\ wr_post by_slug = post
    /\ stored_user db authorId = Some (wr_author item)
    /\ wr_author by_slug = wr_author item
    /\ Permutation (map category_id (wr_categories item)) (cbp_category_ids input)
    /\ Permutation (map category_id (wr_categories by_slug)) (cbp_category_ids input)
    /\ Permutation (map tag_id (wr_tags item)) (or_else (cbp_tag_ids input) [])
    /\ Permutation (map tag_id (wr_tags by_slug)) (or_else (cbp_tag_ids input) []).
Proof.
  intros Hc Hrun.
  pose proof (createBlogPost_outcome now input authorId Hc) as Hout.
  pose proof (preserves_createBlogPost now input authorId Hc) as Hc2.
  rewrite Hrun in Hout, Hc2. simpl fst in Hc2.
  destruct Hout as [Hdb2 [Hpost [[u [Hu Huid]] [[_ Hcats] [[_ Htags] Hslug]]]]].
  destruct (fresh_post_unreferenced Hc) as [Hnoc Hnot].
  assert (Hid : post_id post = blog_posts_id_seq db + 1) by (now rewrite Hpost).
  assert (Hget : getBlogPostById (post_id post) db2
                 = Some (mkBlogPostWithRelations post u (categories_of db2 (post_id post))
                                                 (tags_of db2 (post_id post)))).
  { apply detail_of_stored_post; auto.
    - apply (cs_posts Hc2).
    - apply (cs_users Hc2).
    - rewrite Hdb2. simpl. apply in_or_app. right. now left.
    - now rewrite Hdb2.
    - rewrite Huid, Hpost. reflexivity. }
  assert (Hread_cats : map category_id (categories_of db2 (post_id post))
                       = cbp_category_ids input).
  { apply categories_read_back.
    + apply (cs_categories Hc2).
    + unfold categories_of_post. rewrite Hdb2. simpl. apply appended_categories.
      intros r Hr. rewrite Hid. now apply Hnoc.
    + rewrite Hdb2. simpl. exact Hcats. }
  assert (Hread_tags : map tag_id (tags_of db2 (post_id post))
                       = or_else (cbp_tag_ids input) []).
  { apply tags_read_back.
    + apply (cs_tags Hc2).
    + unfold tags_of_post. rewrite Hdb2. simpl. apply appended_tags.
      intros r Hr. rewrite Hid. now apply Hnot.
    + rewrite Hdb2. simpl. exact Htags. }
  exists (mkBlogPostWithRelations post u (categories_of db2 (post_id post))
                                  (tags_of db2 (post_id post))),
         (mkBlogPostWithRelations post u (categories_of db2 (post_id post))
                                  (tags_of db2 (post_id post))).
  split; [exact Hget|]. split.
  { replace (cbp_slug input) with (post_slug post) by (now rewrite Hpost).
    exact (@detail_by_slug db2 (mkBlogPostWithRelations post u _ _) Hc2 Hget). }
  split; [reflexivity|]. split; [reflexivity|]. split.
  { simpl. unfold stored_user, rows_where.
    rewrite (@first_selected _ (eq_ user_id authorId) (usersTable db) u); auto.
    - unfold eq_. now apply Z.eqb_eq.
    - intros u' Hu' Hsel. unfold eq_ in Hsel. apply Z.eqb_eq in Hsel.
      apply (@NoDup_map_unique _ _ user_id (usersTable db)); auto; [|congruence].
      apply (cs_users Hc). }
  split; [reflexivity|]. simpl. rewrite Hread_cats, Hread_tags.
  repeat split; apply Permutation_refl.
Qed.

Lemma created_post_is_read_back_witness :
  exists item,
    getBlogPostById 3 (fst (createBlogPost 5000 (sample_create [2; 1] (Some [2]) published)
                                           1 sample_db)) = Some item
    /\ wr_post item = third_post published (Some 5000) 5000
    /\ Permutation (map category_id (wr_categories item)) [1; 2]
    /\ Permutation (map tag_id (wr_tags item)) [2].
Proof.
  destruct (@created_post_is_read_back 5000 (sample_create [2; 1] (Some [2]) published) 1
              sample_db
              (fst (createBlogPost 5000 (sample_create [2; 1] (Some [2]) published) 1 sample_db))
              (third_post published (Some 5000) 5000) sample_consistent eq_refl)
    as [item [_ [Hget [_ [Hpost [_ [_ [_ [Hcats [_ [Htags _]]]]]]]]]]].
  exists item. split; [exact Hget|]. split; [exact Hpost|]. split; [|exact Htags].
  apply perm_trans with (1 := Hcats). apply perm_swap.
Defined.

Lemma stored_user_unique db u :
  NoDup (map user_id (usersTable db)) -> In u (usersTable db) ->
  stored_user db (user_id u) = Some u.
Proof.
  intros Hnd Hu. unfold stored_user, rows_where.
  apply first_selected; auto.
  - unfold eq_. apply Z.eqb_refl.
  - intros u' Hu' Hsel. unfold eq_ in Hsel. apply Z.eqb_eq in Hsel.
    now apply (@NoDup_map_unique _ _ user_id (usersTable db)).
Qed.

(** X8.  In a store that meets the constraints of the schema, the post
    [updateBlogPost] returns is what [getBlogPostById] reads afterwards under
    the id of the input.  The author is the author the post had.  When
    [category_ids] (resp. [tag_ids]) is supplied the categories (resp. tags)
    read are those of the list; when it is absent they are the ones
    [getBlogPostById] read before the call.  The categories and tags are
    stated up to the order in which the store returns them. *)
Theorem updated_post_is_read_back now input uid role db db2 new :
  consistent db ->
  updateBlogPost now input uid role db = (db2, Returned new) ->
  exists old before item,
    stored_post db (ubp_id input) = Some old
    /\ getBlogPostById (ubp_id input) db = Some before
    /\ wr_post before = old
    /\ new = Some (wr_post item)
    /\ getBlogPostById (ubp_id input) db2 = Some item
    /\ stored_user db (post_author_id old) = Some (wr_author item)
    /\ wr_author item = wr_author before
    /\ match ubp_category_ids input with
       | Some ids => Permutation (map category_id (wr_categories item)) ids
       | None => Permutation (wr_categories item) (wr_categories before)
       end
    /\ match ubp_tag_ids input with
       | Some ids => Permutation (map tag_id (wr_tags item)) ids
       | None => Permutation (wr_tags item) (wr_tags before)
       end.
Proof.
  intros Hc Hrun.
  pose proof (updateBlogPost_outcome now input uid role Hc) as Hout.
  pose proof (preserves_updateBlogPost now input uid role Hc) as Hc2.
  rewrite Hrun in Hout, Hc2. simpl fst in Hc2.
  destruct Hout as [old [Hold [_ [Hdb2 [Hnew [[_ Hcats] [_ Htags]]]]]]].
  destruct (stored_post_In _ _ Hold) as [Hin Hid].
  destruct (cs_authors Hc old Hin) as [u [Hu Huid]].
  set (row := apply_update (update_values now input old) old) in *.
  exists old,
         (mkBlogPostWithRelations old u (categories_of db (ubp_id input))
                                  (tags_of db (ubp_id input))),
         (mkBlogPostWithRelations row u (categories_of db2 (ubp_id input))
                                  (tags_of db2 (ubp_id input))).
  split; [exact Hold|]. split.
  { apply detail_of_stored_post; auto; [apply (cs_posts Hc) | apply (cs_users Hc)]. }
  split; [reflexivity|]. split; [exact Hnew|]. split; [|split; [|split; [|split]]].
  - apply detail_of_stored_post; auto.
    + apply (cs_posts Hc2).
    + apply (cs_users Hc2).
    + rewrite Hdb2. simpl. apply in_map_iff. exists old. split; auto.
      rewrite Hid, Z.eqb_refl. reflexivity.
    + rewrite Hdb2. exact Hu.
  - simpl. rewrite <- Huid. apply stored_user_unique; auto. apply (cs_users Hc).
  - reflexivity.
  - simpl. destruct (ubp_category_ids input) as [ids|] eqn:E.
    + rewrite (@categories_read_back db2 (ubp_id input) ids); [apply Permutation_refl| | |].
      * apply (cs_categories Hc2).
      * unfold categories_of_post. rewrite Hdb2. unfold with_updated_post. rewrite E.
        simpl. apply replaced_categories.
      * rewrite Hdb2. simpl. exact Hcats.
    + replace (categories_of db2 (ubp_id input)) with (categories_of db (ubp_id input));
        [apply Permutation_refl|].
      unfold categories_of, categories_joined. rewrite Hdb2.
      unfold with_updated_post. rewrite E. reflexivity.
  - simpl. destruct (ubp_tag_ids input) as [ids|] eqn:E.
    + rewrite (@tags_read_back db2 (ubp_id input) ids); [apply Permutation_refl| | |].
      * apply (cs_tags Hc2).
      * unfold tags_of_post. rewrite Hdb2. unfold with_updated_post. rewrite E.
        simpl. apply replaced_tags.
      * rewrite Hdb2. simpl. exact Htags.
    + replace (tags_of db2 (ubp_id input)) with (tags_of db (ubp_id input));
        [apply Permutation_refl|].
      unfold tags_of, tags_joined. rewrite Hdb2.
      unfold with_updated_post. rewrite E. reflexivity.
Qed.

Lemma updated_post_is_read_back_witness :
  let input := sample_update 1 (Some draft) (Some [2; 1]) None in
  exists before item,
    getBlogPostById 1 sample_db = Some before
    /\ getBlogPostById 1 (fst (updateBlogPost 5000 input 1 "author" sample_db)) = Some item
    /\ post_status (wr_post item) = draft
    /\ Permutation (map category_id (wr_categories item)) [1; 2]
    /\ Permutation (wr_tags item) (wr_tags before).
Proof.
  intros input.
  destruct (@updated_post_is_read_back 5000 input 1 "author" sample_db
              (fst (updateBlogPost 5000 input 1 "author" sample_db))
              (Some (mkBlogPost 1 "Published Post" "published-post" "Hello world"
                       (Some "100% true") 1 None draft None 2000 5000))
              sample_consistent eq_refl)
    as [old [before [item [_ [Hbefore [_ [Hnew [Hget [_ [_ [Hcats Htags]]]]]]]]]]].
  exists before, item. split; [exact Hbefore|]. split; [exact Hget|].
  split; [|split; [|exact Htags]].
  - injection Hnew as Hrow. rewrite <- Hrow. reflexivity.
  - apply perm_trans with (1 := Hcats). apply perm_swap.
Defined.

(** X9.  In a store that meets the constraints of the schema, a returning
    [updateBlogPost] has written the row of the post and no other: the id,
    the author and [created_at] are kept, [updated_at] is the time of the
    call, each field the input supplies takes its value (a null excerpt or
    image clears the field) and each field it leaves out keeps its value; the
    other posts and the users, categories, tags and AdSense tables are as
    before. *)
Theorem updateBlogPost_writes_given_fields now input uid role db db2 new :
  consistent db ->
  updateBlogPost now input uid role db = (db2, Returned new) ->
  exists old row,
    stored_post db (ubp_id input) = Some old
    /\ new = Some row
    /\ stored_post db2 (ubp_id input) = Some row
    /\ post_id row = post_id old
    /\ post_author_id row = post_author_id old
    /\ post_created_at row = post_created_at old
    /\ post_updated_at row = now
    /\ post_title row = or_else (ubp_title input) (post_title old)
    /\ post_slug row = or_else (ubp_slug input) (post_slug old)
    /\ post_content row = or_else (ubp_content input) (post_content old)
    /\ post_excerpt row = or_else (ubp_excerpt input) (post_excerpt old)
    /\ post_featured_image_url row
       = or_else (ubp_featured_image_url input) (post_featured_image_url old)
    /\ post_status row = or_else (ubp_status input) (post_status old)
    /\ (forall id, id <> ubp_id input -> stored_post db2 id = stored_post db id)
    /\ List.length (blogPostsTable db2) = List.length (blogPostsTable db)
    /\ usersTable db2 = usersTable db
    /\ categoriesTable db2 = categoriesTable db
    /\ tagsTable db2 = tagsTable db
    /\ adSenseConfigTable db2 = adSenseConfigTable db.
Proof.
  intros Hc Hrun.
  pose proof (updateBlogPost_outcome now input uid role Hc) as Hout.
  rewrite Hrun in Hout.
  destruct Hout as [old [Hold [_ [Hdb2 [Hnew _]]]]].
  exists old, (apply_update (update_values now input old) old).
  split; [exact Hold|]. split; [exact Hnew|].
  assert (Hrows : forall id,
    rows_where (Some (eq_ post_id id)) (blogPostsTable db2)
    = map (fun p => if Z.eqb (post_id p) (ubp_id input)
                    then apply_update (update_values now input old) p else p)
          (rows_where (Some (eq_ post_id id)) (blogPostsTable db))).
  { intros id. rewrite Hdb2. simpl. unfold eq_.
    induction (blogPostsTable db) as [|p l IH]; simpl; [reflexivity|].
    assert (Hkey : post_id (if Z.eqb (post_id p) (ubp_id input)
                            then apply_update (update_values now input old) p else p)
                   = post_id p)
      by (destruct (Z.eqb (post_id p) (ubp_id input)); reflexivity).
    rewrite Hkey. destruct (Z.eqb (post_id p) id); simpl; now rewrite IH. }
  split.
  { unfold stored_post in *. rewrite Hrows.
    destruct (rows_where _ (blogPostsTable db)) as [|p l] eqn:E; [discriminate|].
    simpl in Hold. inversion Hold; subst p. simpl.
    destruct (stored_post_In db (ubp_id input) (post := old)) as [_ Hid].
    { unfold stored_post. now rewrite E. }
    now rewrite Hid, Z.eqb_refl. }
  do 10 (split; [reflexivity|]).
  split.
  { intros id Hne. unfold stored_post. rewrite Hrows.
    destruct (rows_where _ (blogPostsTable db)) as [|p l] eqn:E; [reflexivity|].
    simpl.
    assert (Hp : In p (rows_where (Some (eq_ post_id id)) (blogPostsTable db)))
      by (rewrite E; now left).
    simpl in Hp. apply filter_In in Hp. destruct Hp as [_ Hp].
    unfold eq_ in Hp. apply Z.eqb_eq in Hp.
    destruct (Z.eqb (post_id p) (ubp_id input)) eqn:E2; [|reflexivity].
    apply Z.eqb_eq in E2. congruence. }
  rewrite Hdb2. simpl. rewrite length_map. repeat split.
Qed.

Lemma updateBlogPost_writes_given_fields_witness :
  let input := mkUpdateBlogPostInput 2 (Some "Better title") None None (Some None) None None
                 None None in
  exists row,
    snd (updateBlogPost 5000 input 1 "author" sample_db) = Returned (Some row)
    /\ post_title row = "Better title"
    /\ post_slug row = "draft-post"
    /\ post_excerpt row = None
    /\ post_updated_at row = 5000
    /\ stored_post (fst (updateBlogPost 5000 input 1 "author" sample_db)) 1 = Some first_post.
Proof.
  intros input.
  destruct (@updateBlogPost_writes_given_fields 5000 input 1 "author" sample_db
              (fst (updateBlogPost 5000 input 1 "author" sample_db))
              (Some (mkBlogPost 2 "Better title" "draft-post" "Work in progress" None 1 None
                       draft None 3000 5000))
              sample_consistent eq_refl)
    as [old [row [Hold [Hnew [_ [_ [_ [_ [Hupd [Ht [Hs [_ [He [_ [_ [Hothers _]]]]]]]]]]]]]]]].
  exists row.
  assert (Hold' : old = second_post) by (now inversion Hold). subst old.
  split; [rewrite <- Hnew; reflexivity|]. split; [exact Ht|]. split; [exact Hs|].
  split; [exact He|]. split; [exact Hupd|].
  rewrite Hothers by discriminate. reflexivity.
Defined.

(** X10.  The blog post writes run their statements without a transaction,
    yet in a store that meets the constraints of the schema a call that
    throws has stored nothing: every check comes before the first write, and
    no write after the first can be refused.  After a failed [createBlogPost]
    every table holds the rows it held (a value of the id sequence may be
    used up); after a failed [updateBlogPost] or [deleteBlogPost] the store
    is the one before the call. *)
Theorem failed_post_writes_store_nothing db :
  consistent db ->
  (forall now input authorId db2 e,
      createBlogPost now input authorId db = (db2, Thrown e) -> same_tables db db2)
  /\ (forall now input uid role db2 e,
         updateBlogPost now input uid role db = (db2, Thrown e) -> db2 = db)
  /\ (forall postId uid role db2 e,
         deleteBlogPost postId uid role db = (db2, Thrown e) -> db2 = db).
Proof.
  intros Hc. split; [|split].
  - intros now input authorId db2 e H.
    pose proof (createBlogPost_outcome now input authorId Hc) as Hout.
    now rewrite H in Hout.
  - intros now input uid role db2 e H.
    pose proof (updateBlogPost_outcome now input uid role Hc) as Hout.
    now rewrite H in Hout.
  - intros postId uid role db2 e. rewrite deleteBlogPost_run.
    destruct (int4 postId); [|intros H; now inversion H].
    destruct (stored_post db postId) as [post|]; [|intros H; now inversion H].
    destruct (negb (String.eqb role "super_admin") && negb (Z.eqb (post_author_id post) uid));
      intros H; now inversion H.
Qed.

Lemma failed_post_writes_store_nothing_witness :
  snd (createBlogPost 5000 (mkCreateBlogPostInput "Again" "draft-post" "Body" None None draft
                              [1] None) 1 sample_db)
  = Thrown (StoreError "blog_posts_slug_unique")
  /\ same_tables sample_db
       (fst (createBlogPost 5000 (mkCreateBlogPostInput "Again" "draft-post" "Body" None None
                                    draft [1] None) 1 sample_db))
  /\ fst (updateBlogPost 5000 (sample_update 1 None (Some [1; 9999]) (Some [])) 1 "author"
                         sample_db) = sample_db.
Proof.
  destruct (failed_post_writes_store_nothing sample_consistent) as [Hcreate [Hupdate _]].
  split; [reflexivity|]. split.
  - exact (Hcreate 5000 (mkCreateBlogPostInput "Again" "draft-post" "Body" None None draft
                           [1] None) 1 _ (StoreError "blog_posts_slug_unique") eq_refl).
  - exact (Hupdate 5000 (sample_update 1 None (Some [1; 9999]) (Some [])) 1 "author" _
                   (JsError CATEGORIES_NOT_FOUND) eq_refl).
Defined.

(** *** Deleting a post *)

Lemma posts_with_authors_filtered db (p : BlogPost -> bool) :
  innerJoin (filter p (blogPostsTable db)) (usersTable db)
            (fun p u => Z.eqb (post_author_id p) (user_id u))
  = filter (fun r => p (fst r)) (posts_with_authors db).
Proof. unfold posts_with_authors. symmetry. apply innerJoin_filter_left. Qed.

Lemma filter_comm {A} (p q : A -> bool) l :
  filter p (filter q l) = filter q (filter p l).
Proof.
  induction l as [|x l IH]; simpl; [reflexivity|].
  destruct (p x) eqn:Ep, (q x) eqn:Eq; simpl; rewrite ?Ep, ?Eq, IH; reflexivity.
Qed.

(** X11.  [deleteBlogPost] either throws and leaves the store as it was, or
    returns success after removing the post and every association row of the
    post.  The other posts and their association rows, the users, the
    categories and the tags stay; afterwards [getBlogPostById] answers null
    for the deleted id and what it answered before for every other id. *)
Theorem deleteBlogPost_removes postId uid role db :
  (forall db2 e, deleteBlogPost postId uid role db = (db2, Thrown e) -> db2 = db)
  /\ (forall db2 b,
         deleteBlogPost postId uid role db = (db2, Returned b) ->
         b = true
         /\ (exists post, stored_post db postId = Some post /\ authorized role uid post)
         /\ blogPostsTable db2
            = filter (fun p => negb (Z.eqb (post_id p) postId)) (blogPostsTable db)
         /\ categories_of_post db2 postId = []
         /\ tags_of_post db2 postId = []
         /\ categories_of_others db2 postId = categories_of_others db postId
         /\ tags_of_others db2 postId = tags_of_others db postId
         /\ usersTable db2 = usersTable db
         /\ categoriesTable db2 = categoriesTable db
         /\ tagsTable db2 = tagsTable db
         /\ getBlogPostById postId db2 = None
         /\ (forall id, id <> postId -> getBlogPostById id db2 = getBlogPostById id db)).
Proof.
  rewrite deleteBlogPost_run. split.
  - intros db2 e.
    destruct (int4 postId); [|intros H; now inversion H].
    destruct (stored_post db postId) as [post|]; [|intros H; now inversion H].
    destruct (negb (String.eqb role "super_admin") && negb (Z.eqb (post_author_id post) uid));
      intros H; now inversion H.
  - intros db2 b.
    destruct (int4 postId); [|discriminate].
    destruct (stored_post db postId) as [post|]; [|discriminate].
    destruct (negb (String.eqb role "super_admin") && negb (Z.eqb (post_author_id post) uid))
      eqn:Hperm; [discriminate|].
    intros H. inversion H; subst db2 b; clear H.
    split; [reflexivity|]. split.
    { exists post. split; [reflexivity|].
      apply andb_false_iff in Hperm. destruct Hperm as [H | H]; apply negb_false_iff in H.
      - left. now apply String.eqb_eq.
      - right. symmetry. now apply Z.eqb_eq. }
    unfold categories_of_post, tags_of_post, categories_of_others, tags_of_others. simpl.
    split; [reflexivity|].
    split; [apply (filter_filter_negb (fun r => Z.eqb (bpc_blog_post_id r) postId))|].
    split; [apply (filter_filter_negb (fun r => Z.eqb (bpt_blog_post_id r) postId))|].
    split; [apply filter_idem|]. split; [apply filter_idem|].
    do 3 (split; [reflexivity|]).
    split.
    + rewrite getBlogPostById_run. unfold posts_with_authors. simpl.
      rewrite (posts_with_authors_filtered db (fun p => negb (Z.eqb (post_id p) postId))).
      rewrite (@filter_none _ _ (filter _ (posts_with_authors db))); [reflexivity|].
      intros r Hr. apply filter_In in Hr. destruct Hr as [_ Hr].
      now apply negb_true_iff in Hr.
    + intros id Hne. rewrite !getBlogPostById_run.
      unfold posts_with_authors, categories_of, tags_of, categories_joined, tags_joined.
      simpl.
      rewrite (posts_with_authors_filtered db (fun p => negb (Z.eqb (post_id p) postId))).
      assert (Hsel : forall {X} (f : X -> Z) (l : list X),
                 filter (fun r => Z.eqb (f r) id)
                        (filter (fun r => negb (Z.eqb (f r) postId)) l)
                 = filter (fun r => Z.eqb (f r) id) l).
      { intros X f l. apply filter_implied. intros x _ Hx. apply Z.eqb_eq in Hx.
        apply negb_true_iff, Z.eqb_neq. congruence. }
      rewrite (Hsel _ (fun r : BlogPost * User => post_id (fst r))).
      rewrite <- (innerJoin_filter_left (fun r => negb (Z.eqb (bpc_blog_post_id r) postId))).
      rewrite <- (innerJoin_filter_left (fun r => negb (Z.eqb (bpt_blog_post_id r) postId))).
      rewrite (Hsel _ (fun r : BlogPostCategory * Category => bpc_blog_post_id (fst r))).
      rewrite (Hsel _ (fun r : BlogPostTag * Tag => bpt_blog_post_id (fst r))).
      reflexivity.
Qed.

Lemma deleteBlogPost_removes_witness :
  let db2 := fst (deleteBlogPost 1 3 "super_admin" sample_db) in
  getBlogPostById 1 db2 = None
  /\ getBlogPostById 2 db2 = getBlogPostById 2 sample_db
  /\ fst (deleteBlogPost 1 2 "author" sample_db) = sample_db.
Proof.
  intros db2.
  destruct (deleteBlogPost_removes 1 3 "super_admin" sample_db) as [_ Hok].
  destruct (deleteBlogPost_removes 1 2 "author" sample_db) as [Hfail _].
  destruct (Hok db2 true eq_refl) as [_ [_ [_ [_ [_ [_ [_ [_ [_ [_ [Hgone Hothers]]]]]]]]]]].
  split; [exact Hgone|]. split; [apply Hothers; discriminate|].
  exact (Hfail _ (JsError "Permission denied: can only delete your own posts") eq_refl).
Defined.

(** ** Tags *)

Lemma hd_error_filter_key {R} (key : R -> Z) rows id :
  (forall r, In r rows -> key r <> id) ->
  filter (fun r => Z.eqb (key r) id) rows = [].
Proof. intros H. apply filter_none. intros r Hr. apply Z.eqb_neq. now apply H. Qed.

Lemma filter_snoc {A} (p : A -> bool) l x :
  filter p (l ++ [x]) = filter p l ++ (if p x then [x] else []).
Proof. rewrite filter_app. simpl. now destruct (p x). Qed.

Lemma getTagById_run tagId db :
  getTagById tagId db = hd_error (filter (fun t => Z.eqb (tag_id t) tagId) (tagsTable db)).
Proof.
  unfold getTagById, rows_where, eq_.
  now destruct (filter _ (tagsTable db)).
Qed.

Lemma getTagBySlug_run slug db :
  getTagBySlug slug db
  = hd_error (filter (fun t => String.eqb (tag_slug t) slug) (tagsTable db)).
Proof.
  unfold getTagBySlug, rows_where.
  now destruct (filter _ (tagsTable db)).
Qed.

Lemma filter_text_none {R} (key : R -> string) rows s :
  existsb (fun r => String.eqb (key r) s) rows = false ->
  filter (fun r => String.eqb (key r) s) rows = [].
Proof.
  intros E. apply filter_none. intros r Hr.
  destruct (String.eqb (key r) s) eqn:E2; [|reflexivity].
  assert (existsb (fun r => String.eqb (key r) s) rows = true); [|congruence].
  apply existsb_exists. eauto.
Qed.

Lemma filter_key_none {R} (key : R -> Z) rows id :
  existsb (fun r => Z.eqb (key r) id) rows = false ->
  filter (fun r => Z.eqb (key r) id) rows = [].
Proof.
  intros E. apply filter_none. intros r Hr.
  destruct (Z.eqb (key r) id) eqn:E2; [|reflexivity].
  assert (existsb (fun r => Z.eqb (key r) id) rows = true); [|congruence].
  apply existsb_exists. eauto.
Qed.

(** X12.  [createTag] stores one row or nothing.  When the id handed out by
    the sequence is free and no stored tag has the slug, it returns the new
    tag (name and slug of the input, both timestamps the time of the call),
    which [getTagById] and [getTagBySlug] then find, while every other lookup
    answers as before.  When a stored tag has the slug, or the id is taken,
    the store refuses the row: the call throws and the store is unchanged. *)
Theorem createTag_stores now id input db :
  let tag := mkTag id (ct_name input) (ct_slug input) now now in
  ((forall t, In t (tagsTable db) -> tag_id t <> id /\ tag_slug t <> ct_slug input) ->
   exists db2,
     createTag now id input db = (db2, Returned (Some tag))
     /\ db2 = with_tags db (tagsTable db ++ [tag])
     /\ getTagById id db2 = Some tag
     /\ getTagBySlug (ct_slug input) db2 = Some tag
     /\ (forall id', id' <> id -> getTagById id' db2 = getTagById id' db)
     /\ (forall slug, slug <> ct_slug input -> getTagBySlug slug db2 = getTagBySlug slug db))
  /\ ((exists t, In t (tagsTable db) /\ (tag_id t = id \/ tag_slug t = ct_slug input)) ->
      exists c, createTag now id input db = (db, Thrown (StoreError c)))
  /\ (forall db2 e, createTag now id input db = (db2, Thrown e) -> db2 = db).
Proof.
  cbv zeta. unfold createTag. rewrite bind_run. unfold insert_tag.
  split; [|split].
  - intros Hfree.
    assert (E1 : existsb (fun t => Z.eqb (tag_id t) id) (tagsTable db) = false).
    { apply existsb_false. intros t Ht. apply Z.eqb_neq. now apply Hfree. }
    assert (E2 : existsb (fun t => String.eqb (tag_slug t) (ct_slug input)) (tagsTable db)
                 = false).
    { apply existsb_false. intros t Ht. apply String.eqb_neq. now apply Hfree. }
    rewrite E1, E2. eexists. split; [reflexivity|]. split; [reflexivity|].
    rewrite getTagById_run, getTagBySlug_run. simpl.
    rewrite !filter_snoc. simpl.
    rewrite (filter_key_none tag_id _ _ E1), (filter_text_none tag_slug _ _ E2).
    rewrite Z.eqb_refl, String.eqb_refl. simpl.
    split; [reflexivity|]. split; [reflexivity|]. split.
    + intros id' Hne. rewrite !getTagById_run. simpl. rewrite filter_snoc. simpl.
      apply Z.eqb_neq in Hne. rewrite Z.eqb_sym, Hne. now rewrite app_nil_r.
    + intros slug Hne. rewrite !getTagBySlug_run. simpl. rewrite filter_snoc. simpl.
      apply String.eqb_neq in Hne. rewrite String.eqb_sym, Hne. now rewrite app_nil_r.
  - intros [t [Ht Hclash]].
    destruct (existsb (fun t => Z.eqb (tag_id t) id) (tagsTable db)) eqn:E1; [eauto|].
    destruct (existsb (fun t => String.eqb (tag_slug t) (ct_slug input)) (tagsTable db))
      eqn:E2; [eauto|].
    exfalso. destruct Hclash as [Hid | Hslug].
    + apply (existsb_key_false tag_id _ _ E1). rewrite <- Hid. now apply in_map.
    + apply (existsb_text_false tag_slug _ _ E2). rewrite <- Hslug. now apply in_map.
  - intros db2 e.
    destruct (existsb (fun t => Z.eqb (tag_id t) id) (tagsTable db));
      [intros H; now inversion H|].
    destruct (existsb (fun t => String.eqb (tag_slug t) (ct_slug input)) (tagsTable db));
      [intros H; now inversion H|].
    discriminate.
Qed.

Lemma createTag_stores_witness :
  let db2 := fst (createTag 5000 3 (mkCreateTagInput "Proofs" "proofs") sample_db) in
  getTagBySlug "proofs" db2 = Some (mkTag 3 "Proofs" "proofs" 5000 5000)
  /\ getTagById 1 db2 = Some rocq_tag
  /\ exists c, createTag 5000 3 (mkCreateTagInput "Again" "web") sample_db
               = (sample_db, Thrown (StoreError c)).
Proof.
  intros db2.
  destruct (createTag_stores 5000 3 (mkCreateTagInput "Proofs" "proofs") sample_db)
    as [Hok _].
  destruct (createTag_stores 5000 3 (mkCreateTagInput "Again" "web") sample_db)
    as [_ [Hclash _]].
  destruct Hok as [db2' [Hrun [_ [_ [Hslug [Hid _]]]]]].
  { intros t [<- | [<- | []]]; split; discriminate. }
  assert (db2' = db2) by (unfold db2; now rewrite Hrun). subst db2'.
  split; [exact Hslug|]. split; [rewrite Hid by discriminate; reflexivity|].
  apply Hclash. exists web_tag. simpl. auto.
Defined.

(** *** Updating the row with a given key *)

Section UpdateByKey.
Variable R : Type.
Variable key : R -> Z.
Variable f : R -> R.
Variable target : Z.
Hypothesis key_kept : forall r, key (f r) = key r.

Lemma nothing_updated rows :
  (forall r, In r rows -> key r <> target) ->
  map (fun r => if Z.eqb (key r) target then f r else r) rows = rows.
Proof.
  intros H. rewrite <- (map_id rows) at 2. apply map_ext_in. intros r Hr.
  pose proof (H r Hr) as Hn. apply Z.eqb_neq in Hn. now rewrite Hn.
Qed.

Lemma select_updated rows id :
  filter (fun r => Z.eqb (key r) id)
         (map (fun r => if Z.eqb (key r) target then f r else r) rows)
  = map (fun r => if Z.eqb (key r) target then f r else r)
        (filter (fun r => Z.eqb (key r) id) rows).
Proof.
  induction rows as [|r rows IH]; simpl; [reflexivity|].
  assert (Hk : key (if Z.eqb (key r) target then f r else r) = key r)
    by (destruct (Z.eqb (key r) target); auto).
  rewrite Hk. destruct (Z.eqb (key r) id); simpl; now rewrite IH.
Qed.

Lemma first_updated rows id :
  hd_error (filter (fun r => Z.eqb (key r) id)
              (map (fun r => if Z.eqb (key r) target then f r else r) rows))
  = option_map (fun r => if Z.eqb (key r) target then f r else r)
               (hd_error (filter (fun r => Z.eqb (key r) id) rows)).
Proof. rewrite select_updated. now destruct (filter _ rows). Qed.

Lemma first_other rows id :
  id <> target ->
  hd_error (filter (fun r => Z.eqb (key r) id)
              (map (fun r => if Z.eqb (key r) target then f r else r) rows))
  = hd_error (filter (fun r => Z.eqb (key r) id) rows).
Proof.
  intros Hne. rewrite first_updated.
  destruct (filter (fun r => Z.eqb (key r) id) rows) as [|r l] eqn:E; [reflexivity|].
  simpl. f_equal.
  assert (Hr : In r (filter (fun r => Z.eqb (key r) id) rows)) by (rewrite E; now left).
  apply filter_In in Hr. destruct Hr as [_ Hr]. apply Z.eqb_eq in Hr.
  assert (Z.eqb (key r) target = false) as -> by (apply Z.eqb_neq; congruence).
  reflexivity.
Qed.

(** The rows after the update, in whatever order the store keeps them: the
    written row and the rows with another key. *)
Lemma updated_rows rows old :
  NoDup (map key rows) -> In old rows -> key old = target ->
  Permutation (map (fun r => if Z.eqb (key r) target then f r else r) rows)
              (f old :: filter (fun r => negb (Z.eqb (key r) target)) rows).
Proof.
  induction rows as [|r rows IH]; simpl; intros Hnd Hin Hk; [contradiction|].
  apply NoDup_cons_iff in Hnd. destruct Hnd as [Hfresh Hrest].
  destruct (Z.eqb (key r) target) eqn:E; simpl.
  - apply Z.eqb_eq in E.
    assert (Hno : forall x, In x rows -> key x <> target).
    { intros x Hx Ex. apply Hfresh. rewrite E, <- Ex. now apply in_map. }
    assert (r = old) as ->.
    { destruct Hin as [-> | Hin]; [reflexivity|]. exfalso. now apply (Hno old). }
    rewrite (nothing_updated rows Hno).
    rewrite (@filter_all _ _ rows); [reflexivity|].
    intros x Hx. apply negb_true_iff, Z.eqb_neq. now apply Hno.
  - apply Z.eqb_neq in E. destruct Hin as [-> | Hin]; [contradiction|].
    rewrite (IH Hrest Hin Hk). apply perm_swap.
Qed.

(** A unique text column stays unique when the value written to the target
    row is the value of no other row. *)
Lemma updated_column_distinct (col : R -> string) rows :
  NoDup (map key rows) -> NoDup (map col rows) ->
  (forall r r', In r rows -> In r' rows -> key r = target -> key r' <> target ->
                col (f r) <> col r') ->
  NoDup (map col (map (fun r => if Z.eqb (key r) target then f r else r) rows)).
Proof.
  intros Hkeys Hcols Hfree. rewrite map_map. apply NoDup_map_on.
  - apply (NoDup_map_inv' key _ Hkeys).
  - intros x y Hx Hy E.
    destruct (Z.eqb (key x) target) eqn:Ex, (Z.eqb (key y) target) eqn:Ey.
    + apply Z.eqb_eq in Ex, Ey. apply (NoDup_map_unique key _ x y Hkeys); congruence.
    + exfalso. apply Z.eqb_eq in Ex. apply Z.eqb_neq in Ey. now apply (Hfree x y).
    + exfalso. apply Z.eqb_neq in Ex. apply Z.eqb_eq in Ey. now apply (Hfree y x).
    + apply (NoDup_map_unique col _ x y Hcols); auto.
Qed.

(** And it is refused when another row has the value. *)
Lemma updated_column_clash (col : R -> string) rows r r' :
  In r rows -> In r' rows -> key r = target -> key r' <> target ->
  col (f r) = col r' ->
  nodupb String.eqb
    (map col (map (fun r => if Z.eqb (key r) target then f r else r) rows)) = false.
Proof.
  intros Hr Hr' Hk Hk' E.
  destruct (nodupb String.eqb _) eqn:Hnd; [|reflexivity].
  exfalso. apply NoDup_strings_nodupb in Hnd. rewrite map_map in Hnd.
  assert (Hsame : r = r').
  { apply (NoDup_map_unique _ rows r r' Hnd Hr Hr').
    apply Z.eqb_eq in Hk. apply Z.eqb_neq in Hk'.
    now rewrite Hk, Hk'. }
  subst r'. contradiction.
Qed.
End UpdateByKey.

Lemma hd_error_key {R} (key : R -> Z) rows id r :
  hd_error (filter (fun r => Z.eqb (key r) id) rows) = Some r -> In r rows /\ key r = id.
Proof.
  intros H. apply hd_error_In in H. apply filter_In in H. destruct H as [H1 H2].
  split; auto. now apply Z.eqb_eq.
Qed.

Lemma hd_error_key_none {R} (key : R -> Z) rows id :
  hd_error (filter (fun r => Z.eqb (key r) id) rows) = None ->
  forall r, In r rows -> key r <> id.
Proof.
  intros H r Hr E.
  assert (Hin : In r (filter (fun r => Z.eqb (key r) id) rows)).
  { apply filter_In. split; auto. now apply Z.eqb_eq. }
  destruct (filter _ rows); [contradiction | discriminate].
Qed.

Lemma hd_error_unique {R} (key : R -> Z) rows id r :
  NoDup (map key rows) ->
  hd_error (filter (fun r => Z.eqb (key r) id) rows) = Some r ->
  filter (fun r => Z.eqb (key r) id) rows = [r].
Proof.
  intros Hnd H. destruct (hd_error_key key rows id H) as [Hin Hid].
  rewrite <- (filter_unique_key key rows r Hnd Hin). apply filter_ext.
  intros x. rewrite Hid. apply Z.eqb_sym.
Qed.

Lemma with_tags_same db : with_tags db (tagsTable db) = db.
Proof. now destruct db. Qed.

Lemma with_categories_same db : with_categories db (categoriesTable db) = db.
Proof. now destruct db. Qed.

Lemma with_users_same db : with_users db (usersTable db) = db.
Proof. now destruct db. Qed.

(** X13.  [updateTag] in a store whose tag ids and slugs are unique.  An id
    outside the range of the 32-bit id column is refused by the store: the
    call throws the store's out-of-range error and nothing is written.  For
    an id within the range: when no tag has the id, it throws "Tag with id N
    not found", N the id in decimal, and the store is unchanged.  When the
    tag exists and no other tag has the slug asked for, it returns the tag
    with the supplied name and slug (an absent field keeps its value), the
    id and [created_at] kept and [updated_at] the time of the call; the tags
    table then holds that row and the other tags, no other table is written,
    [getTagById] reads the new row and every other tag is as before.  When
    another tag has the slug, the store refuses the update and nothing is
    written. *)
Theorem updateTag_outcomes now input db :
  unique_tags (tagsTable db) ->
  let id := ut_id input in
  (int4 id = false ->
   updateTag now input db = (db, Thrown (StoreError OUT_OF_RANGE)))
  /\ (int4 id = true ->
      (getTagById id db = None ->
       updateTag now input db = (db, Thrown (JsError (tag_not_found id))))
      /\ (forall old,
             getTagById id db = Some old ->
             let new := mkTag id (or_else (ut_name input) (tag_name old))
                          (or_else (ut_slug input) (tag_slug old))
                          (tag_created_at old) now in
             ((forall t, In t (tagsTable db) -> tag_id t <> id ->
                         tag_slug t <> tag_slug new) ->
              exists db2,
                updateTag now input db = (db2, Returned (Some new))
                /\ db2 = with_tags db (tagsTable db2)
                /\ Permutation (tagsTable db2)
                     (new :: filter (fun t => negb (Z.eqb (tag_id t) id)) (tagsTable db))
                /\ getTagById id db2 = Some new
                /\ (forall id', id' <> id -> getTagById id' db2 = getTagById id' db))
             /\ ((exists t, In t (tagsTable db) /\ tag_id t <> id
                            /\ tag_slug t = tag_slug new) ->
                 updateTag now input db = (db, Thrown (StoreError "tags_slug_unique"))))).
Proof.
  intros [Hids Hslugs]. cbv zeta. unfold updateTag. cbv zeta.
  set (u := mkTagUpdate (ut_name input) (ut_slug input) (Some now)).
  rewrite bind_run. unfold update_tag.
  split; [intros Ri; now rewrite Ri|].
  intros Ri. rewrite Ri. cbn [negb]. split.
  - rewrite getTagById_run. intros Hnone.
    pose proof (@hd_error_key_none _ tag_id _ _ Hnone) as Hno.
    rewrite (@nothing_updated _ tag_id (apply_tag_update u) (ut_id input) _ Hno).
    rewrite (@NoDup_nodupb _ String.eqb String.eqb_eq _ Hslugs).
    rewrite with_tags_same, when_bind_run.
    rewrite (@hd_error_filter_key _ tag_id _ _ Hno). reflexivity.
  - intros old. rewrite getTagById_run. intros Hold.
    destruct (@hd_error_key _ tag_id _ _ _ Hold) as [Hin Hid].
    assert (Hkept : forall t, tag_id (apply_tag_update u t) = tag_id t) by reflexivity.
    assert (Hnew : apply_tag_update u old
                   = mkTag (ut_id input) (or_else (ut_name input) (tag_name old))
                       (or_else (ut_slug input) (tag_slug old)) (tag_created_at old) now).
    { unfold apply_tag_update. simpl. now rewrite Hid. }
    split.
    + intros Hfree.
      assert (Hnd : nodupb String.eqb
                      (map tag_slug
                         (map (fun t => if Z.eqb (tag_id t) (ut_id input)
                                        then apply_tag_update u t else t) (tagsTable db)))
                    = true).
      { apply (@NoDup_nodupb _ String.eqb String.eqb_eq).
        apply (@updated_column_distinct _ tag_id (apply_tag_update u) (ut_id input)
                 tag_slug (tagsTable db) Hids Hslugs).
        intros r r' Hr Hr' Hk Hk'.
        assert (r = old)
          by (apply (@NoDup_map_unique _ _ tag_id _ r old Hids); congruence).
        subst r. rewrite Hnew. intros E. apply (Hfree r' Hr' Hk'). now symmetry. }
      rewrite Hnd. eexists. rewrite when_bind_run.
      rewrite (@select_updated _ tag_id (apply_tag_update u) (ut_id input) Hkept).
      rewrite (@hd_error_unique _ tag_id _ _ _ Hids Hold). simpl.
      rewrite Hid, Z.eqb_refl, Hnew.
      split; [reflexivity|]. split; [reflexivity|]. split.
      { rewrite <- Hnew, <- Hid.
        apply (@updated_rows _ tag_id (apply_tag_update u) (tag_id old) (tagsTable db) old
                 Hids Hin eq_refl). }
      rewrite !getTagById_run. simpl. split.
      * rewrite (@first_updated _ tag_id (apply_tag_update u) (ut_id input) Hkept).
        rewrite Hold. simpl. rewrite Hid, Z.eqb_refl. now rewrite Hnew.
      * intros id' Hne. rewrite !getTagById_run. simpl.
        now apply (@first_other _ tag_id (apply_tag_update u) (ut_id input) Hkept).
    + intros [t [Ht [Hne Hclash]]].
      rewrite (@updated_column_clash _ tag_id (apply_tag_update u) (ut_id input)
                 tag_slug _ old t); auto.
Qed.

Lemma sample_unique_tags : unique_tags (tagsTable sample_db).
Proof. apply (cs_tags sample_consistent). Qed.

Lemma updateTag_outcomes_witness :
  updateTag 5000 (mkUpdateTagInput 42 (Some "Nothing") None) sample_db
  = (sample_db, Thrown (JsError "Tag with id 42 not found"))
  /\ (exists db2,
        updateTag 5000 (mkUpdateTagInput 2 (Some "The Web") None) sample_db
        = (db2, Returned (Some (mkTag 2 "The Web" "web" 1000 5000)))
        /\ getTagById 1 db2 = Some rocq_tag)
  /\ updateTag 5000 (mkUpdateTagInput 2 None (Some "rocq")) sample_db
     = (sample_db, Thrown (StoreError "tags_slug_unique"))
  /\ updateTag 5000 (mkUpdateTagInput 2147483648 None None) sample_db
     = (sample_db, Thrown (StoreError OUT_OF_RANGE)).
Proof.
  destruct (updateTag_outcomes 5000 (mkUpdateTagInput 42 (Some "Nothing") None)
              sample_db sample_unique_tags) as [_ Hmissing].
  destruct (updateTag_outcomes 5000 (mkUpdateTagInput 2 (Some "The Web") None)
              sample_db sample_unique_tags) as [_ Hrename].
  destruct (updateTag_outcomes 5000 (mkUpdateTagInput 2 None (Some "rocq"))
              sample_db sample_unique_tags) as [_ Hclash].
  destruct (updateTag_outcomes 5000 (mkUpdateTagInput 2147483648 None None)
              sample_db sample_unique_tags) as [Hrange _].
  split; [exact (proj1 (Hmissing eq_refl) eq_refl)|]. split; [|split].
  - destruct (proj2 (Hrename eq_refl) web_tag eq_refl) as [Hok _].
    destruct Hok as [db2 [Hrun [_ [_ [_ Hothers]]]]].
    { intros t [<- | [<- | []]]; simpl; intros H; try discriminate. now contradiction H. }
    exists db2. split; [exact Hrun|]. rewrite Hothers by discriminate. reflexivity.
  - destruct (proj2 (Hclash eq_refl) web_tag eq_refl) as [_ Hrefused]. apply Hrefused.
    exists rocq_tag. simpl. repeat split; auto. discriminate.
  - exact (Hrange eq_refl).
Defined.

(** *** Deleting a tag *)

Lemma filter_map_snd {L R} (q : R -> bool) (rows : list (L * R)) :
  map snd (filter (fun r => q (snd r)) rows) = filter q (map snd rows).
Proof.
  induction rows as [|x rows IH]; simpl; [reflexivity|].
  destruct (q (snd x)); simpl; now rewrite IH.
Qed.

Lemma filter_map_pair {L R} (q : R -> bool) (l : L) (rows : list R) :
  filter (fun r => q (snd r)) (map (fun r => (l, r)) rows)
  = map (fun r => (l, r)) (filter q rows).
Proof.
  induction rows as [|x rows IH]; simpl; [reflexivity|].
  destruct (q x); simpl; now rewrite IH.
Qed.

(** Deleting the right rows that fail [q] together with the left rows that
    refer to them. *)
Lemma innerJoin_filter_both {L R} (pl : L -> bool) (q : R -> bool)
    (left : list L) (right : list R) on :
  (forall l r, on l r = true -> pl l = q r) ->
  innerJoin (filter pl left) (filter q right) on
  = filter (fun r => q (snd r)) (innerJoin left right on).
Proof.
  intros Hon. unfold innerJoin. induction left as [|l left IH]; simpl; [reflexivity|].
  rewrite filter_app, <- IH, filter_map_pair.
  destruct (pl l) eqn:E; simpl.
  - f_equal. f_equal. apply filter_comm.
  - rewrite (@filter_none _ q (filter (on l) right)); [reflexivity|].
    intros r Hr. apply filter_In in Hr. destruct Hr as [_ Hr].
    now rewrite <- (Hon l r Hr).
Qed.

Lemma deleteTag_run tagId db :
  deleteTag tagId db
  = if int4 tagId then
      (with_blogPostTags
         (with_tags db (filter (fun t => negb (Z.eqb (tag_id t) tagId)) (tagsTable db)))
         (filter (fun r => negb (Z.eqb (bpt_tag_id r) tagId)) (blogPostTagsTable db)),
       if existsb (fun t => Z.eqb (tag_id t) tagId) (tagsTable db)
       then Returned true
       else Thrown (JsError (tag_not_found tagId)))
    else (db, Thrown (StoreError OUT_OF_RANGE)).
Proof.
  unfold deleteTag. rewrite bind_run. unfold delete_blogPostTags_of_tag.
  destruct (int4 tagId); cbn [negb]; [|reflexivity].
  rewrite bind_run. unfold delete_tag. simpl.
  destruct (filter (fun t => Z.eqb (tag_id t) tagId) (tagsTable db)) as [|d ds] eqn:E.
  - rewrite existsb_false; [reflexivity|].
    intros t Ht. apply (filter_nil_none _ _ t E Ht).
  - assert (Hex : existsb (fun t => Z.eqb (tag_id t) tagId) (tagsTable db) = true).
    { apply existsb_exists. exists d.
      assert (Hd : In d (filter (fun t => Z.eqb (tag_id t) tagId) (tagsTable db)))
        by (rewrite E; now left).
      now apply filter_In in Hd. }
    rewrite Hex, filter_idem. reflexivity.
Qed.

(** X14.  [deleteTag] with an id outside the range of the 32-bit id column
    is refused by the store at its first statement: it throws the store's
    out-of-range error and nothing is written.  With an id within the range
    it removes the tag with the id and every association row that refers to
    it, and nothing else: the posts, their categories, the other tags and
    their associations stay.  It returns success when a tag with the id was
    stored and throws "Tag with id N not found" otherwise, in which case the
    store is unchanged provided no association row referred to a missing
    tag.  Afterwards [getTagById] answers null for the id, and
    [getBlogPostById] shows every post as before, without the deleted tag. *)
Theorem deleteTag_removes tagId db :
  (int4 tagId = false ->
   deleteTag tagId db = (db, Thrown (StoreError OUT_OF_RANGE)))
  /\ (int4 tagId = true ->
      let db2 := fst (deleteTag tagId db) in
      let kept (t : Tag) := negb (Z.eqb (tag_id t) tagId) in
      db2 = with_blogPostTags (with_tags db (filter kept (tagsTable db)))
              (filter (fun r => negb (Z.eqb (bpt_tag_id r) tagId)) (blogPostTagsTable db))
      /\ ((exists t, In t (tagsTable db) /\ tag_id t = tagId) ->
          snd (deleteTag tagId db) = Returned true)
      /\ ((forall t, In t (tagsTable db) -> tag_id t <> tagId) ->
          snd (deleteTag tagId db) = Thrown (JsError (tag_not_found tagId))
          /\ ((forall r, In r (blogPostTagsTable db) -> tag_exists db (bpt_tag_id r)) ->
              db2 = db))
      /\ getTagById tagId db2 = None
      /\ (forall id, id <> tagId -> getTagById id db2 = getTagById id db)
      /\ (forall id,
             getBlogPostById id db2
             = option_map (fun item =>
                             mkBlogPostWithRelations (wr_post item) (wr_author item)
                               (wr_categories item) (filter kept (wr_tags item)))
                          (getBlogPostById id db))).
Proof.
  rewrite deleteTag_run. split; [intros Ri; now rewrite Ri|].
  intros Ri. rewrite Ri. cbv zeta. cbn [fst snd].
  split; [reflexivity|]. split; [|split; [|split; [|split]]].
  - intros [t [Ht Hid]].
    assert (E : existsb (fun t => Z.eqb (tag_id t) tagId) (tagsTable db) = true)
      by (apply existsb_id; eauto).
    now rewrite E.
  - intros Hno.
    assert (E : existsb (fun t => Z.eqb (tag_id t) tagId) (tagsTable db) = false).
    { apply existsb_false. intros t Ht. apply Z.eqb_neq. now apply Hno. }
    rewrite E. split; [reflexivity|]. intros Hfk.
    rewrite (@filter_all _ _ (tagsTable db)).
    2:{ intros t Ht. apply negb_true_iff, Z.eqb_neq. now apply Hno. }
    rewrite (@filter_all _ _ (blogPostTagsTable db)).
    2:{ intros r Hr. apply negb_true_iff, Z.eqb_neq.
        destruct (Hfk r Hr) as [t [Ht Hid]]. rewrite <- Hid. now apply Hno. }
    now destruct db.
  - rewrite getTagById_run. simpl.
    rewrite (filter_filter_negb (fun t => Z.eqb (tag_id t) tagId)). reflexivity.
  - intros id Hne. rewrite !getTagById_run. simpl. f_equal.
    rewrite filter_comm. apply filter_all. intros t Ht.
    apply filter_In in Ht. destruct Ht as [_ Ht]. apply Z.eqb_eq in Ht.
    apply negb_true_iff, Z.eqb_neq. congruence.
  - intros id. rewrite !getBlogPostById_run.
    unfold posts_with_authors. simpl.
    change (innerJoin (blogPostsTable db) (usersTable db)
              (fun p u => Z.eqb (post_author_id p) (user_id u)))
      with (posts_with_authors db).
    assert (Htags : tags_of
              (with_blogPostTags
                 (with_tags db (filter (fun t => negb (Z.eqb (tag_id t) tagId)) (tagsTable db)))
                 (filter (fun r => negb (Z.eqb (bpt_tag_id r) tagId)) (blogPostTagsTable db)))
              id
            = filter (fun t => negb (Z.eqb (tag_id t) tagId)) (tags_of db id)).
    { unfold tags_of, tags_joined. simpl.
      rewrite (innerJoin_filter_both (fun r => negb (Z.eqb (bpt_tag_id r) tagId))
                                     (fun t => negb (Z.eqb (tag_id t) tagId))).
      - rewrite filter_comm.
        apply (filter_map_snd (fun t => negb (Z.eqb (tag_id t) tagId))).
      - intros l r Hon. apply Z.eqb_eq in Hon. now rewrite Hon. }
    rewrite Htags.
    destruct (filter _ (posts_with_authors db)) as [|x l]; reflexivity.
Qed.

Lemma deleteTag_removes_witness :
  let db2 := fst (deleteTag 1 sample_db) in
  snd (deleteTag 1 sample_db) = Returned true
  /\ getTagById 1 db2 = None
  /\ getBlogPostById 1 db2 = Some (mkBlogPostWithRelations first_post alice [news] [])
  /\ deleteTag 9 sample_db = (sample_db, Thrown (JsError "Tag with id 9 not found"))
  /\ deleteTag 2147483648 sample_db = (sample_db, Thrown (StoreError OUT_OF_RANGE)).
Proof.
  intros db2.
  destruct (deleteTag_removes 1 sample_db) as [_ Hone].
  destruct (Hone eq_refl) as [_ [Hok [_ [Hgone [_ Hposts]]]]].
  destruct (deleteTag_removes 9 sample_db) as [_ Hnine].
  destruct (Hnine eq_refl) as [_ [_ [Hmissing _]]].
  destruct (deleteTag_removes 2147483648 sample_db) as [Hrange _].
  split; [apply Hok; exists rocq_tag; simpl; auto|].
  split; [exact Hgone|]. split; [exact (Hposts 1)|].
  split; [|exact (Hrange eq_refl)].
  destruct Hmissing as [Hthrown Hsame].
  { intros t [<- | [<- | []]]; discriminate. }
  rewrite (surjective_pairing (deleteTag 9 sample_db)), Hthrown, Hsame; [reflexivity|].
  intros r Hr. apply (cs_tag_links sample_consistent). exact Hr.
Defined.

(** ** Categories *)

Lemma getCategoryById_run categoryId db :
  getCategoryById categoryId db
  = hd_error (filter (fun c => Z.eqb (category_id c) categoryId) (categoriesTable db)).
Proof.
  unfold getCategoryById, rows_where, eq_.
  reflexivity.
Qed.

Lemma getCategoryBySlug_run slug db :
  getCategoryBySlug slug db
  = hd_error (filter (fun c => String.eqb (category_slug c) slug) (categoriesTable db)).
Proof.
  unfold getCategoryBySlug, rows_where.
  reflexivity.
Qed.

(** X15.  [createCategory] stores one row or nothing.  When the id handed
    out by the sequence is free and no stored category has the slug, it
    returns the new category: name and slug of the input, the description of
    the input or null when it is absent or the empty string, both timestamps
    the time of the call.  [getCategoryById] and [getCategoryBySlug] then
    find it, while every other lookup answers as before.  When a stored
    category has the slug, or the id is taken, the store refuses the row: the
    call throws and the store is unchanged. *)
Theorem createCategory_stores now id input db :
  let category :=
    mkCategory id (cc_name input) (cc_slug input) (or_null (cc_description input)) now now in
  ((forall c, In c (categoriesTable db) ->
              category_id c <> id /\ category_slug c <> cc_slug input) ->
   exists db2,
     createCategory now id input db = (db2, Returned (Some category))
     /\ db2 = with_categories db (categoriesTable db ++ [category])
     /\ getCategoryById id db2 = Some category
     /\ getCategoryBySlug (cc_slug input) db2 = Some category
     /\ (forall id', id' <> id -> getCategoryById id' db2 = getCategoryById id' db)
     /\ (forall slug, slug <> cc_slug input ->
                      getCategoryBySlug slug db2 = getCategoryBySlug slug db))
  /\ ((exists c, In c (categoriesTable db)
                 /\ (category_id c = id \/ category_slug c = cc_slug input)) ->
      exists code, createCategory now id input db = (db, Thrown (StoreError code)))
  /\ (forall db2 e, createCategory now id input db = (db2, Thrown e) -> db2 = db).
Proof.
  cbv zeta. unfold createCategory. rewrite bind_run. unfold insert_category.
  split; [|split].
  - intros Hfree.
    assert (E1 : existsb (fun t => Z.eqb (category_id t) id) (categoriesTable db) = false).
    { apply existsb_false. intros t Ht. apply Z.eqb_neq. now apply Hfree. }
    assert (E2 : existsb (fun t => String.eqb (category_slug t) (cc_slug input))
                         (categoriesTable db)
                 = false).
    { apply existsb_false. intros t Ht. apply String.eqb_neq. now apply Hfree. }
    rewrite E1, E2. eexists. split; [reflexivity|]. split; [reflexivity|].
    rewrite getCategoryById_run, getCategoryBySlug_run. simpl.
    rewrite !filter_snoc. simpl.
    rewrite (filter_key_none category_id _ _ E1), (filter_text_none category_slug _ _ E2).
    rewrite Z.eqb_refl, String.eqb_refl. simpl.
    split; [reflexivity|]. split; [reflexivity|]. split.
    + intros id' Hne. rewrite !getCategoryById_run. simpl. rewrite filter_snoc. simpl.
      apply Z.eqb_neq in Hne. rewrite Z.eqb_sym, Hne. now rewrite app_nil_r.
    + intros slug Hne. rewrite !getCategoryBySlug_run. simpl. rewrite filter_snoc. simpl.
      apply String.eqb_neq in Hne. rewrite String.eqb_sym, Hne. now rewrite app_nil_r.
  - intros [t [Ht Hclash]].
    destruct (existsb (fun t => Z.eqb (category_id t) id) (categoriesTable db)) eqn:E1; [eauto|].
    destruct (existsb (fun t => String.eqb (category_slug t) (cc_slug input))
                      (categoriesTable db)) eqn:E2; [eauto|].
    exfalso. destruct Hclash as [Hid | Hslug].
    + apply (existsb_key_false category_id _ _ E1). rewrite <- Hid. now apply in_map.
    + apply (existsb_text_false category_slug _ _ E2). rewrite <- Hslug. now apply in_map.
  - intros db2 e.
    destruct (existsb (fun t => Z.eqb (category_id t) id) (categoriesTable db));
      [intros H; now inversion H|].
    destruct (existsb (fun t => String.eqb (category_slug t) (cc_slug input))
                      (categoriesTable db));
      [intros H; now inversion H|].
    discriminate.
Qed.

Lemma createCategory_stores_witness :
  let db2 := fst (createCategory 5000 3
                    (mkCreateCategoryInput "Proofs" "proofs" (Some EmptyString))
                    sample_db) in
  getCategoryBySlug "proofs" db2 = Some (mkCategory 3 "Proofs" "proofs" None 5000 5000)
  /\ getCategoryById 1 db2 = Some news
  /\ exists c, createCategory 5000 3 (mkCreateCategoryInput "Again" "tech" None) sample_db
               = (sample_db, Thrown (StoreError c)).
Proof.
  intros db2.
  destruct (createCategory_stores 5000 3
              (mkCreateCategoryInput "Proofs" "proofs" (Some EmptyString)) sample_db)
    as [Hok _].
  destruct (createCategory_stores 5000 3 (mkCreateCategoryInput "Again" "tech" None) sample_db)
    as [_ [Hclash _]].
  destruct Hok as [db2' [Hrun [_ [_ [Hslug [Hid _]]]]]].
  { intros t [<- | [<- | []]]; split; discriminate. }
  assert (db2' = db2) by (unfold db2; now rewrite Hrun). subst db2'.
  split; [exact Hslug|]. split; [rewrite Hid by discriminate; reflexivity|].
  apply Hclash. exists tech. simpl. auto.
Defined.

(** X16.  [updateCategory] in a store whose category ids and slugs are
    unique.  An id outside the range of the 32-bit id column is refused by
    the store: the call throws the store's out-of-range error and nothing is
    written.  For an id within the range: when no category has the id, it
    throws "Category with id N not found", N the id in decimal, and the store
    is unchanged.  When the category exists and no other category has the
    slug asked for, it returns the category with the supplied name, slug and
    description (an absent field keeps its value, a null description clears
    it), the id and [created_at] kept and [updated_at] the time of the call;
    the categories table then holds that row and the other categories, no
    other table is written, [getCategoryById] reads the new row and every
    other category is as before.  When another category has the slug, the
    store refuses the update and nothing is written. *)
Theorem updateCategory_outcomes now input db :
  unique_categories (categoriesTable db) ->
  let id := uc_id input in
  (int4 id = false ->
   updateCategory now input db = (db, Thrown (StoreError OUT_OF_RANGE)))
  /\ (int4 id = true ->
      (getCategoryById id db = None ->
       updateCategory now input db = (db, Thrown (JsError (category_not_found id))))
      /\ (forall old,
             getCategoryById id db = Some old ->
             let new := mkCategory id (or_else (uc_name input) (category_name old))
                          (or_else (uc_slug input) (category_slug old))
                          (or_else (uc_description input) (category_description old))
                          (category_created_at old) now in
             ((forall c, In c (categoriesTable db) -> category_id c <> id ->
                         category_slug c <> category_slug new) ->
              exists db2,
                updateCategory now input db = (db2, Returned (Some new))
                /\ db2 = with_categories db (categoriesTable db2)
                /\ Permutation (categoriesTable db2)
                     (new :: filter (fun c => negb (Z.eqb (category_id c) id))
                                    (categoriesTable db))
                /\ getCategoryById id db2 = Some new
                /\ (forall id', id' <> id ->
                                getCategoryById id' db2 = getCategoryById id' db))
             /\ ((exists c, In c (categoriesTable db) /\ category_id c <> id
                            /\ category_slug c = category_slug new) ->
                 updateCategory now input db
                 = (db, Thrown (StoreError "categories_slug_unique"))))).
Proof.
  intros [Hids Hslugs]. cbv zeta. unfold updateCategory. cbv zeta.
  set (u := mkCategoryUpdate (uc_name input) (uc_slug input) (uc_description input)
               (Some now)).
  rewrite bind_run. unfold update_category.
  split; [intros Ri; now rewrite Ri|].
  intros Ri. rewrite Ri. cbn [negb]. split.
  - rewrite getCategoryById_run. intros Hnone.
    pose proof (@hd_error_key_none _ category_id _ _ Hnone) as Hno.
    rewrite (@nothing_updated _ category_id (apply_category_update u) (uc_id input) _ Hno).
    rewrite (@NoDup_nodupb _ String.eqb String.eqb_eq _ Hslugs).
    rewrite with_categories_same, when_bind_run.
    rewrite (@hd_error_filter_key _ category_id _ _ Hno). reflexivity.
  - intros old. rewrite getCategoryById_run. intros Hold.
    destruct (@hd_error_key _ category_id _ _ _ Hold) as [Hin Hid].
    assert (Hkept : forall t, category_id (apply_category_update u t) = category_id t)
      by reflexivity.
    assert (Hnew : apply_category_update u old
                   = mkCategory (uc_id input) (or_else (uc_name input) (category_name old))
                       (or_else (uc_slug input) (category_slug old))
                       (or_else (uc_description input) (category_description old))
                       (category_created_at old) now).
    { unfold apply_category_update. simpl. now rewrite Hid. }
    split.
    + intros Hfree.
      assert (Hnd : nodupb String.eqb
                      (map category_slug
                         (map (fun t => if Z.eqb (category_id t) (uc_id input)
                                        then apply_category_update u t else t)
                              (categoriesTable db)))
                    = true).
      { apply (@NoDup_nodupb _ String.eqb String.eqb_eq).
        apply (@updated_column_distinct _ category_id (apply_category_update u)
                 (uc_id input) category_slug (categoriesTable db) Hids Hslugs).
        intros r r' Hr Hr' Hk Hk'.
        assert (r = old)
          by (apply (@NoDup_map_unique _ _ category_id _ r old Hids); congruence).
        subst r. rewrite Hnew. intros E. apply (Hfree r' Hr' Hk'). now symmetry. }
      rewrite Hnd. eexists. rewrite when_bind_run.
      rewrite (@select_updated _ category_id (apply_category_update u) (uc_id input) Hkept).
      rewrite (@hd_error_unique _ category_id _ _ _ Hids Hold). simpl.
      rewrite Hid, Z.eqb_refl, Hnew.
      split; [reflexivity|]. split; [reflexivity|]. split.
      { rewrite <- Hnew, <- Hid.
        apply (@updated_rows _ category_id (apply_category_update u) (category_id old)
                 (categoriesTable db) old Hids Hin eq_refl). }
      rewrite !getCategoryById_run. simpl. split.
      * rewrite (@first_updated _ category_id (apply_category_update u) (uc_id input) Hkept).
        rewrite Hold. simpl. rewrite Hid, Z.eqb_refl. now rewrite Hnew.
      * intros id' Hne. rewrite !getCategoryById_run. simpl.
        now apply (@first_other _ category_id (apply_category_update u) (uc_id input) Hkept).
    + intros [t [Ht [Hne Hclash]]].
      rewrite (@updated_column_clash _ category_id (apply_category_update u) (uc_id input)
                 category_slug _ old t); auto.
Qed.

Lemma sample_unique_categories : unique_categories (categoriesTable sample_db).
Proof. apply (cs_categories sample_consistent). Qed.

Lemma updateCategory_outcomes_witness :
  updateCategory 5000 (mkUpdateCategoryInput 42 (Some "Nothing") None None) sample_db
  = (sample_db, Thrown (JsError "Category with id 42 not found"))
  /\ (exists db2,
        updateCategory 5000 (mkUpdateCategoryInput 2 None None (Some None)) sample_db
        = (db2, Returned (Some (mkCategory 2 "Tech" "tech" None 1000 5000)))
        /\ getCategoryById 1 db2 = Some news)
  /\ updateCategory 5000 (mkUpdateCategoryInput 2 None (Some "news") None) sample_db
     = (sample_db, Thrown (StoreError "categories_slug_unique"))
  /\ updateCategory 5000 (mkUpdateCategoryInput (-2147483649) None None None) sample_db
     = (sample_db, Thrown (StoreError OUT_OF_RANGE)).
Proof.
  destruct (updateCategory_outcomes 5000 (mkUpdateCategoryInput 42 (Some "Nothing") None None)
              sample_db sample_unique_categories) as [_ Hmissing].
  destruct (updateCategory_outcomes 5000 (mkUpdateCategoryInput 2 None None (Some None))
              sample_db sample_unique_categories) as [_ Hclear].
  destruct (updateCategory_outcomes 5000 (mkUpdateCategoryInput 2 None (Some "news") None)
              sample_db sample_unique_categories) as [_ Hclash].
  destruct (updateCategory_outcomes 5000
              (mkUpdateCategoryInput (-2147483649) None None None)
              sample_db sample_unique_categories) as [Hrange _].
  split; [exact (proj1 (Hmissing eq_refl) eq_refl)|]. split; [|split].
  - destruct (proj2 (Hclear eq_refl) tech eq_refl) as [Hok _].
    destruct Hok as [db2 [Hrun [_ [_ [_ Hothers]]]]].
    { intros t [<- | [<- | []]]; simpl; intros H; try discriminate. now contradiction H. }
    exists db2. split; [exact Hrun|]. rewrite Hothers by discriminate. reflexivity.
  - destruct (proj2 (Hclash eq_refl) tech eq_refl) as [_ Hrefused]. apply Hrefused.
    exists news. simpl. repeat split; auto. discriminate.
  - exact (Hrange eq_refl).
Defined.

(** *** Deleting a category *)

Lemma deleteCategory_run categoryId db :
  deleteCategory categoryId db
  = if int4 categoryId then
      (with_blogPostCategories
         (with_categories db
            (filter (fun c => negb (Z.eqb (category_id c) categoryId)) (categoriesTable db)))
         (filter (fun r => negb (Z.eqb (bpc_category_id r) categoryId))
                 (blogPostCategoriesTable db)),
       if existsb (fun c => Z.eqb (category_id c) categoryId) (categoriesTable db)
       then Returned true
       else Thrown (JsError (category_not_found categoryId)))
    else (db, Thrown (StoreError OUT_OF_RANGE)).
Proof.
  unfold deleteCategory. rewrite bind_run. unfold delete_blogPostCategories_of_category.
  destruct (int4 categoryId); cbn [negb]; [|reflexivity].
  rewrite bind_run. unfold delete_category. simpl.
  destruct (filter (fun t => Z.eqb (category_id t) categoryId) (categoriesTable db))
    as [|d ds] eqn:E.
  - rewrite existsb_false; [reflexivity|].
    intros t Ht. apply (filter_nil_none _ _ t E Ht).
  - assert (Hex : existsb (fun t => Z.eqb (category_id t) categoryId) (categoriesTable db)
                  = true).
    { apply existsb_exists. exists d.
      assert (Hd : In d (filter (fun t => Z.eqb (category_id t) categoryId)
                                (categoriesTable db)))
        by (rewrite E; now left).
      now apply filter_In in Hd. }
    rewrite Hex, filter_idem. reflexivity.
Qed.

(** X17.  [deleteCategory] with an id outside the range of the 32-bit id
    column is refused by the store at its first statement: it throws the
    store's out-of-range error and nothing is written.  With an id within
    the range it removes the category with the id and every association row
    that refers to it, and nothing else: the posts, their tags, the other
    categories and their associations stay.  It returns success when a
    category with the id was stored and throws "Category with id N not found"
    otherwise, in which case the store is unchanged provided no association
    row referred to a missing category.  Afterwards [getCategoryById]
    answers null for the id, and [getBlogPostById] shows every post as
    before, without the deleted category: a post whose only category it was
    is left with none. *)
Theorem deleteCategory_removes categoryId db :
  (int4 categoryId = false ->
   deleteCategory categoryId db = (db, Thrown (StoreError OUT_OF_RANGE)))
  /\ (int4 categoryId = true ->
      let db2 := fst (deleteCategory categoryId db) in
      let kept (c : Category) := negb (Z.eqb (category_id c) categoryId) in
      db2 = with_blogPostCategories (with_categories db (filter kept (categoriesTable db)))
              (filter (fun r => negb (Z.eqb (bpc_category_id r) categoryId))
                      (blogPostCategoriesTable db))
      /\ ((exists c, In c (categoriesTable db) /\ category_id c = categoryId) ->
          snd (deleteCategory categoryId db) = Returned true)
      /\ ((forall c, In c (categoriesTable db) -> category_id c <> categoryId) ->
          snd (deleteCategory categoryId db)
          = Thrown (JsError (category_not_found categoryId))
          /\ ((forall r, In r (blogPostCategoriesTable db) ->
                         category_exists db (bpc_category_id r)) ->
              db2 = db))
      /\ getCategoryById categoryId db2 = None
      /\ (forall id, id <> categoryId -> getCategoryById id db2 = getCategoryById id db)
      /\ (forall id,
             getBlogPostById id db2
             = option_map (fun item =>
                             mkBlogPostWithRelations (wr_post item) (wr_author item)
                               (filter kept (wr_categories item)) (wr_tags item))
                          (getBlogPostById id db))).
Proof.
  rewrite deleteCategory_run. split; [intros Ri; now rewrite Ri|].
  intros Ri. rewrite Ri. cbv zeta. cbn [fst snd].
  split; [reflexivity|]. split; [|split; [|split; [|split]]].
  - intros [t [Ht Hid]].
    assert (E : existsb (fun t => Z.eqb (category_id t) categoryId) (categoriesTable db)
                = true)
      by (apply existsb_id; eauto).
    now rewrite E.
  - intros Hno.
    assert (E : existsb (fun t => Z.eqb (category_id t) categoryId) (categoriesTable db)
                = false).
    { apply existsb_false. intros t Ht. apply Z.eqb_neq. now apply Hno. }
    rewrite E. split; [reflexivity|]. intros Hfk.
    rewrite (@filter_all _ _ (categoriesTable db)).
    2:{ intros t Ht. apply negb_true_iff, Z.eqb_neq. now apply Hno. }
    rewrite (@filter_all _ _ (blogPostCategoriesTable db)).
    2:{ intros r Hr. apply negb_true_iff, Z.eqb_neq.
        destruct (Hfk r Hr) as [t [Ht Hid]]. rewrite <- Hid. now apply Hno. }
    now destruct db.
  - rewrite getCategoryById_run. simpl.
    rewrite (filter_filter_negb (fun t => Z.eqb (category_id t) categoryId)). reflexivity.
  - intros id Hne. rewrite !getCategoryById_run. simpl. f_equal.
    rewrite filter_comm. apply filter_all. intros t Ht.
    apply filter_In in Ht. destruct Ht as [_ Ht]. apply Z.eqb_eq in Ht.
    apply negb_true_iff, Z.eqb_neq. congruence.
  - intros id. rewrite !getBlogPostById_run.
    unfold posts_with_authors. simpl.
    change (innerJoin (blogPostsTable db) (usersTable db)
              (fun p u => Z.eqb (post_author_id p) (user_id u)))
      with (posts_with_authors db).
    assert (Hcats : categories_of
              (with_blogPostCategories
                 (with_categories db
                    (filter (fun t => negb (Z.eqb (category_id t) categoryId))
                            (categoriesTable db)))
                 (filter (fun r => negb (Z.eqb (bpc_category_id r) categoryId))
                         (blogPostCategoriesTable db)))
              id
            = filter (fun t => negb (Z.eqb (category_id t) categoryId)) (categories_of db id)).
    { unfold categories_of, categories_joined. simpl.
      rewrite (innerJoin_filter_both (fun r => negb (Z.eqb (bpc_category_id r) categoryId))
                                     (fun t => negb (Z.eqb (category_id t) categoryId))).
      - rewrite filter_comm.
        apply (filter_map_snd (fun t => negb (Z.eqb (category_id t) categoryId))).
      - intros l r Hon. apply Z.eqb_eq in Hon. now rewrite Hon. }
    rewrite Hcats.
    destruct (filter _ (posts_with_authors db)) as [|x l]; reflexivity.
Qed.

Lemma deleteCategory_removes_witness :
  let db2 := fst (deleteCategory 1 sample_db) in
  snd (deleteCategory 1 sample_db) = Returned true
  /\ getCategoryById 1 db2 = None
  /\ getBlogPostById 1 db2 = Some (mkBlogPostWithRelations first_post alice [] [rocq_tag])
  /\ deleteCategory 9 sample_db
     = (sample_db, Thrown (JsError "Category with id 9 not found"))
  /\ deleteCategory 2147483648 sample_db = (sample_db, Thrown (StoreError OUT_OF_RANGE)).
Proof.
  intros db2.
  destruct (deleteCategory_removes 1 sample_db) as [_ Hone].
  destruct (Hone eq_refl) as [_ [Hok [_ [Hgone [_ Hposts]]]]].
  destruct (deleteCategory_removes 9 sample_db) as [_ Hnine].
  destruct (Hnine eq_refl) as [_ [_ [Hmissing _]]].
  destruct (deleteCategory_removes 2147483648 sample_db) as [Hrange _].
  split; [apply Hok; exists news; simpl; auto|].
  split; [exact Hgone|]. split; [exact (Hposts 1)|].
  split; [|exact (Hrange eq_refl)].
  destruct Hmissing as [Hthrown Hsame].
  { intros t [<- | [<- | []]]; discriminate. }
  rewrite (surjective_pairing (deleteCategory 9 sample_db)), Hthrown, Hsame; [reflexivity|].
  intros r Hr. apply (cs_category_links sample_consistent). exact Hr.
Defined.

(** ** Users *)

Lemma getUserById_run userId db :
  getUserById userId db
  = hd_error (filter (fun u => Z.eqb (user_id u) userId) (usersTable db)).
Proof.
  unfold getUserById, rows_where, eq_. now destruct (filter _ (usersTable db)).
Qed.

(** X18.  [createUser] stores one row or nothing.  When the id handed out by
    the sequence, the email and the username are all free, it returns the new
    user: the fields of the input, the hash computed for the password, an
    empty avatar url or bio stored as null, [is_active] true and both
    timestamps the time of the call.  [getUserById] then reads that row,
    password hash included, and every other user is as before.  When the id,
    the email or the username is taken the store refuses the row: the call
    throws and the store is unchanged. *)
Theorem createUser_stores now id passwordHash input db :
  let user :=
    mkUser id (cu_email input) (cu_username input) passwordHash (cu_first_name input)
           (cu_last_name input) (cu_role input) (or_null (cu_avatar_url input))
           (or_null (cu_bio input)) true now now in
  ((forall u, In u (usersTable db) ->
              user_id u <> id /\ user_email u <> cu_email input
              /\ user_username u <> cu_username input) ->
   exists db2,
     createUser now id passwordHash input db = (db2, Returned (Some user))
     /\ db2 = with_users db (usersTable db ++ [user])
     /\ getUserById id db2 = Some user
     /\ (forall id', id' <> id -> getUserById id' db2 = getUserById id' db))
  /\ ((exists u, In u (usersTable db)
                 /\ (user_id u = id \/ user_email u = cu_email input
                     \/ user_username u = cu_username input)) ->
      exists c, createUser now id passwordHash input db = (db, Thrown (StoreError c)))
  /\ (forall db2 e, createUser now id passwordHash input db = (db2, Thrown e) -> db2 = db).
Proof.
  cbv zeta. unfold createUser. rewrite bind_run. unfold insert_user.
  cbn [nu_email nu_username nu_password_hash nu_first_name nu_last_name nu_role
       nu_avatar_url nu_bio nu_is_active].
  split; [|split].
  - intros Hfree.
    assert (E1 : existsb (fun u => Z.eqb (user_id u) id) (usersTable db) = false).
    { apply existsb_false. intros u Hu. apply Z.eqb_neq. now apply Hfree. }
    assert (E2 : existsb (fun u => String.eqb (user_email u) (cu_email input)) (usersTable db)
                 = false).
    { apply existsb_false. intros u Hu. apply String.eqb_neq. now apply Hfree. }
    assert (E3 : existsb (fun u => String.eqb (user_username u) (cu_username input))
                         (usersTable db) = false).
    { apply existsb_false. intros u Hu. apply String.eqb_neq. now apply Hfree. }
    rewrite E1, E2, E3. eexists. split; [reflexivity|]. split; [reflexivity|].
    rewrite getUserById_run. simpl. rewrite filter_snoc. simpl.
    rewrite (@filter_key_none _ user_id _ _ E1), Z.eqb_refl. simpl.
    split; [reflexivity|].
    intros id' Hne. rewrite !getUserById_run. simpl. rewrite filter_snoc. simpl.
    apply Z.eqb_neq in Hne. rewrite Z.eqb_sym, Hne. now rewrite app_nil_r.
  - intros [u [Hu Hclash]].
    destruct (existsb (fun u => Z.eqb (user_id u) id) (usersTable db)) eqn:E1; [eauto|].
    destruct (existsb (fun u => String.eqb (user_email u) (cu_email input)) (usersTable db))
      eqn:E2; [eauto|].
    destruct (existsb (fun u => String.eqb (user_username u) (cu_username input))
                      (usersTable db)) eqn:E3; [eauto|].
    exfalso. destruct Hclash as [H | [H | H]].
    + apply (@existsb_key_false _ user_id _ _ E1). rewrite <- H. now apply in_map.
    + apply (@existsb_text_false _ user_email _ _ E2). rewrite <- H. now apply in_map.
    + apply (@existsb_text_false _ user_username _ _ E3). rewrite <- H. now apply in_map.
  - intros db2 e.
    destruct (existsb (fun u => Z.eqb (user_id u) id) (usersTable db));
      [intros H; now inversion H|].
    destruct (existsb (fun u => String.eqb (user_email u) (cu_email input)) (usersTable db));
      [intros H; now inversion H|].
    destruct (existsb (fun u => String.eqb (user_username u) (cu_username input))
                      (usersTable db));
      [intros H; now inversion H|].
    discriminate.
Qed.

Lemma createUser_stores_witness :
  let input := mkCreateUserInput "dave@example.com" "dave" "secret-password" "Dave" "Doe"
                 author (Some EmptyString) None in
  let db2 := fst (createUser 5000 5 "$argon2id$hash" input sample_db) in
  getUserById 5 db2
  = Some (mkUser 5 "dave@example.com" "dave" "$argon2id$hash" "Dave" "Doe" author None None
                 true 5000 5000)
  /\ getUserById 1 db2 = Some alice
  /\ exists c,
       createUser 5000 5 "$argon2id$hash"
         (mkCreateUserInput "alice@example.com" "alice2" "secret-password" "Alice" "Doe"
            author None None) sample_db
       = (sample_db, Thrown (StoreError c)).
Proof.
  intros input db2.
  destruct (createUser_stores 5000 5 "$argon2id$hash" input sample_db) as [Hok _].
  destruct (createUser_stores 5000 5 "$argon2id$hash"
              (mkCreateUserInput "alice@example.com" "alice2" "secret-password" "Alice" "Doe"
                 author None None) sample_db) as [_ [Hclash _]].
  destruct Hok as [db2' [Hrun [_ [Hget Hothers]]]].
  { intros u [<- | [<- | [<- | [<- | []]]]]; repeat split; discriminate. }
  assert (db2' = db2) by (unfold db2; now rewrite Hrun). subst db2'.
  split; [exact Hget|]. split; [rewrite Hothers by discriminate; reflexivity|].
  apply Hclash. exists alice. simpl. auto.
Defined.

(** X19.  [updateUser] in a store whose user ids, emails and usernames are
    unique.  An id outside the range of the 32-bit id column is refused by
    the store: the call throws the store's out-of-range error and nothing is
    written.  For an id within the range: when no user has the id, it throws
    "User not found" and the store is unchanged.  When the user exists and no
    other user has the email and the username of the result, it returns the
    user with each supplied field written (a null avatar url or bio clears
    the field) and each absent field kept; the id, the password hash and
    [created_at] are never written and [updated_at] is the time of the call.
    The users table then holds that row and the other users, no other table
    is written, [getUserById] reads the new row and every other user is as
    before.  When another user has the email or the username, the store
    refuses the update and nothing is written. *)
Theorem updateUser_outcomes now input db :
  unique_users (usersTable db) ->
  let id := uu_id input in
  (int4 id = false ->
   updateUser now input db = (db, Thrown (StoreError OUT_OF_RANGE)))
  /\ (int4 id = true ->
      (getUserById id db = None ->
       updateUser now input db = (db, Thrown (JsError "User not found")))
      /\ (forall old,
             getUserById id db = Some old ->
             let new :=
               mkUser id (or_else (uu_email input) (user_email old))
                 (or_else (uu_username input) (user_username old))
                 (user_password_hash old)
                 (or_else (uu_first_name input) (user_first_name old))
                 (or_else (uu_last_name input) (user_last_name old))
                 (or_else (uu_role input) (user_role old))
                 (or_else (uu_avatar_url input) (user_avatar_url old))
                 (or_else (uu_bio input) (user_bio old))
                 (or_else (uu_is_active input) (user_is_active old))
                 (user_created_at old) now in
             ((forall u, In u (usersTable db) -> user_id u <> id ->
                         user_email u <> user_email new
                         /\ user_username u <> user_username new) ->
              exists db2,
                updateUser now input db = (db2, Returned (Some new))
                /\ db2 = with_users db (usersTable db2)
                /\ Permutation (usersTable db2)
                     (new :: filter (fun u => negb (Z.eqb (user_id u) id)) (usersTable db))
                /\ getUserById id db2 = Some new
                /\ (forall id', id' <> id -> getUserById id' db2 = getUserById id' db))
             /\ ((exists u, In u (usersTable db) /\ user_id u <> id
                            /\ (user_email u = user_email new
                                \/ user_username u = user_username new)) ->
                 exists c, updateUser now input db = (db, Thrown (StoreError c))))).
Proof.
  intros [Hids [Hemails Hnames]]. cbv zeta. unfold updateUser. cbv zeta.
  set (f := mkUserUpdate (uu_email input) (uu_username input) (uu_first_name input)
              (uu_last_name input) (uu_role input) (uu_avatar_url input) (uu_bio input)
              (uu_is_active input) (Some now)).
  rewrite bind_run. unfold update_user.
  split; [intros Ri; now rewrite Ri|].
  intros Ri. rewrite Ri. cbn [negb]. split.
  - rewrite getUserById_run. intros Hnone.
    pose proof (@hd_error_key_none _ user_id _ _ Hnone) as Hno.
    rewrite (@nothing_updated _ user_id (apply_user_update f) (uu_id input) _ Hno).
    rewrite (@NoDup_nodupb _ String.eqb String.eqb_eq _ Hemails).
    rewrite (@NoDup_nodupb _ String.eqb String.eqb_eq _ Hnames).
    cbn [negb]. rewrite with_users_same, when_bind_run.
    rewrite (@hd_error_filter_key _ user_id _ _ Hno). reflexivity.
  - intros old. rewrite getUserById_run. intros Hold.
    destruct (@hd_error_key _ user_id _ _ _ Hold) as [Hin Hid].
    assert (Hkept : forall u, user_id (apply_user_update f u) = user_id u) by reflexivity.
    set (new := mkUser (uu_id input) (or_else (uu_email input) (user_email old))
                  (or_else (uu_username input) (user_username old))
                  (user_password_hash old)
                  (or_else (uu_first_name input) (user_first_name old))
                  (or_else (uu_last_name input) (user_last_name old))
                  (or_else (uu_role input) (user_role old))
                  (or_else (uu_avatar_url input) (user_avatar_url old))
                  (or_else (uu_bio input) (user_bio old))
                  (or_else (uu_is_active input) (user_is_active old))
                  (user_created_at old) now).
    assert (Hnew : apply_user_update f old = new).
    { unfold apply_user_update, new. simpl. now rewrite Hid. }
    split.
    + intros Hfree.
      assert (Hnd1 : nodupb String.eqb
                       (map user_email
                          (map (fun u => if Z.eqb (user_id u) (uu_id input)
                                         then apply_user_update f u else u) (usersTable db)))
                     = true).
      { apply (@NoDup_nodupb _ String.eqb String.eqb_eq).
        apply (@updated_column_distinct _ user_id (apply_user_update f) (uu_id input)
                 user_email (usersTable db) Hids Hemails).
        intros r r' Hr Hr' Hk Hk'.
        assert (r = old)
          by (apply (@NoDup_map_unique _ _ user_id _ r old Hids); congruence).
        subst r. rewrite Hnew. intros E. destruct (Hfree r' Hr' Hk') as [He _].
        apply He. now symmetry. }
      assert (Hnd2 : nodupb String.eqb
                       (map user_username
                          (map (fun u => if Z.eqb (user_id u) (uu_id input)
                                         then apply_user_update f u else u) (usersTable db)))
                     = true).
      { apply (@NoDup_nodupb _ String.eqb String.eqb_eq).
        apply (@updated_column_distinct _ user_id (apply_user_update f) (uu_id input)
                 user_username (usersTable db) Hids Hnames).
        intros r r' Hr Hr' Hk Hk'.
        assert (r = old)
          by (apply (@NoDup_map_unique _ _ user_id _ r old Hids); congruence).
        subst r. rewrite Hnew. intros E. destruct (Hfree r' Hr' Hk') as [_ Hn].
        apply Hn. now symmetry. }
      rewrite Hnd1, Hnd2. cbn [negb]. eexists. rewrite when_bind_run.
      rewrite (@select_updated _ user_id (apply_user_update f) (uu_id input) Hkept).
      rewrite (@hd_error_unique _ user_id _ _ _ Hids Hold).
      cbn [map List.length Nat.eqb hd_error]. rewrite Hid, Z.eqb_refl, Hnew.
      split; [reflexivity|]. split; [reflexivity|]. split.
      { cbn [usersTable with_users]. rewrite <- Hnew, <- Hid.
        apply (@updated_rows _ user_id (apply_user_update f) (user_id old) (usersTable db)
                 old Hids Hin eq_refl). }
      rewrite !getUserById_run. cbn [usersTable with_users]. split.
      * rewrite (@first_updated _ user_id (apply_user_update f) (uu_id input) Hkept).
        rewrite Hold. cbn [option_map]. rewrite Hid, Z.eqb_refl. now rewrite Hnew.
      * intros id' Hne. rewrite !getUserById_run. cbn [usersTable with_users].
        now apply (@first_other _ user_id (apply_user_update f) (uu_id input) Hkept).
    + intros [u [Hu [Hne Hclash]]].
      destruct Hclash as [Hclash | Hclash].
      * rewrite (@updated_column_clash _ user_id (apply_user_update f) (uu_id input)
                   user_email _ old u); auto.
        cbn [negb]. eauto.
      * destruct (nodupb String.eqb (map user_email _)); cbn [negb]; [|eauto].
        rewrite (@updated_column_clash _ user_id (apply_user_update f) (uu_id input)
                   user_username _ old u); auto.
        cbn [negb]. eauto.
Qed.

Lemma sample_unique_users : unique_users (usersTable sample_db).
Proof. apply (cs_users sample_consistent). Qed.

Lemma updateUser_outcomes_witness :
  updateUser 5000 (mkUpdateUserInput 42 None None None None None None None None) sample_db
  = (sample_db, Thrown (JsError "User not found"))
  /\ (exists db2 new,
        updateUser 5000 (mkUpdateUserInput 4 None None None None None None (Some None)
                           (Some true)) sample_db
        = (db2, Returned (Some new))
        /\ user_is_active new = true
        /\ user_password_hash new = user_password_hash carol
        /\ getUserById 1 db2 = Some alice)
  /\ (exists c,
        updateUser 5000 (mkUpdateUserInput 2 (Some "alice@example.com") None None None None
                           None None None) sample_db
        = (sample_db, Thrown (StoreError c)))
  /\ updateUser 5000 (mkUpdateUserInput 2147483648 None None None None None None
                        None None) sample_db
     = (sample_db, Thrown (StoreError OUT_OF_RANGE)).
Proof.
  destruct (updateUser_outcomes 5000
              (mkUpdateUserInput 2147483648 None None None None None None None None)
              sample_db sample_unique_users) as [Hrange _].
  destruct (updateUser_outcomes 5000
              (mkUpdateUserInput 42 None None None None None None None None)
              sample_db sample_unique_users) as [_ Hmissing].
  destruct (updateUser_outcomes 5000
              (mkUpdateUserInput 4 None None None None None None (Some None) (Some true))
              sample_db sample_unique_users) as [_ Hactivate].
  destruct (updateUser_outcomes 5000
              (mkUpdateUserInput 2 (Some "alice@example.com") None None None None
                 None None None)
              sample_db sample_unique_users) as [_ Hclash].
  split; [exact (proj1 (Hmissing eq_refl) eq_refl)|]. split; [|split].
  - destruct (proj2 (Hactivate eq_refl) carol eq_refl) as [Hok _].
    destruct Hok as [db2 [Hrun [_ [_ [_ Hothers]]]]].
    { intros u [<- | [<- | [<- | [<- | []]]]]; simpl; intros H; split;
        try discriminate; now contradiction H. }
    eexists db2, _. split; [exact Hrun|]. split; [reflexivity|].
    split; [reflexivity|]. rewrite Hothers by discriminate. reflexivity.
  - destruct (proj2 (Hclash eq_refl) bob eq_refl) as [_ Hrefused]. apply Hrefused.
    exists alice. simpl. repeat split; auto. discriminate.
  - exact (Hrange eq_refl).
Defined.

(** *** Deleting a user *)

Lemma deleteUser_run userId db :
  deleteUser userId db
  = if int4 userId then
      if existsb (fun u => Z.eqb (user_id u) userId) (usersTable db)
      then (fst (delete_user userId db), Returned true)
      else (db, Thrown (JsError USER_NOT_FOUND))
    else (db, Thrown (StoreError OUT_OF_RANGE)).
Proof.
  unfold deleteUser. rewrite bind_run. unfold delete_user.
  destruct (int4 userId); cbn [negb]; [|reflexivity].
  destruct (filter (fun u => Z.eqb (user_id u) userId) (usersTable db)) as [|d ds] eqn:E.
  - rewrite existsb_false by (intros u Hu; apply (filter_nil_none _ _ u E Hu)).
    rewrite (filter_negb_all _ _ E), with_users_same. reflexivity.
  - assert (Hex : existsb (fun u => Z.eqb (user_id u) userId) (usersTable db) = true).
    { apply existsb_exists. exists d.
      assert (Hd : In d (filter (fun u => Z.eqb (user_id u) userId) (usersTable db)))
        by (rewrite E; now left).
      now apply filter_In in Hd. }
    rewrite Hex. reflexivity.
Qed.

Lemma first_of_equal {A} (q : A -> bool) (x : A) (l : list A) :
  (forall y, In y l -> y = x) ->
  hd_error (filter q (x :: l)) = if q x then Some x else None.
Proof.
  intros H. simpl. destruct (q x) eqn:E; [reflexivity|].
  rewrite filter_none; [reflexivity|]. intros y Hy. now rewrite (H y Hy).
Qed.

(** X20.  [deleteUser] with an id outside the range of the 32-bit id column
    is refused by the store: it throws the store's out-of-range error and
    nothing is written.  With an id within the range it throws "User not
    found" and leaves the store as it was when no user has the id.
    Otherwise it returns success, and with the user go the posts of that
    author and the association rows of those posts (the cascades of the
    schema); the categories and the tags stay.  Afterwards [getUserById]
    answers null for the id, and in a store that meets the constraints
    [getBlogPostById] answers null for the posts of the deleted user and as
    before for every other id. *)
Theorem deleteUser_cascades userId db :
  let gone (p : BlogPost) := Z.eqb (post_author_id p) userId in
  let gone_id (id : Z) :=
    existsb (fun p => Z.eqb (post_id p) id) (filter gone (blogPostsTable db)) in
  (int4 userId = false ->
   deleteUser userId db = (db, Thrown (StoreError OUT_OF_RANGE)))
  /\ (int4 userId = true ->
      (forall u, In u (usersTable db) -> user_id u <> userId) ->
      deleteUser userId db = (db, Thrown (JsError "User not found")))
  /\ (int4 userId = true ->
      (exists u, In u (usersTable db) /\ user_id u = userId) ->
      exists db2,
        deleteUser userId db = (db2, Returned true)
        /\ usersTable db2 = filter (fun u => negb (Z.eqb (user_id u) userId)) (usersTable db)
        /\ blogPostsTable db2 = filter (fun p => negb (gone p)) (blogPostsTable db)
        /\ blogPostCategoriesTable db2
           = filter (fun r => negb (gone_id (bpc_blog_post_id r))) (blogPostCategoriesTable db)
        /\ blogPostTagsTable db2
           = filter (fun r => negb (gone_id (bpt_blog_post_id r))) (blogPostTagsTable db)
        /\ categoriesTable db2 = categoriesTable db
        /\ tagsTable db2 = tagsTable db
        /\ getUserById userId db2 = None
        /\ (forall id, id <> userId -> getUserById id db2 = getUserById id db)
        /\ (consistent db ->
            forall id,
              getBlogPostById id db2
              = match getBlogPostById id db with
                | Some item => if gone (wr_post item) then None else Some item
                | None => None
                end)).
Proof.
  cbv zeta. rewrite deleteUser_run. split; [intros Ri; now rewrite Ri|]. split.
  - intros Ri Hno. rewrite Ri. rewrite existsb_false; [reflexivity|].
    intros u Hu. apply Z.eqb_neq. now apply Hno.
  - intros Ri Hex. rewrite Ri. apply existsb_id in Hex. rewrite Hex.
    apply existsb_exists in Hex. destruct Hex as [d [Hd Hdid]].
    assert (Hsel : filter (fun u => Z.eqb (user_id u) userId) (usersTable db) <> []).
    { intros E. rewrite (filter_nil_none _ _ d E Hd) in Hdid. discriminate. }
    unfold delete_user. rewrite Ri. cbn [negb].
    destruct (filter (fun u => Z.eqb (user_id u) userId) (usersTable db)) as [|x xs];
      [congruence|].
    eexists. split; [reflexivity|]. cbn [fst].
    do 6 (split; [reflexivity|]).
    split; [|split].
    + rewrite getUserById_run. simpl.
      rewrite (filter_filter_negb (fun u => Z.eqb (user_id u) userId)). reflexivity.
    + intros id Hne. rewrite !getUserById_run. simpl. f_equal.
      rewrite filter_comm. apply filter_all. intros u Hu.
      apply filter_In in Hu. destruct Hu as [_ Hu]. apply Z.eqb_eq in Hu.
      apply negb_true_iff, Z.eqb_neq. congruence.
    + intros Hc id. rewrite !getBlogPostById_run.
      destruct (cs_posts Hc) as [Hpids _]. destruct (cs_users Hc) as [Huids _].
      unfold posts_with_authors at 1. simpl.
      rewrite (innerJoin_filter_both
                 (fun p => negb (Z.eqb (post_author_id p) userId))
                 (fun u => negb (Z.eqb (user_id u) userId))).
      2:{ intros p u Hon. apply Z.eqb_eq in Hon. now rewrite Hon. }
      change (innerJoin (blogPostsTable db) (usersTable db)
                (fun p u => Z.eqb (post_author_id p) (user_id u)))
        with (posts_with_authors db).
      rewrite filter_comm.
      destruct (filter (fun r : BlogPost * User => Z.eqb (post_id (fst r)) id)
                       (posts_with_authors db)) as [|[p u] l] eqn:E; [reflexivity|].
      assert (Hin : forall y, In y ((p, u) :: l) ->
                              In y (posts_with_authors db) /\ post_id (fst y) = id).
      { intros y Hy. rewrite <- E in Hy. apply filter_In in Hy.
        destruct Hy as [Hy1 Hy2]. split; auto. now apply Z.eqb_eq. }
      destruct (Hin (p, u) (or_introl eq_refl)) as [Hpu Hid]. simpl in Hid.
      assert (Hall : forall y, In y l -> y = (p, u)).
      { intros [p' u'] Hy. destruct (Hin (p', u') (or_intror Hy)) as [Hy1 Hy2].
        simpl in Hy2. symmetry. apply (joined_row_unique db p u p' u'); auto. congruence. }
      pose proof (@first_of_equal _ (fun r : BlogPost * User =>
                                      negb (Z.eqb (user_id (snd r)) userId)) (p, u) l Hall)
        as Hfirst.
      apply In_posts_with_authors in Hpu. destruct Hpu as [Hp [Hu Ha]].
      cbn [fst snd wr_post] in *. rewrite <- Ha in Hfirst.
      destruct (filter _ ((p, u) :: l)) as [|y ys] eqn:E2.
      * simpl in Hfirst. destruct (Z.eqb (post_author_id p) userId); [reflexivity|].
        discriminate.
      * simpl in Hfirst. destruct (Z.eqb (post_author_id p) userId) eqn:Eg;
          [discriminate|].
        cbn [negb] in Hfirst. inversion Hfirst; subst y. cbn [fst snd].
        assert (Hkept : existsb (fun q => Z.eqb (post_id q) id)
                          (filter (fun q => Z.eqb (post_author_id q) userId)
                                  (blogPostsTable db)) = false).
        { apply existsb_false. intros q Hq. apply filter_In in Hq.
          destruct Hq as [Hq Hqa]. apply Z.eqb_neq. intros Hqid.
          assert (q = p)
            by (apply (@NoDup_map_unique _ _ post_id _ q p Hpids); congruence).
          subst q. congruence. }
        f_equal. f_equal.
        -- unfold categories_of, categories_joined. simpl. f_equal.
           rewrite <- (innerJoin_filter_left
                         (fun r => negb (existsb (fun q => Z.eqb (post_id q) (bpc_blog_post_id r))
                                           (filter (fun q => Z.eqb (post_author_id q) userId)
                                                   (blogPostsTable db))))).
           apply filter_implied. intros r _ Hr. apply Z.eqb_eq in Hr.
           cbn [fst]. rewrite Hr. now rewrite Hkept.
        -- unfold tags_of, tags_joined. simpl. f_equal.
           rewrite <- (innerJoin_filter_left
                         (fun r => negb (existsb (fun q => Z.eqb (post_id q) (bpt_blog_post_id r))
                                           (filter (fun q => Z.eqb (post_author_id q) userId)
                                                   (blogPostsTable db))))).
           apply filter_implied. intros r _ Hr. apply Z.eqb_eq in Hr.
           cbn [fst]. rewrite Hr. now rewrite Hkept.
Qed.

Lemma deleteUser_cascades_witness :
  let db2 := fst (deleteUser 1 sample_db) in
  snd (deleteUser 1 sample_db) = Returned true
  /\ getUserById 1 db2 = None
  /\ getBlogPostById 1 db2 = None
  /\ blogPostCategoriesTable db2 = []
  /\ deleteUser 9 sample_db = (sample_db, Thrown (JsError "User not found"))
  /\ deleteUser 2147483648 sample_db = (sample_db, Thrown (StoreError OUT_OF_RANGE)).
Proof.
  intros db2.
  destruct (deleteUser_cascades 1 sample_db) as [_ [_ Hok]].
  destruct (deleteUser_cascades 9 sample_db) as [_ [Hmissing _]].
  destruct (deleteUser_cascades 2147483648 sample_db) as [Hrange _].
  destruct (Hok eq_refl) as [db2' [Hrun [_ [_ [Hcats [_ [_ [_ [Hgone [_ Hposts]]]]]]]]]].
  { exists alice. simpl. auto. }
  assert (db2' = db2) by (unfold db2; now rewrite Hrun). subst db2'.
  split; [now rewrite Hrun|]. split; [exact Hgone|].
  split; [exact (Hposts sample_consistent 1)|]. split; [exact Hcats|].
  split; [|exact (Hrange eq_refl)].
  apply (Hmissing eq_refl). intros u [<- | [<- | [<- | [<- | []]]]]; discriminate.
Defined.

(** X21.  For an id within the range of the 32-bit id column (the store
    refuses any other), [getUserById] returns the stored row of the user
    with the id, and null exactly when no user has the id; the row carries
    [password_hash].  [getCurrentUser] returns the same user without that
    field and with every other field as stored, whether the account is
    active or not. *)
Theorem getCurrentUser_is_getUserById {rt : Runtime} userId db :
  int4 userId = true ->
  getUserById userId db = stored_user db userId
  /\ getCurrentUser userId db = option_map without_password (getUserById userId db)
  /\ (forall u, getUserById userId db = Some u ->
        In u (usersTable db) /\ user_id u = userId
        /\ obj_get "password_hash" (User_object u) = Some (JStr (user_password_hash u))
        /\ obj_get "password_hash" (without_password u) = None
        /\ (forall k, k <> "password_hash" ->
                      obj_get k (without_password u) = obj_get k (User_object u)))
  /\ (getUserById userId db = None <-> forall u, In u (usersTable db) -> user_id u <> userId).
Proof.
  intros _.
  rewrite getUserById_run. unfold getCurrentUser, stored_user, rows_where, eq_.
  split; [reflexivity|]. split.
  { destruct (filter _ (usersTable db)); reflexivity. }
  split.
  - intros u Hu. destruct (@hd_error_key _ user_id _ _ _ Hu) as [Hin Hid].
    split; [exact Hin|]. split; [exact Hid|]. split; [reflexivity|].
    split; [apply obj_get_rest_same|].
    intros k Hk. unfold without_password. now apply obj_get_rest_other.
  - split.
    + apply hd_error_key_none.
    + intros H. rewrite (@hd_error_filter_key _ user_id _ _ H). reflexivity.
Qed.

Lemma getCurrentUser_is_getUserById_witness :
  getUserById 4 sample_db = Some carol
  /\ obj_get "password_hash" (User_object carol)
     = Some (JStr "63934a1f2c998a0e334e96f25af29ff1db94928fdd0fa086c769b6838f6cf8fd")
  /\ option_map (obj_get "password_hash") (getCurrentUser 4 sample_db) = Some None
  /\ getUserById 9 sample_db = None.
Proof.
  destruct (getCurrentUser_is_getUserById 4 sample_db eq_refl) as [_ [Hcur [Hrow _]]].
  destruct (getCurrentUser_is_getUserById 9 sample_db eq_refl) as [_ [_ [_ Hnone]]].
  destruct (Hrow carol eq_refl) as [_ [_ [Hhash [Hnohash _]]]].
  split; [reflexivity|]. split; [exact Hhash|]. split.
  - rewrite Hcur. reflexivity.
  - apply Hnone. intros u [<- | [<- | [<- | [<- | []]]]]; discriminate.
Defined.

(** ** The AdSense upsert *)

Lemma updateAdSenseConfig_run now id input db :
  updateAdSenseConfig now id input db
  = match adSenseConfigTable db with
    | [] =>
      (with_adSenseConfig db [adsense_values now input id now],
       Returned (Some (adsense_values now input id now)))
    | first :: rest =>
      (with_adSenseConfig db
         (map (fun c => adsense_values now input (adsense_id c) (adsense_created_at c))
              (first :: rest)),
       Returned (Some (adsense_values now input (adsense_id first)
                                      (adsense_created_at first))))
    end.
Proof.
  unfold updateAdSenseConfig, getAdSenseConfig.
  destruct (adSenseConfigTable db) as [|first rest] eqn:E.
  - change (limit_offset 1 0 (rows_where None (@nil AdSenseConfig)))
      with (@nil AdSenseConfig). cbv iota.
    unfold bind, insert_adSenseConfig, ret. rewrite E. reflexivity.
  - change (limit_offset 1 0 (rows_where None (first :: rest))) with [first]. cbv iota.
    unfold bind, update_adSenseConfig, ret. rewrite E. reflexivity.
Qed.

(** X22.  [updateAdSenseConfig] never throws.  On an empty table it inserts
    one row with the id handed out by the sequence; otherwise it inserts
    nothing and, having no WHERE clause, writes the values of the input to
    every stored row, keeping each row's id and [created_at].  The row it
    returns is the one [getAdSenseConfig] reads afterwards: it carries the
    publisher id, the four slots (an absent slot is null, an empty string is
    kept) and the enabled flag of the input, and [getPublicAdSenseConfig]
    shows these slots and the flag.  No other table is written. *)
Theorem updateAdSenseConfig_upserts now id input db :
  let db2 := fst (updateAdSenseConfig now id input db) in
  (adSenseConfigTable db = [] ->
   updateAdSenseConfig now id input db
   = (with_adSenseConfig db [adsense_values now input id now],
      Returned (Some (adsense_values now input id now))))
  /\ (forall first rest,
         adSenseConfigTable db = first :: rest ->
         updateAdSenseConfig now id input db
         = (with_adSenseConfig db
              (map (fun c => adsense_values now input (adsense_id c) (adsense_created_at c))
                   (first :: rest)),
            Returned (Some (adsense_values now input (adsense_id first)
                                           (adsense_created_at first)))))
  /\ (exists row,
         snd (updateAdSenseConfig now id input db) = Returned (Some row)
         /\ getAdSenseConfig db2 = Some row
         /\ row = adsense_values now input (adsense_id row) (adsense_created_at row)
         /\ getPublicAdSenseConfig db2
            = Some [ ("ad_slot_header", nullable (uac_ad_slot_header input));
                     ("ad_slot_sidebar", nullable (uac_ad_slot_sidebar input));
                     ("ad_slot_footer", nullable (uac_ad_slot_footer input));
                     ("ad_slot_in_content", nullable (uac_ad_slot_in_content input));
                     ("is_enabled", JBool (uac_is_enabled input)) ])
  /\ List.length (adSenseConfigTable db2)
     = Nat.max 1 (List.length (adSenseConfigTable db))
  /\ db2 = with_adSenseConfig db (adSenseConfigTable db2).
Proof.
  cbv zeta. rewrite updateAdSenseConfig_run.
  destruct (adSenseConfigTable db) as [|first rest] eqn:E; cbn [fst snd].
  - split; [reflexivity|]. split; [discriminate|]. split.
    { eexists. split; [reflexivity|]. split; [reflexivity|]. split; reflexivity. }
    split; reflexivity.
  - split; [discriminate|]. split.
    { intros f r H. inversion H; subst. reflexivity. }
    split.
    { eexists. split; [reflexivity|]. split; [reflexivity|]. split; reflexivity. }
    split.
    { cbn [adSenseConfigTable with_adSenseConfig List.length map]. rewrite length_map.
      reflexivity. }
    reflexivity.
Qed.

Lemma updateAdSenseConfig_upserts_witness :
  let input := mkUpdateAdSenseConfigInput "pub-42" (Some EmptyString) None (Some "footer") None
                 false in
  updateAdSenseConfig 5000 7 input sample_db
  = (with_adSenseConfig sample_db
       [mkAdSenseConfig 7 "pub-42" (Some EmptyString) None (Some "footer") None false
                        5000 5000],
     Returned (Some (mkAdSenseConfig 7 "pub-42" (Some EmptyString) None (Some "footer") None
                                     false 5000 5000)))
  /\ snd (updateAdSenseConfig 5000 7 input sample_db_with_config)
     = Returned (Some (mkAdSenseConfig 1 "pub-42" (Some EmptyString) None (Some "footer") None
                                       false 1000 5000)).
Proof.
  intros input.
  destruct (updateAdSenseConfig_upserts 5000 7 input sample_db) as [Hinsert _].
  destruct (updateAdSenseConfig_upserts 5000 7 input sample_db_with_config)
    as [_ [Hupdate _]].
  split; [exact (Hinsert eq_refl)|].
  rewrite (Hupdate sample_config [] eq_refl). reflexivity.
Defined.

(** ** Accounts and tokens *)

Section AccountProperties.
Context {rt : Runtime}.

Lemma verifyPassword_same password : verifyPassword password (hashPassword password) = true.
Proof. unfold verifyPassword. apply String.eqb_refl. Qed.

(** X23.  A user stored by [createUserWithHashedPassword] can log in with the
    password given at creation.  When the id handed out by the sequence, the
    email and the username are free, the call returns the new user without
    [password_hash], with the role of the input or 'author' and [is_active]
    of the input or true.  Afterwards [login] with the email and that
    password returns this same user object and a token for its id, unless
    the user was created inactive, in which case it throws "Account is
    deactivated"; a password with another hash is refused with "Invalid
    email or password". *)
Theorem created_user_can_log_in clock now id userData db :
  (forall u, In u (usersTable db) ->
             user_id u <> id /\ user_email u <> ud_email userData
             /\ user_username u <> ud_username userData) ->
  let row :=
    mkUser id (ud_email userData) (ud_username userData)
           (hashPassword (ud_password userData)) (ud_first_name userData)
           (ud_last_name userData) (or_else (ud_role userData) author)
           (or_null (ud_avatar_url userData)) (or_null (ud_bio userData))
           (or_else (ud_is_active userData) true) now now in
  let db2 := with_users db (usersTable db ++ [row]) in
  createUserWithHashedPassword now id userData db = (db2, Returned (without_password row))
  /\ obj_get "password_hash" (without_password row) = None
  /\ (ud_is_active userData <> Some false ->
      login clock (mkLoginInput (ud_email userData) (ud_password userData)) db2
      = Returned (mkAuthResponse (without_password row)
                    (createToken clock id (ud_email userData)
                                 (Role_string (or_else (ud_role userData) author)))))
  /\ (ud_is_active userData = Some false ->
      forall password,
        login clock (mkLoginInput (ud_email userData) password) db2
        = Thrown (JsError ACCOUNT_DEACTIVATED))
  /\ (ud_is_active userData <> Some false ->
      forall password,
        hashPassword password <> hashPassword (ud_password userData) ->
        login clock (mkLoginInput (ud_email userData) password) db2
        = Thrown (JsError INVALID_CREDENTIALS)).
Proof.
  intros Hfree row db2.
  assert (E1 : existsb (fun u => Z.eqb (user_id u) id) (usersTable db) = false).
  { apply existsb_false. intros u Hu. apply Z.eqb_neq. now apply Hfree. }
  assert (E2 : existsb (fun u => String.eqb (user_email u) (ud_email userData))
                       (usersTable db) = false).
  { apply existsb_false. intros u Hu. apply String.eqb_neq. now apply Hfree. }
  assert (E3 : existsb (fun u => String.eqb (user_username u) (ud_username userData))
                       (usersTable db) = false).
  { apply existsb_false. intros u Hu. apply String.eqb_neq. now apply Hfree. }
  assert (Hfound : user_by_email db2 (ud_email userData) = Some row).
  { unfold user_by_email, db2, rows_where. cbn [usersTable with_users].
    rewrite filter_snoc. rewrite (@filter_text_none _ user_email _ _ E2).
    cbn [user_email row]. unfold row at 1. cbn [user_email].
    now rewrite String.eqb_refl. }
  split; [|split; [|split; [|split]]].
  - unfold createUserWithHashedPassword. cbv zeta. rewrite bind_run.
    unfold insert_user.
    cbn [nu_email nu_username nu_password_hash nu_first_name nu_last_name nu_role
         nu_avatar_url nu_bio nu_is_active].
    rewrite E1, E2, E3. reflexivity.
  - apply obj_get_rest_same.
  - intros Hactive. rewrite login_run. cbn [li_email li_password]. rewrite Hfound.
    assert (Ha : user_is_active row = true).
    { unfold row. cbn [user_is_active]. destruct (ud_is_active userData) as [[|]|];
        cbn [or_else]; congruence. }
    rewrite Ha. cbn [negb]. unfold row at 1. cbn [user_password_hash].
    rewrite verifyPassword_same. reflexivity.
  - intros Hinactive password. rewrite login_run. cbn [li_email li_password].
    rewrite Hfound. unfold row. cbn [user_is_active]. rewrite Hinactive. reflexivity.
  - intros Hactive password Hne. rewrite login_run. cbn [li_email li_password].
    rewrite Hfound.
    assert (Ha : user_is_active row = true).
    { unfold row. cbn [user_is_active]. destruct (ud_is_active userData) as [[|]|];
        cbn [or_else]; congruence. }
    rewrite Ha. cbn [negb]. unfold row at 1. cbn [user_password_hash].
    unfold verifyPassword. apply String.eqb_neq in Hne. now rewrite Hne.
Qed.

Lemma createToken_parts issued userId email role :
  let h := strip_equals (btoa (JSON_stringify
                                 (JObj [("alg", JStr "HS256"); ("typ", JStr "JWT")]))) in
  let p := strip_equals (btoa (JSON_stringify (issued_claims issued userId email role))) in
  split dot (createToken issued userId email role) = [h; p; sign h p].
Proof.
  intros h p. unfold createToken. cbv zeta.
  change (split dot (h ++ String dot (p ++ String dot (sign h p))) = [h; p; sign h p]).
  apply three_parts; first [apply strip_btoa_dot_free | apply sign_dot_free].
Qed.

Lemma issued_token_accepted issued clock userId email role :
  reads_back (issued_claims issued userId email role) ->
  clock / 1000 <= issued / 1000 + 86400 ->
  verifyTokenSignature clock (createToken issued userId email role)
  = Some (decoded_claims userId email role).
Proof.
  intros [Ha Hj] Hle. unfold verifyTokenSignature.
  rewrite createToken_parts. cbv zeta. rewrite String.eqb_refl. cbn [negb].
  rewrite Ha, Hj.
  change (get_property (issued_claims issued userId email role) "exp")
    with (Some (Some (JNum (issued / 1000 + JWT_EXPIRES_IN_HOURS * 60 * 60)))).
  change (get_property (issued_claims issued userId email role) "userId")
    with (Some (Some (JNum userId))).
  change (get_property (issued_claims issued userId email role) "email")
    with (Some (Some (JStr email))).
  change (get_property (issued_claims issued userId email role) "role")
    with (Some (Some (JStr role))).
  cbn [truthy less_than]. change (JWT_EXPIRES_IN_HOURS * 60 * 60) with 86400.
  assert (E : (issued / 1000 + 86400 <? clock / 1000) = false) by (apply Z.ltb_ge; lia).
  rewrite E, andb_false_r. reflexivity.
Qed.

Lemma issued_token_expired issued clock userId email role :
  reads_back (issued_claims issued userId email role) ->
  issued / 1000 + 86400 < clock / 1000 ->
  issued / 1000 + 86400 <> 0 ->
  verifyTokenSignature clock (createToken issued userId email role) = None.
Proof.
  intros [Ha Hj] Hlt Hnz.
  apply (@expired rt clock _ _ _ _ _ _ (issued / 1000 + 86400)
                  (createToken_parts issued userId email role) Ha Hj); auto.
Qed.

(** X24.  The lifetime of a token, on a runtime that reads back the claims it
    writes.  A token issued at the clock reading [issued] carries the expiry
    [issued / 1000 + 86400] in seconds.  Up to and including that second
    [verifyTokenSignature] accepts it and returns the user id, the email and
    the role it was issued for, and [verifyToken] returns the stored user
    with that id when the user is active; after that second (the expiry not
    being 0) the token is refused. *)
Theorem issued_token_lifetime issued clock userId email role :
  reads_back (issued_claims issued userId email role) ->
  let token := createToken issued userId email role in
  let expiry := issued / 1000 + 86400 in
  (clock / 1000 <= expiry ->
   verifyTokenSignature clock token = Some (decoded_claims userId email role)
   /\ forall db,
        verifyToken clock token db
        = match stored_user db userId with
          | Some user => if user_is_active user then Some (without_password user) else None
          | None => None
          end)
  /\ (expiry < clock / 1000 -> expiry <> 0 ->
      verifyTokenSignature clock token = None
      /\ forall db, verifyToken clock token db = None).
Proof.
  intros Hrb token expiry. split.
  - intros Hle.
    pose proof (@issued_token_accepted issued clock userId email role Hrb Hle) as Hacc.
    split; [exact Hacc|]. intros db. rewrite verifyToken_run. unfold token.
    rewrite Hacc. reflexivity.
  - intros Hlt Hnz.
    pose proof (@issued_token_expired issued clock userId email role Hrb Hlt Hnz) as Hexp.
    split; [exact Hexp|]. intros db. rewrite verifyToken_run. unfold token.
    now rewrite Hexp.
Qed.

(** X25.  A token returned by [login] is accepted by [verifyToken] for the
    next 24 hours, and yields the very user object [login] returned, in a
    store with unique user ids that has not changed, on a runtime that reads
    back the claims it writes. *)
Theorem login_token_is_accepted clock later input db response :
  NoDup (map user_id (usersTable db)) ->
  (forall u, In u (usersTable db) ->
             reads_back (issued_claims clock (user_id u) (user_email u)
                                       (Role_string (user_role u)))) ->
  login clock input db = Returned response ->
  later / 1000 <= clock / 1000 + 86400 ->
  verifyToken later (auth_token response) db = Some (auth_user response).
Proof.
  intros Hids Hrb Hlogin Hle. rewrite login_run in Hlogin.
  destruct (user_by_email db (li_email input)) as [u|] eqn:Hu; [|discriminate].
  destruct (user_is_active u) eqn:Hactive; cbn [negb] in Hlogin; [|discriminate].
  destruct (verifyPassword (li_password input) (user_password_hash u));
    cbn [negb] in Hlogin; [|discriminate].
  inversion Hlogin; subst response; clear Hlogin. cbn [auth_token auth_user].
  assert (Hin : In u (usersTable db)).
  { unfold user_by_email, rows_where in Hu. apply hd_error_In in Hu.
    now apply filter_In in Hu. }
  rewrite verifyToken_run.
  rewrite (@issued_token_accepted clock later (user_id u) (user_email u)
             (Role_string (user_role u)) (Hrb u Hin) Hle).
  cbn [decoded_claims d_userId id_parameter].
  rewrite (stored_user_unique db u Hids Hin), Hactive. reflexivity.
Qed.
End AccountProperties.

(** X26.  The signature of a token is the base64 text of
    [header.payload.secret] without its padding, an injective encoding: two
    secrets that sign the same header and payload with the same signature are
    the same secret.  The signature of any one token determines
    [JWT_SECRET]. *)
Theorem signature_encodes_secret (rt1 rt2 : Runtime) h p :
  @sign rt1 h p = @sign rt2 h p -> @JWT_SECRET rt1 = @JWT_SECRET rt2.
Proof.
  unfold sign. intros E. apply strip_btoa_inj in E.
  apply app_inj_length in E; [|reflexivity]. destruct E as [_ E].
  apply app_inj_length in E; [|reflexivity]. destruct E as [_ E].
  apply app_inj_length in E; [|reflexivity]. destruct E as [_ E].
  apply app_inj_length in E; [|reflexivity]. tauto.
Qed.

Lemma created_user_can_log_in_witness :
  let userData := mkUserData "dave@example.com" "dave" "opensesame" "Dave" "Doe"
                             None None None None in
  let row := mkUser 5 "dave@example.com" "dave" (hashPassword "opensesame") "Dave" "Doe"
                    author None None true 5000 5000 in
  let db2 := with_users sample_db [alice; bob; root; carol; row] in
  createUserWithHashedPassword 5000 5 userData sample_db
  = (db2, Returned (without_password row))
  /\ login 6000 (mkLoginInput "dave@example.com" "opensesame") db2
     = Returned (mkAuthResponse (without_password row)
                   (createToken 6000 5 "dave@example.com" "author")).
Proof.
  intros userData row db2.
  destruct (@created_user_can_log_in sample_runtime 6000 5000 5 userData sample_db)
    as [Hcreate [_ [Hlogin _]]].
  - intros u [<- | [<- | [<- | [<- | []]]]]; repeat split; discriminate.
  - split; [exact Hcreate|]. apply Hlogin. discriminate.
Defined.

Lemma sample_reads_back u :
  In u (usersTable sample_db) ->
  reads_back (issued_claims 1700000000000 (user_id u) (user_email u)
                            (Role_string (user_role u))).
Proof.
  intros [<- | [<- | [<- | [<- | []]]]]; split; vm_compute; reflexivity.
Qed.

Lemma issued_token_lifetime_witness :
  let token := createToken 1700000000000 1 "alice@example.com" "author" in
  verifyToken 1700086400999 token sample_db = Some (without_password alice)
  /\ verifyToken 1700086401000 token sample_db = None.
Proof.
  intros token.
  destruct (@issued_token_lifetime sample_runtime 1700000000000 1700086400999 1
              "alice@example.com" "author") as [Hfresh _].
  { split; vm_compute; reflexivity. }
  destruct (@issued_token_lifetime sample_runtime 1700000000000 1700086401000 1
              "alice@example.com" "author") as [_ Hstale].
  { split; vm_compute; reflexivity. }
  split.
  - destruct Hfresh as [_ Hfresh]; [vm_compute; discriminate|].
    unfold token. rewrite Hfresh. reflexivity.
  - destruct Hstale as [_ Hstale]; [reflexivity | discriminate |].
    apply Hstale.
Defined.

Lemma login_token_is_accepted_witness :
  exists response,
    login 1700000000000 (mkLoginInput "alice@example.com" "testpassword123") sample_db
    = Returned response
    /\ verifyToken 1700086400999 (auth_token response) sample_db
       = Some (auth_user response).
Proof.
  exists (mkAuthResponse (without_password alice)
            (createToken 1700000000000 1 "alice@example.com" "author")).
  assert (Hlogin : login 1700000000000
                     (mkLoginInput "alice@example.com" "testpassword123") sample_db
                   = Returned (mkAuthResponse (without_password alice)
                                 (createToken 1700000000000 1 "alice@example.com"
                                              "author"))).
  { rewrite login_run. vm_compute. reflexivity. }
  split; [exact Hlogin|].
  apply (@login_token_is_accepted sample_runtime 1700000000000 1700086400999 _ sample_db _
           sample_user_ids sample_reads_back Hlogin).
  vm_compute. discriminate.
Defined.

Lemma signature_encodes_secret_witness :
  @sign sample_runtime "aGVhZGVy" "cGF5bG9hZA" = @sign sample_runtime "aGVhZGVy" "cGF5bG9hZA"
  /\ @JWT_SECRET sample_runtime = @JWT_SECRET sample_runtime.
Proof.
  split; [reflexivity|].
  exact (@signature_encodes_secret sample_runtime sample_runtime "aGVhZGVy" "cGF5bG9hZA"
           eq_refl).
Defined.

(** ** The constraints after a write *)

(** X27.  The three writing post handlers keep the constraints of the schema,
    whether they return or throw, although they write in several statements
    without a transaction: in the store they leave, post ids and slugs are
    unique and no id exceeds the sequence, every post has a stored author,
    and every row of the two join tables is unique and refers to a stored
    post and to a stored category or tag. *)
Theorem post_writes_keep_constraints db :
  consistent db ->
  (forall now input authorId, consistent (fst (createBlogPost now input authorId db)))
  /\ (forall now input uid role, consistent (fst (updateBlogPost now input uid role db)))
  /\ (forall postId uid role, consistent (fst (deleteBlogPost postId uid role db))).
Proof.
  intros H. split; [|split]; intros.
  - now apply preserves_createBlogPost.
  - now apply preserves_updateBlogPost.
  - now apply preserves_deleteBlogPost.
Qed.

Lemma post_writes_keep_constraints_witness :
  consistent (fst (createBlogPost 5000 (sample_create [1; 2] (Some [2]) published) 1
                                  sample_db))
  /\ consistent (fst (updateBlogPost 5000 (sample_update 1 None (Some [2]) (Some [7]))
                                     1 "author" sample_db))
  /\ consistent (fst (deleteBlogPost 1 3 "super_admin" sample_db)).
Proof.
  destruct (post_writes_keep_constraints sample_consistent) as [Hc [Hu Hd]].
  split; [apply Hc|]. split; [apply Hu | apply Hd].
Defined.

(** X28.  Creating, updating and deleting tags and categories keep the
    constraints of the schema, whether the handler returns or throws: ids and
    slugs stay unique, and no row of a join table is left pointing at a
    deleted tag or category. *)
Theorem taxonomy_writes_keep_constraints db :
  consistent db ->
  (forall now id input, consistent (fst (createTag now id input db)))
  /\ (forall now input, consistent (fst (updateTag now input db)))
  /\ (forall tagId, consistent (fst (deleteTag tagId db)))
  /\ (forall now id input, consistent (fst (createCategory now id input db)))
  /\ (forall now input, consistent (fst (updateCategory now input db)))
  /\ (forall categoryId, consistent (fst (deleteCategory categoryId db))).
Proof.
  intros H. split; [|split; [|split; [|split; [|split]]]]; intros.
  - now apply preserves_createTag.
  - now apply preserves_updateTag.
  - now apply preserves_deleteTag.
  - now apply preserves_createCategory.
  - now apply preserves_updateCategory.
  - now apply preserves_deleteCategory.
Qed.

Lemma taxonomy_writes_keep_constraints_witness :
  consistent (fst (deleteTag 2 sample_db))
  /\ consistent (fst (deleteCategory 1 sample_db))
  /\ consistent (fst (updateTag 5000 (mkUpdateTagInput 1 None (Some "web")) sample_db)).
Proof.
  destruct (taxonomy_writes_keep_constraints sample_consistent)
    as [_ [Hut [Hdt [_ [_ Hdc]]]]].
  split; [apply Hdt|]. split; [apply Hdc | apply Hut].
Defined.

(** X29.  Creating, updating and deleting users, the account helper of the
    authentication module and the AdSense upsert keep the constraints of the
    schema, whether the handler returns or throws: user ids, emails and
    usernames stay unique, and deleting a user leaves no post without a
    stored author and no join row without a stored post. *)
Theorem account_writes_keep_constraints {rt : Runtime} db :
  consistent db ->
  (forall now id passwordHash input,
      consistent (fst (createUser now id passwordHash input db)))
  /\ (forall now input, consistent (fst (updateUser now input db)))
  /\ (forall userId, consistent (fst (deleteUser userId db)))
  /\ (forall now id userData,
         consistent (fst (createUserWithHashedPassword now id userData db)))
  /\ (forall now id input, consistent (fst (updateAdSenseConfig now id input db))).
Proof.
  intros H. split; [|split; [|split; [|split]]]; intros.
  - now apply preserves_createUser.
  - now apply preserves_updateUser.
  - now apply preserves_deleteUser.
  - now apply preserves_createUserWithHashedPassword.
  - now apply preserves_updateAdSenseConfig.
Qed.

Lemma account_writes_keep_constraints_witness :
  consistent (fst (deleteUser 1 sample_db))
  /\ consistent
       (fst (updateUser 5000
               (mkUpdateUserInput 2 (Some "alice@example.com") None None None None None
                                  None None)
               sample_db)).
Proof.
  destruct (@account_writes_keep_constraints sample_runtime sample_db sample_consistent)
    as [_ [Hu [Hd _]]].
  split; [apply Hd | apply Hu].
Defined.
